(* ===== verification/_CoqProject ===== *)
-Q . S2P
Prelude.v
Outcome.v
Codec.v
Uapi.v
GoStd.v
GoText.v
Sid.v
WireEvent.v
WellKnown.v
Condition.v
Claims.v
Ace.v
Acl.v
Descriptor.v
Inherit.v
SddlTables.v
SddlDecompile.v
SddlCondition.v
SddlParse.v
SddlFormat.v
SddlRoundTrip.v
SddlSound.v
Compose.v
Msgpack.v
AuditContext.v
Kernel.v
RegValue.v
RegWire.v
RegKey.v
RegReads.v
RegCas.v
RegTxn.v
LayerStore.v
Ring.v
RingRead.v
Policy.v
PolicyLife.v
RegFrame.v
Kacs.v
SdCalls.v
Token.v
Files.v
MountUpdate.v
KacsCalls.v
Vet.v
Names.v
