(* ===== verification/Prelude.v ===== *)
(** * libp-go: a verification library

    libp-go is the Go library through which programs of the Peios system reach its
    kernel: security descriptors and the identities in them (wire/, sd/, sddl/),
    access tokens (token/), files (files/), the registry (registry/,
    registry/layers/) and the kernel's event rings (event/).  This library models
    those packages, operation by operation, and proves what makes them correct.

    ** How the program is put together

    At the bottom are codecs: pure functions between Go values and the byte layouts
    the kernel reads and writes.  A SID is inside an ACE, an ACE inside an ACL, an
    ACL inside a security descriptor; a condition is inside a callback ACE, a claim
    inside a resource-attribute ACE or an access check.  Beside the binary form there
    is a text form, SDDL.  Above them are the packages that make system calls: each
    call is retried on EINTR by internal/sys and its errno becomes an error.  The
    registry is used by the event package, whose emission policy is a cached and
    watched view of a tree of registry keys; the event rings are shared memory that
    the kernel writes while the library reads.

    ** The model

    - A Go function without side effects is a function into [outcome] (Outcome.v): a
      value, an error value, or a panic, so a slice or an index out of range is a
      result of the model, and "does not panic" a theorem.  Error values keep the
      sentinel errors, errnos and the chain of wrapped errors; the arguments of their
      messages are left out.
    - Buffers are lists of bytes, integers are [Z] with the wrap-around written where
      the code converts or computes at a width ([wrap], [fits]); a nil slice is told
      from an empty one only where the code does.
    - The numbers of the kernel ABI are not part of the repository.  They are the
      parameter [Uapi] of every definition that uses one, with the facts the code
      relies on as classes of laws (Uapi.v); [pkm] is an instance that satisfies them.
    - A function that makes system calls is a computation in the monad [M] of
      Kernel.v, over any kernel: a function from a request and a state to an answer,
      an errno and the next state.  The trace of requests is part of the world, so
      "reaches the kernel once", "is always closed" and "is never unlocked while it
      impersonates" are statements about traces.  What a theorem needs of the kernel
      is a contract stated in its hypotheses ([serves_value], [serves_read],
      [LayerKeys], [Producer], [Sleeper], [Descriptors], ...) and discharged on a
      concrete kernel by its witness.  [total] is total correctness under such a
      contract; [emits] bounds the requests a computation can make under none.

    ** Files

    - Prelude, Outcome, Codec, GoStd, GoText: bytes and integers; errors, panics and
      slices; the contract of a self-delimiting codec with the list loops proved
      against it; what the code takes from strings, strconv, encoding/hex, unicode.
    - Uapi: the ABI as a parameter, its laws, the sample instance.
    - Sid (wire/sid.go), WireEvent (wire/event.go), WellKnown (sd/wellknown.go).
    - Condition (sd/condition.go), Claims (sd/claims.go, sd/objecttree.go), Ace
      (sd/ace.go), Acl (sd/acl.go), Descriptor (sd/descriptor.go), Inherit
      (sd/inherit.go): the binary forms and inheritance.  [Codec] instances connect
      Sid to Ace to Acl.
    - SddlTables (sddl/tables.go, sddl/guid.go), SddlDecompile (sddl/decompile.go),
      SddlCondition (sddl/condition.go), SddlParse (sddl/parse.go), SddlFormat
      (sddl/format.go), SddlRoundTrip and SddlSound (both about sddl/sddl.go); Compose
      puts the text and the binary form of a descriptor together.
    - Msgpack and AuditContext (sd/auditcontext.go).
    - Kernel (internal/sys/sys.go): requests, retries, traces, total correctness,
      bounds on effects, the shape of two-pass reads.
    - RegValue (registry/value.go), RegWire (the packed buffers of registry/read.go
      and registry/watch.go), RegKey (registry/registry.go, create.go, read.go,
      write.go, watch.go), RegReads (every two-pass read of registry/read.go against one
      contract), RegCas (conditional writes among concurrent writers), RegTxn
      (registry/transaction.go, registry/layers), LayerStore (registry/layers against
      its specification, a finite map of layers) and RegFrame (what each operation of
      the registry and of the event policy can touch).
    - Ring (event/ring.go, event/event.go) with RingRead (the blocking reads of
      event/ring.go, over a consumer that can sleep), and Policy (event/policy.go,
      event/emit.go) with PolicyLife (a policy as a state machine over its
      operations).
    - Kacs (the requests of the access-control packages and their sized reads),
      SdCalls (sd/getset.go, sd/accesscheck.go, sd/caap.go), Token (token/), Files
      (files/), MountUpdate (files/mount.go among concurrent changes) and KacsCalls (the
      single requests of these packages, decoded as the kernel reads them).
    - Vet (cmd/libp-vet), the analyzer of the surface that programs must not use, and
      Names, the constants of the packages and the texts that name them.

    ** What is shown

    - Codecs: what is well formed survives encoding and decoding, in order and with
      nothing lost; decoding arbitrary bytes never panics, and what it accepts is well
      formed and encodes again.  The one exception, an ACE of a raw type with an
      empty body, is part of the statements ([Ace.hollow]).
    - Inheritance: a closed form over any number of generations; re-inheriting and
      stripping replace exactly the inherited ACEs and are idempotent.
    - SDDL: [Parse] reads back what [Format] writes for every descriptor that has a
      text form; on any text it ends with a positioned syntax error or a descriptor
      the binary codec takes; conditions compile to their bytecode and bytecode
      decompiles to its text; rights fields are decided as a grammar.  The text and the
      binary codecs agree on the descriptors both can carry.
    - Audit contexts: the validator decides the documented grammar and the encoder
      produces exactly what it accepts.
    - Access control calls: a check is refused before the kernel or asks exactly the
      question it was given, and an error never reads as a decision; an impersonation
      always ends and never escapes its function; sized reads return what the object
      held at the last request; no file handle is lost; every other operation is one
      request that decodes to what the caller stated; a mount policy that is read,
      changed and set replaces exactly the policy that was read.
    - Registry: values round trip, packed buffers are read entirely, the two-pass reads
      (a value, all values, a key's information, its security) return what the kernel
      served last or an error after four attempts, enumeration is complete,
      transactions are closed on every path, a layer appears only with its settings, and
      layer management as a whole refines operations on a map of layers, the base layer
      being out of its reach.  A conditional write loses no update of its layer.  For any
      kernel, writes stay within their key, layer and transaction, reads write nothing,
      and a transaction that keeps to its views changes nothing outside it.
    - Events: draining a ring gives untorn events of the log in order and counts the
      rest as lost; a blocking read returns an owned copy of the next event or the
      reason it stopped; attaching leaks nothing; a decision of a policy whose root is watched
      is the one the registry holds when it is made, and in every state a policy can reach it holds at
      most one handle, a bounded cache, and nothing once closed; the emitters refuse
      exactly what the ABI cannot carry and send what is on.  Two races are shown on concrete runs: a copy that the producer overwrites
      while it is made, and a wake-up that falls before the futex counter is loaded
      ([torn_copy] and [wake_up_missed] in RingRead.v).

    ** Fuel

    A loop of the source that is not structural runs on fuel.  Where the input bounds
    it the fuel is computed from the input (the length of the text or the buffer, plus
    one) and running out is a panic, so the theorems that exclude panics also show the
    fuel to be enough (the SDDL parsers, the decompiler, the registry buffers); the
    MessagePack loops give [None] instead, and are shown never to.  Where only the
    kernel bounds it the fuel is an argument, running out is "still running", and the
    theorem gives an amount that is enough from what the contract says of the kernel:
    the number of subkeys, the processors, the progress of the producer.  [Retry] runs
    on the kernel's patience; [Settles] says that no request is interrupted for ever.

    ** Not modelled

    The traversal of golang.org/x/tools under cmd/libp-vet, and go/ast and go/types
    beneath it; the argument registers and pinning of a system call beyond the request
    it makes; the generated ABI; the debug rendering [Value.String] of registry values
    and the arguments of error messages; exhaustion of memory.  The mutex of the event
    policy is modelled as the atomicity of its operations. *)

From Stdlib Require Export ZArith Lia.
From Stdlib Require Export Strings.Byte.

From stdpp Require Export prelude gmap strings.
Export ListNotations.
#[global] Open Scope Z_scope.

(** ** Bytes *)

(** A byte is the Standard Library's 256-constructor type, so a buffer of type
    [list byte] needs no side condition on its elements. *)
Abbreviation byte := Byte.byte (only parsing).
Abbreviation bytes := (list Byte.byte) (only parsing).

(** [bytes] resolves the bounds of bytes, lengths and bit operations; [zlen] rewrites
    lengths; [outcome] (used from Outcome.v on) rewrites binds. *)
Create HintDb bytes.
Create Rewrite HintDb zlen.
Create Rewrite HintDb outcome.

#[export] Instance byte_eq_dec : EqDecision byte := Byte.byte_eq_dec.
#[export] Instance byte_inhabited : Inhabited byte := populate x00.
#[export] Program Instance byte_countable : Countable byte :=
  inj_countable Byte.to_N Byte.of_N _.
Next Obligation. intros b. apply Byte.of_to_N. Qed.

(** The conversions [int(b)] and [byte(z)]: the second one truncates. *)
Definition b2z (b : byte) : Z := Z.of_N (Byte.to_N b).
Definition z2b (z : Z) : byte := default x00 (Byte.of_N (Z.to_N (z mod 256))).

(** A Go string literal is its bytes. *)
Definition str (s : string) : bytes := String.list_byte_of_string s.

(** ** Integers at their width *)

Definition wrap (w z : Z) : Z := z mod 2 ^ w.
Definition fits (w z : Z) : Prop := 0 <= z < 2 ^ w.
#[export] Instance fits_dec w z : Decision (fits w z).
Proof. unfold fits. apply _. Defined.

(** Go's [f &^ m] on unsigned integers. *)
Definition bic (f m : Z) : Z := Z.ldiff f m.

(** [f & m != 0] *)
Definition has_bit (f m : Z) : bool := negb (Z.land f m =? 0).

(** A mask that is one bit. *)
Definition is_bit (x : Z) : bool := (0 <? x) && (x =? 2 ^ Z.log2 x).
(** The union of masks. *)
Definition lor_all (l : list Z) : Z := foldr Z.lor 0 l.

(** ** Lists indexed by Z *)

Definition zlen {A} (l : list A) : Z := Z.of_nat (length l).
Definition zseg {A} (lo hi : Z) (l : list A) : list A :=
  take (Z.to_nat (hi - lo)) (drop (Z.to_nat lo) l).

(** ** Little- and big-endian words *)

Fixpoint le_enc (n : nat) (z : Z) : bytes :=
  match n with
  | O => []
  | S n => z2b z :: le_enc n (z / 256)
  end.
Fixpoint le_dec (b : bytes) : Z :=
  match b with
  | [] => 0
  | x :: b => b2z x + 256 * le_dec b
  end.
Definition be_enc (n : nat) (z : Z) : bytes := rev (le_enc n z).
Definition be_dec (b : bytes) : Z := le_dec (rev b).

(** ** Bytes: lemmas *)

Lemma b2z_bound b : 0 <= b2z b < 256.
Proof. unfold b2z. pose proof (Byte.to_N_bounded b). lia. Qed.

Lemma z2b_b2z b : z2b (b2z b) = b.
Proof.
  unfold z2b. rewrite Z.mod_small by apply b2z_bound.
  unfold b2z. by rewrite N2Z.id, Byte.of_to_N.
Qed.

Lemma b2z_z2b z : b2z (z2b z) = z mod 256.
Proof.
  unfold z2b, b2z. pose proof (Z.mod_pos_bound z 256 ltac:(lia)).
  destruct (Byte.of_N (Z.to_N (z mod 256))) as [b|] eqn:E; simpl.
  - apply Byte.to_of_N in E. lia.
  - apply Byte.of_N_None_iff in E. lia.
Qed.

Lemma b2z_z2b_small z : 0 <= z < 256 -> b2z (z2b z) = z.
Proof. intros. rewrite b2z_z2b. by apply Z.mod_small. Qed.

Lemma b2z_inj b1 b2 : b2z b1 = b2z b2 -> b1 = b2.
Proof. intros E. by rewrite <- (z2b_b2z b1), E, z2b_b2z. Qed.

Lemma z2b_mod z : z2b (z mod 256) = z2b z.
Proof. apply b2z_inj. rewrite !b2z_z2b. by rewrite Z.mod_mod. Qed.

Lemma z2b_inj_small x y : 0 <= x < 256 -> 0 <= y < 256 -> z2b x = z2b y -> x = y.
Proof. intros Hx Hy E. by rewrite <- (b2z_z2b_small x), E, b2z_z2b_small. Qed.

#[export] Hint Resolve b2z_bound : bytes.

(** ** Lengths and segments: lemmas *)

Section zlist.
Context {A : Type}.
Implicit Types l k p m s : list A.

Lemma zlen_nonneg l : 0 <= zlen l.
Proof. unfold zlen. lia. Qed.
Lemma zlen_nil : zlen (@nil A) = 0.
Proof. done. Qed.
Lemma zlen_cons x l : zlen (x :: l) = 1 + zlen l.
Proof. unfold zlen. simpl. lia. Qed.
Lemma zlen_app l k : zlen (l ++ k) = zlen l + zlen k.
Proof. unfold zlen. rewrite length_app. lia. Qed.
Lemma zlen_take n l : zlen (take n l) = Z.min (Z.of_nat n) (zlen l).
Proof. unfold zlen. rewrite length_take. lia. Qed.
Lemma zlen_drop n l : zlen (drop n l) = Z.max 0 (zlen l - Z.of_nat n).
Proof. unfold zlen. rewrite length_drop. lia. Qed.
Lemma zlen_replicate n (x : A) : zlen (replicate n x) = Z.of_nat n.
Proof. unfold zlen. by rewrite length_replicate. Qed.
Lemma zlen_0_inv l : zlen l = 0 -> l = [].
Proof. unfold zlen. destruct l; simpl; [done|lia]. Qed.

Lemma zlen_zseg lo hi l : 0 <= lo <= hi -> hi <= zlen l -> zlen (zseg lo hi l) = hi - lo.
Proof. intros. unfold zseg. rewrite zlen_take, zlen_drop. lia. Qed.

Lemma zseg_app_mid p m s lo hi :
  lo = zlen p -> hi = zlen p + zlen m -> zseg lo hi (p ++ m ++ s) = m.
Proof.
  intros -> ->. unfold zseg, zlen.
  rewrite drop_app_length' by lia. by rewrite take_app_length' by lia.
Qed.

Lemma zseg_is l p m s lo hi :
  l = p ++ m ++ s -> lo = zlen p -> hi = zlen p + zlen m -> zseg lo hi l = m.
Proof. intros ->. apply zseg_app_mid. Qed.

Lemma zseg_app_l p s hi : hi = zlen p -> zseg 0 hi (p ++ s) = p.
Proof. intros. by apply (zseg_app_mid [] p s). Qed.

Lemma zseg_all l : zseg 0 (zlen l) l = l.
Proof. rewrite <- (app_nil_r l) at 2. by apply zseg_app_l. Qed.

Lemma zseg_split lo hi l : 0 <= lo <= hi -> hi <= zlen l ->
  exists p s, l = p ++ zseg lo hi l ++ s /\ zlen p = lo /\ zlen s = zlen l - hi.
Proof.
  intros. exists (take (Z.to_nat lo) l), (drop (Z.to_nat (hi - lo)) (drop (Z.to_nat lo) l)).
  split_and!.
  - unfold zseg. by rewrite !take_drop.
  - rewrite zlen_take. lia.
  - rewrite !zlen_drop. lia.
Qed.
End zlist.

#[export] Hint Resolve zlen_nonneg : bytes.
#[export] Hint Rewrite @zlen_nil @zlen_cons @zlen_app @zlen_take @zlen_drop @zlen_replicate : zlen.

(** ** Endian words: lemmas *)

Lemma length_le_enc n z : length (le_enc n z) = n.
Proof. revert z. induction n; intros; simpl; auto. Qed.
Lemma zlen_le_enc n z : zlen (le_enc n z) = Z.of_nat n.
Proof. unfold zlen. by rewrite length_le_enc. Qed.
Lemma zlen_be_enc n z : zlen (be_enc n z) = Z.of_nat n.
Proof. unfold be_enc, zlen. by rewrite length_rev, length_le_enc. Qed.
#[export] Hint Rewrite zlen_le_enc zlen_be_enc : zlen.

Lemma pow256_succ n : 256 ^ Z.of_nat (S n) = 256 * 256 ^ Z.of_nat n.
Proof. rewrite Nat2Z.inj_succ, Z.pow_succ_r; lia. Qed.

Lemma le_dec_enc n z : le_dec (le_enc n z) = z mod 256 ^ Z.of_nat n.
Proof.
  revert z. induction n as [|n IH]; intros z; cbn [le_enc le_dec].
  - by rewrite Z.mod_1_r.
  - rewrite IH, b2z_z2b, pow256_succ.
    rewrite Z.rem_mul_r by (try apply Z.pow_nonzero; lia). lia.
Qed.

Lemma le_dec_enc_small n z : 0 <= z < 256 ^ Z.of_nat n -> le_dec (le_enc n z) = z.
Proof. intros. rewrite le_dec_enc. by apply Z.mod_small. Qed.

Lemma le_dec_bound b : 0 <= le_dec b < 256 ^ zlen b.
Proof.
  unfold zlen. induction b as [|x b IH]; simpl length; cbn [le_dec]; [lia|].
  rewrite pow256_succ. pose proof (b2z_bound x). nia.
Qed.

Lemma le_enc_dec b : le_enc (length b) (le_dec b) = b.
Proof.
  induction b as [|x b IH]; cbn [length le_enc le_dec]; [done|].
  pose proof (b2z_bound x). f_equal.
  - rewrite <- (z2b_mod (_ + _)), Z.mul_comm, Z_mod_plus_full.
    by rewrite z2b_mod, z2b_b2z.
  - rewrite Z.mul_comm, Z.div_add, Z.div_small by lia. by rewrite Z.add_0_l.
Qed.

Lemma le_enc_dec_len n b : length b = n -> le_enc n (le_dec b) = b.
Proof. intros <-. apply le_enc_dec. Qed.

Lemma le_enc_mod n z : le_enc n (z mod 256 ^ Z.of_nat n) = le_enc n z.
Proof.
  rewrite <- le_dec_enc. by rewrite le_enc_dec_len by apply length_le_enc.
Qed.

Lemma be_dec_enc n z : be_dec (be_enc n z) = z mod 256 ^ Z.of_nat n.
Proof. unfold be_dec, be_enc. rewrite rev_involutive. apply le_dec_enc. Qed.

Lemma be_dec_enc_small n z : 0 <= z < 256 ^ Z.of_nat n -> be_dec (be_enc n z) = z.
Proof. intros. rewrite be_dec_enc. by apply Z.mod_small. Qed.

Lemma be_enc_dec_len n b : length b = n -> be_enc n (be_dec b) = b.
Proof.
  intros <-. unfold be_enc, be_dec. rewrite <- (length_rev b), le_enc_dec.
  apply rev_involutive.
Qed.

Lemma be_dec_bound b : 0 <= be_dec b < 256 ^ zlen b.
Proof. unfold be_dec. replace (zlen b) with (zlen (rev b)). apply le_dec_bound.
  unfold zlen. by rewrite length_rev. Qed.

Lemma pow256_2 w : 0 <= w -> 256 ^ w = 2 ^ (8 * w).
Proof. intros. change 256 with (2 ^ 8). rewrite <- Z.pow_mul_r; lia. Qed.

(** ** Bits: lemmas *)

Lemma fits_bits w x : 0 <= w -> fits w x <-> 0 <= x /\ forall i, w <= i -> Z.testbit x i = false.
Proof.
  intros Hw. unfold fits. split.
  - intros [H0 H1]. split; [done|]. intros i Hi.
    destruct (decide (x = 0)) as [->|]; [apply Z.bits_0|].
    apply Z.bits_above_log2; [lia|]. apply Z.log2_lt_pow2 in H1; lia.
  - intros [H0 Hb]. split; [done|].
    destruct (decide (x = 0)) as [->|]; [lia|].
    apply Z.log2_lt_pow2; [lia|].
    destruct (Z.lt_ge_cases (Z.log2 x) w) as [|Hge]; [done|].
    specialize (Hb _ Hge). rewrite Z.bit_log2 in Hb by lia. done.
Qed.

Lemma fits_land_l w x y : 0 <= w -> 0 <= y -> fits w x -> fits w (Z.land x y).
Proof.
  intros Hw Hy. rewrite !fits_bits by done. intros [H0 H]. split.
  - by apply Z.land_nonneg; left.
  - intros i Hi. by rewrite Z.land_spec, H.
Qed.
Lemma fits_lor w x y : 0 <= w -> fits w x -> fits w y -> fits w (Z.lor x y).
Proof.
  intros Hw. rewrite !fits_bits by done. intros [H0 H] [H1 H']. split.
  - by apply Z.lor_nonneg.
  - intros i Hi. by rewrite Z.lor_spec, H, H'.
Qed.
Lemma fits_bic w x y : 0 <= w -> fits w x -> fits w (bic x y).
Proof.
  intros Hw. rewrite !fits_bits by done. intros [H0 H]. split.
  - apply Z.ldiff_nonneg. lia.
  - intros i Hi. unfold bic. by rewrite Z.ldiff_spec, H.
Qed.
#[export] Hint Resolve fits_land_l fits_lor fits_bic : bytes.

Lemma has_bit_lor a b m : has_bit (Z.lor a b) m = has_bit a m || has_bit b m.
Proof.
  unfold has_bit. rewrite Z.land_lor_distr_l.
  destruct (Z.eqb_spec (Z.land a m) 0) as [->|Ha], (Z.eqb_spec (Z.land b m) 0) as [->|Hb]; [done|..].
  - rewrite Z.lor_0_l. by apply Z.eqb_neq in Hb as ->.
  - rewrite Z.lor_0_r. by apply Z.eqb_neq in Ha as ->.
  - destruct (Z.eqb_spec (Z.lor (Z.land a m) (Z.land b m)) 0) as [E|]; [|done].
    by apply Z.lor_eq_0_iff in E as [? _].
Qed.
Lemma has_bit_self m : m <> 0 -> has_bit m m = true.
Proof. intros H. unfold has_bit. rewrite Z.land_diag. by apply Z.eqb_neq in H as ->. Qed.
Lemma has_bit_disjoint m n : Z.land m n = 0 -> has_bit m n = false.
Proof. unfold has_bit. by intros ->. Qed.

Lemma has_bit_bic_keep f k m : Z.land k m = 0 -> has_bit (bic f k) m = has_bit f m.
Proof.
  intros Hk. unfold has_bit. do 2 f_equal. unfold bic. apply Z.bits_inj'. intros i Hi.
  rewrite !Z.land_spec, Z.ldiff_spec. apply (f_equal (fun z => Z.testbit z i)) in Hk.
  rewrite Z.land_spec, Z.bits_0 in Hk.
  destruct (Z.testbit f i), (Z.testbit k i), (Z.testbit m i); simpl in *; congruence.
Qed.
Lemma has_bit_bic_drop f k m : Z.land k m = m -> has_bit (bic f k) m = false.
Proof.
  intros Hk. unfold has_bit. replace (Z.land (bic f k) m) with 0; [done|]. unfold bic.
  symmetry. apply Z.bits_inj'. intros i Hi. rewrite Z.bits_0, Z.land_spec, Z.ldiff_spec.
  apply (f_equal (fun z => Z.testbit z i)) in Hk. rewrite Z.land_spec in Hk.
  destruct (Z.testbit f i), (Z.testbit k i), (Z.testbit m i); simpl in *; congruence.
Qed.

Lemma land_is_bit f x : is_bit x = true -> Z.land f x = if has_bit f x then x else 0.
Proof.
  unfold is_bit. intros [H0 E%Z.eqb_eq]%andb_true_iff. apply Z.ltb_lt in H0. unfold has_bit.
  assert (Z.land f x = if Z.testbit f (Z.log2 x) then x else 0) as ->.
  { apply Z.bits_inj'. intros i Hi. rewrite Z.land_spec, E at 1. pose proof (Z.log2_nonneg x).
    rewrite Z.pow2_bits_eqb by done. destruct (Z.eqb_spec (Z.log2 x) i) as [<-|].
    - rewrite andb_true_r. destruct (Z.testbit f (Z.log2 x)); [by rewrite Z.bit_log2|by rewrite Z.bits_0].
    - rewrite andb_false_r. destruct (Z.testbit f (Z.log2 x)); [|by rewrite Z.bits_0].
      rewrite E, Z.pow2_bits_eqb by done. symmetry. by apply Z.eqb_neq. }
  destruct (Z.testbit f (Z.log2 x)); [by replace (x =? 0) with false by lia|done].
Qed.

(** The masks of [l] that [f] has, together, are [f] within the union of [l]. *)
Lemma lor_all_filter f l : forallb is_bit l = true ->
  lor_all (filter (fun x => has_bit f x = true) l) = Z.land f (lor_all l).
Proof.
  induction l as [|x l IH]; [by rewrite Z.land_0_r|]. cbn [forallb]. intros [Hx Hl]%andb_true_iff.
  change (lor_all (x :: l)) with (Z.lor x (lor_all l)).
  rewrite Z.land_lor_distr_r, (land_is_bit _ _ Hx), filter_cons, <- IH by done.
  by destruct (has_bit f x) eqn:E; rewrite ?decide_True, ?decide_False by congruence.
Qed.

Lemma bic_0_land f m : bic f m = 0 -> Z.land f m = f.
Proof.
  unfold bic. intros H. apply Z.bits_inj'. intros i Hi. apply (f_equal (fun z => Z.testbit z i)) in H.
  rewrite Z.ldiff_spec, Z.bits_0 in H. rewrite Z.land_spec.
  destruct (Z.testbit f i), (Z.testbit m i); simpl in *; congruence.
Qed.

(** Equalities between bit expressions, by cases on the bits of each position. *)
Ltac bits :=
  apply Z.bits_inj'; intros ? ?; unfold bic;
  repeat first [rewrite Z.lor_spec | rewrite Z.land_spec | rewrite Z.ldiff_spec | rewrite Z.bits_0];
  repeat match goal with |- context [Z.testbit ?x ?i] => destruct (Z.testbit x i) end;
  reflexivity.

Lemma lor_shiftl_add x y k : 0 <= k -> 0 <= x < 2 ^ k ->
  Z.lor x (Z.shiftl y k) = x + 2 ^ k * y.
Proof.
  intros Hk Hx. rewrite (Z.mul_comm (2 ^ k)), <- Z.shiftl_mul_pow2 by done.
  assert (Hland : Z.land x (Z.shiftl y k) = 0).
  { apply Z.bits_inj'. intros i Hi. rewrite Z.land_spec, Z.bits_0.
    destruct (Z.lt_ge_cases i k).
    - rewrite Z.shiftl_spec_low by done. by rewrite andb_false_r.
    - apply fits_bits in Hx as [_ Hx]; [|done]. by rewrite Hx. }
  rewrite Z.add_nocarry_lxor by done. by rewrite Z.lxor_lor.
Qed.

Lemma shiftr_div x k : 0 <= k -> Z.shiftr x k = x / 2 ^ k.
Proof. apply Z.shiftr_div_pow2. Qed.

(** The shift-and-or loop over a byte slice reads it big-endian. *)
Lemma be_dec_snoc b x : be_dec (b ++ [x]) = Z.lor (Z.shiftl (be_dec b) 8) (b2z x).
Proof.
  unfold be_dec. rewrite rev_app_distr. cbn [rev app le_dec].
  rewrite Z.lor_comm, lor_shiftl_add; [done|lia|apply b2z_bound].
Qed.
Lemma foldl_be_dec b :
  foldl (fun v x => Z.lor (Z.shiftl v 8) (b2z x)) 0 b = be_dec b.
Proof.
  induction b as [|x b IH] using rev_ind; [done|].
  by rewrite foldl_app, be_dec_snoc, IH.
Qed.

(** [uint32(b0) | uint32(b1)<<8 | uint32(b2)<<16 | uint32(b3)<<24] *)
Lemma lor4_le_dec b0 b1 b2 b3 :
  Z.lor (Z.lor (Z.lor (b2z b0) (Z.shiftl (b2z b1) 8)) (Z.shiftl (b2z b2) 16)) (Z.shiftl (b2z b3) 24)
  = le_dec [b0; b1; b2; b3].
Proof.
  pose proof (b2z_bound b0). pose proof (b2z_bound b1). pose proof (b2z_bound b2).
  cbn [le_dec]. rewrite (lor_shiftl_add (b2z b0)), (lor_shiftl_add (b2z b0 + _)), lor_shiftl_add; lia.
Qed.

(** ** Lists of fixed-width words *)

Definition words (n : nat) (ws : list Z) : bytes := concat (le_enc n <$> ws).

Lemma words_cons n w ws : words n (w :: ws) = le_enc n w ++ words n ws.
Proof. done. Qed.
Lemma words_app n ws vs : words n (ws ++ vs) = words n ws ++ words n vs.
Proof. unfold words. by rewrite fmap_app, concat_app. Qed.
Lemma zlen_words n ws : zlen (words n ws) = Z.of_nat n * zlen ws.
Proof.
  induction ws as [|w ws IH]; [cbn; unfold zlen; simpl; lia|].
  rewrite words_cons, zlen_app, IH, zlen_le_enc, zlen_cons. lia.
Qed.
#[export] Hint Rewrite zlen_words : zlen.

Lemma words_exists n k b : length b = (n * k)%nat ->
  exists ws, length ws = k /\ Forall (fun w => 0 <= w < 256 ^ Z.of_nat n) ws /\ b = words n ws.
Proof.
  revert b. induction k as [|k IH]; intros b Hb.
  { exists []. rewrite Nat.mul_0_r in Hb. by destruct b. }
  destruct (IH (drop n b)) as (ws & Hl & Hw & E). { rewrite length_drop. lia. }
  assert (length (take n b) = n) by (rewrite length_take; lia).
  exists (le_dec (take n b) :: ws). split_and!; [simpl; lia| |].
  - constructor; [|done]. pose proof (le_dec_bound (take n b)) as B. unfold zlen in B. congruence.
  - by rewrite words_cons, le_enc_dec_len, <- E, take_drop.
Qed.

(** ** Tactics *)

(** Normalise lengths and close linear goals about them. *)
Ltac zlen_pose :=
  repeat match goal with
  | |- context [zlen ?l] =>
      lazymatch goal with H : 0 <= zlen l |- _ => fail | _ => pose proof (zlen_nonneg l) end
  | _ : context [zlen ?l] |- _ =>
      lazymatch goal with H : 0 <= zlen l |- _ => fail | _ => pose proof (zlen_nonneg l) end
  end.
Ltac len := autorewrite with zlen in *; zlen_pose; try lia.

(** Two appends of the same pieces, up to associativity. *)
Ltac app_eq := cbn [app]; rewrite <- ?app_assoc; cbn [app]; rewrite <- ?app_assoc; reflexivity.

(** Case analysis on the boolean comparisons of the code. *)
Ltac bool_case :=
  match goal with
  | |- context [?x <? ?y] => destruct (Z.ltb_spec x y)
  | |- context [?x <=? ?y] => destruct (Z.leb_spec x y)
  | |- context [?x =? ?y] => destruct (Z.eqb_spec x y)
  end.
Ltac bool_case_in H :=
  match type of H with
  | context [?x <? ?y] => destruct (Z.ltb_spec x y)
  | context [?x <=? ?y] => destruct (Z.leb_spec x y)
  | context [?x =? ?y] => destruct (Z.eqb_spec x y)
  end.

(** ** Histories *)

(** A history is a list that only grows at its end. *)
Section history.
Context {A : Type}.
Implicit Types h l : list A.

Lemma prefix_last h l (x : A) : h ++ [x] `prefix_of` l -> l !! length h = Some x.
Proof. intros Hp. eapply prefix_lookup_Some; [|exact Hp]. by rewrite lookup_app_r, Nat.sub_diag by done. Qed.

Lemma prefix_same h1 h2 l : h1 `prefix_of` l -> h2 `prefix_of` l -> length h1 = length h2 -> h1 = h2.
Proof. intros [k1 ->] [k2 E] Hl. by apply app_inj_1 in E as [??]. Qed.

(** When no version occurs twice, two points of a history with the same version are one. *)
Lemma same_version (version : A -> Z) h1 p1 h2 p2 l : NoDup (version <$> l) -> h1 ++ [p1] `prefix_of` l -> h2 ++ [p2] `prefix_of` l ->
  version p1 = version p2 -> h1 ++ [p1] = h2 ++ [p2].
Proof.
  intros Hn H1 H2 Hg. apply (prefix_same _ _ l); [done..|]. rewrite !length_app. cbn.
  f_equal. apply (NoDup_lookup (version <$> l) _ _ (version p1)); [done|..].
  - by rewrite list_lookup_fmap, (prefix_last _ _ _ H1).
  - by rewrite list_lookup_fmap, (prefix_last _ _ _ H2), Hg.
Qed.
End history.
