(* ===== verification/Outcome.v ===== *)
(** * Outcome: error values, panics, slices and system calls

    What a Go function of the library can do: return a value, return an error,
    or panic.  The error values are the sentinels of the packages plus the
    shapes [errno.Errno], [fmt.Errorf] (with and without a wrapped error) and
    [errors.Join]; [errors_is] is the standard [errors.Is] on them.  Slicing and
    indexing are the Go operations, with the run-time panic they raise out of
    range.  [Errno] models errno/errno.go. *)


From S2P Require Import Prelude.

(** ** Error values *)

(** [Errorf] is an error built from a format with no wrapped error; its argument
    names the message.  [Wrapf] is a format with one [%w].  A [Syntax] is the
    sddl package's [*SyntaxError]. *)
Inductive err :=
  | ErrBadSID | ErrBadEvent | ErrBadACE | ErrBadACL | ErrBadSD | ErrBadClaim
  | ErrBadAuditContext | ErrNotSelfRelative | ErrMalformedValue | ErrReservedLayer
  | ErrInterrupted | ErrGenerationChanged | ErrBadMagic
  | Errno (n : Z)
  | Errorf (msg : string)
  | Wrapf (msg : string) (e : err)
  | Join (e1 e2 : err)
  | Syntax (offset : Z) (msg : string).

#[export] Instance err_eq_dec : EqDecision err.
Proof. solve_decision. Defined.

(** [errors.Is(e, target)]: equality along the chain of wrapped errors. *)
Fixpoint errors_is (e target : err) : bool :=
  bool_decide (e = target) ||
  match e with
  | Wrapf _ e => errors_is e target
  | Join e1 e2 => errors_is e1 target || errors_is e2 target
  | _ => false
  end.

(** ** Outcomes *)

Inductive outcome (A : Type) : Type :=
  | Ok (a : A)
  | Err (e : err)
  | Panic.
Arguments Ok {A} a.
Arguments Err {A} e.
Arguments Panic {A}.

#[export] Instance outcome_ret : MRet outcome := fun A a => Ok a.
#[export] Instance outcome_bind : MBind outcome := fun A B f m =>
  match m with Ok a => f a | Err e => Err e | Panic => Panic end.
#[export] Instance outcome_fmap : FMap outcome := fun A B f m =>
  match m with Ok a => Ok (f a) | Err e => Err e | Panic => Panic end.

#[export] Instance outcome_eq_dec {A} `{EqDecision A} : EqDecision (outcome A).
Proof. solve_decision. Defined.

(** [if err != nil { return fmt.Errorf("...: %w", err) }] *)
Definition wrap_err {A} (msg : string) (m : outcome A) : outcome A :=
  match m with Err e => Err (Wrapf msg e) | m => m end.

(** An early [return err] under a condition. *)
Definition guard_err (c : bool) (e : err) : outcome unit :=
  if c then Err e else Ok tt.

Definition is_ok {A} (m : outcome A) : bool :=
  match m with Ok _ => true | _ => false end.

(** The computation raises no run-time panic. *)
Definition safe {A} (m : outcome A) : Prop := m <> Panic.

(** ** Slices and fixed-width reads *)

(** [b[lo:hi]] *)
Definition slice {A} (b : list A) (lo hi : Z) : outcome (list A) :=
  if (0 <=? lo) && (lo <=? hi) && (hi <=? zlen b) then Ok (zseg lo hi b) else Panic.

(** [b[lo:]] *)
Definition slice_from {A} (b : list A) (lo : Z) : outcome (list A) := slice b lo (zlen b).

(** [b[i]] *)
Definition index {A} (b : list A) (i : Z) : outcome A :=
  if i <? 0 then Panic else
  match b !! Z.to_nat i with Some x => Ok x | None => Panic end.

(** [binary.LittleEndian.UintN(b)], with [n] the width in bytes. *)
Definition get_le (n : nat) (b : bytes) : outcome Z :=
  if zlen b <? Z.of_nat n then Panic else Ok (le_dec (take n b)).
Definition get_be (n : nat) (b : bytes) : outcome Z :=
  if zlen b <? Z.of_nat n then Panic else Ok (be_dec (take n b)).

(** [binary.LittleEndian.UintN(b[off:])] *)
Definition get_le_at (n : nat) (b : bytes) (off : Z) : outcome Z :=
  s ← slice_from b off; get_le n s.

(** [binary.LittleEndian.PutUintN(b[off:], v)], which writes in place. *)
Definition put_le (n : nat) (b : bytes) (off v : Z) : outcome bytes :=
  if (0 <=? off) && (off + Z.of_nat n <=? zlen b)
  then Ok (take (Z.to_nat off) b ++ le_enc n v ++ drop (Z.to_nat off + n) b)
  else Panic.

(** [copy(dst, src)], the new contents of [dst]. *)
Definition go_copy {A} (dst src : list A) : list A :=
  take (length dst) src ++ drop (length src) dst.

(** ** errno *)

Module Errno.

Definition EPERM : Z := 1.
Definition ENOENT : Z := 2.
Definition EINTR : Z := 4.
Definition EIO : Z := 5.
Definition EBADF : Z := 9.
Definition EAGAIN : Z := 11.
Definition EACCES : Z := 13.
Definition EFAULT : Z := 14.
Definition EBUSY : Z := 16.
Definition EEXIST : Z := 17.
Definition ENOTDIR : Z := 20.
Definition EISDIR : Z := 21.
Definition EINVAL : Z := 22.
Definition ENOTTY : Z := 25.
Definition ERANGE : Z := 34.
Definition ENOSYS : Z := 38.

End Errno.

(** ** Lemmas on outcomes *)

Section outcome.
Context {A B : Type}.
Implicit Types m : outcome A.

Lemma Ok_inj (a a' : A) : Ok a = Ok a' -> a = a'.
Proof. by intros [= ]. Qed.
Lemma bind_Ok (f : A -> outcome B) a : Ok a ≫= f = f a.
Proof. done. Qed.
Lemma bind_Err (f : A -> outcome B) e : Err e ≫= f = Err e.
Proof. done. Qed.
Lemma bind_Panic (f : A -> outcome B) : Panic ≫= f = Panic.
Proof. done. Qed.
Lemma bind_Ok_inv (f : A -> outcome B) m b :
  m ≫= f = Ok b -> exists a, m = Ok a /\ f a = Ok b.
Proof. destruct m; simpl; [eauto|discriminate|discriminate]. Qed.
Lemma fmap_Ok_inv (f : A -> B) m b : f <$> m = Ok b -> exists a, m = Ok a /\ b = f a.
Proof. destruct m; simpl; intros [= ]; eauto. Qed.
Lemma wrap_err_Ok msg m a : wrap_err msg m = Ok a <-> m = Ok a.
Proof. destruct m; simpl; naive_solver. Qed.
Lemma guard_err_Ok c e : guard_err c e = Ok tt <-> c = false.
Proof. destruct c; simpl; naive_solver. Qed.

Lemma safe_Ok a : safe (Ok a : outcome A).
Proof. done. Qed.
Lemma safe_Err e : safe (Err e : outcome A).
Proof. done. Qed.
Lemma safe_bind (f : A -> outcome B) m :
  safe m -> (forall a, m = Ok a -> safe (f a)) -> safe (m ≫= f).
Proof. unfold safe. destruct m; simpl; auto; congruence. Qed.
Lemma safe_fmap (f : A -> B) m : safe m -> safe (f <$> m).
Proof. unfold safe. destruct m; simpl; auto; congruence. Qed.
Lemma safe_wrap_err msg m : safe m -> safe (wrap_err msg m).
Proof. unfold safe. destruct m; simpl; auto; congruence. Qed.
End outcome.

Lemma safe_guard_err c e : safe (guard_err c e).
Proof. by destruct c. Qed.

#[export] Hint Rewrite @bind_Ok @bind_Err @bind_Panic : outcome.
Create HintDb safe.
#[export] Hint Resolve safe_Ok safe_Err safe_fmap safe_wrap_err safe_guard_err : safe.

(** ** Lemmas on slices *)

Section slices.
Context {A : Type}.
Implicit Types b p q s : list A.

Lemma slice_ok b lo hi : 0 <= lo <= hi -> hi <= zlen b -> slice b lo hi = Ok (zseg lo hi b).
Proof.
  intros. unfold slice. destruct (Z.leb_spec 0 lo), (Z.leb_spec lo hi), (Z.leb_spec hi (zlen b));
    simpl; done || lia.
Qed.

Lemma slice_Ok_inv b lo hi s :
  slice b lo hi = Ok s -> 0 <= lo <= hi /\ hi <= zlen b /\ s = zseg lo hi b.
Proof.
  unfold slice. destruct (Z.leb_spec 0 lo), (Z.leb_spec lo hi), (Z.leb_spec hi (zlen b));
    simpl; naive_solver lia.
Qed.

Lemma slice_mid p q s lo hi :
  lo = zlen p -> hi = zlen p + zlen q -> slice (p ++ q ++ s) lo hi = Ok q.
Proof.
  intros -> ->. rewrite slice_ok by (len). f_equal. by apply zseg_app_mid.
Qed.

Lemma slice_is b p q s lo hi :
  b = p ++ q ++ s -> lo = zlen p -> hi = zlen p + zlen q -> slice b lo hi = Ok q.
Proof. intros ->. apply slice_mid. Qed.

Lemma slice_prefix q s hi : hi = zlen q -> slice (q ++ s) 0 hi = Ok q.
Proof. intros. by apply (slice_mid [] q s). Qed.

Lemma slice_from_app p s lo : lo = zlen p -> slice_from (p ++ s) lo = Ok s.
Proof.
  intros. unfold slice_from. rewrite <- (app_nil_r s) at 1.
  apply slice_mid; [done|]. len.
Qed.

Lemma slice_from_is b p s lo : b = p ++ s -> lo = zlen p -> slice_from b lo = Ok s.
Proof. intros ->. apply slice_from_app. Qed.

Lemma slice_from_ok b lo : 0 <= lo <= zlen b -> slice_from b lo = Ok (drop (Z.to_nat lo) b).
Proof.
  intros. unfold slice_from. rewrite slice_ok by lia. f_equal. unfold zseg.
  apply take_ge. rewrite length_drop. unfold zlen in *. lia.
Qed.

Lemma slice_from_Ok_inv b lo s :
  slice_from b lo = Ok s -> 0 <= lo <= zlen b /\ s = drop (Z.to_nat lo) b.
Proof.
  intros H. pose proof (slice_Ok_inv _ _ _ _ H) as (?&?&?). split; [lia|].
  rewrite slice_from_ok in H by lia. by injection H.
Qed.

Lemma index_app p x s i : i = zlen p -> index (p ++ x :: s) i = Ok x.
Proof.
  intros ->. unfold index, zlen. destruct (Z.ltb_spec (Z.of_nat (length p)) 0); [lia|].
  rewrite lookup_app_r by lia. by replace (_ - _)%nat with O by lia.
Qed.

Lemma index_is b p x s i : b = p ++ x :: s -> i = zlen p -> index b i = Ok x.
Proof. intros ->. apply index_app. Qed.

Lemma index_ok b i : 0 <= i < zlen b -> exists x, index b i = Ok x.
Proof.
  intros. unfold index. destruct (Z.ltb_spec i 0); [lia|].
  destruct (b !! Z.to_nat i) eqn:E; [eauto|].
  apply lookup_ge_None in E. unfold zlen in *. lia.
Qed.

Lemma safe_slice b lo hi : 0 <= lo <= hi -> hi <= zlen b -> safe (slice b lo hi).
Proof. intros. by rewrite slice_ok. Qed.
Lemma safe_slice_from b lo : 0 <= lo <= zlen b -> safe (slice_from b lo).
Proof. intros. by rewrite slice_from_ok. Qed.
Lemma safe_index b i : 0 <= i < zlen b -> safe (index b i).
Proof. intros. destruct (index_ok b i) as [x ->]; done. Qed.
End slices.

Lemma get_le_app n v s : get_le n (le_enc n v ++ s) = Ok (v mod 256 ^ Z.of_nat n).
Proof.
  unfold get_le. destruct (Z.ltb_spec (zlen (le_enc n v ++ s)) (Z.of_nat n)); [len|].
  rewrite take_app_length' by (by rewrite length_le_enc). by rewrite le_dec_enc.
Qed.
Lemma get_le_app_small n v s : 0 <= v < 256 ^ Z.of_nat n -> get_le n (le_enc n v ++ s) = Ok v.
Proof. intros. rewrite get_le_app. by rewrite Z.mod_small. Qed.
Lemma get_le_ok n b : Z.of_nat n <= zlen b -> get_le n b = Ok (le_dec (take n b)).
Proof. intros. unfold get_le. by destruct (Z.ltb_spec (zlen b) (Z.of_nat n)); [lia|]. Qed.
Lemma get_le_Ok_inv n b v :
  get_le n b = Ok v -> Z.of_nat n <= zlen b /\ v = le_dec (take n b) /\ 0 <= v < 256 ^ Z.of_nat n.
Proof.
  unfold get_le. destruct (Z.ltb_spec (zlen b) (Z.of_nat n)); [done|]. intros [= <-].
  split; [done|]. split; [done|]. pose proof (le_dec_bound (take n b)) as Hb.
  rewrite zlen_take in Hb. by rewrite Z.min_l in Hb.
Qed.
Lemma safe_get_le n b : Z.of_nat n <= zlen b -> safe (get_le n b).
Proof. intros. by rewrite get_le_ok. Qed.

Lemma get_le_at_app n p v s off :
  off = zlen p -> 0 <= v < 256 ^ Z.of_nat n -> get_le_at n (p ++ le_enc n v ++ s) off = Ok v.
Proof.
  intros. unfold get_le_at. rewrite slice_from_app by done. simpl.
  by apply get_le_app_small.
Qed.
Lemma get_le_at_is n b p v s off :
  b = p ++ le_enc n v ++ s -> off = zlen p -> 0 <= v < 256 ^ Z.of_nat n ->
  get_le_at n b off = Ok v.
Proof. intros ->. apply get_le_at_app. Qed.
Lemma get_le_at_ok n b off : 0 <= off -> off + Z.of_nat n <= zlen b ->
  get_le_at n b off = Ok (le_dec (take n (drop (Z.to_nat off) b))).
Proof.
  intros. unfold get_le_at. rewrite slice_from_ok by lia. simpl. apply get_le_ok. len.
Qed.
Lemma get_le_at_Ok_inv n b off v :
  get_le_at n b off = Ok v ->
  0 <= off /\ off + Z.of_nat n <= zlen b /\ 0 <= v < 256 ^ Z.of_nat n
  /\ v = le_dec (take n (drop (Z.to_nat off) b)).
Proof.
  unfold get_le_at. intros (s & Hs & H)%bind_Ok_inv.
  apply slice_from_Ok_inv in Hs as [Ho ->]. apply get_le_Ok_inv in H as (?&?&?). len; auto.
Qed.
Lemma safe_get_le_at n b off : 0 <= off -> off + Z.of_nat n <= zlen b -> safe (get_le_at n b off).
Proof. intros. by rewrite get_le_at_ok. Qed.

Lemma put_le_app n p q s off v :
  off = zlen p -> length q = n -> put_le n (p ++ q ++ s) off v = Ok (p ++ le_enc n v ++ s).
Proof.
  intros -> <-. unfold put_le. destruct (Z.leb_spec 0 (zlen p)); [|len].
  destruct (Z.leb_spec (zlen p + Z.of_nat (length q)) (zlen (p ++ q ++ s))); simpl.
  2: { len. unfold zlen in *. lia. }
  unfold zlen. rewrite Nat2Z.id, take_app_length. do 3 f_equal.
  by rewrite app_assoc, drop_app_length' by (rewrite length_app; lia).
Qed.

Lemma put_le_head n q s v : length q = n -> put_le n (q ++ s) 0 v = Ok (le_enc n v ++ s).
Proof. apply (put_le_app n [] q s 0 v eq_refl). Qed.

Lemma length_go_copy {A} (dst src : list A) : length (go_copy dst src) = length dst.
Proof. unfold go_copy. rewrite length_app, length_take, length_drop. lia. Qed.

(** ** Lemmas on [errors.Is] *)

Lemma errors_is_refl e : errors_is e e = true.
Proof.
  destruct e; cbn [errors_is]; apply orb_true_iff; left; by apply bool_decide_eq_true_2.
Qed.

(** ** Tactics *)

(** Split a hypothesis [m = Ok x] on a chain of binds into its steps. *)
Ltac inv_ok :=
  repeat match goal with
  | H : Ok _ = Ok _ |- _ => apply Ok_inj in H; subst
  | H : Err _ = Ok _ |- _ => discriminate H
  | H : Panic = Ok _ |- _ => discriminate H
  | H : mret _ = Ok _ |- _ => apply Ok_inj in H; subst
  | H : mbind _ _ = Ok _ |- _ =>
      let x := fresh "x" in let Hx := fresh "Hx" in
      apply bind_Ok_inv in H as (x & Hx & H)
  | H : fmap _ _ = Ok _ |- _ =>
      let x := fresh "x" in let Hx := fresh "Hx" in
      apply fmap_Ok_inv in H as (x & Hx & H); subst
  | H : wrap_err _ _ = Ok _ |- _ => apply wrap_err_Ok in H
  | H : guard_err _ _ = Ok ?u |- _ => destruct u; apply guard_err_Ok in H
  | H : (if ?c then Err _ else _) = Ok _ |- _ =>
      let E := fresh "E" in destruct c eqn:E; [discriminate H|]
  end.

(** Prove that a chain of binds does not panic: the leaves are left to [safe]. *)
Ltac safe_step :=
  first
  [ apply safe_bind; [|intros ? ?]
  | apply safe_fmap | apply safe_wrap_err
  | match goal with |- safe (if ?c then _ else _) => let E := fresh "E" in destruct c eqn:E end
  | solve [auto with safe] ].
