(* ===== verification/Codec.v ===== *)
(** * Codec: the contract of a self-delimiting wire codec

    SIDs, ACEs and ACLs are all read off the front of a buffer by a parser that
    says how much it consumed, and written by an encoder.  [Codec] is what one of
    them promises to the component that embeds it: the parser does not panic and
    consumes part of its buffer, it gives back what the encoder wrote, whatever
    follows, and what it accepts encodes again in no more bytes.  [parse_n] and
    [encode_all] are the loops that the list codecs of the source run over an element
    codec; their theorems are proved once, against the interface. *)

From S2P Require Import Prelude Outcome.

Class Codec {A} (ok : A -> Prop) (encode : A -> outcome bytes) (parse : bytes -> outcome (A * Z))
    : Prop := {
  codec_safe buf : safe (parse buf);
  codec_bounds buf a n : parse buf = Ok (a, n) -> 0 < n <= zlen buf;
  codec_read a b rest : ok a -> encode a = Ok b -> parse (b ++ rest) = Ok (a, zlen b);
  codec_canonical buf a n : parse buf = Ok (a, n) -> ok a ->
    exists b, encode a = Ok b /\ zlen b <= n
}.

Section list_codec.
Context {A : Type} (encode : A -> outcome bytes) (parse : bytes -> outcome (A * Z)).

(** [for i := range l { b, err := l[i].Marshal(); ...; out = append(out, b...) }] *)
Fixpoint encode_all (l : list A) (out : bytes) : outcome bytes :=
  match l with
  | [] => Ok out
  | a :: l => b ← encode a; encode_all l (out ++ b)
  end.

(** [for range count { a, n, err := Parse(rest); ...; rest = rest[n:] }] *)
Fixpoint parse_n (count : nat) (rest : bytes) (entries : list A) : outcome (list A) :=
  match count with
  | O => Ok entries
  | S count =>
      '(a, n) ← parse rest;
      rest ← slice_from rest n;
      parse_n count rest (entries ++ [a])
  end.

Lemma encode_all_app l out b : encode_all l out = Ok b -> exists s, b = out ++ s /\ encode_all l [] = Ok s.
Proof.
  revert out b. induction l as [|a l IH]; intros out b; cbn [encode_all].
  - intros <-%Ok_inj. exists []. by rewrite app_nil_r.
  - intros (x & Hx & H)%bind_Ok_inv. rewrite Hx, bind_Ok, app_nil_l.
    apply IH in H as (s & -> & Hs).
    assert (exists b', encode_all l x = Ok b') as [b' Hb'].
    { clear -Hs. revert x Hs. generalize (@nil byte). revert s. induction l as [|a l IH]; intros s o x H; [eauto|].
      cbn [encode_all] in *. destruct (encode a); [|done|done]. eapply IH, H. }
    destruct (IH _ _ Hb') as (s' & -> & Hs'). rewrite Hs in Hs'. apply Ok_inj in Hs' as <-.
    rewrite Hb'. exists (x ++ s). by rewrite (assoc_L app).
Qed.

Lemma encode_all_cons a l b : encode_all (a :: l) [] = Ok b ->
  exists x s, encode a = Ok x /\ encode_all l [] = Ok s /\ b = x ++ s.
Proof.
  cbn [encode_all]. intros (x & Hx & H)%bind_Ok_inv. rewrite app_nil_l in H.
  apply encode_all_app in H as (s & -> & Hs). eauto.
Qed.

(** One element that does not encode stops the list. *)
Lemma encode_all_refuses a l out : a ∈ l -> is_ok (encode a) = false -> is_ok (encode_all l out) = false.
Proof.
  intros Ha He. revert out. induction l as [|b l IH]; intros out; [by apply elem_of_nil in Ha|].
  cbn [encode_all]. apply elem_of_cons in Ha as [<-|Ha].
  - by destruct (encode a).
  - destruct (encode b); [by apply IH|done..].
Qed.

Lemma encode_all_safe l out : (forall a, safe (encode a)) -> safe (encode_all l out).
Proof.
  intros Hs. revert out. induction l as [|a l IH]; intros out; cbn [encode_all]; [apply safe_Ok|].
  apply safe_bind; auto.
Qed.

Lemma encode_all_acc l out s : encode_all l [] = Ok s -> encode_all l out = Ok (out ++ s).
Proof.
  revert out s. induction l as [|a l IH]; intros out s.
  - intros <-%Ok_inj. by rewrite app_nil_r.
  - intros (x & y & Hx & Hy & ->)%encode_all_cons. cbn [encode_all].
    rewrite Hx, bind_Ok, (IH _ _ Hy). by rewrite (assoc_L app).
Qed.

Lemma parse_n_prefix count rest entries l : parse_n count rest entries = Ok l -> exists l', l = entries ++ l'.
Proof.
  revert rest entries. induction count as [|c IH]; intros rest entries; cbn [parse_n].
  - intros <-%Ok_inj. exists []. by rewrite app_nil_r.
  - intros ([a n] & _ & (r & _ & H)%bind_Ok_inv)%bind_Ok_inv. apply IH in H as [l' ->].
    exists (a :: l'). by rewrite <- app_assoc.
Qed.

Context {ok : A -> Prop} `{!Codec ok encode parse}.

Lemma parse_n_safe count rest entries : safe (parse_n count rest entries).
Proof.
  revert rest entries. induction count as [|c IH]; intros rest entries; cbn [parse_n]; [apply safe_Ok|].
  apply safe_bind; [apply codec_safe|]. intros [a n] [? ?]%codec_bounds.
  apply safe_bind; [apply safe_slice_from; lia|auto].
Qed.

Lemma parse_n_length count rest entries l :
  parse_n count rest entries = Ok l -> length l = (length entries + count)%nat.
Proof.
  revert rest entries. induction count as [|c IH]; intros rest entries; cbn [parse_n].
  - intros ->%Ok_inj. lia.
  - intros ([a n] & _ & (r & _ & H)%bind_Ok_inv)%bind_Ok_inv. apply IH in H.
    rewrite length_app in H. simpl in H. lia.
Qed.

(** Its errors are those of the element parser. *)
Lemma parse_n_err (P : err -> Prop) count rest entries e :
  (forall buf e, parse buf = Err e -> P e) -> parse_n count rest entries = Err e -> P e.
Proof.
  intros HP. revert rest entries. induction count as [|c IH]; intros rest entries; cbn [parse_n]; [done|].
  destruct (parse rest) as [[a n]|e'|] eqn:Ep; [|intros [= <-]; by eapply HP|done].
  apply codec_bounds in Ep. rewrite bind_Ok. cbn beta iota. rewrite slice_from_ok by lia. apply IH.
Qed.

(** Each parsed entry was read by the element parser. *)
Lemma parse_n_Forall (P : A -> Prop) count rest entries l :
  (forall buf a n, parse buf = Ok (a, n) -> P a) ->
  Forall P entries -> parse_n count rest entries = Ok l -> Forall P l.
Proof.
  intros HP. revert rest entries. induction count as [|c IH]; intros rest entries He; cbn [parse_n].
  - by intros <-%Ok_inj.
  - intros ([a n] & Ha & (r & _ & H)%bind_Ok_inv)%bind_Ok_inv. eapply IH, H.
    apply Forall_app_2; [done|]. constructor; [|done]. eapply HP, Ha.
Qed.

Lemma parse_n_encode_all l b rest entries : Forall ok l -> encode_all l [] = Ok b ->
  parse_n (length l) (b ++ rest) entries = Ok (entries ++ l).
Proof.
  revert b entries. induction l as [|a l IH]; intros b entries Hok; cbn [length parse_n].
  - intros <-%Ok_inj. by rewrite app_nil_r.
  - apply Forall_cons in Hok as [Ha Hok]. intros (x & s & Hx & Hs & ->)%encode_all_cons.
    rewrite <- app_assoc, (codec_read _ _ _ Ha Hx), bind_Ok. cbn beta iota.
    rewrite slice_from_app by done. rewrite bind_Ok, (IH s) by done.
    by rewrite <- app_assoc.
Qed.

(** What the loop parsed encodes again, in no more bytes than there were. *)
Lemma parse_n_canonical count rest entries l : Forall ok l ->
  parse_n count rest entries = Ok (entries ++ l) -> exists b, encode_all l [] = Ok b /\ zlen b <= zlen rest.
Proof.
  revert rest entries l. induction count as [|c IH]; intros rest entries l Hok; cbn [parse_n].
  - intros E%Ok_inj%(f_equal length). rewrite length_app in E. destruct l; [|simpl in E; lia].
    exists []. split; [done|apply zlen_nonneg].
  - intros ([a n] & Ha & (r & [Hn ->]%slice_from_Ok_inv & H)%bind_Ok_inv)%bind_Ok_inv.
    pose proof (parse_n_prefix _ _ _ _ H) as [l' El]. rewrite <- app_assoc in El.
    apply app_inv_head in El as ->. cbn [app] in *. apply Forall_cons in Hok as [Hoa Hok].
    pose proof (codec_bounds _ _ _ Ha). destruct (codec_canonical _ _ _ Ha Hoa) as (b & Eb & Hb).
    destruct (IH (drop (Z.to_nat n) rest) (entries ++ [a]) l' Hok) as (b' & Eb' & Hb'). { by rewrite <- app_assoc. }
    exists (b ++ b'). split; [|len]. cbn [encode_all]. rewrite Eb, bind_Ok, app_nil_l. by apply encode_all_acc.
Qed.
End list_codec.

(** ** Data located at an offset *)

(** [d] lies in [b] at offset [off]: what a stored offset promises its reader. *)
Definition located (b : bytes) (off : Z) (d : bytes) : Prop :=
  exists p s, b = p ++ d ++ s /\ zlen p = off.

Lemma located_app p d s off : off = zlen p -> located (p ++ d ++ s) off d.
Proof. intros ->. by exists p, s. Qed.
Lemma located_is b p d s off : b = p ++ d ++ s -> off = zlen p -> located b off d.
Proof. intros -> ->. by exists p, s. Qed.

Lemma located_slice b off d : located b off d -> slice b off (off + zlen d) = Ok d.
Proof. intros (p & s & -> & <-). by apply slice_mid. Qed.

Lemma located_slice_from b off d :
  located b off d -> exists rest, slice_from b off = Ok (d ++ rest).
Proof. intros (p & s & -> & <-). exists s. by apply slice_from_app. Qed.

Lemma located_get_le n b off v : located b off (le_enc n v) -> 0 <= v < 256 ^ Z.of_nat n ->
  get_le_at n b off = Ok v.
Proof. intros (p & s & -> & <-) Hv. by apply get_le_at_app. Qed.

Lemma located_bounds b off d : located b off d -> 0 <= off /\ off + zlen d <= zlen b.
Proof. intros (p & s & -> & <-). len. Qed.

Lemma located_prefix b off d d' : located b off (d ++ d') -> located b off d.
Proof. intros (p & s & -> & <-). exists p, (d' ++ s). split; [app_eq|done]. Qed.
Lemma located_suffix b off d d' : located b off (d ++ d') -> located b (off + zlen d) d'.
Proof. intros (p & s & -> & <-). exists (p ++ d), s. split; [app_eq|len]. Qed.
Lemma located_trans b off d o d' : located b off d -> located d o d' -> located b (off + o) d'.
Proof.
  intros (p & s & -> & <-) (p' & s' & -> & <-). exists (p ++ p'), (s' ++ s). split; [app_eq|len].
Qed.
