(* ===== verification/Uapi.v ===== *)
(** * Uapi: the generated kernel ABI as a parameter

    The numbers of the ABI are published by another repository
    (github.com/peios/pkm/uapi/go) and are not part of libp-go, so every
    definition that uses one takes it from an instance of the class [Uapi].  What
    the code relies on of them is stated by the classes of laws below: widths,
    pairwise distinct type codes, flag bits that do not overlap, offsets that lie
    inside the headers, and the record layouts that the comments and tests of
    src/ spell out.  [pkm] is a concrete instance satisfying all of them (the
    MS-DTYP values where the library documents that it follows MS-DTYP); it is
    used by the witnesses only. *)

From S2P Require Import Prelude.

Class Uapi := {
  (** ACE type bytes (MS-DTYP 2.4.4.1) *)
  KACS_ACE_TYPE_ACCESS_ALLOWED : Z;
  KACS_ACE_TYPE_ACCESS_DENIED : Z;
  KACS_ACE_TYPE_SYSTEM_AUDIT : Z;
  KACS_ACE_TYPE_SYSTEM_ALARM : Z;
  KACS_ACE_TYPE_ACCESS_ALLOWED_COMPOUND : Z;
  KACS_ACE_TYPE_ACCESS_ALLOWED_OBJECT : Z;
  KACS_ACE_TYPE_ACCESS_DENIED_OBJECT : Z;
  KACS_ACE_TYPE_SYSTEM_AUDIT_OBJECT : Z;
  KACS_ACE_TYPE_SYSTEM_ALARM_OBJECT : Z;
  KACS_ACE_TYPE_ACCESS_ALLOWED_CALLBACK : Z;
  KACS_ACE_TYPE_ACCESS_DENIED_CALLBACK : Z;
  KACS_ACE_TYPE_ACCESS_ALLOWED_CALLBACK_OBJECT : Z;
  KACS_ACE_TYPE_ACCESS_DENIED_CALLBACK_OBJECT : Z;
  KACS_ACE_TYPE_SYSTEM_AUDIT_CALLBACK : Z;
  KACS_ACE_TYPE_SYSTEM_ALARM_CALLBACK : Z;
  KACS_ACE_TYPE_SYSTEM_AUDIT_CALLBACK_OBJECT : Z;
  KACS_ACE_TYPE_SYSTEM_ALARM_CALLBACK_OBJECT : Z;
  KACS_ACE_TYPE_SYSTEM_MANDATORY_LABEL : Z;
  KACS_ACE_TYPE_SYSTEM_RESOURCE_ATTRIBUTE : Z;
  KACS_ACE_TYPE_SYSTEM_SCOPED_POLICY_ID : Z;
  KACS_ACE_TYPE_SYSTEM_PROCESS_TRUST_LABEL : Z;
  KACS_ACE_TYPE_SYSTEM_ACCESS_FILTER : Z;
  (** ACE flag bits, and the GUID-presence bits of object ACEs *)
  KACS_ACE_FLAG_OBJECT_INHERIT : Z;
  KACS_ACE_FLAG_CONTAINER_INHERIT : Z;
  KACS_ACE_FLAG_NO_PROPAGATE_INHERIT : Z;
  KACS_ACE_FLAG_INHERIT_ONLY : Z;
  KACS_ACE_FLAG_INHERITED : Z;
  KACS_ACE_FLAG_SUCCESSFUL_ACCESS : Z;
  KACS_ACE_FLAG_FAILED_ACCESS : Z;
  KACS_ACE_OBJECT_TYPE_PRESENT : Z;
  KACS_ACE_INHERITED_OBJECT_TYPE_PRESENT : Z;
  (** Security-descriptor header and control word *)
  KACS_SD_OWNER_DEFAULTED : Z;
  KACS_SD_GROUP_DEFAULTED : Z;
  KACS_SD_DACL_PRESENT : Z;
  KACS_SD_DACL_DEFAULTED : Z;
  KACS_SD_SACL_PRESENT : Z;
  KACS_SD_SACL_DEFAULTED : Z;
  KACS_SD_DACL_AUTO_INHERITED : Z;
  KACS_SD_SACL_AUTO_INHERITED : Z;
  KACS_SD_DACL_PROTECTED : Z;
  KACS_SD_SACL_PROTECTED : Z;
  KACS_SD_SELF_RELATIVE : Z;
  KACS_SD_HEADER_BYTES : Z;
  (** SECURITY_INFORMATION bits *)
  KACS_SECINFO_OWNER : Z;
  KACS_SECINFO_GROUP : Z;
  KACS_SECINFO_DACL : Z;
  KACS_SECINFO_SACL : Z;
  KACS_SECINFO_LABEL : Z;
  (** Claim type codes *)
  KACS_CLAIM_TYPE_INT64 : Z;
  KACS_CLAIM_TYPE_UINT64 : Z;
  KACS_CLAIM_TYPE_STRING : Z;
  KACS_CLAIM_TYPE_SID : Z;
  KACS_CLAIM_TYPE_BOOLEAN : Z;
  KACS_CLAIM_TYPE_OCTET : Z;
  (** Audit-context limits *)
  KACS_ACCESS_CHECK_MAX_AUDIT_CONTEXT_LEN : Z;
  KACS_ACCESS_CHECK_ARGS_SIZE : Z;
  KMES_CONFIG_MAX_NESTING_DEPTH_DEFAULT : Z;
  (** KMES event header *)
  KMES_EVENT_SIZE_OFFSET : Z;
  KMES_EVENT_HEADER_SIZE_OFFSET : Z;
  KMES_EVENT_TIMESTAMP_NS_OFFSET : Z;
  KMES_EVENT_SEQUENCE_OFFSET : Z;
  KMES_EVENT_CPU_ID_OFFSET : Z;
  KMES_EVENT_ORIGIN_CLASS_OFFSET : Z;
  KMES_EVENT_EFFECTIVE_TOKEN_GUID_OFFSET : Z;
  KMES_EVENT_TRUE_TOKEN_GUID_OFFSET : Z;
  KMES_EVENT_PROCESS_GUID_OFFSET : Z;
  KMES_EVENT_GUID_SIZE : Z;
  KMES_EVENT_TYPE_LEN_OFFSET : Z;
  KMES_EVENT_HEADER_BASE_SIZE : Z;
  (** Registry value types *)
  REG_NONE : Z;
  REG_SZ : Z;
  REG_EXPAND_SZ : Z;
  REG_BINARY : Z;
  REG_DWORD : Z;
  REG_DWORD_BIG_ENDIAN : Z;
  REG_LINK : Z;
  REG_MULTI_SZ : Z;
  REG_QWORD : Z;
  REG_TOMBSTONE : Z;
  (** Registry watch records *)
  REG_WATCH_KEY_DELETED : Z;
  REG_WATCH_EVENT_MIN_SIZE : Z;
  REG_WATCH_EVENT_TOTAL_LEN_OFFSET : Z;
  REG_WATCH_EVENT_TYPE_OFFSET : Z;
  REG_WATCH_EVENT_NAME_LEN_OFFSET : Z;
  REG_WATCH_EVENT_NAME_OFFSET : Z;
  REG_WATCH_SUBTREE_PATH_DEPTH_SIZE : Z;
  REG_WATCH_PATH_COMPONENT_LEN_SIZE : Z;
  (** Standard, generic and special access rights (MS-DTYP bit positions) *)
  KACS_ACCESS_DELETE : Z;
  KACS_ACCESS_READ_CONTROL : Z;
  KACS_ACCESS_WRITE_DAC : Z;
  KACS_ACCESS_WRITE_OWNER : Z;
  KACS_ACCESS_SYNCHRONIZE : Z;
  KACS_ACCESS_ACCESS_SYSTEM_SECURITY : Z;
  KACS_ACCESS_MAXIMUM_ALLOWED : Z;
  KACS_ACCESS_GENERIC_ALL : Z;
  KACS_ACCESS_GENERIC_EXECUTE : Z;
  KACS_ACCESS_GENERIC_WRITE : Z;
  KACS_ACCESS_GENERIC_READ : Z;
  (** File rights *)
  KACS_FILE_READ_DATA : Z;
  KACS_FILE_LIST_DIRECTORY : Z;
  KACS_FILE_WRITE_DATA : Z;
  KACS_FILE_ADD_FILE : Z;
  KACS_FILE_APPEND_DATA : Z;
  KACS_FILE_ADD_SUBDIRECTORY : Z;
  KACS_FILE_READ_EA : Z;
  KACS_FILE_WRITE_EA : Z;
  KACS_FILE_EXECUTE : Z;
  KACS_FILE_TRAVERSE : Z;
  KACS_FILE_DELETE_CHILD : Z;
  KACS_FILE_READ_ATTRIBUTES : Z;
  KACS_FILE_WRITE_ATTRIBUTES : Z;
  (** File dispositions, create options and statuses, mount policies *)
  KACS_DISPOSITION_SUPERSEDE : Z;
  KACS_DISPOSITION_OPEN : Z;
  KACS_DISPOSITION_CREATE : Z;
  KACS_DISPOSITION_OPEN_IF : Z;
  KACS_DISPOSITION_OVERWRITE : Z;
  KACS_DISPOSITION_OVERWRITE_IF : Z;
  KACS_CREATE_OPT_DIRECTORY : Z;
  KACS_CREATE_OPT_DELETE_ON_CLOSE : Z;
  KACS_BACKUP_INTENT : Z;
  KACS_RESTORE_INTENT : Z;
  KACS_STATUS_SUPERSEDED : Z;
  KACS_STATUS_OPENED : Z;
  KACS_STATUS_CREATED : Z;
  KACS_STATUS_OVERWRITTEN : Z;
  KACS_MOUNT_POLICY_UNMANAGED : Z;
  KACS_MOUNT_POLICY_DENY_MISSING : Z;
  KACS_MOUNT_POLICY_SYNTHESIZE_EPHEMERAL : Z;
  KACS_MOUNT_POLICY_SYNTHESIZE_PERSISTENT : Z;
  (** Token classes, rights, types, levels and elevations *)
  KACS_TOKEN_CLASS_USER : Z;
  KACS_TOKEN_CLASS_GROUPS : Z;
  KACS_TOKEN_CLASS_PRIVILEGES : Z;
  KACS_TOKEN_CLASS_OWNER : Z;
  KACS_TOKEN_CLASS_PRIMARY_GROUP : Z;
  KACS_TOKEN_CLASS_DEFAULT_DACL : Z;
  KACS_TOKEN_CLASS_SOURCE : Z;
  KACS_TOKEN_CLASS_TYPE : Z;
  KACS_TOKEN_CLASS_IMPERSONATION_LEVEL : Z;
  KACS_TOKEN_CLASS_STATISTICS : Z;
  KACS_TOKEN_CLASS_RESTRICTED_SIDS : Z;
  KACS_TOKEN_CLASS_SESSION_ID : Z;
  KACS_TOKEN_CLASS_ORIGIN : Z;
  KACS_TOKEN_CLASS_ELEVATION_TYPE : Z;
  KACS_TOKEN_CLASS_INTEGRITY_LEVEL : Z;
  KACS_TOKEN_CLASS_MANDATORY_POLICY : Z;
  KACS_TOKEN_CLASS_LOGON_SID : Z;
  KACS_TOKEN_CLASS_LOGON_TYPE : Z;
  KACS_TOKEN_CLASS_CAPABILITIES : Z;
  KACS_TOKEN_CLASS_APPCONTAINER_SID : Z;
  KACS_TOKEN_CLASS_USER_CLAIMS : Z;
  KACS_TOKEN_CLASS_DEVICE_CLAIMS : Z;
  KACS_TOKEN_CLASS_DEVICE_GROUPS : Z;
  KACS_TOKEN_CLASS_PROJECTED_SUPPLEMENTARY_GIDS : Z;
  KACS_TOKEN_ASSIGN_PRIMARY : Z;
  KACS_TOKEN_DUPLICATE : Z;
  KACS_TOKEN_IMPERSONATE : Z;
  KACS_TOKEN_QUERY : Z;
  KACS_TOKEN_QUERY_SOURCE : Z;
  KACS_TOKEN_ADJUST_PRIVS : Z;
  KACS_TOKEN_ADJUST_GROUPS : Z;
  KACS_TOKEN_ADJUST_DEFAULT : Z;
  KACS_TOKEN_ADJUST_SESSIONID : Z;
  KACS_TOKEN_ALL_ACCESS : Z;
  KACS_TOKEN_OPEN_REAL : Z;
  KACS_TOKEN_RESTRICT_WRITE_RESTRICTED : Z;
  KACS_TOKEN_TYPE_PRIMARY : Z;
  KACS_TOKEN_TYPE_IMPERSONATION : Z;
  KACS_IMLEVEL_ANONYMOUS : Z;
  KACS_IMLEVEL_IDENTIFICATION : Z;
  KACS_IMLEVEL_IMPERSONATION : Z;
  KACS_IMLEVEL_DELEGATION : Z;
  KACS_ELEVATION_DEFAULT : Z;
  KACS_ELEVATION_FULL : Z;
  KACS_ELEVATION_LIMITED : Z;
  (** KMES ring metadata, origins and batch limit *)
  KMES_METADATA_PAGE_SIZE : Z;
  KMES_METADATA_TOTAL_SIZE : Z;
  KMES_PRODUCER_VERSION_OFFSET : Z;
  KMES_PRODUCER_CPU_ID_OFFSET : Z;
  KMES_PRODUCER_GENERATION_OFFSET : Z;
  KMES_PRODUCER_WRITE_POS_OFFSET : Z;
  KMES_PRODUCER_TAIL_POS_OFFSET : Z;
  KMES_PRODUCER_FUTEX_COUNTER_OFFSET : Z;
  KMES_RING_MAGIC : bytes;
  KMES_RING_VERSION : Z;
  KMES_ORIGIN_USERSPACE : Z;
  KMES_ORIGIN_KMES : Z;
  KMES_ORIGIN_KACS : Z;
  KMES_ORIGIN_LCS : Z;
  KMES_BATCH_MAX_ENTRIES : Z;
  (** Registry: rights, create options and dispositions, transaction states, watches *)
  KEY_QUERY_VALUE : Z;
  KEY_SET_VALUE : Z;
  KEY_CREATE_SUB_KEY : Z;
  KEY_ENUMERATE_SUB_KEYS : Z;
  KEY_NOTIFY : Z;
  KEY_CREATE_LINK : Z;
  KEY_READ : Z;
  KEY_WRITE : Z;
  KEY_ALL_ACCESS : Z;
  REG_OPTION_VOLATILE : Z;
  REG_OPTION_CREATE_LINK : Z;
  REG_CREATED_NEW : Z;
  REG_OPENED_EXISTING : Z;
  REG_TXN_ACTIVE_UNBOUND : Z;
  REG_TXN_ACTIVE_BOUND : Z;
  REG_TXN_COMMITTED : Z;
  REG_TXN_ABORTED : Z;
  REG_TXN_TIMED_OUT : Z;
  REG_TXN_SOURCE_DOWN : Z;
  REG_NOTIFY_VALUE : Z;
  REG_NOTIFY_SUBKEY : Z;
  REG_NOTIFY_SD : Z;
  REG_NOTIFY_ALL : Z;
  REG_WATCH_VALUE_SET : Z;
  REG_WATCH_VALUE_DELETED : Z;
  REG_WATCH_SUBKEY_CREATED : Z;
  REG_WATCH_SUBKEY_DELETED : Z;
  REG_WATCH_SD_CHANGED : Z;
  REG_WATCH_OVERFLOW : Z
}.

(** A table of codes of width [w] without duplicates. *)
Definition codes_ok (w : Z) (l : list Z) : bool :=
  forallb (fun x => bool_decide (fits w x)) l && bool_decide (NoDup l).

(** A table of non-zero masks of width [w], no two sharing a bit. *)
Fixpoint masks_ok (w : Z) (l : list Z) : bool :=
  match l with
  | [] => true
  | x :: l => bool_decide (fits w x) && negb (x =? 0)
              && forallb (fun y => Z.land x y =? 0) l && masks_ok w l
  end.

(** A field of [n] bytes at offset [o] lies inside a header of [base] bytes. *)
Definition field_ok (base : Z) (f : Z * Z) : bool :=
  (0 <=? f.1) && (0 <=? f.2) && (f.1 + f.2 <=? base).

Section tables.
Context {U : Uapi}.

Definition ace_types : list Z :=
  [KACS_ACE_TYPE_ACCESS_ALLOWED;
   KACS_ACE_TYPE_ACCESS_DENIED;
   KACS_ACE_TYPE_SYSTEM_AUDIT;
   KACS_ACE_TYPE_SYSTEM_ALARM;
   KACS_ACE_TYPE_ACCESS_ALLOWED_COMPOUND;
   KACS_ACE_TYPE_ACCESS_ALLOWED_OBJECT;
   KACS_ACE_TYPE_ACCESS_DENIED_OBJECT;
   KACS_ACE_TYPE_SYSTEM_AUDIT_OBJECT;
   KACS_ACE_TYPE_SYSTEM_ALARM_OBJECT;
   KACS_ACE_TYPE_ACCESS_ALLOWED_CALLBACK;
   KACS_ACE_TYPE_ACCESS_DENIED_CALLBACK;
   KACS_ACE_TYPE_ACCESS_ALLOWED_CALLBACK_OBJECT;
   KACS_ACE_TYPE_ACCESS_DENIED_CALLBACK_OBJECT;
   KACS_ACE_TYPE_SYSTEM_AUDIT_CALLBACK;
   KACS_ACE_TYPE_SYSTEM_ALARM_CALLBACK;
   KACS_ACE_TYPE_SYSTEM_AUDIT_CALLBACK_OBJECT;
   KACS_ACE_TYPE_SYSTEM_ALARM_CALLBACK_OBJECT;
   KACS_ACE_TYPE_SYSTEM_MANDATORY_LABEL;
   KACS_ACE_TYPE_SYSTEM_RESOURCE_ATTRIBUTE;
   KACS_ACE_TYPE_SYSTEM_SCOPED_POLICY_ID;
   KACS_ACE_TYPE_SYSTEM_PROCESS_TRUST_LABEL;
   KACS_ACE_TYPE_SYSTEM_ACCESS_FILTER].
Definition ace_flags : list Z :=
  [KACS_ACE_FLAG_OBJECT_INHERIT;
   KACS_ACE_FLAG_CONTAINER_INHERIT;
   KACS_ACE_FLAG_NO_PROPAGATE_INHERIT;
   KACS_ACE_FLAG_INHERIT_ONLY;
   KACS_ACE_FLAG_INHERITED;
   KACS_ACE_FLAG_SUCCESSFUL_ACCESS;
   KACS_ACE_FLAG_FAILED_ACCESS].
Definition sd_controls : list Z :=
  [KACS_SD_OWNER_DEFAULTED;
   KACS_SD_GROUP_DEFAULTED;
   KACS_SD_DACL_PRESENT;
   KACS_SD_DACL_DEFAULTED;
   KACS_SD_SACL_PRESENT;
   KACS_SD_SACL_DEFAULTED;
   KACS_SD_DACL_AUTO_INHERITED;
   KACS_SD_SACL_AUTO_INHERITED;
   KACS_SD_DACL_PROTECTED;
   KACS_SD_SACL_PROTECTED;
   KACS_SD_SELF_RELATIVE].
(** The rights that sddl/tables.go gives a mnemonic to or composes one from. *)
Definition named_rights : list Z :=
  [KACS_ACCESS_GENERIC_ALL; KACS_ACCESS_GENERIC_READ; KACS_ACCESS_GENERIC_WRITE; KACS_ACCESS_GENERIC_EXECUTE;
   KACS_ACCESS_READ_CONTROL; KACS_ACCESS_DELETE; KACS_ACCESS_WRITE_DAC; KACS_ACCESS_WRITE_OWNER;
   KACS_ACCESS_SYNCHRONIZE; KACS_FILE_READ_DATA; KACS_FILE_WRITE_DATA; KACS_FILE_APPEND_DATA;
   KACS_FILE_READ_EA; KACS_FILE_WRITE_EA; KACS_FILE_EXECUTE; KACS_FILE_DELETE_CHILD;
   KACS_FILE_READ_ATTRIBUTES; KACS_FILE_WRITE_ATTRIBUTES].
Definition reg_types : list Z :=
  [REG_NONE;
   REG_SZ;
   REG_EXPAND_SZ;
   REG_BINARY;
   REG_DWORD;
   REG_DWORD_BIG_ENDIAN;
   REG_LINK;
   REG_MULTI_SZ;
   REG_QWORD;
   REG_TOMBSTONE].
End tables.

(** ** Laws *)

(** sd/ace.go: type bytes are distinct (each is a case of one switch), flags are
    separate bits of a byte, the two presence bits are separate bits of a u32. *)
Class AceLaws (U : Uapi) : Prop := {
  ace_types_ok : codes_ok 8 ace_types = true;
  ace_flags_ok : masks_ok 8 ace_flags = true;
  ace_present_ok : masks_ok 32 [KACS_ACE_OBJECT_TYPE_PRESENT; KACS_ACE_INHERITED_OBJECT_TYPE_PRESENT] = true
}.

(** sd/ace.go: "AceType is an ACE's type byte (MS-DTYP 2.4.4.1)", which numbers the
    types 0x00 to 0x15 in the order of [ace_types]. *)
Class AceNumbers (U : Uapi) : Prop := {
  ace_types_numbers : ace_types = [0; 1; 2; 3; 4; 5; 6; 7; 8; 9; 10; 11; 12; 13; 14; 15; 16; 17; 18; 19; 20; 21]
}.

(** sd/descriptor.go: "a 20-byte header"; control bits are separate bits of a u16. *)
Class SdLaws (U : Uapi) : Prop := {
  sd_header_20 : KACS_SD_HEADER_BYTES = 20;
  sd_controls_ok : masks_ok 16 sd_controls = true;
  secinfo_ok : masks_ok 32 [KACS_SECINFO_OWNER; KACS_SECINFO_GROUP; KACS_SECINFO_DACL;
                            KACS_SECINFO_SACL; KACS_SECINFO_LABEL] = true
}.

(** sd/claims.go: type codes are distinct u16 discriminants. *)
Class ClaimLaws (U : Uapi) : Prop := {
  claim_types_ok : codes_ok 16 [KACS_CLAIM_TYPE_INT64; KACS_CLAIM_TYPE_UINT64; KACS_CLAIM_TYPE_STRING;
                                KACS_CLAIM_TYPE_SID; KACS_CLAIM_TYPE_BOOLEAN; KACS_CLAIM_TYPE_OCTET] = true
}.

(** sd/auditcontext.go: the context is bounded by a positive length that a u32
    length field can carry, and the nesting limit (less one) leaves room for the context's
    own two maps and their scalars. *)
Class AuditLaws (U : Uapi) : Prop := {
  audit_len_ok : 0 < KACS_ACCESS_CHECK_MAX_AUDIT_CONTEXT_LEN < 2 ^ 31;
  audit_depth_ok : 4 <= KMES_CONFIG_MAX_NESTING_DEPTH_DEFAULT
}.

(** wire/event.go: the header fields sit within the fixed base. *)
Class EventLaws (U : Uapi) : Prop := {
  event_fields_ok :
    forallb (field_ok KMES_EVENT_HEADER_BASE_SIZE)
      [(KMES_EVENT_SIZE_OFFSET, 4); (KMES_EVENT_HEADER_SIZE_OFFSET, 4);
       (KMES_EVENT_TIMESTAMP_NS_OFFSET, 8); (KMES_EVENT_SEQUENCE_OFFSET, 8);
       (KMES_EVENT_CPU_ID_OFFSET, 2); (KMES_EVENT_ORIGIN_CLASS_OFFSET, 1);
       (KMES_EVENT_EFFECTIVE_TOKEN_GUID_OFFSET, KMES_EVENT_GUID_SIZE);
       (KMES_EVENT_TRUE_TOKEN_GUID_OFFSET, KMES_EVENT_GUID_SIZE);
       (KMES_EVENT_PROCESS_GUID_OFFSET, KMES_EVENT_GUID_SIZE);
       (KMES_EVENT_TYPE_LEN_OFFSET, 2)] = true
}.

(** registry/value.go: type tags are distinct u32 codes. *)
Class RegLaws (U : Uapi) : Prop := {
  reg_types_ok : codes_ok 32 reg_types = true
}.

(** registry/watch.go, parseEvents: "Each record is [total_len u32][type u16]
    [name_len u16][name], optionally followed by a subtree path [depth u16]
    ([clen u16][component])*". *)
Class WatchLaws (U : Uapi) : Prop := {
  watch_min_size : REG_WATCH_EVENT_MIN_SIZE = 8;
  watch_total_len : REG_WATCH_EVENT_TOTAL_LEN_OFFSET = 0;
  watch_type : REG_WATCH_EVENT_TYPE_OFFSET = 4;
  watch_name_len : REG_WATCH_EVENT_NAME_LEN_OFFSET = 6;
  watch_name : REG_WATCH_EVENT_NAME_OFFSET = 8;
  watch_depth : REG_WATCH_SUBTREE_PATH_DEPTH_SIZE = 2;
  watch_clen : REG_WATCH_PATH_COMPONENT_LEN_SIZE = 2
}.

(** sddl/tables.go tests each ACE flag and each ACL control bit with [f&bit != 0]: they are
    single bits, and the raw MS-DTYP bits 0x0100 and 0x0200, for which "KACS exposes no named
    constant", are bits of their own.  Rights are uint32 masks. *)
Class SddlLaws (U : Uapi) : Prop := {
  named_rights_fit : forallb (fun x => bool_decide (fits 32 x)) named_rights = true;
  ace_flags_bits : forallb is_bit ace_flags = true;
  sd_controls_bits : forallb is_bit sd_controls = true;
  sd_controls_req : masks_ok 16 (0x0100 :: 0x0200 :: sd_controls) = true
}.

(** ** A concrete instance *)

Definition pkm : Uapi := {|
  KACS_ACE_TYPE_ACCESS_ALLOWED := 0;
  KACS_ACE_TYPE_ACCESS_DENIED := 1;
  KACS_ACE_TYPE_SYSTEM_AUDIT := 2;
  KACS_ACE_TYPE_SYSTEM_ALARM := 3;
  KACS_ACE_TYPE_ACCESS_ALLOWED_COMPOUND := 4;
  KACS_ACE_TYPE_ACCESS_ALLOWED_OBJECT := 5;
  KACS_ACE_TYPE_ACCESS_DENIED_OBJECT := 6;
  KACS_ACE_TYPE_SYSTEM_AUDIT_OBJECT := 7;
  KACS_ACE_TYPE_SYSTEM_ALARM_OBJECT := 8;
  KACS_ACE_TYPE_ACCESS_ALLOWED_CALLBACK := 9;
  KACS_ACE_TYPE_ACCESS_DENIED_CALLBACK := 10;
  KACS_ACE_TYPE_ACCESS_ALLOWED_CALLBACK_OBJECT := 11;
  KACS_ACE_TYPE_ACCESS_DENIED_CALLBACK_OBJECT := 12;
  KACS_ACE_TYPE_SYSTEM_AUDIT_CALLBACK := 13;
  KACS_ACE_TYPE_SYSTEM_ALARM_CALLBACK := 14;
  KACS_ACE_TYPE_SYSTEM_AUDIT_CALLBACK_OBJECT := 15;
  KACS_ACE_TYPE_SYSTEM_ALARM_CALLBACK_OBJECT := 16;
  KACS_ACE_TYPE_SYSTEM_MANDATORY_LABEL := 17;
  KACS_ACE_TYPE_SYSTEM_RESOURCE_ATTRIBUTE := 18;
  KACS_ACE_TYPE_SYSTEM_SCOPED_POLICY_ID := 19;
  KACS_ACE_TYPE_SYSTEM_PROCESS_TRUST_LABEL := 20;
  KACS_ACE_TYPE_SYSTEM_ACCESS_FILTER := 21;
  KACS_ACE_FLAG_OBJECT_INHERIT := 1;
  KACS_ACE_FLAG_CONTAINER_INHERIT := 2;
  KACS_ACE_FLAG_NO_PROPAGATE_INHERIT := 4;
  KACS_ACE_FLAG_INHERIT_ONLY := 8;
  KACS_ACE_FLAG_INHERITED := 16;
  KACS_ACE_FLAG_SUCCESSFUL_ACCESS := 64;
  KACS_ACE_FLAG_FAILED_ACCESS := 128;
  KACS_ACE_OBJECT_TYPE_PRESENT := 1;
  KACS_ACE_INHERITED_OBJECT_TYPE_PRESENT := 2;
  KACS_SD_OWNER_DEFAULTED := 1;
  KACS_SD_GROUP_DEFAULTED := 2;
  KACS_SD_DACL_PRESENT := 4;
  KACS_SD_DACL_DEFAULTED := 8;
  KACS_SD_SACL_PRESENT := 16;
  KACS_SD_SACL_DEFAULTED := 32;
  KACS_SD_DACL_AUTO_INHERITED := 1024;
  KACS_SD_SACL_AUTO_INHERITED := 2048;
  KACS_SD_DACL_PROTECTED := 4096;
  KACS_SD_SACL_PROTECTED := 8192;
  KACS_SD_SELF_RELATIVE := 32768;
  KACS_SD_HEADER_BYTES := 20;
  KACS_SECINFO_OWNER := 1;
  KACS_SECINFO_GROUP := 2;
  KACS_SECINFO_DACL := 4;
  KACS_SECINFO_SACL := 8;
  KACS_SECINFO_LABEL := 16;
  KACS_CLAIM_TYPE_INT64 := 1;
  KACS_CLAIM_TYPE_UINT64 := 2;
  KACS_CLAIM_TYPE_STRING := 3;
  KACS_CLAIM_TYPE_SID := 5;
  KACS_CLAIM_TYPE_BOOLEAN := 6;
  KACS_CLAIM_TYPE_OCTET := 16;
  KACS_ACCESS_CHECK_MAX_AUDIT_CONTEXT_LEN := 4096;
  KACS_ACCESS_CHECK_ARGS_SIZE := 136;
  KMES_CONFIG_MAX_NESTING_DEPTH_DEFAULT := 32;
  KMES_EVENT_SIZE_OFFSET := 0;
  KMES_EVENT_HEADER_SIZE_OFFSET := 4;
  KMES_EVENT_TIMESTAMP_NS_OFFSET := 8;
  KMES_EVENT_SEQUENCE_OFFSET := 16;
  KMES_EVENT_CPU_ID_OFFSET := 24;
  KMES_EVENT_ORIGIN_CLASS_OFFSET := 26;
  KMES_EVENT_EFFECTIVE_TOKEN_GUID_OFFSET := 27;
  KMES_EVENT_TRUE_TOKEN_GUID_OFFSET := 43;
  KMES_EVENT_PROCESS_GUID_OFFSET := 59;
  KMES_EVENT_GUID_SIZE := 16;
  KMES_EVENT_TYPE_LEN_OFFSET := 75;
  KMES_EVENT_HEADER_BASE_SIZE := 77;
  REG_NONE := 0;
  REG_SZ := 1;
  REG_EXPAND_SZ := 2;
  REG_BINARY := 3;
  REG_DWORD := 4;
  REG_DWORD_BIG_ENDIAN := 5;
  REG_LINK := 6;
  REG_MULTI_SZ := 7;
  REG_QWORD := 11;
  REG_TOMBSTONE := 65535;
  REG_WATCH_KEY_DELETED := 6;
  REG_WATCH_EVENT_MIN_SIZE := 8;
  REG_WATCH_EVENT_TOTAL_LEN_OFFSET := 0;
  REG_WATCH_EVENT_TYPE_OFFSET := 4;
  REG_WATCH_EVENT_NAME_LEN_OFFSET := 6;
  REG_WATCH_EVENT_NAME_OFFSET := 8;
  REG_WATCH_SUBTREE_PATH_DEPTH_SIZE := 2;
  REG_WATCH_PATH_COMPONENT_LEN_SIZE := 2;
  KACS_ACCESS_DELETE := 65536;
  KACS_ACCESS_READ_CONTROL := 131072;
  KACS_ACCESS_WRITE_DAC := 262144;
  KACS_ACCESS_WRITE_OWNER := 524288;
  KACS_ACCESS_SYNCHRONIZE := 1048576;
  KACS_ACCESS_ACCESS_SYSTEM_SECURITY := 16777216;
  KACS_ACCESS_MAXIMUM_ALLOWED := 33554432;
  KACS_ACCESS_GENERIC_ALL := 268435456;
  KACS_ACCESS_GENERIC_EXECUTE := 536870912;
  KACS_ACCESS_GENERIC_WRITE := 1073741824;
  KACS_ACCESS_GENERIC_READ := 2147483648;
  KACS_FILE_READ_DATA := 1;
  KACS_FILE_LIST_DIRECTORY := 1;
  KACS_FILE_WRITE_DATA := 2;
  KACS_FILE_ADD_FILE := 2;
  KACS_FILE_APPEND_DATA := 4;
  KACS_FILE_ADD_SUBDIRECTORY := 4;
  KACS_FILE_READ_EA := 8;
  KACS_FILE_WRITE_EA := 16;
  KACS_FILE_EXECUTE := 32;
  KACS_FILE_TRAVERSE := 32;
  KACS_FILE_DELETE_CHILD := 64;
  KACS_FILE_READ_ATTRIBUTES := 128;
  KACS_FILE_WRITE_ATTRIBUTES := 256;
  KACS_DISPOSITION_SUPERSEDE := 0;
  KACS_DISPOSITION_OPEN := 1;
  KACS_DISPOSITION_CREATE := 2;
  KACS_DISPOSITION_OPEN_IF := 3;
  KACS_DISPOSITION_OVERWRITE := 4;
  KACS_DISPOSITION_OVERWRITE_IF := 5;
  KACS_CREATE_OPT_DIRECTORY := 1;
  KACS_CREATE_OPT_DELETE_ON_CLOSE := 4096;
  KACS_BACKUP_INTENT := 1;
  KACS_RESTORE_INTENT := 2;
  KACS_STATUS_SUPERSEDED := 0;
  KACS_STATUS_OPENED := 1;
  KACS_STATUS_CREATED := 2;
  KACS_STATUS_OVERWRITTEN := 3;
  KACS_MOUNT_POLICY_UNMANAGED := 0;
  KACS_MOUNT_POLICY_DENY_MISSING := 1;
  KACS_MOUNT_POLICY_SYNTHESIZE_EPHEMERAL := 2;
  KACS_MOUNT_POLICY_SYNTHESIZE_PERSISTENT := 3;
  KACS_TOKEN_CLASS_USER := 1;
  KACS_TOKEN_CLASS_GROUPS := 2;
  KACS_TOKEN_CLASS_PRIVILEGES := 3;
  KACS_TOKEN_CLASS_OWNER := 4;
  KACS_TOKEN_CLASS_PRIMARY_GROUP := 5;
  KACS_TOKEN_CLASS_DEFAULT_DACL := 6;
  KACS_TOKEN_CLASS_SOURCE := 7;
  KACS_TOKEN_CLASS_TYPE := 8;
  KACS_TOKEN_CLASS_IMPERSONATION_LEVEL := 9;
  KACS_TOKEN_CLASS_STATISTICS := 10;
  KACS_TOKEN_CLASS_RESTRICTED_SIDS := 11;
  KACS_TOKEN_CLASS_SESSION_ID := 12;
  KACS_TOKEN_CLASS_ORIGIN := 17;
  KACS_TOKEN_CLASS_ELEVATION_TYPE := 18;
  KACS_TOKEN_CLASS_INTEGRITY_LEVEL := 25;
  KACS_TOKEN_CLASS_MANDATORY_POLICY := 27;
  KACS_TOKEN_CLASS_LOGON_SID := 28;
  KACS_TOKEN_CLASS_LOGON_TYPE := 29;
  KACS_TOKEN_CLASS_CAPABILITIES := 30;
  KACS_TOKEN_CLASS_APPCONTAINER_SID := 31;
  KACS_TOKEN_CLASS_USER_CLAIMS := 33;
  KACS_TOKEN_CLASS_DEVICE_CLAIMS := 34;
  KACS_TOKEN_CLASS_DEVICE_GROUPS := 37;
  KACS_TOKEN_CLASS_PROJECTED_SUPPLEMENTARY_GIDS := 64;
  KACS_TOKEN_ASSIGN_PRIMARY := 1;
  KACS_TOKEN_DUPLICATE := 2;
  KACS_TOKEN_IMPERSONATE := 4;
  KACS_TOKEN_QUERY := 8;
  KACS_TOKEN_QUERY_SOURCE := 16;
  KACS_TOKEN_ADJUST_PRIVS := 32;
  KACS_TOKEN_ADJUST_GROUPS := 64;
  KACS_TOKEN_ADJUST_DEFAULT := 128;
  KACS_TOKEN_ADJUST_SESSIONID := 256;
  KACS_TOKEN_ALL_ACCESS := 983551;
  KACS_TOKEN_OPEN_REAL := 1;
  KACS_TOKEN_RESTRICT_WRITE_RESTRICTED := 8;
  KACS_TOKEN_TYPE_PRIMARY := 1;
  KACS_TOKEN_TYPE_IMPERSONATION := 2;
  KACS_IMLEVEL_ANONYMOUS := 0;
  KACS_IMLEVEL_IDENTIFICATION := 1;
  KACS_IMLEVEL_IMPERSONATION := 2;
  KACS_IMLEVEL_DELEGATION := 3;
  KACS_ELEVATION_DEFAULT := 1;
  KACS_ELEVATION_FULL := 2;
  KACS_ELEVATION_LIMITED := 3;
  KMES_METADATA_PAGE_SIZE := 4096;
  KMES_METADATA_TOTAL_SIZE := 8192;
  KMES_PRODUCER_VERSION_OFFSET := 8;
  KMES_PRODUCER_CPU_ID_OFFSET := 12;
  KMES_PRODUCER_GENERATION_OFFSET := 16;
  KMES_PRODUCER_WRITE_POS_OFFSET := 64;
  KMES_PRODUCER_TAIL_POS_OFFSET := 72;
  KMES_PRODUCER_FUTEX_COUNTER_OFFSET := 80;
  KMES_RING_MAGIC := str "KMESRING";
  KMES_RING_VERSION := 1;
  KMES_ORIGIN_USERSPACE := 0;
  KMES_ORIGIN_KMES := 1;
  KMES_ORIGIN_KACS := 2;
  KMES_ORIGIN_LCS := 3;
  KMES_BATCH_MAX_ENTRIES := 256;
  KEY_QUERY_VALUE := 1;
  KEY_SET_VALUE := 2;
  KEY_CREATE_SUB_KEY := 4;
  KEY_ENUMERATE_SUB_KEYS := 8;
  KEY_NOTIFY := 16;
  KEY_CREATE_LINK := 32;
  KEY_READ := 131097;
  KEY_WRITE := 131078;
  KEY_ALL_ACCESS := 983103;
  REG_OPTION_VOLATILE := 1;
  REG_OPTION_CREATE_LINK := 2;
  REG_CREATED_NEW := 1;
  REG_OPENED_EXISTING := 2;
  REG_TXN_ACTIVE_UNBOUND := 0;
  REG_TXN_ACTIVE_BOUND := 1;
  REG_TXN_COMMITTED := 2;
  REG_TXN_ABORTED := 3;
  REG_TXN_TIMED_OUT := 4;
  REG_TXN_SOURCE_DOWN := 5;
  REG_NOTIFY_VALUE := 1;
  REG_NOTIFY_SUBKEY := 2;
  REG_NOTIFY_SD := 4;
  REG_NOTIFY_ALL := 7;
  REG_WATCH_VALUE_SET := 1;
  REG_WATCH_VALUE_DELETED := 2;
  REG_WATCH_SUBKEY_CREATED := 3;
  REG_WATCH_SUBKEY_DELETED := 4;
  REG_WATCH_SD_CHANGED := 5;
  REG_WATCH_OVERFLOW := 7
|}.

#[export] Instance pkm_AceLaws : AceLaws pkm.
Proof. split; vm_compute; reflexivity. Qed.
#[export] Instance pkm_AceNumbers : AceNumbers pkm.
Proof. split. reflexivity. Qed.
#[export] Instance pkm_SdLaws : SdLaws pkm.
Proof. split; vm_compute; reflexivity. Qed.
#[export] Instance pkm_ClaimLaws : ClaimLaws pkm.
Proof. split; vm_compute; reflexivity. Qed.
#[export] Instance pkm_AuditLaws : AuditLaws pkm.
Proof. split; simpl; lia. Qed.
#[export] Instance pkm_EventLaws : EventLaws pkm.
Proof. split; vm_compute; reflexivity. Qed.
#[export] Instance pkm_RegLaws : RegLaws pkm.
Proof. split; vm_compute; reflexivity. Qed.
#[export] Instance pkm_SddlLaws : SddlLaws pkm.
Proof. split; vm_compute; reflexivity. Qed.
#[export] Instance pkm_WatchLaws : WatchLaws pkm.
Proof. split; reflexivity. Qed.

(** ** Lemmas on tables *)

Lemma codes_ok_fits w l x : codes_ok w l = true -> In x l -> fits w x.
Proof.
  unfold codes_ok. rewrite andb_true_iff, forallb_forall. intros [H _] Hx.
  by apply H, bool_decide_eq_true in Hx.
Qed.

Lemma codes_ok_NoDup w l : codes_ok w l = true -> NoDup l.
Proof. unfold codes_ok. rewrite andb_true_iff, bool_decide_eq_true. tauto. Qed.

Lemma masks_ok_cons w x l : masks_ok w (x :: l) = true ->
  fits w x /\ x <> 0 /\ (forall y, In y l -> Z.land x y = 0) /\ masks_ok w l = true.
Proof.
  simpl. rewrite !andb_true_iff, bool_decide_eq_true, negb_true_iff, Z.eqb_neq, forallb_forall.
  intros [[[? ?] Hd] ?]. split_and!; auto. intros y Hy. by apply Z.eqb_eq, Hd.
Qed.

Lemma masks_ok_fits w l x : masks_ok w l = true -> In x l -> fits w x /\ x <> 0.
Proof.
  induction l as [|y l IH]; [done|]. intros (?&?&_&?)%masks_ok_cons [->|]; auto.
Qed.

Lemma masks_ok_disjoint w l i j x y : masks_ok w l = true ->
  l !! i = Some x -> l !! j = Some y -> i <> j -> Z.land x y = 0.
Proof.
  revert i j. induction l as [|z l IH]; intros i j H Hi Hj Hij; [done|].
  apply masks_ok_cons in H as (_&_&Hd&Hl). destruct i as [|i], j as [|j]; simplify_eq/=; auto.
  - by apply Hd, list_elem_of_In, (list_elem_of_lookup_2 _ j).
  - rewrite Z.land_comm. by apply Hd, list_elem_of_In, (list_elem_of_lookup_2 _ i).
  - eapply IH; eauto.
Qed.
