(* ===== verification/GoStd.v ===== *)
(** * GoStd: the parts of the Go standard library the packages use

    [strings.Split] on a one-byte separator, [strconv.ParseUint] and
    [strconv.FormatUint], UTF-8 decoding and validity, UTF-16 encoding.  Go
    strings are byte sequences. *)

From S2P Require Import Prelude Outcome.

(** ** Definitions *)

(** [strings.Split(s, string(sep))]: always at least one part. *)
Fixpoint split_on (sep : byte) (s : bytes) : list bytes :=
  match s with
  | [] => [[]]
  | c :: s =>
      if bool_decide (c = sep) then [] :: split_on sep s
      else match split_on sep s with
           | p :: ps => (c :: p) :: ps
           | [] => [[c]]
           end
  end.

(** [strings.Join(parts, string(sep))] *)
Fixpoint join_with (sep : byte) (parts : list bytes) : bytes :=
  match parts with
  | [] => []
  | [p] => p
  | p :: ps => p ++ sep :: join_with sep ps
  end.

(** [strings.HasPrefix] *)
Fixpoint has_prefix (s p : bytes) {struct p} : bool :=
  match p, s with
  | [], _ => true
  | _ :: _, [] => false
  | y :: p, x :: s => bool_decide (x = y) && has_prefix s p
  end.

(** The value of a digit character in any base up to 36, as [strconv] reads it. *)
Definition digit_val (c : byte) : option Z :=
  let z := b2z c in
  if (48 <=? z) && (z <=? 57) then Some (z - 48)
  else if (97 <=? z) && (z <=? 122) then Some (z - 87)
  else if (65 <=? z) && (z <=? 90) then Some (z - 55)
  else None.

(** The digit character [strconv.FormatUint] writes (lower case). *)
Definition digit_char (d : Z) : byte :=
  if d <? 10 then z2b (48 + d) else z2b (87 + d).

Fixpoint parse_uint_loop (base bits : Z) (s : bytes) (n : Z) : option Z :=
  match s with
  | [] => Some n
  | c :: s =>
      match digit_val c with
      | Some d =>
          if base <=? d then None                           (* ErrSyntax *)
          else let n' := n * base + d in
               if 2 ^ bits <=? n' then None                 (* ErrRange *)
               else parse_uint_loop base bits s n'
      | None => None                                        (* ErrSyntax *)
      end
  end.

(** [strconv.ParseUint(s, base, bits)] for a base from 2 to 36; [None] is an error. *)
Definition parse_uint (base bits : Z) (s : bytes) : option Z :=
  match s with
  | [] => None
  | _ => parse_uint_loop base bits s 0
  end.

Fixpoint format_uint_loop (fuel : nat) (base v : Z) (acc : bytes) : bytes :=
  match fuel with
  | O => acc
  | S fuel =>
      let acc := digit_char (v mod base) :: acc in
      if v <? base then acc else format_uint_loop fuel base (v / base) acc
  end.

(** [strconv.FormatUint(v, base)]; 64 digits are enough for a uint64 in any base. *)
Definition format_uint (base v : Z) : bytes := format_uint_loop 64 base v [].

(** One step of UTF-8 decoding per rune, as the [unicode/utf8] package does it:
    overlong forms, surrogates and values past U+10FFFF are invalid, and an
    invalid sequence consumes one byte ([None]). *)
Definition in_range (lo hi : Z) (b : byte) : bool := (lo <=? b2z b) && (b2z b <=? hi).
Definition cont (b : byte) : Z := Z.land (b2z b) 63.

Fixpoint decode_runes (s : bytes) : list (option Z) :=
  match s with
  | [] => []
  | b0 :: s1 =>
      if b2z b0 <? 128 then Some (b2z b0) :: decode_runes s1 else
      match s1 with
      | [] => None :: decode_runes s1
      | b1 :: s2 =>
          if in_range 0xC2 0xDF b0 && in_range 0x80 0xBF b1
          then Some ((b2z b0 - 0xC0) * 64 + cont b1) :: decode_runes s2 else
          match s2 with
          | [] => None :: decode_runes s1
          | b2 :: s3 =>
              if in_range 0xE0 0xEF b0
                 && in_range (if b2z b0 =? 0xE0 then 0xA0 else 0x80)
                             (if b2z b0 =? 0xED then 0x9F else 0xBF) b1
                 && in_range 0x80 0xBF b2
              then Some (((b2z b0 - 0xE0) * 64 + cont b1) * 64 + cont b2) :: decode_runes s3 else
              match s3 with
              | [] => None :: decode_runes s1
              | b3 :: s4 =>
                  if in_range 0xF0 0xF4 b0
                     && in_range (if b2z b0 =? 0xF0 then 0x90 else 0x80)
                                 (if b2z b0 =? 0xF4 then 0x8F else 0xBF) b1
                     && in_range 0x80 0xBF b2 && in_range 0x80 0xBF b3
                  then Some ((((b2z b0 - 0xF0) * 64 + cont b1) * 64 + cont b2) * 64 + cont b3)
                       :: decode_runes s4
                  else None :: decode_runes s1
              end
          end
      end
  end.

(** [utf8.Valid] *)
Definition utf8_valid (s : bytes) : bool :=
  forallb (fun r => match r with Some _ => true | None => false end) (decode_runes s).

(** [[]rune(s)]: invalid bytes become U+FFFD. *)
Definition go_runes (s : bytes) : list Z := default 0xFFFD <$> decode_runes s.

(** [utf16.Encode] on one rune. *)
Definition utf16_units (r : Z) : list Z :=
  if ((0 <=? r) && (r <? 0xD800)) || ((0xE000 <=? r) && (r <? 0x10000)) then [r]
  else if (0x10000 <=? r) && (r <=? 0x10FFFF) then
    [0xD800 + Z.shiftr (r - 0x10000) 10; 0xDC00 + Z.land (r - 0x10000) 0x3FF]
  else [0xFFFD].
Definition utf16_encode (rs : list Z) : list Z := concat (utf16_units <$> rs).

(** ** Splitting and joining *)

Lemma split_on_nil sep s : split_on sep s <> [].
Proof. destruct s; simpl; [done|]. case_bool_decide; [done|]. by destruct (split_on sep s). Qed.

Lemma split_on_no_sep sep p : sep ∉ p -> split_on sep p = [p].
Proof.
  induction p as [|c p IH]; simpl; [done|]. intros H. apply not_elem_of_cons in H as [? ?].
  rewrite bool_decide_eq_false_2 by congruence. by rewrite IH.
Qed.

Lemma split_on_app sep p s : sep ∉ p -> split_on sep (p ++ sep :: s) = p :: split_on sep s.
Proof.
  induction p as [|c p IH]; simpl; intros H.
  - by rewrite bool_decide_eq_true_2.
  - apply not_elem_of_cons in H as [? ?].
    rewrite bool_decide_eq_false_2 by congruence. by rewrite IH.
Qed.

Lemma split_join sep parts : parts <> [] -> Forall (fun p => sep ∉ p) parts ->
  split_on sep (join_with sep parts) = parts.
Proof.
  induction parts as [|p [|q ps] IH]; intros Hne Hp; [done| |].
  - inversion Hp; subst. by apply split_on_no_sep.
  - inversion Hp; subst. change (join_with sep (p :: q :: ps)) with
      (p ++ sep :: join_with sep (q :: ps)).
    rewrite split_on_app by done. by rewrite IH.
Qed.

Lemma join_with_concat sep p ps : join_with sep (p :: ps) = p ++ concat (cons sep <$> ps).
Proof.
  revert p. induction ps as [|q ps IH]; intros p; [by rewrite app_nil_r|].
  change (join_with sep (p :: q :: ps)) with (p ++ sep :: join_with sep (q :: ps)). by rewrite IH.
Qed.

Lemma join_split sep s : join_with sep (split_on sep s) = s.
Proof.
  induction s as [|c s IH]; [done|]. cbn [split_on]. case_bool_decide as E.
  - subst c. rewrite join_with_concat. pose proof (split_on_nil sep s).
    destruct (split_on sep s) as [|w ws] eqn:Es; [done|]. rewrite join_with_concat in IH. cbn. by rewrite IH.
  - pose proof (split_on_nil sep s). destruct (split_on sep s) as [|w ws] eqn:Es; [done|].
    rewrite join_with_concat in *. cbn. by rewrite IH.
Qed.

(** ** Digits *)

Lemma digit_val_char d : 0 <= d < 36 -> digit_val (digit_char d) = Some d.
Proof.
  intros. unfold digit_val, digit_char. destruct (Z.ltb_spec d 10);
    rewrite !b2z_z2b_small by lia; repeat bool_case; simpl; try lia; try (f_equal; lia).
Qed.

Lemma digit_char_val_bounds d : 0 <= d < 36 ->
  48 <= b2z (digit_char d) <= 57 \/ 97 <= b2z (digit_char d) <= 122.
Proof.
  intros. unfold digit_char. destruct (Z.ltb_spec d 10); rewrite b2z_z2b_small; lia.
Qed.

Lemma digit_char_decimal d : 0 <= d < 10 -> 48 <= b2z (digit_char d) <= 57.
Proof. intros. unfold digit_char. destruct (Z.ltb_spec d 10); rewrite ?b2z_z2b_small; lia. Qed.

(** [format_uint] writes the digits of [v], which [parse_uint_loop] reads back. *)
Lemma parse_format_loop base bits fuel v acc :
  2 <= base <= 36 -> 0 <= v < base ^ Z.of_nat fuel -> v < 2 ^ bits ->
  (0 < fuel)%nat ->
  parse_uint_loop base bits (format_uint_loop fuel base v acc) 0
  = parse_uint_loop base bits acc v.
Proof.
  intros Hb. revert v acc. induction fuel as [|fuel IH]; intros v acc Hv Hbits Hf; [lia|].
  assert (0 <= v mod base < base) by (apply Z.mod_pos_bound; lia).
  assert (0 <= v / base) by (apply Z.div_pos; lia).
  pose proof (Z.div_mod v base ltac:(lia)).
  assert (Hstep : parse_uint_loop base bits (digit_char (v mod base) :: acc) (v / base)
                  = parse_uint_loop base bits acc v).
  { cbn [parse_uint_loop]. rewrite digit_val_char by lia. cbv zeta.
    replace (v / base * base + v mod base) with v by lia.
    by destruct (Z.leb_spec base (v mod base)), (Z.leb_spec (2 ^ bits) v); try lia. }
  cbn [format_uint_loop]. cbv zeta. destruct (Z.ltb_spec v base).
  - rewrite Z.div_small in Hstep by lia. done.
  - assert (base ^ Z.of_nat (S fuel) = base * base ^ Z.of_nat fuel) as E.
    { rewrite Nat2Z.inj_succ, Z.pow_succ_r; lia. }
    rewrite E in Hv. destruct (decide (fuel = O)) as [->|].
    { change (base ^ Z.of_nat 0) with 1 in Hv. lia. }
    assert (v / base <= v) by (apply Z.div_le_upper_bound; nia).
    assert (v / base < base ^ Z.of_nat fuel) by (apply Z.div_lt_upper_bound; lia).
    rewrite IH by lia. done.
Qed.

Lemma format_uint_loop_app fuel base v acc :
  exists ds, format_uint_loop fuel base v acc = ds ++ acc /\ ((0 < fuel)%nat -> ds <> []).
Proof.
  revert v acc. induction fuel as [|fuel IH]; intros v acc; cbn [format_uint_loop]; cbv zeta.
  { exists []. split; [done|lia]. }
  destruct (v <? base).
  - exists [digit_char (v mod base)]. done.
  - destruct (IH (v / base) (digit_char (v mod base) :: acc)) as (ds & -> & _).
    exists (ds ++ [digit_char (v mod base)]). split; [by rewrite <- app_assoc|].
    intros _. by destruct ds.
Qed.

Lemma format_uint_ne base v : format_uint base v <> [].
Proof.
  unfold format_uint. destruct (format_uint_loop_app 64 base v []) as (ds & -> & H).
  rewrite app_nil_r. apply H. lia.
Qed.

Lemma parse_format_uint base bits v : 2 <= base <= 36 -> 0 <= v < 2 ^ bits -> v < 2 ^ 64 ->
  parse_uint base bits (format_uint base v) = Some v.
Proof.
  intros Hb Hv H64. unfold parse_uint. destruct (format_uint base v) eqn:E.
  { by apply format_uint_ne in E. }
  rewrite <- E. unfold format_uint.
  assert (v < base ^ Z.of_nat 64).
  { apply Z.lt_le_trans with (2 ^ 64); [done|]. apply Z.pow_le_mono_l. lia. }
  by rewrite parse_format_loop by lia.
Qed.

Lemma digit_val_nonneg c d : digit_val c = Some d -> 0 <= d.
Proof.
  unfold digit_val. cbv zeta.
  repeat match goal with |- (if ?c then _ else _) = _ -> _ => destruct c eqn:?; [intros [= <-]; lia|] end. done.
Qed.

Lemma parse_uint_loop_bound base bits s n v : 0 <= base -> 0 <= n < 2 ^ bits ->
  parse_uint_loop base bits s n = Some v -> 0 <= v < 2 ^ bits.
Proof.
  intros Hb. revert n. induction s as [|c s IH]; intros n Hn; cbn [parse_uint_loop]; [by intros [= <-]|].
  destruct (digit_val c) as [d|] eqn:Hd; [|done]. apply digit_val_nonneg in Hd.
  destruct (base <=? d); [done|]. cbv zeta. destruct (Z.leb_spec (2 ^ bits) (n * base + d)); [done|].
  apply IH. nia.
Qed.

Lemma parse_uint_bound base bits s v : 0 <= base -> 0 <= bits -> parse_uint base bits s = Some v -> 0 <= v < 2 ^ bits.
Proof.
  intros Hb Hw. unfold parse_uint. destruct s; [done|]. apply parse_uint_loop_bound; [done|].
  pose proof (Z.pow_pos_nonneg 2 bits). lia.
Qed.

Lemma format_uint_loop_digits (P : byte -> Prop) fuel base v acc : 0 < base ->
  (forall d, 0 <= d < base -> P (digit_char d)) -> Forall P acc ->
  Forall P (format_uint_loop fuel base v acc).
Proof.
  intros Hb HP. revert v acc. induction fuel as [|fuel IH]; intros v acc Ha; simpl; [done|].
  assert (P (digit_char (v mod base))) by (apply HP, Z.mod_pos_bound; lia).
  destruct (v <? base); [by constructor|]. apply IH. by constructor.
Qed.

(** Every character of a number is a digit or a lower-case letter. *)
Lemma format_uint_chars base v : 2 <= base <= 36 ->
  Forall (fun c => 48 <= b2z c <= 57 \/ 97 <= b2z c <= 122) (format_uint base v).
Proof.
  intros. apply format_uint_loop_digits; [lia| |done].
  intros. apply digit_char_val_bounds. lia.
Qed.

Lemma format_uint_decimal v : Forall (fun c => 48 <= b2z c <= 57) (format_uint 10 v).
Proof.
  apply format_uint_loop_digits; [lia| |done]. intros. by apply digit_char_decimal.
Qed.

Lemma format_uint_no_dash base v : 2 <= base <= 36 -> x2d ∉ format_uint base v.
Proof.
  intros Hb Hin. pose proof (format_uint_chars base v Hb) as H.
  rewrite Forall_forall in H. apply H in Hin. change (b2z x2d) with 45 in Hin. lia.
Qed.

(** ** Case folding *)

(** The runes that [unicode.SimpleFold] identifies with an ASCII letter: its two cases, and U+017F
    (long s) for s, U+212A (Kelvin sign) for k. *)
Definition fold_orbit (r : Z) : list Z :=
  let lower := if (65 <=? r) && (r <=? 90) then r + 32 else r in
  if (97 <=? lower) && (lower <=? 122)
  then lower :: lower - 32 :: (if lower =? 115 then [0x17F] else if lower =? 107 then [0x212A] else [])
  else [r].

Fixpoint fold_eq (rs ts : list Z) : bool :=
  match rs, ts with
  | [], [] => true
  | r :: rs, t :: ts => bool_decide (r ∈ fold_orbit t) && fold_eq rs ts
  | _, _ => false
  end.

(** [strings.EqualFold(s, t)] for an ASCII [t]. *)
Definition equal_fold (s t : bytes) : bool := fold_eq (go_runes s) (b2z <$> t).
