(* ===== verification/GoText.v ===== *)
(** * GoText: text conversions of the Go standard library

    What the sddl package takes from [strings], [strconv], [encoding/hex] and
    [unicode/utf16]: [TrimSpace], [ToUpper], [ParseInt] with base detection,
    [FormatInt], the hex codec, UTF-16 decoding and UTF-8 encoding.  The round
    trips are the ones the SDDL printer and parser rely on. *)

From S2P Require Import Prelude Outcome GoStd.

(** ** UTF-8 and UTF-16 *)

(** A Unicode scalar value. *)
Definition scalar (r : Z) : Prop := 0 <= r < 0xD800 \/ 0xE000 <= r < 0x110000.
#[export] Instance scalar_dec r : Decision (scalar r).
Proof. unfold scalar. apply _. Defined.

(** [utf8.AppendRune]: what is not a scalar value is written as U+FFFD. *)
Definition utf8_rune (r : Z) : bytes :=
  if negb (bool_decide (scalar r)) then [xef; xbf; xbd]
  else if r <? 0x80 then [z2b r]
  else if r <? 0x800 then [z2b (0xC0 + r / 64); z2b (0x80 + r mod 64)]
  else if r <? 0x10000 then [z2b (0xE0 + r / 4096); z2b (0x80 + r / 64 mod 64); z2b (0x80 + r mod 64)]
  else [z2b (0xF0 + r / 262144); z2b (0x80 + r / 4096 mod 64); z2b (0x80 + r / 64 mod 64);
        z2b (0x80 + r mod 64)].

(** [string(runes)] *)
Definition utf8_encode (rs : list Z) : bytes := concat (utf8_rune <$> rs).

(** [utf16.Decode]: a surrogate without its pair becomes U+FFFD. *)
Fixpoint utf16_decode (us : list Z) : list Z :=
  match us with
  | [] => []
  | u :: us' =>
      if (u <? 0xD800) || (0xE000 <=? u) then u :: utf16_decode us' else
      match us' with
      | v :: us'' =>
          if (u <? 0xDC00) && (0xDC00 <=? v) && (v <? 0xE000)
          then 0x10000 + (u - 0xD800) * 1024 + (v - 0xDC00) :: utf16_decode us''
          else 0xFFFD :: utf16_decode us'
      | [] => [0xFFFD]
      end
  end.

(** ** Trimming and case *)

(** The UTF-8 forms of the runes [unicode.IsSpace] accepts. *)
Definition space_forms : list bytes :=
  utf8_rune <$> ([9; 10; 11; 12; 13; 32; 0x85; 0xA0; 0x1680] ++ (Z.of_nat <$> seq 0x2000 11)
                 ++ [0x2028; 0x2029; 0x202f; 0x205f; 0x3000]).

(** [s] without the first of the prefixes [ps] it starts with. *)
Fixpoint strip_one (ps : list bytes) (s : bytes) : option bytes :=
  match ps with
  | [] => None
  | p :: ps => if has_prefix s p then Some (drop (length p) s) else strip_one ps s
  end.
Fixpoint strip_all (fuel : nat) (ps : list bytes) (s : bytes) : bytes :=
  match fuel with
  | O => s
  | S fuel => match strip_one ps s with Some s' => strip_all fuel ps s' | None => s end
  end.

(** [strings.TrimSpace]: the suffix is trimmed as a prefix of the reversed
    string (a complete UTF-8 form at the end is what [utf8.DecodeLastRune] decodes). *)
Definition trim_space (s : bytes) : bytes :=
  let s := strip_all (length s) space_forms s in
  rev (strip_all (length s) (@rev byte <$> space_forms) (rev s)).

(** [strings.ToUpper] on ASCII text. *)
Definition upper (c : byte) : byte :=
  if (97 <=? b2z c) && (b2z c <=? 122) then z2b (b2z c - 32) else c.
Definition to_upper (s : bytes) : bytes := upper <$> s.

(** [strings.IndexByte(s, c)] split at: the text before and after the first [c]. *)
Fixpoint cut_at (c : byte) (s : bytes) : option (bytes * bytes) :=
  match s with
  | [] => None
  | x :: s =>
      if bool_decide (x = c) then Some ([], s)
      else match cut_at c s with Some (p, q) => Some (x :: p, q) | None => None end
  end.

(** [strings.Join(parts, sep)] *)
Fixpoint join_str (sep : bytes) (parts : list bytes) : bytes :=
  match parts with
  | [] => []
  | [p] => p
  | p :: ps => p ++ sep ++ join_str sep ps
  end.

(** ** Integers *)

(** [strconv.FormatInt(v, 10)] *)
Definition format_int (v : Z) : bytes :=
  if v <? 0 then x2d :: format_uint 10 (- v) else format_uint 10 v.

(** [strconv.ParseUint(s, 0, 64)] on a text without underscores: the base is read
    off the prefix, a leading zero alone meaning octal. *)
Definition parse_uint0 (s : bytes) : option Z :=
  match s with
  | [] => None
  | c :: rest =>
      if bool_decide (c = x30) then
        match rest with
        | b :: ds =>
            let prefix l := (1 <=? zlen ds) && (Z.lor (b2z b) 32 =? l) in
            if prefix 98 then parse_uint_loop 2 64 ds 0            (* 0b *)
            else if prefix 111 then parse_uint_loop 8 64 ds 0      (* 0o *)
            else if prefix 120 then parse_uint_loop 16 64 ds 0     (* 0x *)
            else parse_uint_loop 8 64 rest 0
        | [] => Some 0
        end
      else parse_uint_loop 10 64 s 0
  end.

(** [strconv.ParseInt(s, 0, 64)] *)
Definition parse_int0 (s : bytes) : option Z :=
  match s with
  | [] => None
  | c :: rest =>
      let neg := bool_decide (c = x2d) in
      let s := if neg || bool_decide (c = x2b) then rest else s in
      un ← parse_uint0 s;
      if negb neg && (2 ^ 63 <=? un) then None
      else if neg && (2 ^ 63 <? un) then None
      else Some (if neg then - un else un)
  end.

(** ** Hex *)

Definition hex_byte (b : byte) : bytes := [digit_char (b2z b / 16); digit_char (b2z b mod 16)].
(** [hex.EncodeToString] *)
Definition hex_encode (b : bytes) : bytes := concat (hex_byte <$> b).

Definition hex_val (c : byte) : option Z :=
  d ← digit_val c; if d <? 16 then Some d else None.
(** [hex.DecodeString]: an odd length is an error. *)
Fixpoint hex_decode (s : bytes) : option bytes :=
  match s with
  | [] => Some []
  | h :: l :: s =>
      x ← hex_val h; y ← hex_val l; b ← hex_decode s; Some (z2b (16 * x + y) :: b)
  | [_] => None
  end.

(** ** UTF-8: the decoder and the encoder are inverse on valid text *)

Lemma in_range_spec lo hi b : in_range lo hi b = true <-> lo <= b2z b <= hi.
Proof. unfold in_range. lia. Qed.
Lemma cont_spec b : in_range 0x80 0xBF b = true -> cont b = b2z b - 128.
Proof.
  intros H%in_range_spec. unfold cont. change 63 with (Z.ones 6). rewrite Z.land_ones by lia.
  change (2 ^ 6) with 64. Z.div_mod_to_equations. lia.
Qed.

(** The bytes of one rune of each width, from the byte ranges of the decoder. *)
Lemma utf8_rune_1 b0 : b2z b0 < 128 -> scalar (b2z b0) /\ utf8_rune (b2z b0) = [b0].
Proof.
  intros H. pose proof (b2z_bound b0). assert (scalar (b2z b0)) as Hs by (left; lia). split; [done|].
  unfold utf8_rune. rewrite (bool_decide_eq_true_2 _ Hs). cbn [negb].
  destruct (Z.ltb_spec (b2z b0) 0x80); [|lia]. by rewrite z2b_b2z.
Qed.

Lemma z2b_is z b : z = b2z b -> z2b z = b.
Proof. intros ->. apply z2b_b2z. Qed.

Lemma utf8_rune_2 b0 b1 : in_range 0xC2 0xDF b0 && in_range 0x80 0xBF b1 = true ->
  scalar ((b2z b0 - 0xC0) * 64 + cont b1) /\ utf8_rune ((b2z b0 - 0xC0) * 64 + cont b1) = [b0; b1].
Proof.
  intros H. apply andb_true_iff in H as [H0 H1]. rewrite (cont_spec _ H1).
  apply in_range_spec in H0, H1. set (r := _ + _). assert (scalar r) as Hs by (left; lia).
  split; [done|]. unfold utf8_rune. rewrite (bool_decide_eq_true_2 _ Hs). cbn [negb].
  destruct (Z.ltb_spec r 0x80); [lia|]. destruct (Z.ltb_spec r 0x800); [|lia].
  repeat f_equal; apply z2b_is; Z.div_mod_to_equations; lia.
Qed.

Lemma utf8_rune_3 b0 b1 b2 :
  in_range 0xE0 0xEF b0
  && in_range (if b2z b0 =? 0xE0 then 0xA0 else 0x80) (if b2z b0 =? 0xED then 0x9F else 0xBF) b1
  && in_range 0x80 0xBF b2 = true ->
  let r := ((b2z b0 - 0xE0) * 64 + cont b1) * 64 + cont b2 in scalar r /\ utf8_rune r = [b0; b1; b2].
Proof.
  intros H r. apply andb_true_iff in H as [H H2]. apply andb_true_iff in H as [H0 H1].
  assert (in_range 0x80 0xBF b1 = true) as H1'.
  { apply in_range_spec in H1. apply in_range_spec. destruct (_ =? 0xE0), (_ =? 0xED); lia. }
  unfold r. rewrite (cont_spec _ H1'), (cont_spec _ H2). clear r.
  apply in_range_spec in H0, H1, H2. set (r := _ + _). 
  assert (scalar r /\ 0x800 <= r < 0x10000) as [Hs Hr].
  { unfold scalar, r. destruct (Z.eqb_spec (b2z b0) 0xE0), (Z.eqb_spec (b2z b0) 0xED); lia. }
  split; [done|]. unfold utf8_rune. rewrite (bool_decide_eq_true_2 _ Hs). cbn [negb].
  destruct (Z.ltb_spec r 0x80); [lia|]. destruct (Z.ltb_spec r 0x800); [lia|].
  destruct (Z.ltb_spec r 0x10000); [|lia].
  apply in_range_spec in H1'. repeat f_equal; apply z2b_is; Z.div_mod_to_equations; lia.
Qed.

Lemma utf8_rune_4 b0 b1 b2 b3 :
  in_range 0xF0 0xF4 b0
  && in_range (if b2z b0 =? 0xF0 then 0x90 else 0x80) (if b2z b0 =? 0xF4 then 0x8F else 0xBF) b1
  && in_range 0x80 0xBF b2 && in_range 0x80 0xBF b3 = true ->
  let r := (((b2z b0 - 0xF0) * 64 + cont b1) * 64 + cont b2) * 64 + cont b3 in
  scalar r /\ utf8_rune r = [b0; b1; b2; b3].
Proof.
  intros H r. apply andb_true_iff in H as [H H3]. apply andb_true_iff in H as [H H2].
  apply andb_true_iff in H as [H0 H1].
  assert (in_range 0x80 0xBF b1 = true) as H1'.
  { apply in_range_spec in H1. apply in_range_spec. destruct (_ =? 0xF0), (_ =? 0xF4); lia. }
  unfold r. rewrite (cont_spec _ H1'), (cont_spec _ H2), (cont_spec _ H3). clear r.
  apply in_range_spec in H0, H1, H2, H3. set (r := _ + _).
  assert (0x10000 <= r < 0x110000) as Hr.
  { unfold r. destruct (Z.eqb_spec (b2z b0) 0xF0), (Z.eqb_spec (b2z b0) 0xF4); lia. }
  assert (scalar r) as Hs by (unfold scalar; lia).
  split; [done|]. unfold utf8_rune. rewrite (bool_decide_eq_true_2 _ Hs). cbn [negb].
  destruct (Z.ltb_spec r 0x80); [lia|]. destruct (Z.ltb_spec r 0x800); [lia|].
  destruct (Z.ltb_spec r 0x10000); [lia|].
  apply in_range_spec in H1'. repeat f_equal; apply z2b_is; Z.div_mod_to_equations; lia.
Qed.

Lemma utf8_step r b rs s : scalar r -> utf8_rune r = b ->
  Forall scalar (default 0xFFFD <$> rs) /\ concat (utf8_rune <$> (default 0xFFFD <$> rs)) = s ->
  Forall scalar (default 0xFFFD <$> Some r :: rs)
  /\ concat (utf8_rune <$> (default 0xFFFD <$> Some r :: rs)) = b ++ s.
Proof. intros Hs <- [Hf <-]. split; [by constructor|done]. Qed.

Lemma utf8_decode_encode s : utf8_valid s = true ->
  Forall scalar (go_runes s) /\ utf8_encode (go_runes s) = s.
Proof.
  unfold utf8_valid, go_runes, utf8_encode. remember (length s) as n eqn:Hn.
  revert s Hn. induction (lt_wf n) as [n _ IH]. intros s ->.
  assert (IHs : forall s', (length s' < length s)%nat ->
    forallb (fun r => match r with Some _ => true | None => false end) (decode_runes s') = true -> _)
    by (intros s' Hlt; exact (IH (length s') Hlt s' eq_refl)). clear IH.
  destruct s as [|b0 s1]; [done|]. cbn [decode_runes]. cbn [length] in IHs.
  destruct (Z.ltb_spec (b2z b0) 128) as [H0|_].
  { destruct (utf8_rune_1 _ H0) as [Hs E]. intros Hv. by apply (utf8_step _ [b0]), IHs; [..|lia|]. }
  destruct s1 as [|b1 s2]; [done|]. cbn [length] in IHs.
  destruct (in_range 0xC2 0xDF b0 && in_range 0x80 0xBF b1) eqn:C2.
  { destruct (utf8_rune_2 _ _ C2) as [Hs E]. intros Hv. by apply (utf8_step _ [b0; b1]), IHs; [..|lia|]. }
  destruct s2 as [|b2 s3]; [done|]. cbn [length] in IHs.
  match goal with |- context [if ?c then _ else match s3 with [] => _ | _ => _ end] => destruct c eqn:C3 end.
  { destruct (utf8_rune_3 _ _ _ C3) as [Hs E]. intros Hv. by apply (utf8_step _ [b0; b1; b2]), IHs; [..|lia|]. }
  destruct s3 as [|b3 s4]; [done|]. cbn [length] in IHs.
  match goal with |- context [if ?c then Some ?x :: _ else None :: _] => destruct c eqn:C4 end; [|done].
  destruct (utf8_rune_4 _ _ _ _ C4) as [Hs E]. intros Hv. by apply (utf8_step _ [b0; b1; b2; b3]), IHs; [..|lia|].
Qed.

(** What the decoder reads off the bytes of one rune of each width. *)
Lemma decode_runes_2 b0 b1 s r : 0xC2 <= b2z b0 <= 0xDF -> 0x80 <= b2z b1 <= 0xBF ->
  r = (b2z b0 - 0xC0) * 64 + (b2z b1 - 128) -> decode_runes (b0 :: b1 :: s) = Some r :: decode_runes s.
Proof.
  intros H0%in_range_spec H1%in_range_spec ->. cbn [decode_runes]. rewrite H0, H1, (cont_spec _ H1). apply in_range_spec in H0.
  by destruct (Z.ltb_spec (b2z b0) 128); [lia|].
Qed.
Lemma decode_runes_3 b0 b1 b2 s r : 0xE0 <= b2z b0 <= 0xEF ->
  (if b2z b0 =? 0xE0 then 0xA0 else 0x80) <= b2z b1 <= (if b2z b0 =? 0xED then 0x9F else 0xBF) ->
  0x80 <= b2z b1 <= 0xBF -> 0x80 <= b2z b2 <= 0xBF ->
  r = ((b2z b0 - 0xE0) * 64 + (b2z b1 - 128)) * 64 + (b2z b2 - 128) ->
  decode_runes (b0 :: b1 :: b2 :: s) = Some r :: decode_runes s.
Proof.
  intros H0 H1%in_range_spec H1'%in_range_spec H2%in_range_spec ->. cbn [decode_runes].
  destruct (Z.ltb_spec (b2z b0) 128); [lia|]. replace (in_range 0xC2 0xDF b0) with false by (unfold in_range; lia).
  apply in_range_spec in H0. by rewrite H0, H1, H2, (cont_spec _ H1'), (cont_spec _ H2).
Qed.
Lemma decode_runes_4 b0 b1 b2 b3 s r : 0xF0 <= b2z b0 <= 0xF4 ->
  (if b2z b0 =? 0xF0 then 0x90 else 0x80) <= b2z b1 <= (if b2z b0 =? 0xF4 then 0x8F else 0xBF) ->
  0x80 <= b2z b1 <= 0xBF -> 0x80 <= b2z b2 <= 0xBF -> 0x80 <= b2z b3 <= 0xBF ->
  r = (((b2z b0 - 0xF0) * 64 + (b2z b1 - 128)) * 64 + (b2z b2 - 128)) * 64 + (b2z b3 - 128) ->
  decode_runes (b0 :: b1 :: b2 :: b3 :: s) = Some r :: decode_runes s.
Proof.
  intros H0 H1%in_range_spec H1'%in_range_spec H2%in_range_spec H3%in_range_spec ->. cbn [decode_runes].
  destruct (Z.ltb_spec (b2z b0) 128); [lia|]. replace (in_range 0xC2 0xDF b0) with false by (unfold in_range; lia).
  replace (in_range 0xE0 0xEF b0) with false by (unfold in_range; lia). cbn [andb].
  apply in_range_spec in H0. by rewrite H0, H1, H2, H3, (cont_spec _ H1'), (cont_spec _ H2), (cont_spec _ H3).
Qed.

(** The decoder reads back one encoded rune, whatever follows. *)
Lemma decode_runes_rune r s : scalar r -> decode_runes (utf8_rune r ++ s) = Some r :: decode_runes s.
Proof.
  intros Hs. unfold utf8_rune. rewrite (bool_decide_eq_true_2 _ Hs). cbn [negb]. unfold scalar in Hs.
  pose proof b2z_z2b_small as Hb.
  destruct (Z.ltb_spec r 0x80); [|destruct (Z.ltb_spec r 0x800); [|destruct (Z.ltb_spec r 0x10000)]]; cbn [app].
  - cbn [decode_runes]. rewrite Hb by lia. by destruct (Z.ltb_spec r 128); [|lia].
  - pose proof (Hb (0xC0 + r / 64) ltac:(Z.div_mod_to_equations; lia)) as B0.
    pose proof (Hb (0x80 + r mod 64) ltac:(Z.div_mod_to_equations; lia)) as B1.
    apply decode_runes_2; rewrite ?B0, ?B1; Z.div_mod_to_equations; lia.
  - pose proof (Hb (0xE0 + r / 4096) ltac:(Z.div_mod_to_equations; lia)) as B0.
    pose proof (Hb (0x80 + r / 64 mod 64) ltac:(Z.div_mod_to_equations; lia)) as B1.
    pose proof (Hb (0x80 + r mod 64) ltac:(Z.div_mod_to_equations; lia)) as B2.
    apply decode_runes_3; rewrite ?B0, ?B1, ?B2; repeat case_match; Z.div_mod_to_equations; lia.
  - pose proof (Hb (0xF0 + r / 262144) ltac:(Z.div_mod_to_equations; lia)) as B0.
    pose proof (Hb (0x80 + r / 4096 mod 64) ltac:(Z.div_mod_to_equations; lia)) as B1.
    pose proof (Hb (0x80 + r / 64 mod 64) ltac:(Z.div_mod_to_equations; lia)) as B2.
    pose proof (Hb (0x80 + r mod 64) ltac:(Z.div_mod_to_equations; lia)) as B3.
    apply decode_runes_4; rewrite ?B0, ?B1, ?B2, ?B3; repeat case_match; Z.div_mod_to_equations; lia.
Qed.

Lemma utf8_encode_valid rs : Forall scalar rs -> utf8_valid (utf8_encode rs) = true.
Proof.
  unfold utf8_valid, utf8_encode. induction 1 as [|r rs Hr _ IH]; [done|].
  cbn [fmap list_fmap concat]. by rewrite decode_runes_rune by done.
Qed.

(** The texts [utf8.Valid] accepts are the encodings of sequences of scalar values. *)
Lemma utf8_valid_encoding s : utf8_valid s = true <-> exists rs, Forall scalar rs /\ s = utf8_encode rs.
Proof.
  split; [intros [? ?]%utf8_decode_encode; eauto|]. intros (rs & Hrs & ->). by apply utf8_encode_valid.
Qed.

(** ** UTF-16 *)

Lemma utf16_decode_units r us : scalar r -> utf16_decode (utf16_units r ++ us) = r :: utf16_decode us.
Proof.
  intros Hs. unfold scalar in Hs. unfold utf16_units.
  destruct (Z.ltb_spec r 0x10000) as [Hlt|Hge].
  - replace (_ || _) with true by lia. cbn [app utf16_decode].
    replace (_ || _) with true by lia. done.
  - replace (_ || _) with false by lia. replace (_ && _) with true by lia. cbn [app utf16_decode].
    rewrite shiftr_div by lia. change 0x3FF with (Z.ones 10). rewrite Z.land_ones by lia.
    set (q := (r - 65536) / 2 ^ 10). set (m := (r - 65536) mod 2 ^ 10).
    assert (0 <= q < 1024 /\ 0 <= m < 1024 /\ r = 65536 + q * 1024 + m) as (Hq & Hm & Hr)
      by (unfold q, m; Z.div_mod_to_equations; lia).
    replace (_ || _) with false by lia. replace (_ && _) with true by lia. f_equal. lia.
Qed.

Lemma utf16_decode_encode rs : Forall scalar rs -> utf16_decode (utf16_encode rs) = rs.
Proof.
  unfold utf16_encode. induction 1 as [|r rs Hr _ IH]; [done|]. rewrite fmap_cons. cbn [concat].
  by rewrite utf16_decode_units, IH.
Qed.

Lemma utf16_encode_fits rs : Forall (fits 16) (utf16_encode rs).
Proof.
  unfold utf16_encode. apply Forall_concat, Forall_fmap, Forall_true. intros r. unfold compose, utf16_units.
  destruct ((0 <=? r) && (r <? 0xD800) || (0xE000 <=? r) && (r <? 0x10000)) eqn:E.
  { apply Forall_singleton. unfold fits. lia. }
  destruct ((0x10000 <=? r) && (r <=? 0x10FFFF)) eqn:E'; [|apply Forall_singleton; unfold fits; clear; lia].
  rewrite shiftr_div by lia. change 0x3FF with (Z.ones 10). rewrite Z.land_ones by lia.
  apply Forall_cons; split; [|apply Forall_singleton]; unfold fits; Z.div_mod_to_equations; lia.
Qed.

(** ** Integers *)

Lemma format_uint_loop_head fuel base v acc : 2 <= base <= 36 -> 0 < v < base ^ Z.of_nat fuel ->
  exists d ds, format_uint_loop fuel base v acc = digit_char d :: ds /\ 0 < d < base.
Proof.
  intros Hb. revert v acc. induction fuel as [|fuel IH]; intros v acc Hv.
  { change (base ^ Z.of_nat 0) with 1 in Hv. lia. }
  cbn [format_uint_loop]. cbv zeta. destruct (Z.ltb_spec v base).
  - exists v, acc. rewrite Z.mod_small by lia. split; [done|lia].
  - apply IH. assert (base ^ Z.of_nat (S fuel) = base * base ^ Z.of_nat fuel) as E.
    { rewrite Nat2Z.inj_succ, Z.pow_succ_r; lia. } rewrite E in Hv.
    split; [apply Z.div_str_pos; lia|apply Z.div_lt_upper_bound; lia].
Qed.

(** A positive number starts with a digit other than zero. *)
Lemma format_uint_head base v : 2 <= base <= 36 -> 0 < v < 2 ^ 64 ->
  exists d ds, format_uint base v = digit_char d :: ds /\ 0 < d < base.
Proof.
  intros Hb Hv. apply format_uint_loop_head; [done|]. split; [lia|].
  apply Z.lt_le_trans with (2 ^ 64); [lia|]. apply Z.pow_le_mono_l. lia.
Qed.

Lemma digit_char_inj_0 d : 0 <= d < 10 -> digit_char d = x30 -> d = 0.
Proof.
  intros Hd E. apply (f_equal digit_val) in E. rewrite digit_val_char in E by lia.
  change (digit_val x30) with (Some 0) in E. congruence.
Qed.

Lemma parse_uint0_format v : 0 <= v < 2 ^ 64 -> parse_uint0 (format_uint 10 v) = Some v.
Proof.
  intros Hv. destruct (decide (v = 0)) as [->|]; [reflexivity|].
  destruct (format_uint_head 10 v) as (d & ds & E & Hd); [lia..|].
  pose proof (parse_format_uint 10 64 v ltac:(lia) Hv ltac:(lia)) as Hp.
  unfold parse_uint0. rewrite E in *. rewrite bool_decide_eq_false_2; [exact Hp|].
  intros ->%digit_char_inj_0; lia.
Qed.

Lemma format_uint_first v : exists c s, format_uint 10 v = c :: s /\ 48 <= b2z c <= 57.
Proof.
  pose proof (format_uint_decimal v) as H. pose proof (format_uint_ne 10 v).
  destruct (format_uint 10 v) as [|c s]; [done|]. inversion H; eauto.
Qed.

Lemma parse_int0_format v : - 2 ^ 63 <= v < 2 ^ 63 -> parse_int0 (format_int v) = Some v.
Proof.
  intros Hv. unfold format_int, parse_int0. destruct (Z.ltb_spec v 0).
  - rewrite bool_decide_eq_true_2 by done. cbn [orb negb]. rewrite parse_uint0_format by lia.
    cbn [mbind option_bind andb]. destruct (Z.ltb_spec (2 ^ 63) (- v)); [lia|]. f_equal. lia.
  - destruct (format_uint_first v) as (c & s & E & Hc). rewrite E.
    rewrite !bool_decide_eq_false_2 by (intros ->; destruct Hc as [? Hc']; by apply Hc'). cbn [orb negb].
    rewrite <- E, parse_uint0_format by lia. cbn [mbind option_bind andb].
    destruct (Z.leb_spec (2 ^ 63) v); [lia|done].
Qed.

Lemma parse_uint0_bound s v : parse_uint0 s = Some v -> 0 <= v < 2 ^ 64.
Proof.
  unfold parse_uint0. destruct s as [|c rest]; [done|].
  destruct (bool_decide _); [destruct rest as [|b ds]; [by intros [= <-]|]; cbv zeta;
    repeat match goal with |- (if ?c then _ else _) = _ -> _ => destruct c end|];
    apply parse_uint_loop_bound; lia.
Qed.

Lemma parse_int0_bound s n : parse_int0 s = Some n -> - 2 ^ 63 <= n < 2 ^ 63.
Proof.
  unfold parse_int0. destruct s as [|c rest]; [done|].
  set (neg := bool_decide (c = x2d)). set (t := if neg || _ then rest else c :: rest). clearbody neg t. cbv zeta.
  destruct (parse_uint0 t) as [un|] eqn:E; [|done]. apply parse_uint0_bound in E. cbn [mbind option_bind].
  destruct (Z.leb_spec (2 ^ 63) un), (Z.ltb_spec (2 ^ 63) un), neg; cbn [negb andb]; intros [= <-]; lia.
Qed.

Lemma cut_at_inv c s p q : cut_at c s = Some (p, q) -> s = p ++ c :: q /\ c ∉ p.
Proof.
  revert p. induction s as [|x s IH]; intros p; cbn [cut_at]; [done|]. case_bool_decide as Hx.
  - intros [= <- <-]. subst x. split; [done|]. apply not_elem_of_nil.
  - destruct (cut_at c s) as [[p' q']|]; [|done]. intros [= <- <-]. destruct (IH p' eq_refl) as [-> ?].
    split; [done|]. apply not_elem_of_cons. split; congruence.
Qed.

(** ** Hex *)

Lemma hex_val_char d : 0 <= d < 16 -> hex_val (digit_char d) = Some d.
Proof.
  intros. unfold hex_val. rewrite digit_val_char by lia. cbn [mbind option_bind].
  by destruct (Z.ltb_spec d 16); [|lia].
Qed.

Lemma hex_decode_encode b : hex_decode (hex_encode b) = Some b.
Proof.
  unfold hex_encode. induction b as [|x b IH]; [done|]. rewrite fmap_cons. cbn [concat hex_byte app hex_decode].
  pose proof (b2z_bound x). rewrite !hex_val_char by (Z.div_mod_to_equations; lia).
  cbn [mbind option_bind]. rewrite IH. cbn [mbind option_bind]. do 2 f_equal.
  apply z2b_is. Z.div_mod_to_equations. lia.
Qed.

Lemma length_hex_encode b : length (hex_encode b) = (2 * length b)%nat.
Proof. unfold hex_encode. induction b as [|x b IH]; [done|]. rewrite fmap_cons. cbn -[Nat.mul]. rewrite IH. lia. Qed.

Lemma hex_encode_chars b : Forall (fun c => 48 <= b2z c <= 57 \/ 97 <= b2z c <= 102) (hex_encode b).
Proof.
  unfold hex_encode. apply Forall_concat, Forall_fmap, Forall_true. intros x. unfold compose, hex_byte.
  pose proof (b2z_bound x). assert (forall d, 0 <= d < 16 ->
    48 <= b2z (digit_char d) <= 57 \/ 97 <= b2z (digit_char d) <= 102) as Hd.
  { intros d ?. unfold digit_char. destruct (Z.ltb_spec d 10); rewrite b2z_z2b_small; lia. }
  do 2 (apply Forall_cons; split; [apply Hd; Z.div_mod_to_equations; lia|]). constructor.
Qed.

(** ** Trimming *)

(** A printable ASCII character is the start and the end of no space. *)
Definition plain (c : byte) : Prop := 32 < b2z c < 127.

Lemma strip_one_plain ps c s :
  forallb (fun p => match p with x :: _ => negb (in_range 33 126 x) | [] => false end) ps = true ->
  plain c -> strip_one ps (c :: s) = None.
Proof.
  intros H Hc. unfold plain in Hc. induction ps as [|p ps IH]; [done|].
  cbn [forallb] in H. apply andb_true_iff in H as [Hp H]. destruct p as [|x p]; [done|].
  cbn [strip_one has_prefix]. rewrite bool_decide_eq_false_2; [by apply IH|].
  intros ->. apply negb_true_iff in Hp. unfold in_range in Hp. lia.
Qed.

Lemma strip_all_plain fuel ps c s :
  forallb (fun p => match p with x :: _ => negb (in_range 33 126 x) | [] => false end) ps = true ->
  plain c -> strip_all fuel ps (c :: s) = c :: s.
Proof. intros H Hc. destruct fuel; [done|]. cbn [strip_all]. by rewrite strip_one_plain. Qed.

(** Text that starts and ends with a printable ASCII character is left alone. *)
Lemma trim_space_plain c s d : plain c -> plain d -> trim_space (c :: s ++ [d]) = c :: s ++ [d].
Proof.
  intros Hc Hd. unfold trim_space. cbv zeta.
  rewrite strip_all_plain; [|vm_compute; reflexivity|done].
  rewrite app_comm_cons, rev_app_distr. change (rev [d] ++ rev (c :: s)) with (d :: rev (c :: s)).
  rewrite strip_all_plain; [|vm_compute; reflexivity|done].
  change (d :: rev (c :: s)) with (rev [d] ++ rev (c :: s)). by rewrite <- rev_app_distr, rev_involutive.
Qed.

(** ** Joining *)

Lemma join_str_cons sep p ps : join_str sep (p :: ps) = p ++ concat ((fun q => sep ++ q) <$> ps).
Proof.
  revert p. induction ps as [|q ps IH]; intros p; [by rewrite app_nil_r|].
  change (join_str sep (p :: q :: ps)) with (p ++ sep ++ join_str sep (q :: ps)).
  rewrite IH, fmap_cons. cbn [concat]. by rewrite <- app_assoc.
Qed.
