(* ===== verification/Sid.v ===== *)
(** * Sid: security identifiers (wire/sid.go)

    [SID] is the fixed 68-byte array of the Go type; [wf] is the invariant
    every value of the type satisfies (the type's fields are unexported, so only
    the functions of wire/sid.go build one): either the zero value, or revision 1
    with at most 15 sub-authorities and a zero tail, which is what makes Go's
    [==] a correct equality test.  The theorems: every producer establishes the
    invariant; the binary codec and the textual codec are inverse to their
    parsers; [Child] is "append a RID" and fails exactly at the limit. *)

From S2P Require Import Prelude Outcome Codec GoStd.

Module SID.

(** ** Definitions *)

Definition maxSubAuthorities : Z := 15.
Definition maxSIDBytes : Z := 8 + 4 * maxSubAuthorities.

Record t := mk { raw : bytes }.

Definition zero : t := mk (replicate (Z.to_nat maxSIDBytes) x00).

#[global] Instance t_eq_dec : EqDecision t.
Proof. solve_decision. Defined.

Definition ParseSID (buf : bytes) : outcome t :=
  if zlen buf <? 8 then Err ErrBadSID else
  revision ← index buf 0;
  if negb (b2z revision =? 1) then Err ErrBadSID else
  c ← index buf 1;
  let count := b2z c in
  if maxSubAuthorities <? count then Err ErrBadSID else
  let n := 8 + 4 * count in
  if zlen buf <? n then Err ErrBadSID else
  b ← slice buf 0 n;
  Ok (mk (go_copy (raw zero) b)).

(** The bytes the two loops of NewSID store: the identifier authority,
    big-endian, and one little-endian word per sub-authority. *)
Definition authority_bytes (authority : Z) : bytes :=
  (fun i => z2b (Z.shiftr authority (8 * (5 - i)))) <$> [0; 1; 2; 3; 4; 5].
Definition sub_bytes (sa : Z) : bytes :=
  [z2b sa; z2b (Z.shiftr sa 8); z2b (Z.shiftr sa 16); z2b (Z.shiftr sa 24)].

Definition NewSID (authority : Z) (subAuthorities : list Z) : outcome t :=
  if maxSubAuthorities <? zlen subAuthorities then Err ErrBadSID else
  Ok (mk (go_copy (raw zero)
    ([x01; z2b (zlen subAuthorities)] ++ authority_bytes authority
     ++ concat (sub_bytes <$> subAuthorities)))).

Definition IsValid (s : t) : bool :=
  match raw s with b :: _ => b2z b =? 1 | [] => false end.

(** [s.raw[1]], the sub-authority count. *)
Definition count (s : t) : Z :=
  match raw s with _ :: c :: _ => b2z c | _ => 0 end.

Definition Bytes (s : t) : bytes :=
  if IsValid s then zseg 0 (8 + 4 * count s) (raw s) else [].

Definition Child (s : t) (rid : Z) : outcome t :=
  if negb (IsValid s) then Err ErrBadSID else
  let c := count s in
  if maxSubAuthorities <=? c then Err ErrBadSID else
  let off := 8 + 4 * c in
  r ← put_le 4 (raw s) off rid;
  Ok (mk (<[1%nat := z2b (c + 1)]> r)).

(** [for _, x := range s.raw[2:8] { auth = auth<<8 | uint64(x) }] *)
Definition authority (s : t) : Z :=
  foldl (fun auth x => Z.lor (Z.shiftl auth 8) (b2z x)) 0 (zseg 2 8 (raw s)).

(** [uint32(s.raw[off]) | uint32(s.raw[off+1])<<8 | ...] with [off = 8 + 4*i]. *)
Definition sub_authority (s : t) (i : Z) : Z :=
  let off := 8 + 4 * i in
  match zseg off (off + 4) (raw s) with
  | [b0; b1; b2; b3] =>
      Z.lor (Z.lor (Z.lor (b2z b0) (Z.shiftl (b2z b1) 8)) (Z.shiftl (b2z b2) 16))
            (Z.shiftl (b2z b3) 24)
  | _ => 0
  end.

Definition sub_authorities (s : t) : list Z :=
  (fun i => sub_authority s (Z.of_nat i)) <$> seq 0 (Z.to_nat (count s)).

Definition format_authority (auth : Z) : bytes :=
  if 2 ^ 32 <=? auth then str "0x" ++ format_uint 16 auth else format_uint 10 auth.

Definition String (s : t) : bytes :=
  if negb (IsValid s) then str "S-?" else
  str "S-1-" ++ format_authority (authority s)
  ++ concat ((fun sub => x2d :: format_uint 10 sub) <$> sub_authorities s).

Definition parse_authority (a : bytes) : option Z :=
  if (2 <? zlen a) && (has_prefix a (str "0x") || has_prefix a (str "0X"))
  then parse_uint 16 48 (drop 2 a) else parse_uint 10 48 a.

Definition SIDFromString (s : bytes) : outcome t :=
  match split_on x2d s with
  | p0 :: p1 :: a :: ps =>
      if negb (bool_decide (p0 = str "S") && bool_decide (p1 = str "1")) then Err ErrBadSID else
      match parse_authority a with
      | None => Err ErrBadSID
      | Some authority =>
          match mapM (parse_uint 10 32) ps with
          | None => Err ErrBadSID
          | Some subs => NewSID authority subs
          end
      end
  | _ => Err ErrBadSID
  end.

(** ** The abstract view and the invariant of the type *)

(** What a SID denotes: a 48-bit identifier authority and up to 15 32-bit
    sub-authorities. *)
Definition ok_parts (a : Z) (ss : list Z) : Prop :=
  fits 48 a /\ Forall (fits 32) ss /\ zlen ss <= maxSubAuthorities.

(** The canonical binary encoding of MS-DTYP 2.4.2. *)
Definition enc (a : Z) (ss : list Z) : bytes :=
  [x01; z2b (zlen ss)] ++ be_enc 6 a ++ words 4 ss.

Definition denotes (s : t) (a : Z) (ss : list Z) : Prop :=
  ok_parts a ss /\ NewSID a ss = Ok s.

Definition wf (s : t) : Prop := s = zero \/ exists a ss, denotes s a ss.

(** ** Layout lemmas *)

Lemma authority_bytes_be a : authority_bytes a = be_enc 6 a.
Proof.
  unfold authority_bytes, be_enc. cbn [le_enc rev fmap list_fmap app].
  rewrite !shiftr_div, !Z.div_div by lia. cbn -[z2b Z.div Z.pow].
  by rewrite Z.div_1_r.
Qed.

Lemma sub_bytes_le a : sub_bytes a = le_enc 4 a.
Proof. unfold sub_bytes. cbn [le_enc]. by rewrite !shiftr_div, !Z.div_div by lia. Qed.

Lemma zlen_enc a ss : zlen (enc a ss) = 8 + 4 * zlen ss.
Proof. unfold enc. len. Qed.
#[local] Hint Rewrite zlen_enc : zlen.

Lemma NewSID_raw a ss s : NewSID a ss = Ok s ->
  zlen ss <= maxSubAuthorities /\
  raw s = enc a ss ++ replicate (Z.to_nat (60 - 4 * zlen ss)) x00.
Proof.
  unfold NewSID. destruct (Z.ltb_spec maxSubAuthorities (zlen ss)) as [|Hle]; [done|].
  intros <-%Ok_inj. split; [done|]. unfold raw at 1.
  rewrite authority_bytes_be.
  rewrite (list_fmap_ext sub_bytes (le_enc 4)) by (intros; apply sub_bytes_le).
  fold (words 4 ss) (enc a ss).
  assert (length (enc a ss) = Z.to_nat (8 + 4 * zlen ss)) as E.
  { rewrite <- zlen_enc with (a := a). unfold zlen. by rewrite Nat2Z.id. }
  unfold maxSubAuthorities in Hle. pose proof (zlen_nonneg ss).
  unfold zero, raw, go_copy. rewrite length_replicate, drop_replicate, E.
  change (Z.to_nat maxSIDBytes) with 68%nat. rewrite take_ge by lia.
  f_equal. f_equal. lia.
Qed.

Lemma denotes_raw s a ss : denotes s a ss ->
  raw s = enc a ss ++ replicate (Z.to_nat (60 - 4 * zlen ss)) x00.
Proof. intros [_ H]. by apply NewSID_raw in H as [_ ?]. Qed.

Lemma denotes_count s a ss : denotes s a ss -> IsValid s = true /\ count s = zlen ss.
Proof.
  intros H. pose proof (denotes_raw _ _ _ H) as E. destruct H as [(_&_&Hl) _].
  unfold IsValid, count. rewrite E. cbn [enc app]. split; [done|].
  unfold maxSubAuthorities in Hl. apply b2z_z2b_small. len.
Qed.

Lemma denotes_Bytes s a ss : denotes s a ss -> Bytes s = enc a ss.
Proof.
  intros H. destruct (denotes_count _ _ _ H) as [Hv Hc]. unfold Bytes.
  rewrite Hv, Hc, (denotes_raw _ _ _ H). apply zseg_app_l. by rewrite zlen_enc.
Qed.

Lemma denotes_authority s a ss : denotes s a ss -> authority s = a.
Proof.
  intros H. unfold authority. rewrite foldl_be_dec, (denotes_raw _ _ _ H). unfold enc.
  rewrite <- !(assoc_L app), (zseg_app_mid [x01; z2b (zlen ss)]) by len.
  apply be_dec_enc_small, H.
Qed.
Lemma denotes_sub_authority s a ss i w : denotes s a ss -> ss !! i = Some w ->
  sub_authority s (Z.of_nat i) = w.
Proof.
  intros H Hi. pose proof (denotes_raw _ _ _ H) as E. destruct H as [(_&Hf&_) _].
  pose proof (Forall_lookup_1 _ _ _ _ Hf Hi) as Hw.
  pose proof (lookup_lt_Some _ _ _ Hi) as Hlt.
  assert (zlen (take i ss) = Z.of_nat i) as Hti by (rewrite zlen_take; unfold zlen; lia).
  unfold sub_authority. rewrite E, (zseg_is _ ([x01; z2b (zlen ss)] ++ be_enc 6 a ++ words 4 (take i ss))
    (le_enc 4 w) (words 4 (drop (S i) ss) ++ replicate (Z.to_nat (60 - 4 * zlen ss)) x00)).
  - cbn [le_enc]. rewrite lor4_le_dec. apply (le_dec_enc_small 4 w). by unfold fits in Hw.
  - unfold enc. rewrite <- (take_drop_middle _ _ _ Hi) at 2. rewrite words_app, words_cons. app_eq.
  - len.
  - len.
Qed.

Lemma denotes_sub_authorities s a ss : denotes s a ss -> sub_authorities s = ss.
Proof.
  intros H. unfold sub_authorities. destruct (denotes_count _ _ _ H) as [_ ->].
  apply list_eq. intros i. rewrite list_lookup_fmap.
  unfold zlen. rewrite Nat2Z.id. destruct (ss !! i) as [w|] eqn:Hi.
  - rewrite lookup_seq_lt by eauto using lookup_lt_Some. simpl. f_equal.
    by eapply denotes_sub_authority.
  - rewrite lookup_seq_ge; [done|]. by apply lookup_ge_None.
Qed.

Lemma ok_parts_NewSID a ss : ok_parts a ss -> exists s, NewSID a ss = Ok s.
Proof.
  intros (_&_&?). unfold NewSID. destruct (Z.ltb_spec maxSubAuthorities (zlen ss)); [lia|eauto].
Qed.

(** What a buffer accepted by [ParseSID] looks like, and what is read from it. *)
Lemma ParseSID_enc a ss rest : ok_parts a ss -> ParseSID (enc a ss ++ rest) = NewSID a ss.
Proof.
  intros Hp. destruct (ok_parts_NewSID _ _ Hp) as [s E].
  pose proof (denotes_raw _ _ _ (conj Hp E)) as Hr.
  pose proof (zlen_enc a ss) as Hl. pose proof (zlen_nonneg ss). pose proof (zlen_nonneg rest).
  destruct Hp as (_&_&Hm). unfold maxSubAuthorities in Hm.
  unfold ParseSID. destruct (Z.ltb_spec (zlen (enc a ss ++ rest)) 8); [len|].
  rewrite (index_is _ [] x01 (z2b (zlen ss) :: be_enc 6 a ++ words 4 ss ++ rest) 0) by (done || (unfold enc; app_eq)).
  rewrite bind_Ok. change (negb (b2z x01 =? 1)) with false. cbv iota.
  rewrite (index_is _ [x01] (z2b (zlen ss)) (be_enc 6 a ++ words 4 ss ++ rest) 1) by (done || (unfold enc; app_eq)).
  rewrite bind_Ok, b2z_z2b_small by lia. cbv zeta.
  destruct (Z.ltb_spec maxSubAuthorities (zlen ss)); [unfold maxSubAuthorities in *; lia|].
  destruct (Z.ltb_spec (zlen (enc a ss ++ rest)) (8 + 4 * zlen ss)); [len|].
  rewrite slice_prefix by lia. rewrite bind_Ok, E. f_equal. destruct s as [r]. f_equal.
  cbn [raw] in Hr. rewrite Hr. unfold go_copy, zero, raw. rewrite length_replicate, drop_replicate.
  assert (length (enc a ss) = Z.to_nat (8 + 4 * zlen ss)) as Hn.
  { rewrite <- Hl. unfold zlen. by rewrite Nat2Z.id. }
  change (Z.to_nat maxSIDBytes) with 68%nat. rewrite Hn, take_ge by lia. do 2 f_equal. lia.
Qed.

Lemma ParseSID_inv buf s : ParseSID buf = Ok s ->
  exists a ss rest, denotes s a ss /\ buf = enc a ss ++ rest.
Proof.
  intros H. assert (exists a ss rest, ok_parts a ss /\ buf = enc a ss ++ rest) as
    (a & ss & rest & Hp & ->).
  2: { exists a, ss, rest. split; [|done]. split; [done|]. by rewrite <- H, ParseSID_enc. }
  unfold ParseSID in H. destruct (Z.ltb_spec (zlen buf) 8); [done|].
  destruct buf as [|rv [|c buf]]; [len..|].
  change (index (rv :: c :: buf) 0) with (Ok rv) in H. rewrite bind_Ok in H.
  destruct (Z.eqb_spec (b2z rv) 1) as [E1|]; [|done].
  change (index (rv :: c :: buf) 1) with (Ok c) in H. rewrite bind_Ok in H. cbn in H.
  destruct (Z.ltb_spec maxSubAuthorities (b2z c)); [done|].
  destruct (Z.ltb_spec (zlen (rv :: c :: buf)) (8 + 4 * b2z c)); [done|]. clear H.
  pose proof (b2z_bound c). rewrite !zlen_cons in *.
  destruct (words_exists 4 (Z.to_nat (b2z c)) (take (Z.to_nat (4 * b2z c)) (drop 6 buf)))
    as (ss & Hl & Hw & Ew).
  { rewrite length_take, length_drop. unfold zlen in *. lia. }
  exists (be_dec (take 6 buf)), ss, (drop (Z.to_nat (4 * b2z c)) (drop 6 buf)).
  assert (length (take 6 buf) = 6%nat) as H6 by (rewrite length_take; unfold zlen in *; lia).
  assert (zlen ss = b2z c) as Hlen by (unfold zlen; lia).
  split.
  - split_and!; [|done|lia]. pose proof (be_dec_bound (take 6 buf)) as B.
    unfold zlen in B. by rewrite H6 in B.
  - unfold enc. rewrite Hlen, z2b_b2z, be_enc_dec_len, <- Ew by done.
    replace x01 with rv by (apply b2z_inj; by rewrite E1). cbn [app]. do 2 f_equal.
    by rewrite <- app_assoc, !take_drop.
Qed.
Lemma denotes_wf s a ss : denotes s a ss -> wf s.
Proof. right. eauto. Qed.

Lemma zero_invalid : IsValid zero = false.
Proof. reflexivity. Qed.

(** A valid SID is one that denotes parts. *)
Lemma wf_valid s : wf s -> IsValid s = true -> exists a ss, denotes s a ss.
Proof. intros [->|Hd] H; [by rewrite zero_invalid in H|done]. Qed.

Lemma ParseSID_err buf e : ParseSID buf = Err e -> e = ErrBadSID.
Proof.
  unfold ParseSID. destruct (Z.ltb_spec (zlen buf) 8); [naive_solver|].
  destruct (index_ok buf 0) as [r ->]; [lia|]. rewrite bind_Ok.
  destruct (negb _); [naive_solver|].
  destruct (index_ok buf 1) as [c ->]; [lia|]. rewrite bind_Ok. cbv zeta.
  destruct (_ <? _); [naive_solver|]. destruct (Z.ltb_spec (zlen buf) (8 + 4 * b2z c)); [naive_solver|].
  pose proof (b2z_bound c). by rewrite slice_ok by lia.
Qed.

Lemma ParseSID_safe buf : safe (ParseSID buf).
Proof.
  unfold ParseSID. destruct (Z.ltb_spec (zlen buf) 8); [apply safe_Err|].
  destruct (index_ok buf 0) as [r ->]; [lia|]. rewrite bind_Ok.
  destruct (negb _); [apply safe_Err|].
  destruct (index_ok buf 1) as [c ->]; [lia|]. rewrite bind_Ok. cbv zeta.
  destruct (_ <? _); [apply safe_Err|].
  destruct (Z.ltb_spec (zlen buf) (8 + 4 * b2z c)); [apply safe_Err|].
  pose proof (b2z_bound c). by rewrite slice_ok by lia.
Qed.
#[global] Hint Resolve ParseSID_safe : safe.

Lemma NewSID_mod a ss : NewSID a ss = NewSID (a mod 2 ^ 48) ss.
Proof.
  unfold NewSID. destruct (_ <? _); [done|]. do 3 f_equal. rewrite !authority_bytes_be.
  change (2 ^ 48) with (256 ^ Z.of_nat 6). unfold be_enc. by rewrite le_enc_mod.
Qed.

Lemma NewSID_wf a ss s : Forall (fits 32) ss -> NewSID a ss = Ok s -> wf s /\ IsValid s = true.
Proof.
  intros Hf E. rewrite NewSID_mod in E. pose proof (NewSID_raw _ _ _ E) as [Hl _].
  assert (denotes s (a mod 2 ^ 48) ss) as D.
  { split; [|done]. split_and!; [|done|done]. apply Z.mod_pos_bound. lia. }
  split; [by eapply denotes_wf|]. by apply denotes_count in D as [? _].
Qed.

(** ** Deriving a child *)

Lemma Child_denotes s a ss rid : denotes s a ss -> fits 32 rid ->
  Child s rid = NewSID a (ss ++ [rid]).
Proof.
  intros H Hr. pose proof (denotes_raw _ _ _ H) as E. destruct (denotes_count _ _ _ H) as [Hv Hc].
  unfold Child. rewrite Hv, Hc. cbn [negb]. cbv zeta.
  destruct H as [(Ha&Hf&Hl) _]. pose proof (zlen_nonneg ss).
  destruct (Z.leb_spec maxSubAuthorities (zlen ss)).
  { unfold NewSID. destruct (Z.ltb_spec maxSubAuthorities (zlen (ss ++ [rid]))); [done|len]. }
  unfold maxSubAuthorities in *.
  destruct (ok_parts_NewSID a (ss ++ [rid])) as [c E'].
  { split_and!; [done| |unfold maxSubAuthorities; len]. by apply Forall_app_2; [|constructor]. }
  rewrite E'. apply NewSID_raw in E' as [_ E'].
  replace (Z.to_nat (60 - 4 * zlen ss)) with (4 + Z.to_nat (60 - 4 * zlen (ss ++ [rid])))%nat in E
    by (len).
  rewrite replicate_add in E. rewrite E, (put_le_app _ _ (replicate 4 x00)) by (done || len).
  rewrite bind_Ok. destruct c as [r]. cbn [raw] in E'. rewrite E'. f_equal. f_equal.
  unfold enc. rewrite words_app. cbn [app]. rewrite zlen_app. unfold words at 3.
  cbn [fmap list_fmap concat]. rewrite app_nil_r, <- !app_assoc. done.
Qed.

Lemma denotes_inj s a ss a' ss' : denotes s a ss -> denotes s a' ss' -> a = a' /\ ss = ss'.
Proof.
  intros D D'. rewrite <- (denotes_authority _ _ _ D), <- (denotes_authority _ _ _ D').
  by rewrite <- (denotes_sub_authorities _ _ _ D), <- (denotes_sub_authorities _ _ _ D').
Qed.

Lemma Child_denotes_Ok s c rid : wf s -> fits 32 rid -> Child s rid = Ok c ->
  exists a ss, denotes s a ss /\ denotes c a (ss ++ [rid]).
Proof.
  intros Hw Hr E. assert (IsValid s = true) as Hv.
  { unfold Child in E. by destruct (IsValid s). }
  destruct (wf_valid _ Hw Hv) as (a & ss & D). exists a, ss. split; [done|].
  rewrite (Child_denotes _ _ _ _ D Hr) in E. pose proof (NewSID_raw _ _ _ E) as [Hl _].
  destruct D as [(Ha&Hf&_) _]. split; [|done]. split_and!; [done| |done].
  apply Forall_app_2; [done|]. by constructor.
Qed.

Lemma Child_safe s rid : wf s -> fits 32 rid -> safe (Child s rid).
Proof.
  intros Hw Hr. destruct (IsValid s) eqn:Hv; [|unfold Child; by rewrite Hv].
  destruct (wf_valid _ Hw Hv) as (a & ss & D). rewrite (Child_denotes _ _ _ _ D Hr).
  unfold NewSID. by destruct (_ <? _).
Qed.

(** Distinct RIDs give distinct children. *)
Lemma Child_inj s c rid rid' : wf s -> fits 32 rid -> fits 32 rid' ->
  Child s rid = Ok c -> Child s rid' = Ok c -> rid = rid'.
Proof.
  intros Hw Hr Hr' (a & ss & D & Dc)%Child_denotes_Ok (a' & ss' & D' & Dc')%Child_denotes_Ok; [|done..].
  destruct (denotes_inj _ _ _ _ _ D D') as [_ <-]. destruct (denotes_inj _ _ _ _ _ Dc Dc') as [_ E].
  by apply app_inv_head in E as [= ->].
Qed.

Lemma Child_wf s c rid : wf s -> fits 32 rid -> Child s rid = Ok c -> wf c /\ IsValid c = true.
Proof.
  intros Hw Hr (a & ss & _ & D)%Child_denotes_Ok; [|done..].
  split; [by eapply denotes_wf|by eapply denotes_count].
Qed.

(** ** The textual form *)

Lemma format_authority_parse a : fits 48 a -> parse_authority (format_authority a) = Some a.
Proof.
  intros [H0 H1]. unfold parse_authority, format_authority.
  destruct (Z.leb_spec (2 ^ 32) a).
  - pose proof (format_uint_ne 16 a) as Hne.
    change (str "0x" ++ format_uint 16 a) with (x30 :: x78 :: format_uint 16 a).
    assert (zlen (format_uint 16 a) <> 0) by (intros ?%zlen_0_inv; done).
    destruct (Z.ltb_spec 2 (zlen (x30 :: x78 :: format_uint 16 a))); [|len].
    change (has_prefix (x30 :: x78 :: format_uint 16 a) (str "0x")) with true.
    apply parse_format_uint; lia.
  - assert (has_prefix (format_uint 10 a) (str "0x") = false
            /\ has_prefix (format_uint 10 a) (str "0X") = false) as [-> ->].
    { pose proof (format_uint_decimal a) as Hd. destruct (format_uint 10 a) as [|c [|d l]]; [done|..].
      - cbn. by rewrite !andb_false_r.
      - inversion Hd as [|? ? _ Hd']; subst. inversion Hd' as [|? ? Hc _]; subst.
        cbn. rewrite !(bool_decide_eq_false_2 (d = _)), !andb_false_r; [done| |];
          intros ->; destruct Hc as [_ Hc]; by apply Hc. }
    rewrite andb_false_r. apply parse_format_uint; lia.
Qed.

Lemma format_authority_no_dash a : x2d ∉ format_authority a.
Proof.
  unfold format_authority. destruct (_ <=? _); [|by apply format_uint_no_dash].
  intros Hin%elem_of_app. destruct Hin as [Hin|Hin]; [|by apply format_uint_no_dash in Hin; [|]].
  vm_compute in Hin. by repeat (apply elem_of_cons in Hin as [|Hin]; [done|]); apply elem_of_nil in Hin.
Qed.

Lemma String_denotes s a ss : denotes s a ss ->
  String s = join_with x2d (str "S" :: str "1" :: format_authority a :: (format_uint 10 <$> ss)).
Proof.
  intros H. unfold String. rewrite (denotes_authority _ _ _ H), (denotes_sub_authorities _ _ _ H).
  destruct (denotes_count _ _ _ H) as [-> _]. cbn [negb].
  change (str "S-1-") with (str "S" ++ x2d :: str "1" ++ [x2d]).
  rewrite join_with_concat, !fmap_cons. cbn [concat]. rewrite <- list_fmap_compose. app_eq.
Qed.

Lemma mapM_parse_format ss : Forall (fits 32) ss ->
  mapM (parse_uint 10 32) (format_uint 10 <$> ss) = Some ss.
Proof.
  intros H. apply mapM_Some. apply Forall2_fmap_l. apply Forall_Forall2_diag.
  eapply Forall_impl; [done|]. intros x [? ?]. apply parse_format_uint; lia.
Qed.

Lemma SIDFromString_denotes s a ss : denotes s a ss -> SIDFromString (String s) = Ok s.
Proof.
  intros H. rewrite (String_denotes _ _ _ H). unfold SIDFromString.
  rewrite split_join; [|done|].
  - rewrite !bool_decide_eq_true_2 by done. cbn [negb andb].
    destruct H as [(Ha&Hf&_) E]. by rewrite format_authority_parse, mapM_parse_format.
  - do 2 (apply Forall_cons; split; [by apply (bool_decide_eq_true_1 _)|]).
    apply Forall_cons; split; [apply format_authority_no_dash|].
    apply Forall_fmap, Forall_true. intros. by apply format_uint_no_dash.
Qed.

(** What [SIDFromString] returns is a SID of the package. *)
Lemma SIDFromString_ok s : match SIDFromString s with
  | Ok sid => wf sid /\ IsValid sid = true
  | Err e => e = ErrBadSID
  | Panic => False
  end.
Proof.
  unfold SIDFromString. destruct (split_on x2d s) as [|p0 [|p1 [|a ps]]]; [done..|].
  destruct (negb _); [done|]. destruct (parse_authority a) as [au|]; [|done].
  destruct (mapM (parse_uint 10 32) ps) as [subs|] eqn:E; [|done].
  assert (Forall (fits 32) subs) as Hf.
  { apply mapM_Some in E. clear -E. induction E as [|x y l k H _ IH]; constructor; [|done].
    apply parse_uint_bound in H; [done|lia..]. }
  destruct (NewSID au subs) eqn:En; [by eapply NewSID_wf|..]; unfold NewSID in En; by destruct (_ <? _); simplify_eq.
Qed.

(** ** What the other codecs use *)

(** A SID that is present: built by the package, and not the zero value. *)
Definition valid (s : t) : Prop := wf s /\ IsValid s = true.

Lemma ParseSID_app s rest : valid s -> ParseSID (Bytes s ++ rest) = Ok s.
Proof.
  intros [Hw Hv]. destruct (wf_valid _ Hw Hv) as (a & ss & D).
  rewrite (denotes_Bytes _ _ _ D), ParseSID_enc; apply D.
Qed.

Lemma ParseSID_Bytes_self s : valid s -> ParseSID (Bytes s) = Ok s.
Proof. intros. by rewrite <- (app_nil_r (Bytes s)), ParseSID_app. Qed.

Lemma ParseSID_Ok_inv buf s : ParseSID buf = Ok s -> valid s /\ exists rest, buf = Bytes s ++ rest.
Proof.
  intros (a & ss & rest & D & ->)%ParseSID_inv. split.
  - split; [by eapply denotes_wf|by eapply denotes_count].
  - exists rest. by erewrite denotes_Bytes.
Qed.

Lemma zlen_Bytes s : valid s -> 8 <= zlen (Bytes s) <= 68.
Proof.
  intros [Hw Hv]. destruct (wf_valid _ Hw Hv) as (a & ss & D).
  rewrite (denotes_Bytes _ _ _ D), zlen_enc. destruct D as [(_&_&Hl) _].
  unfold maxSubAuthorities in Hl. len.
Qed.

Lemma zlen_Bytes_wf s : wf s -> 0 <= zlen (Bytes s) <= 68.
Proof.
  intros Hw. destruct (IsValid s) eqn:Hv; [pose proof (zlen_Bytes s (conj Hw Hv)); lia|].
  unfold Bytes. rewrite Hv. vm_compute. split; congruence.
Qed.

Lemma Bytes_inj s s' : valid s -> valid s' -> Bytes s = Bytes s' -> s = s'.
Proof.
  intros H H' E. apply ParseSID_Bytes_self in H, H'. congruence.
Qed.

#[global] Instance SID_codec :
  Codec valid (fun s => Ok (Bytes s)) (fun buf => s ← ParseSID buf; Ok (s, zlen (Bytes s))).
Proof.
  split.
  - intros buf. safe_step; auto with safe.
  - intros buf s n (s' & [Hv [rest ->]]%ParseSID_Ok_inv & [= -> <-])%bind_Ok_inv.
    pose proof (zlen_Bytes s Hv). len.
  - intros s b rest Hv <-%Ok_inj. by rewrite ParseSID_app.
  - intros buf s n (s' & _ & [= -> <-])%bind_Ok_inv _. eauto with lia.
Qed.

(** ** Properties *)

(** C1: the binary SID parser and printer are inverse.  [ParseSID] accepts a
    buffer exactly when it starts with the canonical encoding of a valid SID, and
    returns that SID whatever follows it; on every other buffer it returns
    [ErrBadSID], and it never panics. *)
Theorem ParseSID_Bytes (buf : bytes) (s : t) :
  (ParseSID buf = Ok s <-> wf s /\ IsValid s = true /\ exists rest, buf = Bytes s ++ rest)
  /\ (is_ok (ParseSID buf) = false -> ParseSID buf = Err ErrBadSID).
Proof.
  split.
  - split.
    + intros (a & ss & rest & D & ->)%ParseSID_inv. split; [by eapply denotes_wf|].
      split; [by eapply denotes_count|]. exists rest. by erewrite denotes_Bytes.
    + intros (Hw & Hv & rest & ->). destruct (wf_valid _ Hw Hv) as (a & ss & D).
      rewrite (denotes_Bytes _ _ _ D), ParseSID_enc; apply D.
  - pose proof (ParseSID_safe buf). destruct (ParseSID buf) eqn:E; [done|..|done].
    by apply ParseSID_err in E as ->.
Qed.

(** C2: the textual form is a faithful name.  Rendering a valid SID and parsing
    the text back gives the same SID, for decimal and for "0x" identifier
    authorities, and two valid SIDs with the same text are equal. *)
Theorem SIDFromString_String (s : t) (Hwf : wf s) (Hv : IsValid s = true) :
  SIDFromString (String s) = Ok s
  /\ forall s', wf s' -> IsValid s' = true -> String s' = String s -> s' = s.
Proof.
  destruct (wf_valid _ Hwf Hv) as (a & ss & D). split; [by eapply SIDFromString_denotes|].
  intros s' Hw' Hv' E. destruct (wf_valid _ Hw' Hv') as (a' & ss' & D').
  apply SIDFromString_denotes in D, D'. congruence.
Qed.

Lemma SIDFromString_String_witness :
  SIDFromString (String (mk (go_copy (raw zero) [x01;x02;x00;x00;x00;x00;x00;x05;x20;x00;x00;x00;x20;x02;x00;x00])))
  = Ok (mk (go_copy (raw zero) [x01;x02;x00;x00;x00;x00;x00;x05;x20;x00;x00;x00;x20;x02;x00;x00])).
Proof.
  refine (proj1 (SIDFromString_String _ _ _)); [|vm_compute; reflexivity].
  refine (denotes_wf _ 5 [32; 544] _). split; [|vm_compute; reflexivity].
  split_and!; [split; lia| |vm_compute; discriminate].
  constructor; [split; lia|]. constructor; [split; lia|constructor].
Defined.

(** [Child] appends the RID as one further sub-authority.  Its result is the
    SID [NewSID] builds from the longer list, and it fails, with [ErrBadSID],
    exactly for the invalid SID and for a SID that already holds 15
    sub-authorities. *)
Theorem Child_appends (s : t) (rid : Z) (Hwf : wf s) (Hr : fits 32 rid) :
  match Child s rid with
  | Ok c => exists a ss, denotes s a ss /\ denotes c a (ss ++ [rid])
  | Err e => e = ErrBadSID /\ (IsValid s = false \/ count s = maxSubAuthorities)
  | Panic => False
  end.
Proof.
  destruct (IsValid s) eqn:Hv; [|unfold Child; rewrite Hv; split; [done|by left]].
  destruct (wf_valid _ Hwf Hv) as (a & ss & D). rewrite (Child_denotes _ _ _ _ D Hr).
  destruct (denotes_count _ _ _ D) as [_ Hc]. pose proof D as [(Ha&Hf&Hl) _].
  unfold NewSID at 1. destruct (Z.ltb_spec maxSubAuthorities (zlen (ss ++ [rid]))) as [Hlt|Hge].
  - split; [done|]. right. len.
  - exists a, ss. split; [done|]. split.
    + split_and!; [done| |done]. apply Forall_app_2; [done|]. by constructor.
    + unfold NewSID. destruct (Z.ltb_spec maxSubAuthorities (zlen (ss ++ [rid]))); [lia|done].
Qed.

Definition builtin_domain : t := mk (go_copy (raw zero) (enc 5 [32])).

Lemma Child_appends_witness :
  match Child builtin_domain 544 with
  | Ok c => exists a ss, denotes builtin_domain a ss /\ denotes c a (ss ++ [544])
  | Err e => e = ErrBadSID /\ (IsValid builtin_domain = false \/ count builtin_domain = maxSubAuthorities)
  | Panic => False
  end.
Proof.
  apply Child_appends; [|split; lia]. refine (denotes_wf _ 5 [32] _).
  split; [|vm_compute; reflexivity].
  split_and!; [split; lia|constructor; [split; lia|constructor]|vm_compute; discriminate].
Defined.

End SID.
