(* ===== verification/WireEvent.v ===== *)
(** * WireEvent: the KMES event parser (wire/event.go)

    [ParseEvent] reads one event from the start of an untrusted buffer (a live
    ring mapping).  The offsets are the ABI's, taken from [Uapi]; the only fact
    used of them is [EventLaws]: the header fields lie inside the fixed base.  The
    theorem characterises the parser completely: which buffers it accepts, and
    where in the buffer every field of the result lies. *)

From S2P Require Import Prelude Outcome Uapi.

Module WireEvent.
Section event.
Context {U : Uapi}.

Definition evSizeOff := KMES_EVENT_SIZE_OFFSET.
Definition evHeaderOff := KMES_EVENT_HEADER_SIZE_OFFSET.
Definition evTimestampOff := KMES_EVENT_TIMESTAMP_NS_OFFSET.
Definition evSequenceOff := KMES_EVENT_SEQUENCE_OFFSET.
Definition evCPUIDOff := KMES_EVENT_CPU_ID_OFFSET.
Definition evOriginOff := KMES_EVENT_ORIGIN_CLASS_OFFSET.
Definition evEffectiveTokenGUIDOff := KMES_EVENT_EFFECTIVE_TOKEN_GUID_OFFSET.
Definition evTrueTokenGUIDOff := KMES_EVENT_TRUE_TOKEN_GUID_OFFSET.
Definition evProcessGUIDOff := KMES_EVENT_PROCESS_GUID_OFFSET.
Definition evGUIDSize := KMES_EVENT_GUID_SIZE.
Definition evTypeLenOff := KMES_EVENT_TYPE_LEN_OFFSET.
Definition evHeaderBase := KMES_EVENT_HEADER_BASE_SIZE.

Record Event := mkEvent {
  EventSize : Z;
  HeaderSize : Z;
  TimestampNS : Z;
  Sequence : Z;
  CPUID : Z;
  Origin : Z;
  EffectiveTokenGUID : bytes;
  TrueTokenGUID : bytes;
  ProcessGUID : bytes;
  EventType : bytes;
  Payload : bytes
}.

(** [int] is 64 bits wide, so the conversions of u32 values lose nothing. *)
Definition ParseEvent (buf : bytes) : outcome Event :=
  if zlen buf <? evHeaderBase then Err ErrBadEvent else
  eventSize ← get_le_at 4 buf evSizeOff;
  headerSize ← get_le_at 4 buf evHeaderOff;
  etlen ← get_le_at 2 buf evTypeLenOff;
  let total := eventSize in
  let hdr := headerSize in
  let typeEnd := evHeaderBase + etlen in
  if (total <? evHeaderBase) || (zlen buf <? total)
     || (hdr <? evHeaderBase) || (total <? hdr) || (hdr <? typeEnd)
  then Err ErrBadEvent else
  ts ← get_le_at 8 buf evTimestampOff;
  seq ← get_le_at 8 buf evSequenceOff;
  cpu ← get_le_at 2 buf evCPUIDOff;
  origin ← index buf evOriginOff;
  eff ← slice buf evEffectiveTokenGUIDOff (evEffectiveTokenGUIDOff + evGUIDSize);
  tru ← slice buf evTrueTokenGUIDOff (evTrueTokenGUIDOff + evGUIDSize);
  proc ← slice buf evProcessGUIDOff (evProcessGUIDOff + evGUIDSize);
  etype ← slice buf evHeaderBase typeEnd;
  payload ← slice buf hdr total;
  Ok (mkEvent eventSize headerSize ts seq cpu (b2z origin) eff tru proc etype payload).

(** ** The layout of an event *)

(** The little-endian field of [n] bytes at [off]. *)
Definition field (n : nat) (buf : bytes) (off : Z) : Z :=
  le_dec (take n (drop (Z.to_nat off) buf)).

(** A buffer that starts with a structurally valid event. *)
Definition valid (buf : bytes) : bool :=
  let total := field 4 buf evSizeOff in
  let hdr := field 4 buf evHeaderOff in
  (evHeaderBase + field 2 buf evTypeLenOff <=? hdr) && (hdr <=? total) && (total <=? zlen buf).

(** The fields of the event laid out at the start of [buf]. *)
Definition view (buf : bytes) : Event :=
  let total := field 4 buf evSizeOff in
  let hdr := field 4 buf evHeaderOff in
  mkEvent total hdr (field 8 buf evTimestampOff) (field 8 buf evSequenceOff)
    (field 2 buf evCPUIDOff) (b2z (default x00 (buf !! Z.to_nat evOriginOff)))
    (zseg evEffectiveTokenGUIDOff (evEffectiveTokenGUIDOff + evGUIDSize) buf)
    (zseg evTrueTokenGUIDOff (evTrueTokenGUIDOff + evGUIDSize) buf)
    (zseg evProcessGUIDOff (evProcessGUIDOff + evGUIDSize) buf)
    (zseg evHeaderBase (evHeaderBase + field 2 buf evTypeLenOff) buf)
    (zseg hdr total buf).

Lemma field_bound n buf off : 0 <= field n buf off.
Proof. apply le_dec_bound. Qed.

Lemma index_default (buf : bytes) i : 0 <= i < zlen buf -> index buf i = Ok (default x00 (buf !! Z.to_nat i)).
Proof.
  intros H. destruct (index_ok buf i H) as [x E]. rewrite E. unfold index in E.
  destruct (i <? 0); [done|]. destruct (buf !! Z.to_nat i); [by apply Ok_inj in E as ->|done].
Qed.

Lemma field_ok_spec base o n : field_ok base (o, n) = true -> 0 <= o /\ 0 <= n /\ o + n <= base.
Proof. unfold field_ok. cbn. rewrite !andb_true_iff, !Z.leb_le. tauto. Qed.

Context {L : EventLaws U}.

Lemma event_fields o n :
  In (o, n) [(evSizeOff, 4); (evHeaderOff, 4); (evTimestampOff, 8); (evSequenceOff, 8);
    (evCPUIDOff, 2); (evOriginOff, 1); (evEffectiveTokenGUIDOff, evGUIDSize);
    (evTrueTokenGUIDOff, evGUIDSize); (evProcessGUIDOff, evGUIDSize); (evTypeLenOff, 2)] ->
  0 <= o /\ 0 <= n /\ o + n <= evHeaderBase.
Proof.
  intros Hin. apply field_ok_spec. pose proof event_fields_ok as E.
  rewrite forallb_forall in E. by apply E.
Qed.

Ltac in_fields := simpl; tauto.

Lemma get_field n buf off : In (off, Z.of_nat n) [(evSizeOff, 4); (evHeaderOff, 4);
    (evTimestampOff, 8); (evSequenceOff, 8); (evCPUIDOff, 2); (evTypeLenOff, 2)] ->
  evHeaderBase <= zlen buf -> get_le_at n buf off = Ok (field n buf off).
Proof.
  intros Hin Hlen. assert (0 <= off /\ 0 <= Z.of_nat n /\ off + Z.of_nat n <= evHeaderBase) as (?&?&?).
  { apply event_fields. simpl in *. tauto. }
  apply get_le_at_ok; lia.
Qed.

Lemma guid_field (buf : bytes) off : In (off, evGUIDSize) [(evEffectiveTokenGUIDOff, evGUIDSize);
    (evTrueTokenGUIDOff, evGUIDSize); (evProcessGUIDOff, evGUIDSize)] ->
  evHeaderBase <= zlen buf -> slice buf off (off + evGUIDSize) = Ok (zseg off (off + evGUIDSize) buf).
Proof.
  intros Hin Hlen. assert (0 <= off /\ 0 <= evGUIDSize /\ off + evGUIDSize <= evHeaderBase) as (?&?&?).
  { apply event_fields. simpl in *. tauto. }
  apply slice_ok; lia.
Qed.

Lemma ParseEvent_eq buf :
  ParseEvent buf = if (zlen buf <? evHeaderBase) || negb (valid buf) then Err ErrBadEvent else Ok (view buf).
Proof.
  unfold ParseEvent, valid. destruct (Z.ltb_spec (zlen buf) evHeaderBase); [done|].
  rewrite !get_field by (done || in_fields). autorewrite with outcome. cbv zeta. cbn [orb].
  pose proof (field_bound 2 buf evTypeLenOff).
  destruct (event_fields evOriginOff 1) as (?&?&?); [in_fields|].
  set (total := field 4 buf evSizeOff). set (hdr := field 4 buf evHeaderOff).
  set (et := field 2 buf evTypeLenOff) in *.
  destruct (Z.ltb_spec total evHeaderBase), (Z.ltb_spec (zlen buf) total), (Z.ltb_spec hdr evHeaderBase),
    (Z.ltb_spec total hdr), (Z.ltb_spec hdr (evHeaderBase + et)), (Z.leb_spec (evHeaderBase + et) hdr),
    (Z.leb_spec hdr total), (Z.leb_spec total (zlen buf)); cbn [orb andb negb]; try reflexivity; try lia.
  rewrite index_default by lia. rewrite !guid_field by (done || in_fields).
  rewrite (slice_ok buf evHeaderBase), (slice_ok buf hdr) by lia. reflexivity.
Qed.

Lemma ParseEvent_cases buf : ParseEvent buf = Err ErrBadEvent \/ ParseEvent buf = Ok (view buf).
Proof. rewrite ParseEvent_eq. destruct (_ || _); auto. Qed.
End event.

(** C4: [ParseEvent] is total and exact.  Whatever the buffer, it does not panic;
    it accepts it exactly when the header base is there and type end, header
    size, event size and buffer length are in order; and the event it returns is the
    one laid out in the buffer, with the payload starting at HeaderSize (not at
    the end of the type string) and ending at EventSize. *)
Theorem ParseEvent_spec {U : Uapi} {L : EventLaws U} (buf : bytes) :
  (ParseEvent buf = Err ErrBadEvent /\ (zlen buf < evHeaderBase \/ valid buf = false))
  \/ (ParseEvent buf = Ok (view buf) /\ valid buf = true
      /\ Payload (view buf) = zseg (HeaderSize (view buf)) (EventSize (view buf)) buf
      /\ zlen (Payload (view buf)) = EventSize (view buf) - HeaderSize (view buf)
      /\ zlen (EventType (view buf)) <= HeaderSize (view buf) - evHeaderBase).
Proof.
  rewrite ParseEvent_eq. destruct (Z.ltb_spec (zlen buf) evHeaderBase); cbn [orb]; [by left; auto|].
  destruct (valid buf) eqn:Hv; [|by left; auto]. right. cbn [negb]. split_and!; [done..| |].
  all: unfold valid in Hv; rewrite !andb_true_iff, !Z.leb_le in Hv; cbn [view Payload EventSize HeaderSize EventType].
  all: pose proof (field_bound 2 buf evTypeLenOff).
  all: destruct (event_fields evOriginOff 1) as (?&?&?); [simpl; tauto|].
  all: rewrite zlen_zseg; lia.
Qed.

(** Parsing reads the event's own bytes only: what follows does not matter. *)
Lemma ParseEvent_app {U : Uapi} {L : EventLaws U} (e : bytes) ev s : ParseEvent e = Ok ev -> ParseEvent (e ++ s) = Ok ev.
Proof.
  rewrite !ParseEvent_eq. destruct (Z.ltb_spec (zlen e) evHeaderBase) as [|Hl]; [done|]. cbn [orb].
  destruct (valid e) eqn:Hv; [|done]. intros <-%Ok_inj.
  assert (Hf : forall n off, 0 <= off -> off + Z.of_nat n <= evHeaderBase -> field n (e ++ s) off = field n e off).
  { intros n off Ho Hn. unfold field. rewrite drop_app_le by (unfold zlen in *; lia).
    rewrite take_app_le by (rewrite length_drop; unfold zlen in *; lia). done. }
  assert (Hz : forall lo hi, 0 <= lo -> hi <= zlen e -> zseg lo hi (e ++ s) = zseg lo hi e).
  { intros lo hi Hlo Hhi. unfold zseg. destruct (Z.lt_ge_cases hi lo); [by replace (Z.to_nat (hi - lo)) with O by lia|].
    rewrite drop_app_le by (unfold zlen in *; lia). rewrite take_app_le by (rewrite length_drop; unfold zlen in *; lia). done. }
  assert (Hin : forall o n, In (o, n) [(evSizeOff, 4); (evHeaderOff, 4); (evTimestampOff, 8); (evSequenceOff, 8);
    (evCPUIDOff, 2); (evOriginOff, 1); (evEffectiveTokenGUIDOff, evGUIDSize);
    (evTrueTokenGUIDOff, evGUIDSize); (evProcessGUIDOff, evGUIDSize); (evTypeLenOff, 2)] -> 0 <= o /\ o + n <= evHeaderBase).
  { intros o n Hin. apply event_fields in Hin. lia. }
  assert (forall n off, In (off, Z.of_nat n) [(evSizeOff, 4); (evHeaderOff, 4); (evTimestampOff, 8); (evSequenceOff, 8);
    (evCPUIDOff, 2); (evTypeLenOff, 2)] -> field n (e ++ s) off = field n e off) as Hfield.
  { intros n off H. assert (0 <= off /\ off + Z.of_nat n <= evHeaderBase) as [? ?] by (apply Hin; simpl in *; tauto). by apply Hf. }
  pose proof (zlen_app e s). pose proof (zlen_nonneg s).
  destruct (Z.ltb_spec (zlen (e ++ s)) evHeaderBase); [lia|]. cbn [orb].
  pose proof Hv as Hv'. unfold valid in Hv'. rewrite !andb_true_iff, !Z.leb_le in Hv'.
  pose proof (field_bound 2 e evTypeLenOff).
  destruct (Hin evOriginOff 1) as [? ?]; [simpl; tauto|].
  unfold valid, view. rewrite !Hfield by (simpl; tauto).
  replace (_ && _ && _) with true by (symmetry; rewrite !andb_true_iff, !Z.leb_le; lia). cbn [negb].
  rewrite lookup_app_l by (unfold zlen in *; lia).
  rewrite !Hz; [done|..]; try lia; destruct (Hin evEffectiveTokenGUIDOff evGUIDSize), (Hin evTrueTokenGUIDOff evGUIDSize),
    (Hin evProcessGUIDOff evGUIDSize); simpl; try tauto; lia.
Qed.

Definition sample_event : bytes :=
  le_enc 4 84 ++ le_enc 4 80 ++ replicate 67 x00 ++ le_enc 2 3 ++ str "abc" ++ [x93; x01; x02; x03] ++ [xff].

Lemma ParseEvent_spec_witness :
  (@ParseEvent pkm sample_event = Err ErrBadEvent
   /\ (zlen sample_event < @evHeaderBase pkm \/ @valid pkm sample_event = false))
  \/ (@ParseEvent pkm sample_event = Ok (@view pkm sample_event) /\ @valid pkm sample_event = true
      /\ Payload (@view pkm sample_event) = zseg (HeaderSize (@view pkm sample_event)) (EventSize (@view pkm sample_event)) sample_event
      /\ zlen (Payload (@view pkm sample_event)) = EventSize (@view pkm sample_event) - HeaderSize (@view pkm sample_event)
      /\ zlen (EventType (@view pkm sample_event)) <= HeaderSize (@view pkm sample_event) - @evHeaderBase pkm).
Proof. exact (@ParseEvent_spec pkm pkm_EventLaws sample_event). Defined.

Example sample_event_parsed :
  EventType <$> @ParseEvent pkm sample_event = Ok (str "abc")
  /\ Payload <$> @ParseEvent pkm sample_event = Ok [x93; x01; x02; x03].
Proof. vm_compute. split; reflexivity. Qed.
End WireEvent.
