(* ===== verification/WellKnown.v ===== *)
(** * WellKnown: the fixed principals (sd/wellknown.go)

    [WellKnown] is an [int] enumeration in the source; a value outside the
    constants takes the default branches, which the constructor [Other] stands for. *)

From S2P Require Import Prelude Outcome GoStd Sid.

Module WK.

Inductive WellKnown :=
  | Null | Everyone | Anonymous | AuthenticatedUsers | LocalSystem | LocalService
  | NetworkService | BuiltinAdministrators | BuiltinUsers | UntrustedIL | LowIL | MediumIL
  | MediumPlusIL | HighIL | SystemIL | ProtectedProcessIL | CreatorOwner | CreatorGroup
  | Other.

#[global] Instance WellKnown_eq_dec : EqDecision WellKnown.
Proof. solve_decision. Defined.

Definition allWellKnown : list WellKnown :=
  [Null; Everyone; Anonymous; AuthenticatedUsers; LocalSystem; LocalService; NetworkService;
   BuiltinAdministrators; BuiltinUsers; UntrustedIL; LowIL; MediumIL; MediumPlusIL; HighIL;
   SystemIL; ProtectedProcessIL; CreatorOwner; CreatorGroup].

Definition parts (w : WellKnown) : Z * list Z :=
  match w with
  | Null => (0, [0])
  | Everyone => (1, [0])
  | Anonymous => (5, [7])
  | AuthenticatedUsers => (5, [11])
  | LocalSystem => (5, [18])
  | LocalService => (5, [19])
  | NetworkService => (5, [20])
  | BuiltinAdministrators => (5, [32; 544])
  | BuiltinUsers => (5, [32; 545])
  | UntrustedIL => (16, [0])
  | LowIL => (16, [4096])
  | MediumIL => (16, [8192])
  | MediumPlusIL => (16, [8448])
  | HighIL => (16, [12288])
  | SystemIL => (16, [16384])
  | ProtectedProcessIL => (16, [20480])
  | CreatorOwner => (3, [0])
  | CreatorGroup => (3, [1])
  | Other => (0, [])
  end.

(** The error of [NewSID] is dropped, as in the source: it is the zero SID then. *)
Definition SID (w : WellKnown) : SID.t :=
  let '(auth, subs) := parts w in
  match SID.NewSID auth subs with Ok s => s | _ => SID.zero end.

Definition String (w : WellKnown) : bytes :=
  str match w with
  | Null => "Null"
  | Everyone => "Everyone"
  | Anonymous => "Anonymous"
  | AuthenticatedUsers => "Authenticated Users"
  | LocalSystem => "LocalSystem"
  | LocalService => "LocalService"
  | NetworkService => "NetworkService"
  | BuiltinAdministrators => "BUILTIN\Administrators"
  | BuiltinUsers => "BUILTIN\Users"
  | UntrustedIL => "Untrusted IL"
  | LowIL => "Low IL"
  | MediumIL => "Medium IL"
  | MediumPlusIL => "Medium-Plus IL"
  | HighIL => "High IL"
  | SystemIL => "System IL"
  | ProtectedProcessIL => "Protected-Process IL"
  | CreatorOwner => "Creator Owner"
  | CreatorGroup => "Creator Group"
  | Other => "unknown well-known SID"
  end.

(** The loop over the table, first match wins. *)
Fixpoint lookup_in (cands : list WellKnown) (sid : SID.t) : option WellKnown :=
  match cands with
  | [] => None
  | cand :: cands => if bool_decide (SID cand = sid) then Some cand else lookup_in cands sid
  end.
Definition LookupWellKnown (sid : SID.t) : option WellKnown := lookup_in allWellKnown sid.

(** ** Lemmas *)

Lemma parts_ok w : SID.ok_parts (parts w).1 (parts w).2.
Proof.
  destruct w; (split; [|split; [|vm_compute; discriminate]]).
  all: first [split; vm_compute; congruence
             |repeat (apply Forall_cons; split; [split; vm_compute; congruence|]); apply Forall_nil_2].
Qed.

Lemma SID_denotes w : SID.denotes (SID w) (parts w).1 (parts w).2.
Proof.
  split; [apply parts_ok|]. destruct (SID.ok_parts_NewSID _ _ (parts_ok w)) as [s E].
  unfold SID. destruct (parts w) as [a ss]. simpl in *. by rewrite E.
Qed.

Lemma SID_wf w : SID.wf (SID w).
Proof. eapply SID.denotes_wf, SID_denotes. Qed.
Lemma SID_valid w : SID.IsValid (SID w) = true.
Proof. eapply SID.denotes_count, SID_denotes. Qed.
Lemma SID_ok w : SID.valid (SID w).
Proof. split; [apply SID_wf|apply SID_valid]. Qed.
#[global] Hint Resolve SID_wf SID_valid SID_ok : core.

Lemma lookup_in_spec cands sid w : lookup_in cands sid = Some w -> SID w = sid /\ w ∈ cands.
Proof.
  induction cands as [|c cands IH]; simpl; [done|]. rewrite elem_of_cons.
  case_bool_decide; [intros [= <-]; auto|intros [? ?]%IH; auto].
Qed.

Lemma lookup_in_complete cands w : w ∈ cands -> is_Some (lookup_in cands (SID w)).
Proof.
  induction cands as [|c cands IH]; [set_solver|]. intros [->|Hin]%elem_of_cons; simpl.
  - by rewrite bool_decide_eq_true_2.
  - case_bool_decide; [done|]. by apply IH.
Qed.

Lemma allWellKnown_complete w : w <> Other -> w ∈ allWellKnown.
Proof. destruct w; intros H; (apply (bool_decide_eq_true_1 _); reflexivity) || done. Qed.

Lemma parts_inj w w' : parts w = parts w' -> w = w'.
Proof. by destruct w, w'. Qed.

Lemma SID_inj w w' : SID w = SID w' -> w = w'.
Proof.
  intros E. pose proof (SID_denotes w) as D. pose proof (SID_denotes w') as D'. rewrite E in D.
  apply parts_inj. rewrite (surjective_pairing (parts w)), (surjective_pairing (parts w')). f_equal.
  - by rewrite <- (SID.denotes_authority _ _ _ D), <- (SID.denotes_authority _ _ _ D').
  - by rewrite <- (SID.denotes_sub_authorities _ _ _ D), <- (SID.denotes_sub_authorities _ _ _ D').
Qed.

(** The well-known table is a bijection onto its SIDs: [LookupWellKnown]
    identifies exactly the SIDs that [SID] gives to the 18 identities, each as
    itself, so no two share a SID and none is missing from the table. *)
Theorem LookupWellKnown_spec (sid : SID.t) (w : WellKnown) :
  LookupWellKnown sid = Some w <-> w <> Other /\ SID w = sid.
Proof.
  unfold LookupWellKnown. split.
  - intros [E Hin]%lookup_in_spec. split; [|done]. intros ->. revert Hin.
    apply (bool_decide_eq_false_1 _). reflexivity.
  - intros [Hw <-]. destruct (lookup_in_complete _ _ (allWellKnown_complete _ Hw)) as [w' E].
    rewrite E. apply lookup_in_spec in E as [E _]. by apply SID_inj in E as ->.
Qed.
End WK.
