(* ===== verification/Condition.v ===== *)
(** * Condition: conditional-ACE bytecode (sd/condition.go)

    [Operand] and [Condition] hold an encoded postfix fragment, as in the source:
    the builders only concatenate tokens, so they are modelled as definitions on
    bytes.  The source keeps no tree; [operand] and [cond] below are the
    expressions a composition of builder calls denotes, and [compile] is that
    composition.  SddlDecompile.v shows that the bytecode is read back as exactly
    the expression, and SddlCondition.v that the SDDL text compiles to it. *)

From S2P Require Import Prelude Outcome GoStd Sid.

Module Cond.

(** ** Tokens *)

Definition tokInt64 : Z := 0x04.
Definition tokString : Z := 0x10.
Definition tokOctet : Z := 0x18.
Definition tokComposite : Z := 0x50.
Definition tokSID : Z := 0x51.
Definition tokExists : Z := 0x87.
Definition tokNotExists : Z := 0x8d.
Definition tokAnd : Z := 0xa0.
Definition tokOr : Z := 0xa1.
Definition tokNot : Z := 0xa2.
Definition tokAttrLocal : Z := 0xf8.
Definition tokAttrUser : Z := 0xf9.
Definition tokAttrResource : Z := 0xfa.
Definition tokAttrDevice : Z := 0xfb.
Definition signNegative : Z := 0x02.
Definition signNone : Z := 0x03.
Definition baseDecimal : Z := 0x02.

Inductive CompareOp :=
  | OpEqual | OpNotEqual | OpLess | OpLessEqual | OpGreater | OpGreaterEqual
  | OpContains | OpAnyOf | OpNotContains | OpNotAnyOf.
Definition CompareOp_byte (op : CompareOp) : Z :=
  match op with
  | OpEqual => 0x80 | OpNotEqual => 0x81 | OpLess => 0x82 | OpLessEqual => 0x83
  | OpGreater => 0x84 | OpGreaterEqual => 0x85 | OpContains => 0x86 | OpAnyOf => 0x88
  | OpNotContains => 0x8e | OpNotAnyOf => 0x8f
  end.

Inductive MemberOp :=
  | OpMemberOf | OpDeviceMemberOf | OpMemberOfAny | OpDeviceMemberOfAny
  | OpNotMemberOf | OpNotDeviceMemberOf | OpNotMemberOfAny | OpNotDeviceMemberOfAny.
Definition MemberOp_byte (op : MemberOp) : Z :=
  match op with
  | OpMemberOf => 0x89 | OpDeviceMemberOf => 0x8a | OpMemberOfAny => 0x8b
  | OpDeviceMemberOfAny => 0x8c | OpNotMemberOf => 0x90 | OpNotDeviceMemberOf => 0x91
  | OpNotMemberOfAny => 0x92 | OpNotDeviceMemberOfAny => 0x93
  end.

(** ** Builders *)

Record Operand := mkOperand { opd_tok : bytes }.
Record Condition := mkCondition { cond_tok : bytes }.

Definition utf16le (s : bytes) : bytes := words 2 (utf16_encode (go_runes s)).

Definition tokenWith (tag : Z) (data : bytes) : bytes :=
  z2b tag :: le_enc 4 (zlen data) ++ data.

(** [n] ranges over int64; [uint64(n)] is its two's complement. *)
Definition IntOperand (n : Z) : Operand :=
  mkOperand ([z2b tokInt64] ++ le_enc 8 n
             ++ [z2b (if n <? 0 then signNegative else signNone)] ++ [z2b baseDecimal]).
Definition StringOperand (s : bytes) : Operand := mkOperand (tokenWith tokString (utf16le s)).
Definition SIDOperand (sid : SID.t) : Operand := mkOperand (tokenWith tokSID (SID.Bytes sid)).
Definition OctetOperand (data : bytes) : Operand := mkOperand (tokenWith tokOctet data).
Definition LocalAttr (name : bytes) : Operand := mkOperand (tokenWith tokAttrLocal (utf16le name)).
Definition UserAttr (name : bytes) : Operand := mkOperand (tokenWith tokAttrUser (utf16le name)).
Definition ResourceAttr (name : bytes) : Operand := mkOperand (tokenWith tokAttrResource (utf16le name)).
Definition DeviceAttr (name : bytes) : Operand := mkOperand (tokenWith tokAttrDevice (utf16le name)).
Definition Composite (items : list Operand) : Operand :=
  mkOperand (tokenWith tokComposite (concat (opd_tok <$> items))).

Definition Compare (op : CompareOp) (lhs rhs : Operand) : Condition :=
  mkCondition (opd_tok lhs ++ opd_tok rhs ++ [z2b (CompareOp_byte op)]).
Definition Member (op : MemberOp) (operand : Operand) : Condition :=
  mkCondition (opd_tok operand ++ [z2b (MemberOp_byte op)]).
Definition Exists (operand : Operand) : Condition :=
  mkCondition (opd_tok operand ++ [z2b tokExists]).
Definition NotExists (operand : Operand) : Condition :=
  mkCondition (opd_tok operand ++ [z2b tokNotExists]).
Definition And (c rhs : Condition) : Condition :=
  mkCondition (cond_tok c ++ cond_tok rhs ++ [z2b tokAnd]).
Definition Or (c rhs : Condition) : Condition :=
  mkCondition (cond_tok c ++ cond_tok rhs ++ [z2b tokOr]).
Definition Not (c : Condition) : Condition :=
  mkCondition (cond_tok c ++ [z2b tokNot]).

(** [for len(out)%4 != 0 { out = append(out, 0) }]; at most three rounds. *)
Fixpoint pad4 (fuel : nat) (out : bytes) : bytes :=
  match fuel with
  | O => out
  | S fuel => if zlen out mod 4 =? 0 then out else pad4 fuel (out ++ [x00])
  end.

Definition Encode (c : Condition) : bytes := pad4 4 (str "artx" ++ cond_tok c).

(** ** Expressions *)

#[warnings="-register-all"]
Inductive operand :=
  | OInt (n : Z)
  | OString (s : bytes)
  | OOctet (data : bytes)
  | OSid (sid : SID.t)
  | OLocal (name : bytes)
  | OUser (name : bytes)
  | OResource (name : bytes)
  | ODevice (name : bytes)
  | OComposite (items : list operand).

Inductive cond :=
  | CCompare (op : CompareOp) (lhs rhs : operand)
  | CMember (op : MemberOp) (o : operand)
  | CExists (o : operand)
  | CNotExists (o : operand)
  | CAnd (c rhs : cond)
  | COr (c rhs : cond)
  | CNot (c : cond).

(** The builder calls of an expression. *)
Fixpoint compile_operand (o : operand) : Operand :=
  match o with
  | OInt n => IntOperand n
  | OString s => StringOperand s
  | OOctet data => OctetOperand data
  | OSid sid => SIDOperand sid
  | OLocal name => LocalAttr name
  | OUser name => UserAttr name
  | OResource name => ResourceAttr name
  | ODevice name => DeviceAttr name
  | OComposite items => Composite (compile_operand <$> items)
  end.

Fixpoint compile (c : cond) : Condition :=
  match c with
  | CCompare op lhs rhs => Compare op (compile_operand lhs) (compile_operand rhs)
  | CMember op o => Member op (compile_operand o)
  | CExists o => Exists (compile_operand o)
  | CNotExists o => NotExists (compile_operand o)
  | CAnd c rhs => And (compile c) (compile rhs)
  | COr c rhs => Or (compile c) (compile rhs)
  | CNot c => Not (compile c)
  end.

(** A property of all the leaves of an operand. *)
Fixpoint operand_all (P : operand -> Prop) (o : operand) : Prop :=
  match o with
  | OComposite items => foldr (fun o Q => operand_all P o /\ Q) True items
  | _ => P o
  end.
Fixpoint cond_all (P : operand -> Prop) (c : cond) : Prop :=
  match c with
  | CCompare _ lhs rhs => operand_all P lhs /\ operand_all P rhs
  | CMember _ o | CExists o | CNotExists o => operand_all P o
  | CAnd c rhs | COr c rhs => cond_all P c /\ cond_all P rhs
  | CNot c => cond_all P c
  end.

(** The arguments the builders can encode: an int64, valid UTF-8, a SID of the package. *)
Definition leaf_ok (o : operand) : Prop :=
  match o with
  | OInt n => - 2 ^ 63 <= n < 2 ^ 63
  | OString s | OLocal s | OUser s | OResource s | ODevice s => utf8_valid s = true
  | OSid sid => SID.valid sid
  | OOctet _ | OComposite _ => True
  end.

(** Induction that goes into composites. *)
Lemma operand_rect_items (P : operand -> Prop) :
  (forall n, P (OInt n)) -> (forall s, P (OString s)) -> (forall d, P (OOctet d)) ->
  (forall s, P (OSid s)) -> (forall s, P (OLocal s)) -> (forall s, P (OUser s)) ->
  (forall s, P (OResource s)) -> (forall s, P (ODevice s)) ->
  (forall items, Forall P items -> P (OComposite items)) -> forall o, P o.
Proof.
  intros H1 H2 H3 H4 H5 H6 H7 H8 Hc. fix IH 1. intros [n|s|d|s|s|s|s|s|items];
    [apply H1|apply H2|apply H3|apply H4|apply H5|apply H6|apply H7|apply H8|apply Hc].
  induction items as [|o items IHi]; constructor; [apply IH|apply IHi].
Qed.

Lemma operand_all_items P items : operand_all P (OComposite items) <-> Forall (operand_all P) items.
Proof.
  cbn [operand_all]. induction items as [|o items IH]; cbn [foldr]; [by split|].
  by rewrite IH, Forall_cons.
Qed.

Lemma operand_all_impl (P Q : operand -> Prop) o : (forall o, P o -> Q o) -> operand_all P o -> operand_all Q o.
Proof.
  intros HPQ. induction o using operand_rect_items; try apply HPQ. rewrite !operand_all_items.
  intros Hp. apply Forall_forall. intros o Ho. rewrite Forall_forall in *. by apply H, Hp.
Qed.
Lemma cond_all_impl (P Q : operand -> Prop) c : (forall o, P o -> Q o) -> cond_all P c -> cond_all Q c.
Proof.
  intros HPQ. induction c; cbn [cond_all]; try (intros [? ?]); intuition eauto using operand_all_impl.
Qed.

(** ** The encoding *)

Lemma pad4_zeros fuel out : exists k, pad4 fuel out = out ++ replicate k x00.
Proof.
  revert out. induction fuel as [|fuel IH]; intros out; cbn [pad4]; [exists O; by rewrite app_nil_r|].
  destruct (_ =? 0); [exists O; by rewrite app_nil_r|]. destruct (IH (out ++ [x00])) as [k ->].
  exists (S k). by rewrite <- app_assoc.
Qed.

Lemma pad4_aligned out : zlen (pad4 4 out) mod 4 = 0.
Proof.
  unfold pad4. repeat match goal with |- context [?x mod 4 =? 0] => destruct (Z.eqb_spec (x mod 4) 0) as [E|?]; [exact E|] end.
  len. Z.div_mod_to_equations. lia.
Qed.

Lemma Encode_layout c : exists k, Encode c = str "artx" ++ cond_tok c ++ replicate k x00.
Proof. unfold Encode. destruct (pad4_zeros 4 (str "artx" ++ cond_tok c)) as [k ->]. exists k. by rewrite <- app_assoc. Qed.
End Cond.
