(* ===== verification/Claims.v ===== *)
(** * Claims: claim attributes and object trees (sd/claims.go, sd/objecttree.go)

    [Claim_Encode] builds one entry in place: a fixed prefix, the name, one slot per
    value, the out-of-line data, and then the stores that backfill the pointers, the
    header and the value offsets.  [entry] is the reference layout, written front to
    back; [Claim_Encode_entry] shows that the backfilling produces it, and the
    property reads an entry the way its consumer does, through the stored offsets. *)

From S2P Require Import Prelude Outcome Codec Uapi GoStd Sid Condition.

Module Claims.

(** ** Data *)

Inductive claimKind := kindInt64 | kindUInt64 | kindBoolean | kindString | kindSID | kindOctet.

#[global] Instance claimKind_eq_dec : EqDecision claimKind.
Proof. solve_decision. Defined.

Record ClaimValue := mkValue {
  kind : claimKind;
  i64 : Z;
  u64 : Z;
  vstr : bytes;
  vsid : SID.t;
  oct : bytes
}.

Definition Int64Value (n : Z) : ClaimValue := mkValue kindInt64 n 0 [] SID.zero [].
Definition UInt64Value (n : Z) : ClaimValue := mkValue kindUInt64 0 n [] SID.zero [].
Definition StringValue (s : bytes) : ClaimValue := mkValue kindString 0 0 s SID.zero [].
Definition SIDValue (s : SID.t) : ClaimValue := mkValue kindSID 0 0 [] s [].
Definition OctetValue (b : bytes) : ClaimValue := mkValue kindOctet 0 0 [] SID.zero b.
Definition BoolValue (b : bool) : ClaimValue :=
  mkValue kindBoolean 0 (if b then 1 else 0) [] SID.zero [].

Record Claim := mkClaim { Name : bytes; Flags : Z; Values : list ClaimValue }.

(** [type indirect struct { slot int; data []byte }] *)
Definition indirect : Type := Z * bytes.

(** ** Encoding *)

(** One round of the layout loop: the new payload and what it queues. *)
Definition place (v : ClaimValue) (payload : bytes) : bytes * list indirect :=
  match kind v with
  | kindInt64 => (payload ++ le_enc 8 (i64 v), [])
  | kindUInt64 | kindBoolean => (payload ++ le_enc 8 (u64 v), [])
  | kindString => (payload ++ le_enc 4 0, [(zlen payload, Cond.utf16le (vstr v) ++ [x00; x00])])
  | kindSID => (payload ++ le_enc 4 0, [(zlen payload, SID.Bytes (vsid v))])
  | kindOctet => (payload ++ le_enc 4 0, [(zlen payload, le_enc 4 (zlen (oct v)) ++ oct v)])
  end.

Fixpoint place_all (vs : list ClaimValue) (payload : bytes) (offs : list Z) (inds : list indirect)
    : bytes * list Z * list indirect :=
  match vs with
  | [] => (payload, offs, inds)
  | v :: vs =>
      let '(payload', ind) := place v payload in
      place_all vs payload' (offs ++ [zlen payload]) (inds ++ ind)
  end.

(** Append the indirect data and backfill each slot's pointer. *)
Fixpoint backfill (inds : list indirect) (payload : bytes) : outcome bytes :=
  match inds with
  | [] => Ok payload
  | (slot, data) :: inds =>
      payload ← put_le 4 payload slot (zlen payload);
      backfill inds (payload ++ data)
  end.

(** [for i, off := range valueOffsets { PutUint32(payload[16+i*4:20+i*4], off) }] *)
Fixpoint put_offsets (i : Z) (offs : list Z) (payload : bytes) : outcome bytes :=
  match offs with
  | [] => Ok payload
  | off :: offs =>
      payload ← put_le 4 payload (16 + i * 4) off;
      put_offsets (i + 1) offs payload
  end.

Section claims.
Context {U : Uapi}.

Definition typeCode (k : claimKind) : Z :=
  match k with
  | kindInt64 => KACS_CLAIM_TYPE_INT64
  | kindUInt64 => KACS_CLAIM_TYPE_UINT64
  | kindBoolean => KACS_CLAIM_TYPE_BOOLEAN
  | kindString => KACS_CLAIM_TYPE_STRING
  | kindSID => KACS_CLAIM_TYPE_SID
  | kindOctet => KACS_CLAIM_TYPE_OCTET
  end.

Definition Claim_Encode (c : Claim) : outcome bytes :=
  match Values c with
  | [] => Err (Wrapf "claim has no values" ErrBadClaim)
  | v0 :: _ =>
      if existsb (fun v => negb (bool_decide (kind v = kind v0))) (Values c)
      then Err (Wrapf "claim has mixed value kinds" ErrBadClaim) else
      let count := length (Values c) in
      let payload := replicate (16 + count * 4) x00 in
      let nameOffset := zlen payload in
      let payload := payload ++ Cond.utf16le (Name c) ++ [x00; x00] in
      let '(payload, valueOffsets, indirects) := place_all (Values c) payload [] [] in
      payload ← backfill indirects payload;
      payload ← put_le 4 payload 0 nameOffset;
      payload ← put_le 2 payload 4 (typeCode (kind v0));
      payload ← put_le 4 payload 8 (Flags c);
      payload ← put_le 4 payload 12 (Z.of_nat count);
      put_offsets 0 valueOffsets payload
  end.

Fixpoint EncodeClaimsArray_loop (claims : list Claim) (out : bytes) : outcome bytes :=
  match claims with
  | [] => Ok out
  | c :: claims =>
      entry ← Claim_Encode c;
      EncodeClaimsArray_loop claims (out ++ le_enc 4 (zlen entry) ++ entry)
  end.
Definition EncodeClaimsArray (claims : list Claim) : outcome bytes :=
  EncodeClaimsArray_loop claims [].

(** ** The reference layout *)

(** The out-of-line datum of a value, and the 8-byte datum of an inline one. *)
Definition datum (v : ClaimValue) : option bytes :=
  match kind v with
  | kindString => Some (Cond.utf16le (vstr v) ++ [x00; x00])
  | kindSID => Some (SID.Bytes (vsid v))
  | kindOctet => Some (le_enc 4 (zlen (oct v)) ++ oct v)
  | _ => None
  end.
Definition inline (v : ClaimValue) : Z :=
  match kind v with kindInt64 => i64 v | _ => u64 v end.

Definition slot (v : ClaimValue) (ptr : Z) : bytes :=
  match datum v with Some _ => le_enc 4 ptr | None => le_enc 8 (inline v) end.

(** Slots from left to right, the pointers advancing over the data area. *)
Fixpoint slots (vs : list ClaimValue) (ptr : Z) : bytes :=
  match vs with
  | [] => []
  | v :: vs => slot v ptr ++ slots vs (ptr + zlen (default [] (datum v)))
  end.
Fixpoint offsets (vs : list ClaimValue) (off : Z) : list Z :=
  match vs with
  | [] => []
  | v :: vs => off :: offsets vs (off + zlen (slot v 0))
  end.
Definition data (vs : list ClaimValue) : bytes := concat ((fun v => default [] (datum v)) <$> vs).

Definition slots_len (vs : list ClaimValue) : Z := zlen (slots vs 0).

Definition entry (c : Claim) (k : claimKind) : bytes :=
  let vs := Values c in
  let name := Cond.utf16le (Name c) ++ [x00; x00] in
  let base := 16 + 4 * zlen vs in
  let first := base + zlen name in
  le_enc 4 base ++ le_enc 2 (typeCode k) ++ [x00; x00] ++ le_enc 4 (Flags c) ++ le_enc 4 (zlen vs)
  ++ words 4 (offsets vs first) ++ name ++ slots vs (first + slots_len vs) ++ data vs.
End claims.

(** ** Lengths *)

Lemma zlen_slot v ptr : zlen (slot v ptr) = match datum v with Some _ => 4 | None => 8 end.
Proof. unfold slot. destruct (datum v); len. Qed.

Lemma zlen_slots vs ptr ptr' : zlen (slots vs ptr) = zlen (slots vs ptr').
Proof.
  revert ptr ptr'. induction vs as [|v vs IH]; intros p p'; cbn [slots]; [done|].
  rewrite !zlen_app, !zlen_slot. erewrite IH. done.
Qed.

Lemma length_offsets vs off : length (offsets vs off) = length vs.
Proof. revert off. induction vs; intros; simpl; auto. Qed.

Lemma data_cons v vs : data (v :: vs) = default [] (datum v) ++ data vs.
Proof. done. Qed.

(** ** The loops build the reference layout *)

Lemma place_spec v payload :
  place v payload = (payload ++ slot v 0, match datum v with Some d => [(zlen payload, d)] | None => [] end).
Proof. unfold place, slot, datum, inline. by destruct (kind v). Qed.

(** The slots with no pointer stored yet. *)
Definition slots0 (vs : list ClaimValue) : bytes := concat ((fun v => slot v 0) <$> vs).

Fixpoint queue (vs : list ClaimValue) (off : Z) : list indirect :=
  match vs with
  | [] => []
  | v :: vs => match datum v with Some d => [(off, d)] | None => [] end
               ++ queue vs (off + zlen (slot v 0))
  end.

Lemma zlen_slots0 vs ptr : zlen (slots0 vs) = zlen (slots vs ptr).
Proof.
  revert ptr. induction vs as [|v vs IH]; intros ptr; [done|].
  unfold slots0 in *. cbn [fmap list_fmap concat slots]. rewrite !zlen_app, !zlen_slot.
  by erewrite IH.
Qed.

Lemma place_all_spec vs payload offs inds :
  place_all vs payload offs inds =
  (payload ++ slots0 vs, offs ++ offsets vs (zlen payload), inds ++ queue vs (zlen payload)).
Proof.
  revert payload offs inds. induction vs as [|v vs IH]; intros payload offs inds; cbn [place_all].
  - cbn. by rewrite !app_nil_r.
  - rewrite place_spec, IH. cbn [offsets queue]. rewrite zlen_app, <- !app_assoc. done.
Qed.

Lemma backfill_spec vs P D :
  backfill (queue vs (zlen P)) (P ++ slots0 vs ++ D)
  = Ok (P ++ slots vs (zlen P + zlen (slots0 vs) + zlen D) ++ D ++ data vs).
Proof.
  revert P D. induction vs as [|v vs IH]; intros P D; cbn [queue slots].
  { cbn. by rewrite app_nil_r. }
  unfold slots0 in *. cbn [fmap list_fmap concat]. rewrite data_cons.
  assert (forall p, slot v p = match datum v with Some _ => le_enc 4 p | None => slot v 0 end) as Hs.
  { intros p. unfold slot. by destruct (datum v). }
  destruct (datum v) as [d|] eqn:Ed; cbn [app default].
  - cbn [backfill]. rewrite <- app_assoc, (put_le_app 4 P (slot v 0)) by (first [done|by rewrite Hs]).
    rewrite bind_Ok. set (e := le_enc 4 _).
    replace (zlen P + zlen (slot v 0)) with (zlen (P ++ e)) by (rewrite zlen_app, zlen_slot, Ed; unfold e; len).
    replace ((P ++ e ++ concat _ ++ D) ++ d) with ((P ++ e) ++ concat ((fun v => slot v 0) <$> vs) ++ (D ++ d)) by app_eq.
    rewrite IH, (Hs (_ + _)), <- !app_assoc. unfold e.
    assert (zlen (slot v 0) = 4) as E4 by (by rewrite zlen_slot, Ed). f_equal.
    f_equal. f_equal; [f_equal; len|]. unfold id. f_equal. f_equal. len.
  - unfold id. rewrite <- app_assoc, (Hs (_ + _)).
    replace (zlen P + zlen (slot v 0)) with (zlen (P ++ slot v 0)) by (by rewrite zlen_app).
    rewrite (app_assoc P), IH, <- !app_assoc. do 5 f_equal. len.
Qed.

Lemma put_offsets_spec H offs z R i : length z = (4 * length offs)%nat -> zlen H = 16 + i * 4 ->
  put_offsets i offs (H ++ z ++ R) = Ok (H ++ words 4 offs ++ R).
Proof.
  revert H z i. induction offs as [|o offs IH]; intros H z i Hz Hi; cbn [put_offsets].
  { destruct z; [done|simpl in Hz; lia]. }
  rewrite <- (take_drop 4 z), <- app_assoc, (put_le_app 4 H (take 4 z)).
  2: { lia. } 2: { rewrite length_take. simpl in Hz. lia. }
  rewrite bind_Ok, (app_assoc H), IH.
  - rewrite words_cons. app_eq.
  - rewrite length_drop. simpl in *. lia.
  - len.
Qed.


Section layout.
Context {U : Uapi}.

Lemma Claim_Encode_entry c v vs : Values c = v :: vs ->
  Forall (fun w => kind w = kind v) (Values c) -> Claim_Encode c = Ok (entry c (kind v)).
Proof.
  intros Hv Hk. unfold Claim_Encode. rewrite Hv. cbv iota. rewrite <- Hv.
  destruct (existsb _ (Values c)) eqn:E.
  { apply existsb_exists in E as (w & Hin & Hw). rewrite Forall_forall in Hk.
    rewrite bool_decide_eq_true_2 in Hw; [done|]. by apply Hk, list_elem_of_In. }
  clear E. set (n := length (Values c)). set (name := Cond.utf16le (Name c) ++ [x00; x00]). cbv zeta.
  rewrite place_all_spec. cbv iota beta. rewrite !app_nil_l.
  set (P := replicate (16 + n * 4) x00 ++ name).
  rewrite <- (app_nil_r (slots0 _)), backfill_spec, bind_Ok, app_nil_l.
  set (first := zlen P) in *. set (sl := slots _ _). set (no := zlen (replicate (16 + n * 4) x00)).
  assert (no = 16 + 4 * zlen (Values c)) as Hno by (unfold no; rewrite zlen_replicate; unfold n, zlen; lia).
  assert (first = no + zlen name) as Hfirst by (unfold first, P; rewrite zlen_app; done).
  unfold P. rewrite !replicate_add.
  change (replicate 16 x00) with (replicate 4 x00 ++ replicate 2 x00 ++ [x00; x00] ++ replicate 4 x00 ++ replicate 4 x00).
  rewrite <- !(assoc_L app).
  rewrite (put_le_head 4 (replicate 4 x00)), bind_Ok by done.
  rewrite (put_le_app 2 (le_enc 4 _) (replicate 2 x00)), bind_Ok by (done || len).
  set (a := le_enc 4 _). set (t := le_enc 2 _).
  rewrite (app_assoc t), (app_assoc a), (put_le_app 4 _ (replicate 4 x00)), bind_Ok by (done || (unfold a, t; len)).
  set (f := le_enc 4 _). rewrite (app_assoc _ f), (put_le_app 4 _ (replicate 4 x00)), bind_Ok by (done || (unfold a, t, f; len)).
  set (k := le_enc 4 _). rewrite (app_assoc _ k), put_offsets_spec.
  - unfold entry. fold name. unfold a, t, f, k, sl, slots_len. rewrite Hfirst, Hno, (zlen_slots0 _ 0).
    replace (zlen (Values c)) with (Z.of_nat n) by done. rewrite <- ?app_assoc.
    rewrite (zlen_nil (A:=byte)), Z.add_0_r. done.
  - rewrite length_replicate, length_offsets. unfold n. lia.
  - unfold a, t, f, k. len.
Qed.
End layout.


(** ** Reading an entry back through its offsets *)

Lemma data_app vs ws : data (vs ++ ws) = data vs ++ data ws.
Proof. unfold data. by rewrite fmap_app, concat_app. Qed.

Lemma slots_app vs ws p : slots (vs ++ ws) p = slots vs p ++ slots ws (p + zlen (data vs)).
Proof.
  revert p. induction vs as [|v vs IH]; intros p; cbn [app slots].
  - change (zlen (data [])) with 0. by rewrite Z.add_0_r.
  - rewrite IH, data_cons, zlen_app, <- app_assoc. do 3 f_equal. lia.
Qed.

Lemma offsets_app vs ws o : offsets (vs ++ ws) o = offsets vs o ++ offsets ws (o + slots_len vs).
Proof.
  revert o. induction vs as [|v vs IH]; intros o; unfold slots_len; cbn [app slots offsets].
  - change (zlen []) with 0. by rewrite Z.add_0_r.
  - rewrite IH, zlen_app, (zlen_slots vs _ 0). do 2 f_equal. unfold slots_len. f_equal. lia.
Qed.

(** What a reader finds for value [v] by following the offset stored for it. *)
Definition value_at (b : bytes) (off : Z) (v : ClaimValue) : Prop :=
  match kind v with
  | kindInt64 => get_le_at 8 b off = Ok (wrap 64 (i64 v))
  | kindUInt64 | kindBoolean => get_le_at 8 b off = Ok (wrap 64 (u64 v))
  | kindString => exists p, get_le_at 4 b off = Ok p /\ located b p (Cond.utf16le (vstr v) ++ [x00; x00])
  | kindSID => exists p, get_le_at 4 b off = Ok p /\ located b p (SID.Bytes (vsid v))
  | kindOctet => exists p, get_le_at 4 b off = Ok p /\ located b p (le_enc 4 (zlen (oct v)) ++ oct v)
  end.

Lemma located_wrap b off z : located b off (le_enc 8 z) -> get_le_at 8 b off = Ok (wrap 64 z).
Proof.
  intros H. apply located_get_le; [|apply Z.mod_pos_bound; lia].
  unfold wrap. change (2 ^ 64) with (256 ^ Z.of_nat 8). by rewrite le_enc_mod.
Qed.

Lemma value_at_slot b off ptr v : 0 <= ptr < 2 ^ 32 -> located b off (slot v ptr) ->
  match datum v with Some d => located b ptr d | None => True end -> value_at b off v.
Proof.
  intros Hp Hs Hd. unfold value_at, slot, datum, inline in *.
  destruct (kind v); eauto using located_wrap; exists ptr; (split; [by apply located_get_le|done]).
Qed.

Section entry.
Context {U : Uapi}.

Lemma entry_value c k i v : zlen (entry c k) < 2 ^ 32 -> Values c !! i = Some v ->
  exists off, get_le_at 4 (entry c k) (16 + 4 * Z.of_nat i) = Ok off /\ value_at (entry c k) off v.
Proof.
  intros Hlen Hi. set (vs := Values c) in *.
  pose proof (take_drop_middle _ _ _ Hi) as Evs. pose proof (lookup_lt_Some _ _ _ Hi) as Hlt.
  assert (length (take i vs) = i) as Hti by (rewrite length_take; lia).
  set (pre := take i vs) in *. set (post := drop (S i) vs) in *.
  set (base := 16 + 4 * zlen vs). set (name := Cond.utf16le (Name c) ++ [x00; x00]).
  set (first := base + zlen name). set (dp := first + slots_len vs).
  set (H16 := le_enc 4 base ++ le_enc 2 (typeCode k) ++ [x00; x00] ++ le_enc 4 (Flags c) ++ le_enc 4 (zlen vs)).
  assert (entry c k = H16 ++ words 4 (offsets vs first) ++ name ++ slots vs dp ++ data vs) as E.
  { unfold entry, H16. cbv zeta. fold vs name base first dp. rewrite <- ?app_assoc. reflexivity. }
  assert (zlen H16 = 16) as HH by (unfold H16; len).
  assert (zlen (offsets vs first) = zlen vs) as Hof by (unfold zlen; by rewrite length_offsets).
  set (off := first + slots_len pre). set (ptr := dp + zlen (data pre)).
  assert (located (entry c k) (16 + 4 * Z.of_nat i) (le_enc 4 off)) as L1.
  { rewrite E. apply (located_is _ (H16 ++ words 4 (offsets pre first)) _
      (words 4 (offsets post (off + zlen (slot v 0))) ++ name ++ slots vs dp ++ data vs)).
    - rewrite <- Evs at 1. rewrite offsets_app, words_app. cbn [offsets]. rewrite words_cons.
      fold off. rewrite <- ?app_assoc. done.
    - rewrite zlen_app, HH, zlen_words. unfold zlen. rewrite length_offsets. lia. }
  assert (located (entry c k) off (slot v ptr)) as L2.
  { rewrite E. apply (located_is _ (H16 ++ words 4 (offsets vs first) ++ name ++ slots pre dp) _
      (slots post (ptr + zlen (default [] (datum v))) ++ data vs)).
    - rewrite <- Evs at 2. rewrite slots_app. cbn [slots]. fold ptr. rewrite <- ?app_assoc. done.
    - rewrite !zlen_app, HH, zlen_words, Hof, (zlen_slots _ _ 0). unfold off, first, base, slots_len. lia. }
  assert (located (entry c k) ptr (default [] (datum v))) as L3.
  { rewrite E. apply (located_is _ (H16 ++ words 4 (offsets vs first) ++ name ++ slots vs dp ++ data pre) _ (data post)).
    - rewrite <- Evs at 3. rewrite data_app, data_cons. rewrite <- ?app_assoc. done.
    - rewrite !zlen_app, HH, zlen_words, Hof, (zlen_slots _ _ 0).
      unfold ptr, dp, first, base, slots_len. lia. }
  pose proof (located_bounds _ _ _ L1). pose proof (located_bounds _ _ _ L2). pose proof (located_bounds _ _ _ L3).
  pose proof (zlen_nonneg (slot v ptr)). pose proof (zlen_nonneg (default [] (datum v))).
  exists off. split; [apply located_get_le; [done|lia]|].
  apply (value_at_slot _ _ ptr); [lia|done|]. by destruct (datum v).
Qed.

Lemma Claim_Encode_cases c :
  (exists v vs, Values c = v :: vs /\ (forall w, w ∈ Values c -> kind w = kind v) /\ Claim_Encode c = Ok (entry c (kind v)))
  \/ (exists e, Claim_Encode c = Err e /\ errors_is e ErrBadClaim = true
      /\ (Values c = [] \/ exists v w, v ∈ Values c /\ w ∈ Values c /\ kind v <> kind w)).
Proof.
  destruct (Values c) as [|v vs] eqn:Hv.
  { right. unfold Claim_Encode. rewrite Hv. eexists. split_and!; [done|done|by left]. }
  destruct (decide (Forall (fun w => kind w = kind v) (Values c))) as [Hk|Hk].
  { left. exists v, vs. split_and!; [done| |by apply (Claim_Encode_entry c v vs)]. rewrite <- Hv. by apply Forall_forall. }
  right. unfold Claim_Encode. rewrite Hv. rewrite Hv in Hk.
  apply not_Forall_Exists in Hk; [|tc_solve]. apply Exists_exists in Hk as (w & Hin & Hw).
  rewrite (proj2 (existsb_exists _ _)).
  - eexists. split_and!; [done|done|]. right. exists w, v. rewrite list_elem_of_In in Hin |- *. rewrite elem_of_cons. auto.
  - exists w. split; [by apply list_elem_of_In|]. by rewrite bool_decide_eq_false_2.
Qed.

(** The type code of each kind of value. *)
Definition type_codes : list (claimKind * Z) :=
  [(kindInt64, KACS_CLAIM_TYPE_INT64); (kindUInt64, KACS_CLAIM_TYPE_UINT64); (kindString, KACS_CLAIM_TYPE_STRING);
   (kindSID, KACS_CLAIM_TYPE_SID); (kindBoolean, KACS_CLAIM_TYPE_BOOLEAN); (kindOctet, KACS_CLAIM_TYPE_OCTET)].
Lemma typeCode_listed k : In (k, typeCode k) type_codes.
Proof. destruct k; simpl; tauto. Qed.

Lemma typeCode_fits {L : ClaimLaws U} k : fits 16 (typeCode k).
Proof. eapply codes_ok_fits; [apply claim_types_ok|]. destruct k; simpl; tauto. Qed.
End entry.

(** C5: a claim entry is readable through its own offsets.  [Encode] fails, with
    [ErrBadClaim], exactly when the claim has no value or mixes kinds, and otherwise
    returns an entry whose header holds the type code, the flags and the value
    count, whose name offset points to the NUL-terminated UTF-16 name, and in which
    following the i-th value offset (and, for a string, SID or octet value, the
    pointer stored there) leads to the i-th value.  The bound is that of the format's
    u32 offsets. *)
Theorem Claim_Encode_readable {U : Uapi} {L : ClaimLaws U} (c : Claim) (Hf : fits 32 (Flags c)) :
  match Claim_Encode c with
  | Panic => False
  | Err e => errors_is e ErrBadClaim = true
      /\ (Values c = [] \/ exists v w, v ∈ Values c /\ w ∈ Values c /\ kind v <> kind w)
  | Ok b => exists v vs, Values c = v :: vs /\ (forall w, w ∈ Values c -> kind w = kind v)
      /\ (zlen b < 2 ^ 32 ->
           (exists code, In (kind v, code) type_codes /\ get_le_at 2 b 4 = Ok code)
           /\ get_le_at 4 b 8 = Ok (Flags c)
           /\ get_le_at 4 b 12 = Ok (zlen (Values c))
           /\ (exists no, get_le_at 4 b 0 = Ok no /\ located b no (Cond.utf16le (Name c) ++ [x00; x00]))
           /\ forall i v, Values c !! i = Some v -> exists off,
                get_le_at 4 b (16 + 4 * Z.of_nat i) = Ok off /\ value_at b off v)
  end.
Proof.
  destruct (Claim_Encode_cases c) as [(v & vs & Hv & Hk & ->)|(e & -> & He)]; [|done].
  exists v, vs. split; [done|]. split; [done|]. intros Hlen. pose proof (typeCode_fits (kind v)) as Ht.
  set (name := Cond.utf16le (Name c) ++ [x00; x00]). unfold fits in *.
  set (base := 16 + 4 * zlen (Values c)). set (body := words 4 (offsets (Values c) (base + zlen name))).
  set (tail := name ++ slots (Values c) (base + zlen name + slots_len (Values c)) ++ data (Values c)).
  assert (entry c (kind v) = le_enc 4 base ++ le_enc 2 (typeCode (kind v)) ++ [x00; x00]
    ++ le_enc 4 (Flags c) ++ le_enc 4 (zlen (Values c)) ++ body ++ tail) as E by done.
  assert (zlen body = 4 * zlen (Values c)) as Hb.
  { unfold body. rewrite zlen_words. unfold zlen. by rewrite length_offsets. }
  assert (base + zlen tail = zlen (entry c (kind v))) as Htot by (rewrite E; unfold base; len).
  pose proof (zlen_nonneg tail). pose proof (zlen_nonneg (Values c)).
  split_and!.
  - exists (typeCode (kind v)). split; [apply typeCode_listed|]. rewrite E. by apply (get_le_at_app 2 (le_enc 4 base)).
  - rewrite E. eapply (get_le_at_is 4 _ (le_enc 4 base ++ le_enc 2 (typeCode (kind v)) ++ [x00; x00])); [app_eq|len|done].
  - rewrite E. eapply (get_le_at_is 4 _ (le_enc 4 base ++ le_enc 2 (typeCode (kind v)) ++ [x00; x00] ++ le_enc 4 (Flags c)));
      [app_eq|len|unfold base in *; lia].
  - exists base. split.
    + rewrite E. apply (get_le_at_app 4 []); [done|unfold base in *; lia].
    + rewrite E. unfold tail. eapply (located_is _ (le_enc 4 base ++ le_enc 2 (typeCode (kind v)) ++ [x00; x00]
        ++ le_enc 4 (Flags c) ++ le_enc 4 (zlen (Values c)) ++ body)); [app_eq|unfold base; len].
  - intros i w Hi. by apply entry_value.
Qed.

Definition sample_claim : Claim :=
  mkClaim (str "Title") 1 [StringValue (str "PM"); StringValue (str "VP")].

Lemma Claim_Encode_readable_witness :
  let b := @entry pkm sample_claim kindString in
  @Claim_Encode pkm sample_claim = Ok b /\ zlen b < 2 ^ 32
  /\ exists off, get_le_at 4 b 20 = Ok off /\ value_at b off (StringValue (str "VP")).
Proof.
  pose proof (@Claim_Encode_readable pkm pkm_ClaimLaws sample_claim ltac:(split; vm_compute; congruence)) as H.
  assert (@Claim_Encode pkm sample_claim = Ok (@entry pkm sample_claim kindString)) as E by (vm_compute; reflexivity).
  rewrite E in H. split; [done|]. split; [by vm_compute|].
  destruct H as (v & vs & _ & _ & H). destruct (H ltac:(by vm_compute)) as (_&_&_&_&Hv). clear H. rename Hv into H. exact (H 1%nat _ eq_refl).
Defined.


(** ** Object trees (sd/objecttree.go) *)

(** [type GUID [16]byte]: the array is its bytes; [length g = 16] for every value. *)
Record ObjectNode := mkNode { Level : Z; GUID : bytes }.

Fixpoint EncodeObjectTree (nodes : list ObjectNode) : bytes :=
  match nodes with
  | [] => []
  | n :: nodes => le_enc 2 (Level n) ++ le_enc 2 0 ++ GUID n ++ EncodeObjectTree nodes
  end.

(** Node [i] is the 20-byte cell [i] of the array. *)
Lemma EncodeObjectTree_node nodes i n : Forall (fun n => length (GUID n) = 16%nat) nodes ->
  nodes !! i = Some n -> located (EncodeObjectTree nodes) (20 * Z.of_nat i)
    (le_enc 2 (Level n) ++ le_enc 2 0 ++ GUID n).
Proof.
  revert i. induction nodes as [|m nodes IH]; intros i Hg Hi; [done|].
  apply Forall_cons in Hg as [Hm Hg]. destruct i as [|i]; simpl in Hi.
  - injection Hi as ->. apply (located_is _ [] _ (EncodeObjectTree nodes)); [|done]. cbn [EncodeObjectTree]. app_eq.
  - destruct (IH _ Hg Hi) as (p & s & E & Hp).
    apply (located_is _ (le_enc 2 (Level m) ++ le_enc 2 0 ++ GUID m ++ p) _ s).
    + cbn [EncodeObjectTree]. rewrite E. app_eq.
    + assert (zlen (GUID m) = 16) by (unfold zlen; lia). len.
Qed.

End Claims.
