(* ===== verification/Ace.v ===== *)
(** * Ace: access-control entries (sd/ace.go)

    [ACE] is the Go struct; the pointer fields are options and [Raw] is an option
    too, because the code distinguishes the nil slice (structured body) from a
    non-nil one (verbatim body).  [ok] is the invariant of an ACE that has a wire
    form of its own: only the fields its type uses are set.  The theorems: an [ok]
    ACE survives Marshal and ParseACE; ParseACE never panics, and what it accepts is
    [ok] and can be marshalled again in no more bytes, except an ACE of a raw type
    with an empty body, which comes back with a nil [Raw] and has no encoding. *)

From S2P Require Import Prelude Outcome Codec Uapi GoStd Sid WellKnown Condition Claims.

Module Ace.

Record ACE := mkACE {
  ace_Type : Z;
  ace_Flags : Z;
  Mask : Z;
  ace_SID : SID.t;
  ObjectType : option bytes;
  InheritedObjectType : option bytes;
  Raw : option bytes
}.

#[global] Instance ACE_eq_dec : EqDecision ACE.
Proof. solve_decision. Defined.

(** [ACE{}] *)
Definition noACE : ACE := mkACE 0 0 0 SID.zero None None None.

(** [child.Flags = f] on a struct copy. *)
Definition set_Flags (a : ACE) (f : Z) : ACE :=
  mkACE (ace_Type a) f (Mask a) (ace_SID a) (ObjectType a) (InheritedObjectType a) (Raw a).

(** [append([]byte(nil), body...)]: nil when [body] is empty. *)
Definition nil_append (body : bytes) : option bytes :=
  match body with [] => None | _ => Some body end.

Section ace.
Context {U : Uapi}.

(** ** Types *)

Definition isSimpleMaskSID (t : Z) : bool :=
  existsb (Z.eqb t)
    [KACS_ACE_TYPE_ACCESS_ALLOWED; KACS_ACE_TYPE_ACCESS_DENIED; KACS_ACE_TYPE_SYSTEM_AUDIT;
     KACS_ACE_TYPE_SYSTEM_ALARM; KACS_ACE_TYPE_SYSTEM_MANDATORY_LABEL].

Definition isObject (t : Z) : bool :=
  existsb (Z.eqb t)
    [KACS_ACE_TYPE_ACCESS_ALLOWED_OBJECT; KACS_ACE_TYPE_ACCESS_DENIED_OBJECT;
     KACS_ACE_TYPE_SYSTEM_AUDIT_OBJECT; KACS_ACE_TYPE_SYSTEM_ALARM_OBJECT].

Definition needsDSRevision (t : Z) : bool := (0x05 <=? t) && (t <=? 0x10).

(** ** Constructors *)

Definition Allow (sid : SID.t) (mask : Z) : ACE :=
  mkACE KACS_ACE_TYPE_ACCESS_ALLOWED 0 mask sid None None None.
Definition Deny (sid : SID.t) (mask : Z) : ACE :=
  mkACE KACS_ACE_TYPE_ACCESS_DENIED 0 mask sid None None None.
Definition Audit (sid : SID.t) (mask : Z) : ACE :=
  mkACE KACS_ACE_TYPE_SYSTEM_AUDIT 0 mask sid None None None.
Definition MandatoryLabel (integrityLevel : SID.t) (policy : Z) : ACE :=
  mkACE KACS_ACE_TYPE_SYSTEM_MANDATORY_LABEL 0 policy integrityLevel None None None.
Definition AllowObject (sid : SID.t) (mask : Z) (objectType inheritedObjectType : option bytes) : ACE :=
  mkACE KACS_ACE_TYPE_ACCESS_ALLOWED_OBJECT 0 mask sid objectType inheritedObjectType None.
Definition DenyObject (sid : SID.t) (mask : Z) (objectType inheritedObjectType : option bytes) : ACE :=
  mkACE KACS_ACE_TYPE_ACCESS_DENIED_OBJECT 0 mask sid objectType inheritedObjectType None.
Definition AuditObject (sid : SID.t) (mask : Z) (objectType inheritedObjectType : option bytes) : ACE :=
  mkACE KACS_ACE_TYPE_SYSTEM_AUDIT_OBJECT 0 mask sid objectType inheritedObjectType None.

(** An ACE of type [t] whose only other field is [Raw]. *)
Definition rawOnly (t : Z) (raw : option bytes) : ACE := mkACE t 0 0 SID.zero None None raw.

Definition RawACE (t : Z) (body : bytes) : ACE := rawOnly t (nil_append body).

Definition presence (objectType inheritedObjectType : option bytes) : Z :=
  Z.lor (if objectType is Some _ then KACS_ACE_OBJECT_TYPE_PRESENT else 0)
        (if inheritedObjectType is Some _ then KACS_ACE_INHERITED_OBJECT_TYPE_PRESENT else 0).

Definition objectBody (mask : Z) (objectType inheritedObjectType : option bytes) (sid : SID.t) : bytes :=
  le_enc 4 mask ++ le_enc 4 (presence objectType inheritedObjectType)
  ++ default [] objectType ++ default [] inheritedObjectType ++ SID.Bytes sid.

Definition callbackBody (mask : Z) (sid : SID.t) (cond : Cond.Condition) : bytes :=
  le_enc 4 mask ++ SID.Bytes sid ++ Cond.Encode cond.

Definition AllowCallback (sid : SID.t) (mask : Z) (cond : Cond.Condition) : ACE :=
  rawOnly KACS_ACE_TYPE_ACCESS_ALLOWED_CALLBACK (Some (callbackBody mask sid cond)).
Definition DenyCallback (sid : SID.t) (mask : Z) (cond : Cond.Condition) : ACE :=
  rawOnly KACS_ACE_TYPE_ACCESS_DENIED_CALLBACK (Some (callbackBody mask sid cond)).
Definition AuditCallback (sid : SID.t) (mask : Z) (cond : Cond.Condition) : ACE :=
  rawOnly KACS_ACE_TYPE_SYSTEM_AUDIT_CALLBACK (Some (callbackBody mask sid cond)).
Definition AllowCallbackObject (sid : SID.t) (mask : Z) (o i : option bytes) (cond : Cond.Condition) : ACE :=
  rawOnly KACS_ACE_TYPE_ACCESS_ALLOWED_CALLBACK_OBJECT (Some (objectBody mask o i sid ++ Cond.Encode cond)).
Definition DenyCallbackObject (sid : SID.t) (mask : Z) (o i : option bytes) (cond : Cond.Condition) : ACE :=
  rawOnly KACS_ACE_TYPE_ACCESS_DENIED_CALLBACK_OBJECT (Some (objectBody mask o i sid ++ Cond.Encode cond)).
Definition AuditCallbackObject (sid : SID.t) (mask : Z) (o i : option bytes) (cond : Cond.Condition) : ACE :=
  rawOnly KACS_ACE_TYPE_SYSTEM_AUDIT_CALLBACK_OBJECT (Some (objectBody mask o i sid ++ Cond.Encode cond)).

Definition ResourceAttribute (claim : Claims.Claim) : outcome ACE :=
  entry ← Claims.Claim_Encode claim;
  let body := le_enc 4 0 ++ SID.Bytes (WK.SID WK.Everyone) ++ entry in
  Ok (rawOnly KACS_ACE_TYPE_SYSTEM_RESOURCE_ATTRIBUTE (Some body)).

(** ** Marshal and ParseACE *)

Definition body (a : ACE) : outcome bytes :=
  match Raw a with
  | Some raw => Ok raw
  | None =>
      if isObject (ace_Type a) then
        Ok (objectBody (Mask a) (ObjectType a) (InheritedObjectType a) (ace_SID a))
      else if isSimpleMaskSID (ace_Type a) then Ok (le_enc 4 (Mask a) ++ SID.Bytes (ace_SID a))
      else Err (Errorf "ACE type has no structured encoding")
  end.

Definition Marshal (a : ACE) : outcome bytes :=
  b ← body a;
  let size := 4 + zlen b in
  if 0xFFFF <? size then Err (Errorf "ACE size exceeds 65535") else
  Ok ([z2b (ace_Type a); z2b (ace_Flags a)] ++ le_enc 2 size ++ b).

(** One of the two GUID blocks: the GUID, if its presence bit is set, and the
    offset after it. *)
Definition read_guid (b : bytes) (present bit off : Z) : outcome (option bytes * Z) :=
  if has_bit present bit then
    if zlen b <? off + 16 then Err ErrBadACE else
    g ← slice b off (off + 16);
    Ok (Some g, off + 16)
  else Ok (None, off).

(** The switch of ParseACE on the type, [b] being [buf[4:size]]. *)
Definition parse_body (t f : Z) (b : bytes) (size : Z) : outcome (ACE * Z) :=
  if isSimpleMaskSID t then
    if zlen b <? 4 then Err ErrBadACE else
    mask ← get_le 4 b;
    r ← slice_from b 4;
    sid ← wrap_err "ACE" (SID.ParseSID r);
    Ok (mkACE t f mask sid None None None, size)
  else if isObject t then
    if zlen b <? 8 then Err ErrBadACE else
    mask ← get_le 4 b;
    present ← get_le_at 4 b 4;
    '(objectType, off) ← read_guid b present KACS_ACE_OBJECT_TYPE_PRESENT 8;
    '(inheritedObjectType, off) ← read_guid b present KACS_ACE_INHERITED_OBJECT_TYPE_PRESENT off;
    r ← slice_from b off;
    sid ← wrap_err "ACE" (SID.ParseSID r);
    Ok (mkACE t f mask sid objectType inheritedObjectType None, size)
  else Ok (mkACE t f 0 SID.zero None None (nil_append b), size).

Definition ParseACE (buf : bytes) : outcome (ACE * Z) :=
  if zlen buf <? 4 then Err ErrBadACE else
  h ← slice buf 2 4;
  size ← get_le 2 h;
  if (size <? 4) || (zlen buf <? size) then Err ErrBadACE else
  ty ← index buf 0;
  fl ← index buf 1;
  b ← slice buf 4 size;
  parse_body (b2z ty) (b2z fl) b size.

(** ** The invariant *)

Definition guid_ok (g : option bytes) : Prop :=
  match g with Some g => zlen g = 16 | None => True end.

Definition structured (a : ACE) : Prop :=
  fits 32 (Mask a) /\ SID.valid (ace_SID a) /\ Raw a = None.
Definition rawform (a : ACE) : Prop :=
  Mask a = 0 /\ ace_SID a = SID.zero /\ ObjectType a = None /\ InheritedObjectType a = None.

Definition ok (a : ACE) : Prop :=
  fits 8 (ace_Type a) /\ fits 8 (ace_Flags a) /\
  if isSimpleMaskSID (ace_Type a) then
    structured a /\ ObjectType a = None /\ InheritedObjectType a = None
  else if isObject (ace_Type a) then
    structured a /\ guid_ok (ObjectType a) /\ guid_ok (InheritedObjectType a)
  else rawform a /\ exists b, Raw a = Some b /\ b <> [].

(** What ParseACE returns for a raw type with an empty body. *)
Definition hollow (a : ACE) : Prop :=
  isSimpleMaskSID (ace_Type a) = false /\ isObject (ace_Type a) = false /\ rawform a /\ Raw a = None.
End ace.

(** ** The frame: header and body *)

Section frame.
Context {U : Uapi}.

Definition frame (t f : Z) (b : bytes) : bytes := [z2b t; z2b f] ++ le_enc 2 (4 + zlen b) ++ b.

Lemma ACE_zlen_frame t f b : zlen (frame t f b) = 4 + zlen b.
Proof. unfold frame. len. Qed.

Lemma ParseACE_frame t f b rest : fits 8 t -> fits 8 f -> 4 + zlen b <= 0xFFFF ->
  ParseACE (frame t f b ++ rest) = parse_body t f b (4 + zlen b).
Proof.
  intros Ht Hf Hb. pose proof (zlen_nonneg b). pose proof (zlen_nonneg rest).
  unfold ParseACE. rewrite zlen_app, ACE_zlen_frame. destruct (Z.ltb_spec (4 + zlen b + zlen rest) 4); [lia|].
  rewrite (slice_is _ [z2b t; z2b f] (le_enc 2 (4 + zlen b)) (b ++ rest)) by (unfold frame; app_eq || len).
  rewrite bind_Ok. rewrite <- (app_nil_r (le_enc _ _)), get_le_app_small, bind_Ok by lia.
  destruct (Z.ltb_spec (4 + zlen b) 4); [lia|]. destruct (Z.ltb_spec (4 + zlen b + zlen rest) (4 + zlen b)); [lia|].
  cbn [orb].
  rewrite (index_is _ [] (z2b t) (z2b f :: le_enc 2 (4 + zlen b) ++ b ++ rest) 0) by (unfold frame; app_eq || done).
  rewrite (index_is _ [z2b t] (z2b f) (le_enc 2 (4 + zlen b) ++ b ++ rest) 1) by (unfold frame; app_eq || done).
  rewrite !bind_Ok, (slice_is _ ([z2b t; z2b f] ++ le_enc 2 (4 + zlen b)) b rest) by (unfold frame; app_eq || len).
  by rewrite bind_Ok, !b2z_z2b_small.
Qed.

(** A buffer is refused by the header checks, or is a frame and what follows. *)
Lemma ParseACE_cases buf :
  ParseACE buf = Err ErrBadACE
  \/ exists t f b rest, buf = frame t f b ++ rest /\ fits 8 t /\ fits 8 f /\ 4 + zlen b <= 0xFFFF
     /\ ParseACE buf = parse_body t f b (4 + zlen b).
Proof.
  destruct (decide (4 <= zlen buf)) as [Hl|Hl].
  2: { left. unfold ParseACE. destruct (Z.ltb_spec (zlen buf) 4); [done|lia]. }
  destruct buf as [|t [|f [|s0 [|s1 buf]]]]; [by cbn in Hl..|].
  pose proof (le_dec_bound [s0; s1]) as Hs. change (zlen [s0; s1]) with 2 in Hs.
  set (size := le_dec [s0; s1]) in *.
  destruct (decide (4 <= size <= zlen (t :: f :: s0 :: s1 :: buf))) as [Hsz|Hsz].
  - right. rewrite !zlen_cons in Hsz. set (n := Z.to_nat (size - 4)).
    assert (zlen (take n buf) = size - 4) as Hn by (unfold n; rewrite zlen_take; lia).
    exists (b2z t), (b2z f), (take n buf), (drop n buf).
    assert (t :: f :: s0 :: s1 :: buf = frame (b2z t) (b2z f) (take n buf) ++ drop n buf) as E.
    { unfold frame. rewrite Hn, !z2b_b2z. replace (4 + (size - 4)) with size by lia.
      unfold size. rewrite le_enc_dec_len by done. cbn [app]. by rewrite take_drop. }
    pose proof (b2z_bound t). pose proof (b2z_bound f).
    split_and!; [done|done|done|lia|]. rewrite E. apply ParseACE_frame; [done|done|lia].
  - left. unfold ParseACE. destruct (Z.ltb_spec (zlen (t :: f :: s0 :: s1 :: buf)) 4); [done|].
    change (slice (t :: f :: s0 :: s1 :: buf) 2 4) with (slice ([t; f] ++ [s0; s1] ++ buf) 2 4).
    rewrite slice_mid, bind_Ok by done. change (get_le 2 [s0; s1]) with (Ok size). rewrite bind_Ok.
    destruct (Z.ltb_spec size 4); [done|]. cbn [orb].
    by destruct (Z.ltb_spec (zlen (t :: f :: s0 :: s1 :: buf)) size); [|lia].
Qed.

Lemma Marshal_frame a b : body a = Ok b ->
  Marshal a = if 0xFFFF <? 4 + zlen b then Err (Errorf "ACE size exceeds 65535")
              else Ok (frame (ace_Type a) (ace_Flags a) b).
Proof. intros E. unfold Marshal. rewrite E. done. Qed.

Lemma ACE_Marshal_Ok_inv a w : Marshal a = Ok w ->
  exists b, body a = Ok b /\ 4 + zlen b <= 0xFFFF /\ w = frame (ace_Type a) (ace_Flags a) b.
Proof.
  unfold Marshal. intros (b & Hb & H)%bind_Ok_inv. exists b. split; [done|].
  destruct (Z.ltb_spec 0xFFFF (4 + zlen b)); [done|]. by apply Ok_inj in H.
Qed.

Lemma ACE_Marshal_safe a : safe (Marshal a).
Proof.
  unfold Marshal. apply safe_bind.
  - unfold body. destruct (Raw a); [done|]. destruct (isObject _); [done|]. by destruct (isSimpleMaskSID _).
  - intros b _. by destruct (_ <? _).
Qed.

(** ** The body *)

Lemma presence_bits x y : Z.land x y = 0 -> x <> 0 -> y <> 0 ->
  has_bit x x = true /\ has_bit y y = true /\ has_bit (Z.lor x y) x = true /\ has_bit (Z.lor x y) y = true
  /\ has_bit x y = false /\ has_bit y x = false.
Proof.
  intros Hd Hx Hy. rewrite !has_bit_lor, !has_bit_self, !has_bit_disjoint by (done || by rewrite Z.land_comm).
  done.
Qed.

Lemma read_guid_Some p g s present bit off : has_bit present bit = true -> zlen g = 16 -> off = zlen p ->
  read_guid (p ++ g ++ s) present bit off = Ok (Some g, off + 16).
Proof.
  intros Hb Hg ->. unfold read_guid. rewrite Hb. pose proof (zlen_nonneg s).
  destruct (Z.ltb_spec (zlen (p ++ g ++ s)) (zlen p + 16)); [len|].
  rewrite slice_mid by lia. done.
Qed.

Lemma read_guid_safe b present bit off : 0 <= off -> safe (read_guid b present bit off).
Proof.
  intros. unfold read_guid. destruct (has_bit _ _); [|done].
  destruct (Z.ltb_spec (zlen b) (off + 16)); [done|]. rewrite slice_ok by lia. done.
Qed.

Lemma read_guid_inv b present bit off g off' : 0 <= off <= zlen b ->
  read_guid b present bit off = Ok (g, off') ->
  guid_ok g /\ off' = off + zlen (default [] g) /\ off' <= zlen b.
Proof.
  intros Ho. unfold read_guid. destruct (has_bit _ _).
  - destruct (Z.ltb_spec (zlen b) (off + 16)); [done|]. rewrite slice_ok by lia. rewrite bind_Ok.
    intros [<- <-]%Ok_inj%pair_eq. cbn. unfold id. rewrite zlen_zseg by lia. split_and!; lia.
  - intros [<- <-]%Ok_inj%pair_eq. cbn. unfold id. rewrite zlen_nil. split_and!; [done|lia|lia].
Qed.

Lemma parse_body_safe t f b size : safe (parse_body t f b size).
Proof.
  unfold parse_body. pose proof (zlen_nonneg b). destruct (isSimpleMaskSID t); [|destruct (isObject t); [|done]].
  - destruct (Z.ltb_spec (zlen b) 4); [done|]. rewrite get_le_ok, slice_from_ok, !bind_Ok by lia.
    apply safe_bind; [auto with safe|done].
  - destruct (Z.ltb_spec (zlen b) 8); [done|]. rewrite get_le_ok, get_le_at_ok, !bind_Ok by lia.
    apply safe_bind; [apply read_guid_safe; lia|]. intros [g off] (?&->&?)%read_guid_inv; [|lia].
    pose proof (zlen_nonneg (default [] g)).
    apply safe_bind; [apply read_guid_safe; lia|]. intros [g' off'] (?&->&?)%read_guid_inv; [|lia].
    pose proof (zlen_nonneg (default [] g')).
    rewrite slice_from_ok by lia. rewrite bind_Ok. apply safe_bind; [auto with safe|done].
Qed.

Lemma nil_append_inv b : (b <> [] /\ nil_append b = Some b) \/ (b = [] /\ nil_append b = None).
Proof. destruct b; [by right|by left]. Qed.

Lemma zlen_objectBody m o i s :
  zlen (objectBody m o i s) = 8 + zlen (default [] o) + zlen (default [] i) + zlen (SID.Bytes s).
Proof. unfold objectBody. len. Qed.

Context {L : AceLaws U}.

Lemma simple_index t : isSimpleMaskSID t = true ->
  exists i, In i [0; 1; 2; 3; 17]%nat /\ ace_types !! i = Some t.
Proof.
  unfold isSimpleMaskSID. rewrite existsb_exists. intros (x & Hin & ->%Z.eqb_eq). simpl in Hin.
  destruct Hin as [<-|[<-|[<-|[<-|[<-|[]]]]]];
    [exists 0%nat|exists 1%nat|exists 2%nat|exists 3%nat|exists 17%nat]; simpl; tauto.
Qed.

Lemma object_index t : isObject t = true ->
  exists i, In i [5; 6; 7; 8]%nat /\ ace_types !! i = Some t.
Proof.
  unfold isObject. rewrite existsb_exists. intros (x & Hin & ->%Z.eqb_eq). simpl in Hin.
  destruct Hin as [<-|[<-|[<-|[<-|[]]]]];
    [exists 5%nat|exists 6%nat|exists 7%nat|exists 8%nat]; simpl; tauto.
Qed.

(** The two cases of the switches exclude each other. *)
Lemma simple_not_object t : isSimpleMaskSID t = true -> isObject t = false.
Proof.
  intros (i & Hi & Ei)%simple_index. apply not_true_is_false. intros (j & Hj & Ej)%object_index.
  pose proof (NoDup_lookup _ _ _ _ (codes_ok_NoDup _ _ ace_types_ok) Ei Ej) as ->.
  simpl in *. lia.
Qed.

Lemma parse_body_inv t f b size a n : fits 8 t -> fits 8 f -> parse_body t f b size = Ok (a, n) ->
  n = size /\ ace_Type a = t /\ ace_Flags a = f
  /\ ((hollow a /\ b = []) \/ (ok a /\ exists b', body a = Ok b' /\ zlen b' <= zlen b)).
Proof.
  intros Ht Hf. unfold parse_body, ok, hollow, body, rawform, structured.
  destruct (isSimpleMaskSID t) eqn:Es; [|destruct (isObject t) eqn:Eo].
  - destruct (Z.ltb_spec (zlen b) 4); [done|].
    intros (m & [_ [_ Hm]]%get_le_Ok_inv & (r & [_ ->]%slice_from_Ok_inv
      & (s & [Hv [rest Hr]]%wrap_err_Ok%SID.ParseSID_Ok_inv & [<- <-]%Ok_inj%pair_eq)%bind_Ok_inv)%bind_Ok_inv)%bind_Ok_inv.
    cbn [ace_Type ace_Flags Mask ace_SID ObjectType InheritedObjectType Raw].
    rewrite Es, (simple_not_object _ Es). split_and!; [done..|]. right. split; [done|].
    eexists. split; [done|]. apply (f_equal zlen) in Hr. len.
  - destruct (Z.ltb_spec (zlen b) 8); [done|].
    intros (m & [_ [_ Hm]]%get_le_Ok_inv & (pr & _ & ([g off] & (Hg&->&?)%read_guid_inv
      & ([g' off'] & (Hg'&->&?)%read_guid_inv & (r & [_ ->]%slice_from_Ok_inv
      & (s & [Hv [rest Hr]]%wrap_err_Ok%SID.ParseSID_Ok_inv & [<- <-]%Ok_inj%pair_eq)%bind_Ok_inv
      )%bind_Ok_inv)%bind_Ok_inv)%bind_Ok_inv)%bind_Ok_inv)%bind_Ok_inv.
    2, 3: pose proof (zlen_nonneg (default [] g)); lia.
    cbn [ace_Type ace_Flags Mask ace_SID ObjectType InheritedObjectType Raw].
    rewrite Es, Eo. split_and!; [done..|]. right. split; [done|].
    eexists. split; [done|]. rewrite zlen_objectBody. apply (f_equal zlen) in Hr. len.
  - intros [<- <-]%Ok_inj%pair_eq. cbn [ace_Type ace_Flags Mask ace_SID ObjectType InheritedObjectType Raw].
    rewrite Es, Eo. split_and!; [done..|].
    destruct (nil_append_inv b) as [[Hb ->]|[-> ->]]; [right|left; split_and!; done].
    split; [split_and!; eauto|]. eauto with lia.
Qed.

(** The two GUID blocks of an object body, whatever follows them. *)
Lemma read_guids h o i tail : guid_ok o -> guid_ok i -> zlen h = 8 ->
  read_guid (h ++ default [] o ++ default [] i ++ tail) (presence o i) KACS_ACE_OBJECT_TYPE_PRESENT 8
    = Ok (o, 8 + zlen (default [] o))
  /\ read_guid (h ++ default [] o ++ default [] i ++ tail) (presence o i)
       KACS_ACE_INHERITED_OBJECT_TYPE_PRESENT (8 + zlen (default [] o))
     = Ok (i, 8 + zlen (default [] o) + zlen (default [] i))
  /\ fits 32 (presence o i).
Proof.
  intros Ho Hi Hh. pose proof ace_present_ok as (Hf1&Hn1&Hd&(Hf2&Hn2&_&_)%masks_ok_cons)%masks_ok_cons.
  specialize (Hd _ (or_introl eq_refl)).
  destruct (presence_bits _ _ Hd Hn1 Hn2) as (B1&B1'&B2&B3&B4&B5). split_and!.
  - destruct o as [o|]; cbn [guid_ok default presence] in Ho |- *; unfold id.
    + rewrite read_guid_Some; [by rewrite Ho| |done|done]. unfold presence. destruct i; [done|by rewrite Z.lor_0_r].
    + unfold read_guid, presence. destruct i; [by rewrite Z.lor_0_l, B5|done].
  - rewrite (app_assoc h). destruct i as [i|]; cbn [guid_ok default presence] in Hi |- *; unfold id.
    + rewrite read_guid_Some; [by rewrite Hi| |done|len]. unfold presence. destruct o; [done|by rewrite Z.lor_0_l].
    + unfold read_guid, presence. rewrite (zlen_nil (A:=byte)), Z.add_0_r.
      destruct o; [by rewrite Z.lor_0_r, B4|done].
  - unfold presence. apply fits_lor; [lia|destruct o|destruct i]; done || (split; lia).
Qed.

Lemma parse_body_ok a b n : ok a -> body a = Ok b -> parse_body (ace_Type a) (ace_Flags a) b n = Ok (a, n).
Proof.
  unfold ok, body, parse_body. destruct a as [t f m s o i raw].
  cbn [ace_Type ace_Flags Mask ace_SID ObjectType InheritedObjectType Raw].
  intros (_&_&H). destruct (isSimpleMaskSID t) eqn:Es; [|destruct (isObject t) eqn:Eo].
  - unfold structured in H. cbn in H. destruct H as ((Hm&Hs&->)&->&->).
    rewrite (simple_not_object _ Es). intros <-%Ok_inj. pose proof (zlen_nonneg (SID.Bytes s)).
    destruct (Z.ltb_spec (zlen (le_enc 4 m ++ SID.Bytes s)) 4); [len|].
    rewrite get_le_app_small, slice_from_app, !bind_Ok by (done || len).
    by rewrite SID.ParseSID_Bytes_self.
  - unfold structured in H. cbn in H. destruct H as ((Hm&Hs&->)&Ho&Hi).
    intros <-%Ok_inj. pose proof (zlen_nonneg (SID.Bytes s)).
    pose proof (zlen_nonneg (default [] o)). pose proof (zlen_nonneg (default [] i)).
    destruct (Z.ltb_spec (zlen (objectBody m o i s)) 8); [rewrite zlen_objectBody in *; lia|].
    set (h := le_enc 4 m ++ le_enc 4 (presence o i)). assert (zlen h = 8) as Hh by (unfold h; len).
    destruct (read_guids h o i (SID.Bytes s) Ho Hi Hh) as (R1 & R2 & Hp).
    unfold objectBody. rewrite get_le_app_small, bind_Ok by done.
    rewrite (get_le_at_app 4 (le_enc 4 m)), bind_Ok by (done || len).
    replace (le_enc 4 m ++ le_enc 4 (presence o i) ++ _) with (h ++ default [] o ++ default [] i ++ SID.Bytes s)
      by (unfold h; app_eq).
    rewrite R1, bind_Ok. cbn beta iota. rewrite R2, bind_Ok. cbn beta iota.
    rewrite (slice_from_is _ (h ++ default [] o ++ default [] i) (SID.Bytes s)) by (app_eq || len).
    rewrite bind_Ok. by rewrite SID.ParseSID_Bytes_self.
  - destruct H as ((E1&E2&E3&E4)&b'&->&Hb). cbn in *. subst. intros <-%Ok_inj.
    by destruct (nil_append_inv b') as [[_ ->]|[-> _]].
Qed.

#[global] Instance ACE_codec : Codec ok Marshal ParseACE.
Proof.
  split.
  - intros buf. destruct (ParseACE_cases buf) as [->|(t&f&b&rest&_&_&_&_&->)]; [done|apply parse_body_safe].
  - intros buf a n. destruct (ParseACE_cases buf) as [->|(t&f&b&rest&->&Ht&Hf&_&->)]; [done|].
    intros (->&_)%parse_body_inv; [|done|done]. rewrite zlen_app, ACE_zlen_frame. len.
  - intros a w rest Hok (b & Hb & Hl & ->)%ACE_Marshal_Ok_inv. pose proof Hok as (Ht&Hf&_).
    rewrite ParseACE_frame, ACE_zlen_frame by done. by apply parse_body_ok.
  - intros buf a n. destruct (ParseACE_cases buf) as [->|(t&f&b&rest&->&Ht&Hf&Hl&->)]; [done|].
    intros (->&_&_&H)%parse_body_inv Hok; [|done|done]. destruct H as [[Hh _]|(_&b'&Hb&Hle)].
    + exfalso. destruct Hh as (Hs&Ho&_&Hr). destruct Hok as (_&_&Hok). rewrite Hs, Ho, Hr in Hok.
      by destruct Hok as (_&?&?&_).
    + pose proof (Marshal_frame _ _ Hb) as Em. destruct (Z.ltb_spec 0xFFFF (4 + zlen b')); [lia|].
      eexists. split; [done|]. rewrite ACE_zlen_frame. lia.
Qed.
End frame.


(** ** Errors *)

Section errors.
Context {U : Uapi}.

Definition bad (e : err) : Prop := errors_is e ErrBadACE = true \/ errors_is e ErrBadSID = true.

Lemma read_guid_err b present bit off e : 0 <= off -> read_guid b present bit off = Err e -> e = ErrBadACE.
Proof.
  intros. unfold read_guid in *. destruct (has_bit _ _); [|done].
  destruct (Z.ltb_spec (zlen b) (off + 16)); [naive_solver|]. by rewrite slice_ok in * by lia.
Qed.

Lemma sid_err buf e : wrap_err "ACE" (SID.ParseSID buf) = Err e -> bad e.
Proof.
  destruct (SID.ParseSID buf) eqn:E; [done|intros [= <-]|done]. apply SID.ParseSID_err in E as ->. by right.
Qed.

Lemma parse_body_err t f b size e : parse_body t f b size = Err e -> bad e.
Proof.
  unfold parse_body. pose proof (zlen_nonneg b). destruct (isSimpleMaskSID t); [|destruct (isObject t); [|done]].
  - destruct (Z.ltb_spec (zlen b) 4); [intros [= <-]; by left|].
    rewrite get_le_ok, slice_from_ok, !bind_Ok by lia.
    destruct (wrap_err _ _) eqn:E; [done|intros [= <-]; by eapply sid_err|done].
  - destruct (Z.ltb_spec (zlen b) 8); [intros [= <-]; by left|].
    rewrite get_le_ok, get_le_at_ok, !bind_Ok by lia.
    destruct (read_guid _ _ _ 8) as [[g off]|e'|] eqn:E1; cbn; [|intros [= <-]|done].
    2: { apply read_guid_err in E1 as ->; [by left|lia]. }
    apply read_guid_inv in E1 as (?&->&?); [|lia]. pose proof (zlen_nonneg (default [] g)).
    destruct (read_guid _ _ _ _) as [[g' off']|e'|] eqn:E2; cbn; [|intros [= <-]|done].
    2: { apply read_guid_err in E2 as ->; [by left|lia]. }
    apply read_guid_inv in E2 as (?&->&?); [|lia]. pose proof (zlen_nonneg (default [] g')).
    rewrite slice_from_ok by lia. cbn.
    destruct (wrap_err _ _) eqn:E; [done|intros [= <-]; by eapply sid_err|done].
Qed.

Lemma ParseACE_err buf e : ParseACE buf = Err e -> bad e.
Proof.
  destruct (ParseACE_cases buf) as [->|(t&f&b&rest&_&_&_&_&->)]; [|apply parse_body_err].
  intros [= <-]. by left.
Qed.

Lemma ok_body a : ok a -> exists b, body a = Ok b.
Proof.
  unfold ok, body. intros (_&_&H). destruct (Raw a); [eauto|].
  destruct (isSimpleMaskSID _), (isObject _); eauto. by destruct H as (_&b&?&_).
Qed.

Lemma hollow_Marshal a : hollow a -> is_ok (Marshal a) = false.
Proof.
  intros (Hs&Ho&_&Hr). unfold Marshal, body. by rewrite Hr, Ho, Hs.
Qed.
End errors.

(** ** Properties *)

(** An ACE survives its wire form. *)
Theorem ParseACE_Marshal {U : Uapi} {L : AceLaws U} (a : ACE) (Hok : ok a) :
  match Marshal a with
  | Ok w => zlen w <= 0xFFFF /\ forall rest, ParseACE (w ++ rest) = Ok (a, zlen w)
  | Err _ => exists b, body a = Ok b /\ 0xFFFF < 4 + zlen b
  | Panic => False
  end.
Proof.
  destruct (ok_body _ Hok) as [b Hb]. pose proof (Marshal_frame _ _ Hb) as E. rewrite E.
  destruct (Z.ltb_spec 0xFFFF (4 + zlen b)); [eauto|]. rewrite ACE_zlen_frame. split; [lia|].
  intros rest. rewrite <- (ACE_zlen_frame (ace_Type a) (ace_Flags a)). by apply codec_read.
Qed.

(** A GUID-scoped deny ACE for BUILTIN\Administrators. *)
Definition sample_ace : ACE :=
  @DenyObject pkm (WK.SID WK.BuiltinAdministrators) 0x10 None (Some (replicate 16 xab)).

Lemma sample_ace_ok : @ok pkm sample_ace.
Proof.
  split; [split; vm_compute; congruence|]. split; [split; vm_compute; congruence|].
  change (@isSimpleMaskSID pkm (ace_Type sample_ace)) with false.
  change (@isObject pkm (ace_Type sample_ace)) with true. cbv iota.
  split; [split; [split; vm_compute; congruence|]|by vm_compute].
  split; [split; [apply WK.SID_wf|apply WK.SID_valid]|done].
Qed.

(** Untrusted bytes. *)
Theorem ParseACE_sound {U : Uapi} {L : AceLaws U} (buf : bytes) :
  match ParseACE buf with
  | Panic => False
  | Err e => bad e
  | Ok (a, n) => 4 <= n <= zlen buf
      /\ ((ok a /\ exists w, Marshal a = Ok w /\ zlen w <= n /\ ParseACE w = Ok (a, zlen w))
          \/ (hollow a /\ n = 4 /\ is_ok (Marshal a) = false))
  end.
Proof.
  destruct (ParseACE buf) as [[a n]|e|] eqn:E; [|by eapply ParseACE_err|by apply codec_safe in E].
  destruct (ParseACE_cases buf) as [E'|(t&f&b&rest&->&Ht&Hf&Hl&E')]; rewrite E' in E; [done|].
  apply parse_body_inv in E as (->&_&_&H); [|done|done]. rewrite zlen_app, ACE_zlen_frame.
  split; [len|]. destruct H as [[Hh ->]|[Hok (b' & Hb & Hle)]].
  - right. split_and!; [done|done|by apply hollow_Marshal].
  - left. split; [done|]. pose proof (Marshal_frame _ _ Hb) as Em.
    destruct (Z.ltb_spec 0xFFFF (4 + zlen b')); [lia|]. eexists. split_and!; [done|rewrite ACE_zlen_frame; lia|].
    rewrite <- (app_nil_r (frame _ _ _)) at 1. by apply codec_read.
Qed.

(** ** Constructors *)

Section constructors.
Context {U : Uapi}.

(** What the constructors build, given valid SIDs, 32-bit masks, 16-byte GUIDs and, for [RawACE], a
    type without a structured form and some body. *)
Inductive built : ACE -> Prop :=
  | built_simple sid mask a : SID.valid sid -> fits 32 mask ->
      In a [Allow sid mask; Deny sid mask; Audit sid mask; MandatoryLabel sid mask] -> built a
  | built_object sid mask o i a : SID.valid sid -> fits 32 mask -> guid_ok o -> guid_ok i ->
      In a [AllowObject sid mask o i; DenyObject sid mask o i; AuditObject sid mask o i] -> built a
  | built_callback sid mask cond a :
      In a [AllowCallback sid mask cond; DenyCallback sid mask cond; AuditCallback sid mask cond] -> built a
  | built_callback_object sid mask o i cond a :
      In a [AllowCallbackObject sid mask o i cond; DenyCallbackObject sid mask o i cond;
            AuditCallbackObject sid mask o i cond] -> built a
  | built_resource claim a : ResourceAttribute claim = Ok a -> built a
  | built_raw t body : fits 8 t -> isSimpleMaskSID t = false -> isObject t = false -> body <> [] ->
      built (RawACE t body).

Context {L : AceLaws U}.

Lemma type_fits i t : ace_types !! i = Some t -> fits 8 t.
Proof. intros Hi. apply (codes_ok_fits _ _ _ ace_types_ok). apply list_elem_of_In. by eapply list_elem_of_lookup_2. Qed.

(** The type at an index of neither switch has no structured form. *)
Lemma type_raw i t : ace_types !! i = Some t -> ~ In i [0; 1; 2; 3; 17; 5; 6; 7; 8]%nat ->
  isSimpleMaskSID t = false /\ isObject t = false.
Proof.
  intros Hi Hn. assert (Hu : forall j, ace_types !! j = Some t -> j = i).
  { intros j Hj. by apply (NoDup_lookup _ _ _ _ (codes_ok_NoDup _ _ ace_types_ok) Hj Hi). }
  split; apply not_true_is_false; [intros (j & Hj & ->%Hu)%simple_index|intros (j & Hj & ->%Hu)%object_index];
    apply Hn; simpl in *; tauto.
Qed.

Lemma rawOnly_ok i t b : ace_types !! i = Some t -> ~ In i [0; 1; 2; 3; 17; 5; 6; 7; 8]%nat -> b <> [] ->
  ok (rawOnly t (Some b)).
Proof.
  intros Hi Hn Hb. destruct (type_raw _ _ Hi Hn) as [Hs Ho]. unfold ok, rawOnly, rawform. cbn [ace_Type ace_Flags].
  rewrite Hs, Ho. split_and!; [by eapply type_fits|split; lia|done..|by exists b].
Qed.

Lemma mask_app_ne m b : le_enc 4 m ++ b <> [].
Proof. intros E%(f_equal zlen). pose proof (zlen_nonneg b). revert E. len. Qed.

Lemma simple_ok t sid mask : isSimpleMaskSID t = true -> fits 8 t -> SID.valid sid -> fits 32 mask ->
  ok (mkACE t 0 mask sid None None None).
Proof. intros Ht ? ? ?. unfold ok, structured. cbn [ace_Type ace_Flags]. rewrite Ht. cbn. split_and!; solve [done | split; lia]. Qed.

Lemma object_ok t sid mask o i : isObject t = true -> fits 8 t -> SID.valid sid -> fits 32 mask -> guid_ok o -> guid_ok i ->
  ok (mkACE t 0 mask sid o i None).
Proof.
  intros Ht ? ? ? ? ?. unfold ok, structured. cbn [ace_Type ace_Flags].
  destruct (isSimpleMaskSID t) eqn:Es; [apply simple_not_object in Es; congruence|].
  rewrite Ht. cbn. split_and!; solve [done | split; lia].
Qed.

(** The type at index [i]. *)
Ltac at_index i := match goal with |- fits 8 ?t => by apply (type_fits i t) end.
Ltac switched := unfold isSimpleMaskSID, isObject; apply existsb_exists; eexists; split; [|apply Z.eqb_refl]; simpl; tauto.
Ltac raw_at i := eapply (rawOnly_ok i); [reflexivity|simpl; lia|apply mask_app_ne].

Lemma built_ok a : built a -> ok a.
Proof.
  intros [sid mask a' Hs Hm Ha|sid mask o i a' Hs Hm Ho Hi Ha|sid mask cond a' Ha|sid mask o i cond a' Ha|claim a' Hc|t body Ht H1 H2 Hb].
  - simpl in Ha. destruct Ha as [<-|[<-|[<-|[<-|[]]]]]; (apply simple_ok; [switched| |done|done]).
    + at_index 0%nat. + at_index 1%nat. + at_index 2%nat. + at_index 17%nat.
  - simpl in Ha. destruct Ha as [<-|[<-|[<-|[]]]]; (apply object_ok; [switched| |done..]).
    + at_index 5%nat. + at_index 6%nat. + at_index 7%nat.
  - simpl in Ha. destruct Ha as [<-|[<-|[<-|[]]]]; [raw_at 9%nat|raw_at 10%nat|raw_at 13%nat].
  - assert (Hne : objectBody mask o i sid ++ Cond.Encode cond <> []).
    { unfold objectBody. rewrite <- app_assoc. apply mask_app_ne. }
    simpl in Ha. destruct Ha as [<-|[<-|[<-|[]]]];
      [eapply (rawOnly_ok 11)|eapply (rawOnly_ok 12)|eapply (rawOnly_ok 15)]; solve [reflexivity|simpl; lia|done].
  - apply bind_Ok_inv in Hc as (entry & _ & <-%Ok_inj). raw_at 18%nat.
  - unfold RawACE. destruct body as [|b body]; [done|]. unfold ok, rawOnly, rawform, nil_append. cbn [ace_Type ace_Flags].
    rewrite H1, H2. split_and!; [done|split; lia|done..|by eexists].
Qed.
End constructors.

(** C6: The wire form of an ACE.  What the constructors build from valid arguments is well formed.  [Marshal] of a
    well-formed ACE emits at most 65535 bytes from which [ParseACE] reads back the same ACE, whatever follows, and
    the number of bytes it occupied; it fails exactly when the body does not fit the
    u16 size field.  [ParseACE] is safe on untrusted bytes and canonical.  It never panics; its
    errors are [ErrBadACE] or a wrapped [ErrBadSID]; what it accepts lies within the
    buffer and is well formed, and marshals again, in no more bytes than it was read
    from, to bytes that read as the same ACE.  The one exception is an ACE of a type
    without a structured form and with an empty body: it is accepted, with a nil
    [Raw], and cannot be marshalled. *)
Theorem ACE_wire {U : Uapi} {L : AceLaws U} :
  (forall a, built a -> ok a)
  /\ (forall a, ok a ->
        match Marshal a with
        | Ok w => zlen w <= 0xFFFF /\ forall rest, ParseACE (w ++ rest) = Ok (a, zlen w)
        | Err _ => exists b, body a = Ok b /\ 0xFFFF < 4 + zlen b
        | Panic => False
        end)
  /\ (forall buf,
        match ParseACE buf with
        | Panic => False
        | Err e => bad e
        | Ok (a, n) => 4 <= n <= zlen buf
            /\ ((ok a /\ exists w, Marshal a = Ok w /\ zlen w <= n /\ ParseACE w = Ok (a, zlen w))
                \/ (hollow a /\ n = 4 /\ is_ok (Marshal a) = false))
        end).
Proof. split_and!; [exact built_ok|exact ParseACE_Marshal|exact ParseACE_sound]. Qed.

Lemma ACE_wire_witness :
  (exists w, @Marshal pkm sample_ace = Ok w /\ @ParseACE pkm w = Ok (sample_ace, zlen w))
  /\ is_ok (@ParseACE pkm [x11; x00; x10; x00; x01; x00; x00; x00; x01; x00; x00; x00; x00; x00; x00; x10; x00; x00]) = true.
Proof.
  pose proof (@ACE_wire pkm pkm_AceLaws) as (Hb&H&_). split; [|by vm_compute].
  assert (Hs : @built pkm sample_ace).
  { eapply (built_object (WK.SID WK.BuiltinAdministrators) 0x10 None (Some (replicate 16 xab)));
      [apply WK.SID_ok|split; lia|done|done|right; by left]. }
  specialize (H sample_ace (Hb _ Hs)). destruct (@Marshal pkm sample_ace) as [w| |] eqn:E; [|vm_compute in E; discriminate E..].
  exists w. split; [done|]. destruct H as [_ H]. specialize (H []). rewrite app_nil_r in H. exact H.
Defined.

(** The exception is reachable: a 4-byte ACE of a callback type. *)
Example hollow_reachable :
  exists a, @ParseACE pkm [x09; x00; x04; x00] = Ok (a, 4) /\ is_ok (@Marshal pkm a) = false.
Proof. eexists. split; vm_compute; reflexivity. Qed.

End Ace.
