(* ===== verification/Acl.v ===== *)
(** * Acl: access-control lists (sd/acl.go)

    An ACL is its list of ACEs: 8 bytes of header, then the encoded entries.  The
    entry loops are those of Codec.v, over the contract [Ace.ACE_codec] of the
    element codec, so nothing here depends on how an ACE is laid out. *)

From S2P Require Import Prelude Outcome Codec Uapi Sid WellKnown Ace.

Module Acl.

Definition aclRevision : Z := 2.
Definition aclRevisionDS : Z := 4.

Record ACL := mkACL { Entries : list Ace.ACE }.

#[global] Instance ACL_eq_dec : EqDecision ACL.
Proof. solve_decision. Defined.

Section acl.
Context {U : Uapi}.

(** The flag [ds] that the entry loop of Marshal raises. *)
Definition needs_ds (entries : list Ace.ACE) : bool :=
  existsb (fun a => Ace.needsDSRevision (Ace.ace_Type a)) entries.

Definition Marshal (l : ACL) : outcome bytes :=
  if 0xFFFF <? zlen (Entries l) then Err (Errorf "ACL has too many ACEs") else
  aces ← encode_all Ace.Marshal (Entries l) [];
  let size := 8 + zlen aces in
  if 0xFFFF <? size then Err (Errorf "ACL wire size exceeds 65535") else
  let revision := if needs_ds (Entries l) then aclRevisionDS else aclRevision in
  Ok ([z2b revision; x00] ++ le_enc 2 size ++ le_enc 2 (zlen (Entries l)) ++ [x00; x00] ++ aces).

Definition ParseACL (buf : bytes) : outcome ACL :=
  if zlen buf <? 8 then Err ErrBadACL else
  s ← slice buf 2 4;
  size ← get_le 2 s;
  c ← slice buf 4 6;
  count ← get_le 2 c;
  if (size <? 8) || (zlen buf <? size) then Err ErrBadACL else
  rest ← slice buf 8 size;
  entries ← parse_n Ace.ParseACE (Z.to_nat count) rest [];
  Ok (mkACL entries).

(** ** The header *)

Definition frame (rev0 sbz : byte) (count : Z) (res body : bytes) : bytes :=
  [rev0; sbz] ++ le_enc 2 (8 + zlen body) ++ le_enc 2 count ++ res ++ body.

Lemma ACL_zlen_frame rev0 sbz count res body :
  zlen res = 2 -> zlen (frame rev0 sbz count res body) = 8 + zlen body.
Proof. intros. unfold frame. len. Qed.

Lemma ParseACL_frame rev0 sbz count res body rest :
  zlen res = 2 -> fits 16 count -> 8 + zlen body <= 0xFFFF ->
  ParseACL (frame rev0 sbz count res body ++ rest)
  = entries ← parse_n Ace.ParseACE (Z.to_nat count) body []; Ok (mkACL entries).
Proof.
  intros Hr Hc Hb. pose proof (zlen_nonneg body). pose proof (zlen_nonneg rest). unfold fits in Hc.
  unfold ParseACL. rewrite zlen_app, ACL_zlen_frame by done.
  destruct (Z.ltb_spec (8 + zlen body + zlen rest) 8); [lia|].
  rewrite (slice_is _ [rev0; sbz] (le_enc 2 (8 + zlen body)) (le_enc 2 count ++ res ++ body ++ rest) 2 4)
    by (unfold frame; app_eq || len).
  rewrite bind_Ok. rewrite <- (app_nil_r (le_enc 2 (8 + _))), get_le_app_small, bind_Ok by lia.
  rewrite (slice_is _ ([rev0; sbz] ++ le_enc 2 (8 + zlen body)) (le_enc 2 count) (res ++ body ++ rest) 4 6)
    by (unfold frame; app_eq || len).
  rewrite bind_Ok. rewrite <- (app_nil_r (le_enc 2 count)), get_le_app_small, bind_Ok by lia.
  destruct (Z.ltb_spec (8 + zlen body) 8); [lia|].
  destruct (Z.ltb_spec (8 + zlen body + zlen rest) (8 + zlen body)); [lia|]. cbn [orb].
  rewrite (slice_is _ ([rev0; sbz] ++ le_enc 2 (8 + zlen body) ++ le_enc 2 count ++ res) body rest)
    by (rewrite ?app_nil_r; unfold frame; app_eq || len).
  done.
Qed.

Lemma ParseACL_cases buf :
  ParseACL buf = Err ErrBadACL
  \/ exists rev0 sbz count res body rest, buf = frame rev0 sbz count res body ++ rest
     /\ zlen res = 2 /\ fits 16 count /\ 8 + zlen body <= 0xFFFF.
Proof.
  destruct (decide (8 <= zlen buf)) as [Hl|Hl].
  2: { left. unfold ParseACL. destruct (Z.ltb_spec (zlen buf) 8); [done|lia]. }
  destruct buf as [|b0 [|b1 [|b2 [|b3 [|b4 [|b5 [|b6 [|b7 buf]]]]]]]]; [by cbn in Hl..|].
  pose proof (le_dec_bound [b2; b3]) as Hs. change (zlen [b2; b3]) with 2 in Hs.
  pose proof (le_dec_bound [b4; b5]) as Hc. change (zlen [b4; b5]) with 2 in Hc.
  set (size := le_dec [b2; b3]) in *. rewrite !zlen_cons in Hl.
  destruct (decide (8 <= size <= 8 + zlen buf)) as [Hsz|Hsz].
  - right. set (n := Z.to_nat (size - 8)).
    assert (zlen (take n buf) = size - 8) as Hn by (unfold n; rewrite zlen_take; lia).
    exists b0, b1, (le_dec [b4; b5]), [b6; b7], (take n buf), (drop n buf). split_and!; [|done|done|lia].
    unfold frame. rewrite Hn. replace (8 + (size - 8)) with size by lia.
    unfold size. rewrite !le_enc_dec_len by done. cbn [app]. by rewrite take_drop.
  - left. unfold ParseACL. destruct (Z.ltb_spec (zlen (b0 :: b1 :: b2 :: b3 :: b4 :: b5 :: b6 :: b7 :: buf)) 8); [done|].
    rewrite (slice_is _ [b0; b1] [b2; b3] (b4 :: b5 :: b6 :: b7 :: buf) 2 4) by done. rewrite bind_Ok.
    rewrite (slice_is _ [b0; b1; b2; b3] [b4; b5] (b6 :: b7 :: buf) 4 6) by done. rewrite get_le_ok, bind_Ok by done.
    change (take 2 [b2; b3]) with [b2; b3]. fold size. rewrite bind_Ok, get_le_ok, bind_Ok by done.
    rewrite !zlen_cons. destruct (Z.ltb_spec size 8); [done|]. cbn [orb].
    destruct (Z.ltb_spec (1 + (1 + (1 + (1 + (1 + (1 + (1 + (1 + zlen buf)))))))) size); [done|lia].
Qed.

(** ** The invariant and the properties *)

Definition ok (l : ACL) : Prop := Forall Ace.ok (Entries l).

Lemma ACL_Marshal_Ok_inv l w : Marshal l = Ok w ->
  exists aces, encode_all Ace.Marshal (Entries l) [] = Ok aces
    /\ zlen (Entries l) <= 0xFFFF /\ 8 + zlen aces <= 0xFFFF
    /\ w = frame (z2b (if needs_ds (Entries l) then aclRevisionDS else aclRevision)) x00
             (zlen (Entries l)) [x00; x00] aces.
Proof.
  unfold Marshal. destruct (Z.ltb_spec 0xFFFF (zlen (Entries l))); [done|].
  intros (aces & Ha & Hw)%bind_Ok_inv. exists aces.
  destruct (Z.ltb_spec 0xFFFF (8 + zlen aces)); [done|]. by apply Ok_inj in Hw.
Qed.

Lemma ACL_Marshal_safe l : safe (Marshal l).
Proof.
  unfold Marshal. destruct (_ <? _); [done|]. apply safe_bind.
  - apply encode_all_safe, Ace.ACE_Marshal_safe.
  - intros aces _. by destruct (_ <? _).
Qed.

(** An entry that has no wire form refuses the ACL. *)
Lemma hollow_Marshal_refuses l a : a ∈ Entries l -> Ace.hollow a -> is_ok (Marshal l) = false.
Proof.
  intros Ha Hh%Ace.hollow_Marshal. pose proof (encode_all_refuses Ace.Marshal _ _ [] Ha Hh) as H.
  unfold Marshal. destruct (_ <? _); [done|]. by destruct (encode_all _ _ _).
Qed.

Lemma zlen_Marshal l w : Marshal l = Ok w -> 8 <= zlen w <= 0xFFFF.
Proof.
  intros (aces&_&_&?&->)%ACL_Marshal_Ok_inv. rewrite ACL_zlen_frame by done. pose proof (zlen_nonneg aces). lia.
Qed.

Context {L : AceLaws U}.

Lemma ParseACL_Marshal_ok l w rest : ok l -> Marshal l = Ok w -> ParseACL (w ++ rest) = Ok l.
Proof.
  intros Hok (aces & Ha & Hc & Hs & ->)%ACL_Marshal_Ok_inv. pose proof (zlen_nonneg (Entries l)).
  rewrite ParseACL_frame; [|done|split; lia|done]. unfold zlen. rewrite Nat2Z.id, <- (app_nil_r aces).
  rewrite (parse_n_encode_all _ _ _ _ _ _ Hok Ha). by destruct l.
Qed.

Lemma ParseACL_safe buf : safe (ParseACL buf).
Proof.
  destruct (ParseACL_cases buf) as [->|(?&?&c&res&body&rest&->&?&?&?)]; [done|].
  rewrite ParseACL_frame by done. apply safe_bind; [exact (parse_n_safe Ace.Marshal Ace.ParseACE _ _ _)|done].
Qed.

Lemma ParseACL_Ok_inv buf l : ParseACL buf = Ok l ->
  exists rev0 sbz res body rest, buf = frame rev0 sbz (zlen (Entries l)) res body ++ rest
    /\ zlen res = 2 /\ fits 16 (zlen (Entries l)) /\ 8 + zlen body <= 0xFFFF
    /\ parse_n Ace.ParseACE (length (Entries l)) body [] = Ok (Entries l).
Proof.
  destruct (ParseACL_cases buf) as [->|(r0&sbz&c&res&body&rest&->&Hr&Hc&Hb)]; [done|].
  rewrite ParseACL_frame by done. intros (es & Hes & <-%Ok_inj)%bind_Ok_inv.
  pose proof (parse_n_length _ _ _ _ _ Hes) as Hl. simpl in Hl. unfold fits in Hc.
  assert (zlen es = c) as <- by (unfold zlen; lia).
  exists r0, sbz, res, body, rest. cbn [Entries]. rewrite Hl in *. by split_and!.
Qed.

Lemma ParseACL_ok_or_hollow buf l : ParseACL buf = Ok l ->
  Forall (fun a => Ace.ok a \/ Ace.hollow a) (Entries l).
Proof.
  intros (?&?&?&body&?&_&_&_&_&H)%ParseACL_Ok_inv. eapply parse_n_Forall, H; [|done].
  intros b a n E. destruct (Ace.ParseACE_cases b) as [E'|(t&f&b'&r&->&?&?&?&E')]; rewrite E' in E; [done|].
  apply Ace.parse_body_inv in E as (_&_&_&[[? _]|[? _]]); auto.
Qed.

Lemma ParseACL_canonical buf l : ParseACL buf = Ok l -> ok l ->
  exists w, Marshal l = Ok w /\ zlen w <= zlen buf.
Proof.
  intros (r0&sbz&res&body&rest&->&Hr&Hc&Hb&H)%ParseACL_Ok_inv Hok.
  destruct (parse_n_canonical Ace.Marshal Ace.ParseACE _ _ [] _ Hok H) as (aces & Ha & Hle).
  unfold Marshal. destruct (Z.ltb_spec 0xFFFF (zlen (Entries l))); [unfold fits in Hc; lia|].
  rewrite Ha, bind_Ok. destruct (Z.ltb_spec 0xFFFF (8 + zlen aces)); [lia|].
  eexists. split; [done|]. rewrite (zlen_app (frame _ _ _ _ _)), ACL_zlen_frame by done. len.
Qed.
Lemma ParseACL_err buf e : ParseACL buf = Err e -> e = ErrBadACL \/ Ace.bad e.
Proof.
  destruct (ParseACL_cases buf) as [->|(r0&sbz&c&res&body&rest&->&Hr&Hc&Hb)].
  { intros [= <-]. by left. }
  rewrite ParseACL_frame by done. destruct (parse_n _ _ _ _) eqn:E; [done| |done]. intros [= <-]. right.
  eapply (parse_n_err Ace.Marshal Ace.ParseACE); [apply Ace.ParseACE_err|exact E].
Qed.
End acl.

(** ** Sizes and the revision *)

Section size.
Context {U : Uapi}.

(** The number of bytes of an encoded ACE. *)
Definition ace_size (a : Ace.ACE) : Z :=
  match Ace.body a with Ok b => 4 + zlen b | _ => 4 end.
Fixpoint aces_size (l : list Ace.ACE) : Z :=
  match l with [] => 0 | a :: l => ace_size a + aces_size l end.

Lemma ace_size_pos a : 4 <= ace_size a.
Proof. unfold ace_size. destruct (Ace.body a) as [b| |]; [pose proof (zlen_nonneg b)|..]; lia. Qed.

Lemma aces_size_count l : 4 * zlen l <= aces_size l.
Proof.
  induction l as [|a l IH]; [unfold zlen; simpl; lia|]. pose proof (ace_size_pos a).
  cbn [aces_size]. rewrite zlen_cons. lia.
Qed.

Lemma encode_all_size l : Forall Ace.ok l ->
  match encode_all Ace.Marshal l [] with
  | Ok aces => zlen aces = aces_size l
  | Err _ => 0xFFFF < aces_size l
  | Panic => False
  end.
Proof.
  induction l as [|a l IH]; intros Hok; [done|]. apply Forall_cons in Hok as [Ha Hok].
  specialize (IH Hok). pose proof (aces_size_count l). pose proof (zlen_nonneg l).
  cbn [encode_all aces_size]. unfold ace_size.
  destruct (Ace.ok_body _ Ha) as [b Hb]. rewrite (Ace.Marshal_frame _ _ Hb), Hb.
  destruct (Z.ltb_spec 0xFFFF (4 + zlen b)); [cbn; lia|]. rewrite bind_Ok, app_nil_l.
  pose proof (zlen_nonneg b).
  destruct (encode_all Ace.Marshal l []) as [aces|e|] eqn:E.
  - rewrite (encode_all_acc _ _ _ _ E), zlen_app, Ace.ACE_zlen_frame. lia.
  - destruct (encode_all Ace.Marshal l (Ace.frame _ _ _)) as [x|e'|] eqn:E'.
    + apply encode_all_app in E' as (?&_&?). congruence.
    + lia.
    + by apply encode_all_safe in E'; [|apply Ace.ACE_Marshal_safe].
  - done.
Qed.

(** What ParseACE reads is at least as long as what would be written for it. *)
Lemma ParseACE_size {L : AceLaws U} buf a n : Ace.ParseACE buf = Ok (a, n) -> ace_size a <= n.
Proof.
  destruct (Ace.ParseACE_cases buf) as [E|(t&f&b&r&->&Ht&Hf&Hb&E)]; rewrite E; [done|].
  intros (-> & _ & _ & H)%Ace.parse_body_inv; [|done..]. unfold ace_size. pose proof (zlen_nonneg b).
  destruct H as [[(Hs&Ho&_&Hr) ->]|(_ & b' & -> & Hl)]; [|lia].
  destruct (Ace.body a) as [b'| |] eqn:Eb; [|lia..]. unfold Ace.body in Eb. rewrite Hs, Ho, Hr in Eb. done.
Qed.

Lemma parse_n_size {L : AceLaws U} c body acc l : parse_n Ace.ParseACE c body acc = Ok l ->
  aces_size l <= aces_size acc + zlen body.
Proof.
  assert (forall l1 l2, aces_size (l1 ++ l2) = aces_size l1 + aces_size l2) as Happ.
  { intros l1 l2. induction l1 as [|a l1 IH]; [done|]. cbn [aces_size app]. lia. }
  revert body acc. induction c as [|c IH]; intros body acc; cbn [parse_n].
  - intros <-%Ok_inj. pose proof (zlen_nonneg body). lia.
  - intros ([a n] & Ha & (r & [Hn ->]%slice_from_Ok_inv & Hl)%bind_Ok_inv)%bind_Ok_inv. apply IH in Hl.
    apply ParseACE_size in Ha. rewrite Happ in Hl. cbn [aces_size] in Hl. rewrite zlen_drop in Hl. lia.
Qed.

Lemma aces_size_filter f l : aces_size (List.filter f l) <= aces_size l.
Proof.
  induction l as [|a l IH]; [done|]. pose proof (ace_size_pos a). cbn [List.filter]. destruct (f a); cbn [aces_size]; lia.
Qed.

Lemma Marshal_size l : ok l ->
  match Marshal l with
  | Ok w => zlen w = 8 + aces_size (Entries l)
  | Err _ => 0xFFFF < 8 + aces_size (Entries l)
  | Panic => False
  end.
Proof.
  intros Hok. pose proof (encode_all_size _ Hok) as H. pose proof (aces_size_count (Entries l)).
  pose proof (zlen_nonneg (Entries l)).
  unfold Marshal. destruct (Z.ltb_spec 0xFFFF (zlen (Entries l))); [lia|].
  destruct (encode_all Ace.Marshal (Entries l) []) as [aces| |]; cbn; [|lia|done].
  destruct (Z.ltb_spec 0xFFFF (8 + zlen aces)); [lia|].
  change (zlen (frame (z2b (if needs_ds (Entries l) then aclRevisionDS else aclRevision)) x00
    (zlen (Entries l)) [x00; x00] aces) = 8 + aces_size (Entries l)).
  rewrite ACL_zlen_frame by done. lia.
Qed.

(** The object and callback types, which need the directory-services revision. *)
Definition ds_types : list Z :=
  [KACS_ACE_TYPE_ACCESS_ALLOWED_OBJECT; KACS_ACE_TYPE_ACCESS_DENIED_OBJECT;
   KACS_ACE_TYPE_SYSTEM_AUDIT_OBJECT; KACS_ACE_TYPE_SYSTEM_ALARM_OBJECT;
   KACS_ACE_TYPE_ACCESS_ALLOWED_CALLBACK; KACS_ACE_TYPE_ACCESS_DENIED_CALLBACK;
   KACS_ACE_TYPE_ACCESS_ALLOWED_CALLBACK_OBJECT; KACS_ACE_TYPE_ACCESS_DENIED_CALLBACK_OBJECT;
   KACS_ACE_TYPE_SYSTEM_AUDIT_CALLBACK; KACS_ACE_TYPE_SYSTEM_ALARM_CALLBACK;
   KACS_ACE_TYPE_SYSTEM_AUDIT_CALLBACK_OBJECT; KACS_ACE_TYPE_SYSTEM_ALARM_CALLBACK_OBJECT].

Lemma needsDSRevision_types {N : AceNumbers U} t : Ace.needsDSRevision t = true <-> t ∈ ds_types.
Proof.
  pose proof ace_types_numbers as E. unfold ace_types in E. unfold ds_types.
  injection E as _ _ _ _ _ E5 E6 E7 E8 E9 E10 E11 E12 E13 E14 E15 E16 _ _ _ _ _.
  rewrite E5, E6, E7, E8, E9, E10, E11, E12, E13, E14, E15, E16.
  unfold Ace.needsDSRevision. rewrite andb_true_iff, !Z.leb_le, !elem_of_cons, elem_of_nil. lia.
Qed.

Lemma needs_ds_types {N : AceNumbers U} es :
  needs_ds es = true <-> exists a, a ∈ es /\ Ace.ace_Type a ∈ ds_types.
Proof.
  unfold needs_ds. rewrite existsb_exists. setoid_rewrite needsDSRevision_types.
  by setoid_rewrite <- list_elem_of_In.
Qed.
End size.

(** ** Properties *)

(** An ACL survives its wire form. *)
Theorem ParseACL_Marshal {U : Uapi} {L : AceLaws U} {N : AceNumbers U} (l : ACL) (Hok : ok l) :
  match Marshal l with
  | Ok w => zlen w = 8 + aces_size (Entries l) /\ zlen w <= 0xFFFF
      /\ (forall rest, ParseACL (w ++ rest) = Ok l)
      /\ ((index w 0 = Ok (z2b aclRevisionDS) /\ exists a, a ∈ Entries l /\ Ace.ace_Type a ∈ ds_types)
          \/ (index w 0 = Ok (z2b aclRevision) /\ forall a, a ∈ Entries l -> Ace.ace_Type a ∉ ds_types))
  | Err _ => 0xFFFF < 8 + aces_size (Entries l)
  | Panic => False
  end.
Proof.
  pose proof (Marshal_size l Hok) as Hs. destruct (Marshal l) as [w| |] eqn:E; [|done..].
  split; [done|]. split; [by eapply zlen_Marshal|]. split; [by intros; apply ParseACL_Marshal_ok|].
  apply ACL_Marshal_Ok_inv in E as (aces&_&_&_&->). destruct (needs_ds (Entries l)) eqn:En; [left|right].
  - split; [reflexivity|]. by apply needs_ds_types.
  - split; [reflexivity|]. intros a Ha Ht. enough (needs_ds (Entries l) = true) by congruence.
    apply needs_ds_types. eauto.
Qed.


Definition sample_acl : ACL :=
  mkACL [@Ace.Allow pkm (WK.SID WK.Everyone) 0x1F; Ace.sample_ace].

Lemma Allow_ok f s m : fits 8 f -> fits 32 m -> SID.valid s ->
  @Ace.ok pkm (Ace.set_Flags (@Ace.Allow pkm s m) f).
Proof. intros. split; [split; vm_compute; congruence|]. by split_and!. Qed.

Lemma sample_acl_ok : @ok pkm sample_acl.
Proof.
  constructor; [|constructor; [apply Ace.sample_ace_ok|constructor]].
  exact (Allow_ok 0 _ 0x1F ltac:(split; lia) ltac:(split; lia) (WK.SID_ok WK.Everyone)).
Qed.

(** Untrusted bytes. *)
Theorem ParseACL_sound {U : Uapi} {L : AceLaws U} (buf : bytes) :
  match ParseACL buf with
  | Panic => False
  | Err e => e = ErrBadACL \/ Ace.bad e
  | Ok l => Forall (fun a => Ace.ok a \/ Ace.hollow a) (Entries l)
      /\ get_le_at 2 buf 4 = Ok (zlen (Entries l))
      /\ (ok l -> exists w, Marshal l = Ok w /\ zlen w <= zlen buf /\ ParseACL w = Ok l)
      /\ (forall a, a ∈ Entries l -> Ace.hollow a -> is_ok (Marshal l) = false)
  end.
Proof.
  destruct (ParseACL buf) as [l|e|] eqn:E; [|by apply ParseACL_err in E|by apply ParseACL_safe in E].
  split; [by eapply ParseACL_ok_or_hollow|]. split.
  - apply ParseACL_Ok_inv in E as (r0&sbz&res&body&rest&->&Hr&Hc&_).
    apply (get_le_at_is 2 _ ([r0; sbz] ++ le_enc 2 (8 + zlen body)) _ (res ++ body ++ rest));
      [unfold frame; app_eq|len|done].
  - split; [|intros a; apply hollow_Marshal_refuses].
    intros Hok. destruct (ParseACL_canonical _ _ E Hok) as (w & Hw & Hle). exists w. split_and!; [done..|].
    rewrite <- (app_nil_r w). by apply ParseACL_Marshal_ok.
Qed.

(** C7: The wire form of an ACL.  [Marshal] of an ACL of well-formed ACEs
    succeeds exactly when header and entries fit 65535 bytes; the bytes have exactly
    that size, their revision is the directory-services one exactly when some entry is
    of an object or callback type, and [ParseACL] reads back the same list in the same
    order, whatever follows.  [ParseACL] is safe on untrusted bytes.  It never panics; the
    entries of an ACL it accepts are as many as the header counts and each is well
    formed or hollow, that is a raw-type ACE with an empty body.  Without a hollow entry the ACL
    marshals again, in no more bytes, to bytes that read as the same ACL; an ACL with a hollow
    entry is accepted as well, and [Marshal] refuses it. *)
Theorem ACL_wire {U : Uapi} {L : AceLaws U} {N : AceNumbers U} :
  (forall l, ok l ->
     match Marshal l with
     | Ok w => zlen w = 8 + aces_size (Entries l) /\ zlen w <= 0xFFFF
         /\ (forall rest, ParseACL (w ++ rest) = Ok l)
         /\ ((index w 0 = Ok (z2b aclRevisionDS) /\ exists a, a ∈ Entries l /\ Ace.ace_Type a ∈ ds_types)
             \/ (index w 0 = Ok (z2b aclRevision) /\ forall a, a ∈ Entries l -> Ace.ace_Type a ∉ ds_types))
     | Err _ => 0xFFFF < 8 + aces_size (Entries l)
     | Panic => False
     end)
  /\ (forall buf,
     match ParseACL buf with
     | Panic => False
     | Err e => e = ErrBadACL \/ Ace.bad e
     | Ok l => Forall (fun a => Ace.ok a \/ Ace.hollow a) (Entries l)
         /\ get_le_at 2 buf 4 = Ok (zlen (Entries l))
         /\ (ok l -> exists w, Marshal l = Ok w /\ zlen w <= zlen buf /\ ParseACL w = Ok l)
         /\ (forall a, a ∈ Entries l -> Ace.hollow a -> is_ok (Marshal l) = false)
     end).
Proof. split; [exact ParseACL_Marshal|exact ParseACL_sound]. Qed.

Lemma ACL_wire_witness :
  exists w, @Marshal pkm sample_acl = Ok w /\ @ParseACL pkm w = Ok sample_acl
    /\ index w 0 = Ok (z2b aclRevisionDS).
Proof.
  pose proof (proj1 (@ACL_wire pkm pkm_AceLaws pkm_AceNumbers) sample_acl sample_acl_ok) as H.
  destruct (@Marshal pkm sample_acl) as [w| |] eqn:E; [|vm_compute in E; discriminate E..].
  exists w. split; [done|]. destruct H as (_&_&H&Hr). specialize (H []). rewrite app_nil_r in H.
  split; [exact H|]. destruct Hr as [[Hr _]|[Hr _]]; [exact Hr|]. exfalso.
  vm_compute in E. injection E as <-. vm_compute in Hr. discriminate Hr.
Defined.

End Acl.
