(* ===== verification/Descriptor.v ===== *)
(** * Descriptor: self-relative security descriptors (sd/descriptor.go)

    The zero SID is an absent owner or group and [None] an absent (NULL) ACL, as in
    the source.  [Marshal] appends the parts that are present and then stores the
    header; [layout] is the resulting byte layout.  The header size and the control
    bits are the ABI's ([SdLaws]). *)

From S2P Require Import Prelude Outcome Codec Uapi Sid WellKnown Ace Acl.

Module SD.

Record Descriptor := mkSD {
  Control : Z;
  Owner : SID.t;
  Group : SID.t;
  DACL : option Acl.ACL;
  SACL : option Acl.ACL
}.

#[global] Instance Descriptor_eq_dec : EqDecision Descriptor.
Proof. solve_decision. Defined.

Definition set_Control (d : Descriptor) (c : Z) : Descriptor :=
  mkSD c (Owner d) (Group d) (DACL d) (SACL d).

Section sd.
Context {U : Uapi}.

Definition sdHeaderBytes : Z := KACS_SD_HEADER_BYTES.

(** [if s.IsValid() { off = uint32(len(out)); out = append(out, s.Bytes()...) }] *)
Definition append_sid (s : SID.t) (out : bytes) : Z * bytes :=
  if SID.IsValid s then (wrap 32 (zlen out), out ++ SID.Bytes s) else (0, out).

(** [if acl != nil { control |= bit; b, err := acl.Marshal(); ...; off = ...; append }] *)
Definition append_acl (acl : option Acl.ACL) (bit control : Z) (out : bytes)
    : outcome (Z * Z * bytes) :=
  match acl with
  | None => Ok (0, control, out)
  | Some l => b ← Acl.Marshal l; Ok (wrap 32 (zlen out), Z.lor control bit, out ++ b)
  end.

Definition Marshal (d : Descriptor) : outcome bytes :=
  let out := replicate (Z.to_nat sdHeaderBytes) x00 in
  let control := Z.lor (Control d) KACS_SD_SELF_RELATIVE in
  let '(ownerOff, out) := append_sid (Owner d) out in
  let '(groupOff, out) := append_sid (Group d) out in
  '(saclOff, control, out) ← append_acl (SACL d) KACS_SD_SACL_PRESENT control out;
  '(daclOff, control, out) ← append_acl (DACL d) KACS_SD_DACL_PRESENT control out;
  out ← put_le 1 out 0 1;
  out ← put_le 2 out 2 control;
  out ← put_le 4 out 4 ownerOff;
  out ← put_le 4 out 8 groupOff;
  out ← put_le 4 out 12 saclOff;
  put_le 4 out 16 daclOff.

Definition sidAt (buf : bytes) (off : Z) : outcome SID.t :=
  if zlen buf <=? off then Err ErrBadSD else
  b ← slice_from buf off; SID.ParseSID b.

Definition aclAt (buf : bytes) (off : Z) : outcome Acl.ACL :=
  if zlen buf <=? off then Err ErrBadSD else
  b ← slice_from buf off; Acl.ParseACL b.

(** [binary.LittleEndian.UintN(buf[lo:hi])] *)
Definition header_field (n : nat) (buf : bytes) (lo : Z) : outcome Z :=
  b ← slice buf lo (lo + Z.of_nat n); get_le n b.

Definition ParseDescriptor (buf : bytes) : outcome Descriptor :=
  if zlen buf <? sdHeaderBytes then Err ErrBadSD else
  control ← header_field 2 buf 2;
  ownerOff ← header_field 4 buf 4;
  groupOff ← header_field 4 buf 8;
  saclOff ← header_field 4 buf 12;
  daclOff ← header_field 4 buf 16;
  owner ← (if ownerOff =? 0 then Ok SID.zero else sidAt buf ownerOff);
  group ← (if groupOff =? 0 then Ok SID.zero else sidAt buf groupOff);
  dacl ← (if has_bit control KACS_SD_DACL_PRESENT && negb (daclOff =? 0)
          then Some <$> aclAt buf daclOff else Ok None);
  sacl ← (if has_bit control KACS_SD_SACL_PRESENT && negb (saclOff =? 0)
          then Some <$> aclAt buf saclOff else Ok None);
  Ok (mkSD control owner group dacl sacl).

(** ** The layout *)

Definition header (control ownerOff groupOff saclOff daclOff : Z) : bytes :=
  [x01; x00] ++ le_enc 2 control ++ le_enc 4 ownerOff ++ le_enc 4 groupOff
  ++ le_enc 4 saclOff ++ le_enc 4 daclOff.

Lemma zlen_header c o g s d : zlen (header c o g s d) = 20.
Proof. unfold header. len. Qed.

Lemma put_header c o g s d body : KACS_SD_HEADER_BYTES = 20 ->
  (out ← put_le 1 (replicate (Z.to_nat sdHeaderBytes) x00 ++ body) 0 1;
   out ← put_le 2 out 2 c; out ← put_le 4 out 4 o; out ← put_le 4 out 8 g;
   out ← put_le 4 out 12 s; put_le 4 out 16 d) = Ok (header c o g s d ++ body).
Proof.
  intros E. unfold sdHeaderBytes. rewrite E.
  change (replicate (Z.to_nat 20) x00) with
    ([x00] ++ [x00] ++ replicate 2 x00 ++ replicate 4 x00 ++ replicate 4 x00 ++ replicate 4 x00 ++ replicate 4 x00).
  rewrite <- !(assoc_L app), put_le_head, bind_Ok by done. change (le_enc 1 1) with [x01].
  rewrite (app_assoc [x01]), (put_le_app 2 _ (replicate 2 x00)), bind_Ok by done.
  rewrite (app_assoc _ (le_enc 2 c)), (put_le_app 4 _ (replicate 4 x00)), bind_Ok by (done || len).
  rewrite (app_assoc _ (le_enc 4 o)), (put_le_app 4 _ (replicate 4 x00)), bind_Ok by (done || len).
  rewrite (app_assoc _ (le_enc 4 g)), (put_le_app 4 _ (replicate 4 x00)), bind_Ok by (done || len).
  rewrite (app_assoc _ (le_enc 4 s)), (put_le_app 4 _ (replicate 4 x00)) by (done || len).
  unfold header. rewrite <- !app_assoc. reflexivity.
Qed.

Lemma header_field_app n p v s lo : lo = zlen p -> 0 <= v < 256 ^ Z.of_nat n ->
  header_field n (p ++ le_enc n v ++ s) lo = Ok v.
Proof.
  intros -> Hv. unfold header_field. rewrite slice_mid by len. rewrite bind_Ok.
  rewrite <- (app_nil_r (le_enc n v)). by apply get_le_app_small.
Qed.

Lemma header_field_ok n buf lo : 0 <= lo -> lo + Z.of_nat n <= zlen buf ->
  exists v, header_field n buf lo = Ok v /\ 0 <= v < 256 ^ Z.of_nat n.
Proof.
  intros. unfold header_field. rewrite slice_ok by lia. rewrite bind_Ok.
  assert (zlen (zseg lo (lo + Z.of_nat n) buf) = Z.of_nat n) as Hl by (rewrite zlen_zseg; lia).
  rewrite get_le_ok by lia. eexists. split; [done|]. rewrite take_ge by (unfold zlen in Hl; lia).
  pose proof (le_dec_bound (zseg lo (lo + Z.of_nat n) buf)) as Hb. by rewrite Hl in Hb.
Qed.

(** Reading the header of a laid-out descriptor. *)
Definition from_header (control ownerOff groupOff saclOff daclOff : Z) (buf : bytes) : outcome Descriptor :=
  owner ← (if ownerOff =? 0 then Ok SID.zero else sidAt buf ownerOff);
  group ← (if groupOff =? 0 then Ok SID.zero else sidAt buf groupOff);
  dacl ← (if has_bit control KACS_SD_DACL_PRESENT && negb (daclOff =? 0)
          then Some <$> aclAt buf daclOff else Ok None);
  sacl ← (if has_bit control KACS_SD_SACL_PRESENT && negb (saclOff =? 0)
          then Some <$> aclAt buf saclOff else Ok None);
  Ok (mkSD control owner group dacl sacl).

Lemma ParseDescriptor_header c o g s d body : KACS_SD_HEADER_BYTES = 20 ->
  fits 16 c -> fits 32 o -> fits 32 g -> fits 32 s -> fits 32 d ->
  ParseDescriptor (header c o g s d ++ body) = from_header c o g s d (header c o g s d ++ body).
Proof.
  intros E Hc Ho Hg Hs Hd. unfold ParseDescriptor, sdHeaderBytes. rewrite E, zlen_app, zlen_header.
  pose proof (zlen_nonneg body). destruct (Z.ltb_spec (20 + zlen body) 20); [lia|].
  set (buf := header c o g s d ++ body).
  assert (buf = [x01; x00] ++ le_enc 2 c ++ le_enc 4 o ++ le_enc 4 g ++ le_enc 4 s ++ le_enc 4 d ++ body) as Eb
    by (unfold buf, header; app_eq).
  assert (header_field 2 buf 2 = Ok c) as ->. { rewrite Eb. by apply (header_field_app 2 [x01; x00]). }
  assert (header_field 4 buf 4 = Ok o) as ->.
  { rewrite Eb, (app_assoc [x01; x00]). apply header_field_app; [len|done]. }
  assert (header_field 4 buf 8 = Ok g) as ->.
  { rewrite Eb, (app_assoc [x01; x00]), (app_assoc _ (le_enc 4 o)). apply header_field_app; [len|done]. }
  assert (header_field 4 buf 12 = Ok s) as ->.
  { rewrite Eb, (app_assoc [x01; x00]), (app_assoc _ (le_enc 4 o)), (app_assoc _ (le_enc 4 g)).
    apply header_field_app; [len|done]. }
  assert (header_field 4 buf 16 = Ok d) as ->.
  { rewrite Eb, (app_assoc [x01; x00]), (app_assoc _ (le_enc 4 o)), (app_assoc _ (le_enc 4 g)), (app_assoc _ (le_enc 4 s)).
    apply header_field_app; [len|done]. }
  reflexivity.
Qed.
End sd.

(** ** Marshal is the layout *)

Section layout.
Context {U : Uapi}.

Definition acl_bytes (acl : option Acl.ACL) : outcome bytes :=
  match acl with None => Ok [] | Some l => Acl.Marshal l end.

(** The control word that Marshal stores. *)
Definition stored_control (d : Descriptor) : Z :=
  let c := Z.lor (Control d) KACS_SD_SELF_RELATIVE in
  let c := if SACL d is Some _ then Z.lor c KACS_SD_SACL_PRESENT else c in
  if DACL d is Some _ then Z.lor c KACS_SD_DACL_PRESENT else c.

Definition layout (d : Descriptor) (sb db : bytes) : bytes :=
  let ob := SID.Bytes (Owner d) in
  let gb := SID.Bytes (Group d) in
  let oo := if SID.IsValid (Owner d) then 20 else 0 in
  let go := if SID.IsValid (Group d) then 20 + zlen ob else 0 in
  let so := if SACL d is Some _ then 20 + zlen ob + zlen gb else 0 in
  let do := if DACL d is Some _ then 20 + zlen ob + zlen gb + zlen sb else 0 in
  header (stored_control d) oo go so do ++ ob ++ gb ++ sb ++ db.

(** Every SID is a value of the Go type, and every ACE has a wire form. *)
Definition ok (d : Descriptor) : Prop :=
  fits 16 (Control d) /\ SID.wf (Owner d) /\ SID.wf (Group d)
  /\ (forall l, DACL d = Some l -> Acl.ok l) /\ (forall l, SACL d = Some l -> Acl.ok l).

Lemma append_sid_eq s out : SID.wf s -> zlen out < 2 ^ 32 ->
  append_sid s out = (if SID.IsValid s then zlen out else 0, out ++ SID.Bytes s).
Proof.
  intros Hw Hl. unfold append_sid, wrap. pose proof (zlen_nonneg out).
  destruct (SID.IsValid s) eqn:Hv; [by rewrite Z.mod_small|].
  unfold SID.Bytes. by rewrite Hv, app_nil_r.
Qed.

Lemma append_acl_eq acl bit c out : zlen out < 2 ^ 32 ->
  append_acl acl bit c out =
  b ← acl_bytes acl;
  Ok (if acl is Some _ then zlen out else 0, if acl is Some _ then Z.lor c bit else c, out ++ b).
Proof.
  intros Hl. unfold append_acl, acl_bytes, wrap. pose proof (zlen_nonneg out).
  destruct acl; cbn [mbind outcome_bind]; [by rewrite Z.mod_small|by rewrite app_nil_r].
Qed.

Lemma zlen_acl_bytes acl b : acl_bytes acl = Ok b -> zlen b <= 0xFFFF.
Proof.
  destruct acl; cbn; [intros ?%Acl.zlen_Marshal; lia|intros <-%Ok_inj; rewrite zlen_nil; lia].
Qed.

Context {L : SdLaws U}.

Lemma Marshal_layout d : SID.wf (Owner d) -> SID.wf (Group d) ->
  Marshal d = sb ← acl_bytes (SACL d); db ← acl_bytes (DACL d); Ok (layout d sb db).
Proof.
  intros Ho Hg. pose proof (SID.zlen_Bytes_wf _ Ho). pose proof (SID.zlen_Bytes_wf _ Hg).
  unfold Marshal. set (z := replicate (Z.to_nat sdHeaderBytes) x00).
  assert (zlen z = 20) as Hz by (unfold z, sdHeaderBytes; rewrite sd_header_20; done).
  rewrite append_sid_eq by (done || lia). rewrite append_sid_eq by (done || len).
  rewrite append_acl_eq by len. destruct (acl_bytes (SACL d)) as [sb| |] eqn:Es; [|done..].
  rewrite !bind_Ok. cbn beta iota. pose proof (zlen_acl_bytes _ _ Es).
  rewrite append_acl_eq by len. destruct (acl_bytes (DACL d)) as [db| |] eqn:Ed; [|done..].
  rewrite !bind_Ok. cbn beta iota. rewrite <- !app_assoc, !zlen_app, Hz.
  unfold z. rewrite put_header by apply sd_header_20.
  unfold layout, stored_control. rewrite !Z.add_assoc. done.
Qed.

Lemma SD_Marshal_safe d : SID.wf (Owner d) -> SID.wf (Group d) -> safe (Marshal d).
Proof.
  intros Ho Hg. rewrite Marshal_layout by done.
  assert (forall acl, safe (acl_bytes acl)) as HA by (intros [l|]; [apply Acl.ACL_Marshal_safe|done]).
  apply safe_bind; [apply HA|]. intros sb _. apply safe_bind; [apply HA|done].
Qed.

Lemma stored_control_fits d : fits 16 (Control d) -> fits 16 (stored_control d).
Proof.
  intros Hc.
  assert (forall m, In m sd_controls -> fits 16 m) as Hm by (intros m; apply masks_ok_fits, sd_controls_ok).
  assert (fits 16 KACS_SD_SELF_RELATIVE) by (apply Hm; simpl; tauto).
  assert (fits 16 KACS_SD_SACL_PRESENT) by (apply Hm; simpl; tauto).
  assert (fits 16 KACS_SD_DACL_PRESENT) by (apply Hm; simpl; tauto).
  unfold stored_control. destruct (SACL d), (DACL d); repeat apply fits_lor; (done || lia).
Qed.

Lemma layout_size d sb db : SID.wf (Owner d) -> SID.wf (Group d) ->
  zlen (layout d sb db) = 20 + zlen (SID.Bytes (Owner d)) + zlen (SID.Bytes (Group d)) + zlen sb + zlen db.
Proof. intros. unfold layout. rewrite !zlen_app, zlen_header. lia. Qed.

Lemma sidAt_located buf s off : SID.valid s -> 0 <= off -> located buf off (SID.Bytes s) -> sidAt buf off = Ok s.
Proof.
  intros Hv Ho H. pose proof (SID.zlen_Bytes _ Hv). pose proof (located_bounds _ _ _ H).
  unfold sidAt. destruct (Z.leb_spec (zlen buf) off); [lia|].
  destruct (located_slice_from _ _ _ H) as [rest ->]. rewrite bind_Ok. by apply SID.ParseSID_app.
Qed.

Lemma aclAt_located {LA : AceLaws U} buf l b off : Acl.ok l -> Acl.Marshal l = Ok b -> located buf off b -> aclAt buf off = Ok l.
Proof.
  intros Hok Hb H. pose proof (Acl.zlen_Marshal _ _ Hb). pose proof (located_bounds _ _ _ H).
  unfold aclAt. destruct (Z.leb_spec (zlen buf) off); [lia|].
  destruct (located_slice_from _ _ _ H) as [rest ->]. rewrite bind_Ok. by apply Acl.ParseACL_Marshal_ok.
Qed.

(** The present bits of the stored control word. *)
Lemma stored_control_present d :
  (is_Some (SACL d) -> has_bit (stored_control d) KACS_SD_SACL_PRESENT = true)
  /\ (is_Some (DACL d) -> has_bit (stored_control d) KACS_SD_DACL_PRESENT = true).
Proof.
  assert (forall m, In m sd_controls -> m <> 0) as Hm by (intros m ?; by eapply masks_ok_fits, H; apply sd_controls_ok).
  assert (KACS_SD_SACL_PRESENT <> 0) by (apply Hm; simpl; tauto).
  assert (KACS_SD_DACL_PRESENT <> 0) by (apply Hm; simpl; tauto).
  unfold stored_control. split; intros [l ->].
  - destruct (DACL d); by rewrite !has_bit_lor, has_bit_self, !orb_true_r.
  - by rewrite has_bit_lor, has_bit_self, orb_true_r.
Qed.

Context {LA : AceLaws U}.

Lemma ParseDescriptor_layout d sb db rest : ok d ->
  acl_bytes (SACL d) = Ok sb -> acl_bytes (DACL d) = Ok db ->
  ParseDescriptor (layout d sb db ++ rest) = Ok (set_Control d (stored_control d)).
Proof.
  intros (Hc&Ho&Hg&Hd&Hs) Es Ed. pose proof (SID.zlen_Bytes_wf _ Ho). pose proof (SID.zlen_Bytes_wf _ Hg).
  pose proof (zlen_acl_bytes _ _ Es). pose proof (zlen_acl_bytes _ _ Ed).
  pose proof (stored_control_fits d Hc). pose proof (zlen_nonneg sb).
  destruct (stored_control_present d) as [Ps Pd].
  assert (layout d sb db ++ rest = layout d sb (db ++ rest)) as -> by (unfold layout; app_eq).
  set (db' := db ++ rest) in *. unfold layout at 1. cbv zeta.
  rewrite ParseDescriptor_header; [|apply sd_header_20|done|split; repeat case_match; lia..].
  fold (layout d sb db'). set (ob := SID.Bytes (Owner d)) in *. set (gb := SID.Bytes (Group d)) in *.
  assert (exists h, zlen h = 20 /\ layout d sb db' = h ++ ob ++ gb ++ sb ++ db') as (h & Hh & El).
  { eexists. split; [|unfold layout; reflexivity]. apply zlen_header. }
  assert (located (layout d sb db') 20 ob) as Lo by (rewrite El; eapply (located_is _ h); [done|lia]).
  assert (located (layout d sb db') (20 + zlen ob) gb) as Lg.
  { rewrite El. eapply (located_is _ (h ++ ob)); [app_eq|len]. }
  assert (located (layout d sb db') (20 + zlen ob + zlen gb) sb) as Ls.
  { rewrite El. eapply (located_is _ (h ++ ob ++ gb)); [app_eq|len]. }
  assert (located (layout d sb db') (20 + zlen ob + zlen gb + zlen sb) db) as Ld.
  { rewrite El. unfold db'. eapply (located_is _ (h ++ ob ++ gb ++ sb)); [app_eq|len]. }
  unfold from_header.
  assert (forall s off, SID.wf s -> 0 < off -> (SID.IsValid s = true -> located (layout d sb db') off (SID.Bytes s)) ->
    (if (if SID.IsValid s then off else 0) =? 0 then Ok SID.zero
     else sidAt (layout d sb db') (if SID.IsValid s then off else 0)) = Ok s) as HS.
  { intros s off Hw Hpos Hl. destruct (SID.IsValid s) eqn:Hv.
    - destruct (Z.eqb_spec off 0); [lia|]. apply sidAt_located; [by split|lia|auto].
    - destruct Hw as [->|(a&ss&D)]; [done|]. apply SID.denotes_count in D as [D _]. congruence. }
  rewrite (HS (Owner d)), (HS (Group d)), !bind_Ok by (done || lia). clear HS.
  assert (forall acl m off b, (is_Some acl -> has_bit (stored_control d) m = true) -> acl_bytes acl = Ok b ->
    0 < off -> located (layout d sb db') off b -> (forall l, acl = Some l -> Acl.ok l) ->
    (if has_bit (stored_control d) m && negb ((if acl is Some _ then off else 0) =? 0)
     then Some <$> aclAt (layout d sb db') (if acl is Some _ then off else 0) else Ok None) = Ok acl) as HA.
  { intros acl m off b Hm Hb Hpos Hl Hok. destruct acl as [l|]; [|by rewrite andb_false_r].
    rewrite Hm by eauto. destruct (Z.eqb_spec off 0); [lia|]. cbn [negb andb].
    by rewrite (aclAt_located _ _ _ _ (Hok _ eq_refl) Hb Hl). }
  by rewrite (HA (DACL d) _ _ db), (HA (SACL d) _ _ sb), !bind_Ok by (done || lia).
Qed.

(** ** Parsing *)

Lemma sidAt_cases buf off : 0 <= off ->
  (exists s, sidAt buf off = Ok s /\ SID.valid s) \/ sidAt buf off = Err ErrBadSD \/ sidAt buf off = Err ErrBadSID.
Proof.
  intros Ho. unfold sidAt. destruct (Z.leb_spec (zlen buf) off); [auto|].
  rewrite slice_from_ok, bind_Ok by lia. pose proof (SID.ParseSID_safe (drop (Z.to_nat off) buf)).
  destruct (SID.ParseSID _) eqn:E; [|by apply SID.ParseSID_err in E as ->; auto|done].
  left. eexists. split; [done|]. by eapply SID.ParseSID_Ok_inv.
Qed.

(** The errors of the parser. *)
Definition bad (e : err) : Prop := e = ErrBadSD \/ e = ErrBadSID \/ e = ErrBadACL \/ Ace.bad e.

Definition parsed_acl (l : Acl.ACL) : Prop := exists buf, Acl.ParseACL buf = Ok l.

Lemma aclAt_cases buf off : 0 <= off ->
  (exists l, aclAt buf off = Ok l /\ parsed_acl l) \/ (exists e, aclAt buf off = Err e /\ bad e).
Proof.
  intros Ho. unfold aclAt, bad. destruct (Z.leb_spec (zlen buf) off); [eauto|].
  rewrite slice_from_ok, bind_Ok by lia. pose proof (Acl.ParseACL_safe (drop (Z.to_nat off) buf)).
  destruct (Acl.ParseACL _) eqn:E; [|apply Acl.ParseACL_err in E as [-> | ?]; eauto 7|done].
  left. unfold parsed_acl. eauto.
Qed.

(** What a parsed descriptor satisfies: SIDs are values of the type, ACLs are results
    of the ACL parser. *)
Definition parsed (d : Descriptor) : Prop :=
  fits 16 (Control d) /\ SID.wf (Owner d) /\ SID.wf (Group d)
  /\ (forall l, DACL d = Some l -> parsed_acl l) /\ (forall l, SACL d = Some l -> parsed_acl l).

Lemma ParseDescriptor_cases buf :
  match ParseDescriptor buf with Ok d => parsed d | Err e => bad e | Panic => False end.
Proof.
  unfold ParseDescriptor, sdHeaderBytes. rewrite sd_header_20.
  destruct (Z.ltb_spec (zlen buf) 20); [by left|].
  destruct (header_field_ok 2 buf 2) as (c & -> & Hc); [lia..|].
  destruct (header_field_ok 4 buf 4) as (o & -> & Ho); [lia..|].
  destruct (header_field_ok 4 buf 8) as (g & -> & Hg); [lia..|].
  destruct (header_field_ok 4 buf 12) as (s & -> & Hs); [lia..|].
  destruct (header_field_ok 4 buf 16) as (d & -> & Hd); [lia..|]. rewrite !bind_Ok.
  assert (forall off, 0 <= off -> exists m, (if off =? 0 then Ok SID.zero else sidAt buf off) = m
    /\ match m with Ok s => SID.wf s | Err e => bad e | Panic => False end) as HS.
  { intros off Hoff. eexists. split; [done|]. destruct (Z.eqb_spec off 0); [by left|].
    unfold bad. destruct (sidAt_cases buf off Hoff) as [(x & -> & Hv)|[-> | ->]]; [apply Hv|auto..]. }
  assert (forall b off, 0 <= off -> exists m, (if b && negb (off =? 0) then Some <$> aclAt buf off else Ok None) = m
    /\ match m with Ok acl => forall l, acl = Some l -> parsed_acl l | Err e => bad e | Panic => False end) as HA.
  { intros b off Hoff. eexists. split; [done|]. destruct (b && _); [|done].
    destruct (aclAt_cases buf off Hoff) as [(l & -> & Hl)|(e & -> & He)]; [|done]. cbn. by intros ? [= <-]. }
  destruct (HS o) as ([so|e|] & -> & Ho'); [lia| |done..]. rewrite bind_Ok.
  destruct (HS g) as ([sg|e|] & -> & Hg'); [lia| |done..]. rewrite bind_Ok.
  destruct (HA (has_bit c KACS_SD_DACL_PRESENT) d) as ([dl|e|] & -> & Hd'); [lia| |done..]. rewrite bind_Ok.
  destruct (HA (has_bit c KACS_SD_SACL_PRESENT) s) as ([sl|e|] & -> & Hs'); [lia| |done..]. rewrite bind_Ok.
  by split_and!.
Qed.

Lemma parsed_ok d : parsed d -> (forall l, DACL d = Some l \/ SACL d = Some l -> Acl.ok l) ->
  ok d /\ exists w, Marshal d = Ok w.
Proof.
  intros (Hc&Ho&Hg&Hd&Hs) Hok. split; [by split_and!; auto|].
  rewrite Marshal_layout by done.
  assert (forall acl, (forall l, acl = Some l -> parsed_acl l /\ Acl.ok l) -> exists b, acl_bytes acl = Ok b) as HA.
  { intros [l|] H; [|by exists []]. destruct (H _ eq_refl) as [[buf Hb] Hl].
    destruct (Acl.ParseACL_canonical _ _ Hb Hl) as (w & Hw & _). by exists w. }
  destruct (HA (SACL d)) as [sb ->]; [auto|]. destruct (HA (DACL d)) as [db ->]; [auto|].
  rewrite !bind_Ok. eauto.
Qed.
End layout.


(** ** Properties *)

(** A security descriptor survives its wire form. *)
Theorem ParseDescriptor_Marshal {U : Uapi} {L : SdLaws U} {LA : AceLaws U} (d : Descriptor) (Hok : ok d) :
  match Marshal d with
  | Ok w => forall rest, ParseDescriptor (w ++ rest) = Ok (set_Control d (stored_control d))
  | Err _ => exists l, (SACL d = Some l \/ DACL d = Some l) /\ 0xFFFF < 8 + Acl.aces_size (Acl.Entries l)
  | Panic => False
  end.
Proof.
  pose proof Hok as (_&Ho&Hg&Hd&Hs). rewrite Marshal_layout by done.
  assert (forall acl, (forall l, acl = Some l -> Acl.ok l) -> match acl_bytes acl with Ok _ => True
    | Err _ => exists l, acl = Some l /\ 0xFFFF < 8 + Acl.aces_size (Acl.Entries l) | Panic => False end) as HA.
  { intros [l|] H; [|done]. cbn. pose proof (Acl.Marshal_size l (H _ eq_refl)). destruct (Acl.Marshal l); eauto. }
  pose proof (HA _ Hs) as Hs'. destruct (acl_bytes (SACL d)) as [sb| |] eqn:Es; cbn; [|destruct Hs' as (l & ? & ?); eauto|done].
  pose proof (HA _ Hd) as Hd'. destruct (acl_bytes (DACL d)) as [db| |] eqn:Ed; cbn; [|destruct Hd' as (l & ? & ?); eauto|done].
  intros rest. by apply ParseDescriptor_layout.
Qed.

Definition sample_sd : Descriptor :=
  mkSD 0 (WK.SID WK.LocalSystem) SID.zero (Some Acl.sample_acl) None.

Lemma sample_sd_ok : @ok pkm sample_sd.
Proof.
  split_and!; [split; vm_compute; congruence|apply WK.SID_wf|by left| |done].
  intros l [= <-]. apply Acl.sample_acl_ok.
Qed.

(** An ACL without a wire form refuses the descriptor. *)
Lemma hollow_refuses_descriptor {U : Uapi} {L : SdLaws U} d l a : SID.wf (Owner d) -> SID.wf (Group d) ->
  DACL d = Some l \/ SACL d = Some l -> a ∈ Acl.Entries l -> Ace.hollow a -> is_ok (Marshal d) = false.
Proof.
  intros Ho Hg Hl Ha Hh. pose proof (Acl.hollow_Marshal_refuses _ _ Ha Hh) as H.
  rewrite Marshal_layout by done.
  destruct Hl as [-> | ->]; cbn [acl_bytes]; destruct (Acl.Marshal l); try done; by destruct (acl_bytes (SACL d)).
Qed.

(** Untrusted bytes. *)
Theorem ParseDescriptor_sound {U : Uapi} {L : SdLaws U} {LA : AceLaws U} (buf : bytes) :
  match ParseDescriptor buf with
  | Panic => False
  | Err e => bad e
  | Ok d => parsed d
      /\ ((forall l, DACL d = Some l \/ SACL d = Some l -> Acl.ok l) ->
          exists w, Marshal d = Ok w /\ ParseDescriptor w = Ok (set_Control d (stored_control d)))
      /\ (forall l a, DACL d = Some l \/ SACL d = Some l -> a ∈ Acl.Entries l -> Ace.hollow a -> is_ok (Marshal d) = false)
  end.
Proof.
  pose proof (ParseDescriptor_cases buf) as H. destruct (ParseDescriptor buf) as [d| |]; [|done..].
  split; [done|]. split; [|intros l a Hl Ha Hh; destruct H as (_&?&?&_); by eapply hollow_refuses_descriptor].
  intros Hok. destruct (parsed_ok _ H Hok) as [Hd [w Hw]]. exists w. split; [done|].
  pose proof Hd as (_&Ho&Hg&_). rewrite Marshal_layout in Hw by done.
  apply bind_Ok_inv in Hw as (sb & Hsb & (db & Hdb & <-%Ok_inj)%bind_Ok_inv).
  rewrite <- (app_nil_r (layout _ _ _)). by apply ParseDescriptor_layout.
Qed.

(** C8: The wire form of a security descriptor.  [Marshal] of a descriptor
    whose ACEs are well formed emits self-relative bytes from which [ParseDescriptor]
    reads back the same owner, group, DACL and SACL, absent ones staying absent and
    empty ACLs staying present, with the control word it was given plus the
    self-relative and present bits; it fails exactly when an ACL does not fit its
    65535 bytes.  [ParseDescriptor] is safe on untrusted bytes.  It never panics,
    whatever offsets the header holds; its errors are the malformed-descriptor, -SID,
    -ACL or -ACE ones.  A descriptor it accepts whose ACLs hold no hollow ACE (a raw-type one with an
    empty body) marshals again to bytes that read as the same descriptor with the
    self-relative and present bits set; one with a hollow ACE is accepted as well, and [Marshal]
    refuses it. *)
Theorem SD_wire {U : Uapi} {L : SdLaws U} {LA : AceLaws U} :
  (forall d, ok d ->
     match Marshal d with
     | Ok w => forall rest, ParseDescriptor (w ++ rest) = Ok (set_Control d (stored_control d))
     | Err _ => exists l, (SACL d = Some l \/ DACL d = Some l) /\ 0xFFFF < 8 + Acl.aces_size (Acl.Entries l)
     | Panic => False
     end)
  /\ (forall buf,
     match ParseDescriptor buf with
     | Panic => False
     | Err e => bad e
     | Ok d => parsed d
         /\ ((forall l, DACL d = Some l \/ SACL d = Some l -> Acl.ok l) ->
             exists w, Marshal d = Ok w /\ ParseDescriptor w = Ok (set_Control d (stored_control d)))
         /\ (forall l a, DACL d = Some l \/ SACL d = Some l -> a ∈ Acl.Entries l -> Ace.hollow a -> is_ok (Marshal d) = false)
     end).
Proof. split; [exact ParseDescriptor_Marshal|exact ParseDescriptor_sound]. Qed.

Lemma SD_wire_witness :
  exists w, @Marshal pkm sample_sd = Ok w /\ @ParseDescriptor pkm w = Ok (set_Control sample_sd 0x8004).
Proof.
  pose proof (proj1 (@SD_wire pkm pkm_SdLaws pkm_AceLaws) sample_sd sample_sd_ok) as H.
  destruct (@Marshal pkm sample_sd) as [w| |] eqn:E; [|vm_compute in E; discriminate E..].
  exists w. split; [done|]. specialize (H []). rewrite app_nil_r in H. exact H.
Defined.

End SD.
