(* ===== verification/Inherit.v ===== *)
(** * Inherit: ACE inheritance (sd/inherit.go)

    [ComputeInheritedACEs] is one generation; the first property closes it over any
    number of generations, which is what MS-DTYP's inheritance rules are about:
    which ACEs still reach a descendant, and with which flags.  The second is about
    [Reinherit], which re-derives a child's inherited ACEs from its parent. *)

From S2P Require Import Prelude Outcome Codec Uapi Sid WellKnown Ace Acl Descriptor.

Module Inherit.
Import Ace.

Section inherit.
Context {U : Uapi}.

Definition FlagObjectInherit := KACS_ACE_FLAG_OBJECT_INHERIT.
Definition FlagContainerInherit := KACS_ACE_FLAG_CONTAINER_INHERIT.
Definition FlagNoPropagateInherit := KACS_ACE_FLAG_NO_PROPAGATE_INHERIT.
Definition FlagInheritOnly := KACS_ACE_FLAG_INHERIT_ONLY.
Definition FlagInherited := KACS_ACE_FLAG_INHERITED.

Definition allInheritFlags : Z :=
  Z.lor (Z.lor (Z.lor FlagObjectInherit FlagContainerInherit) FlagNoPropagateInherit) FlagInheritOnly.

(** The body of the loop for one ACE: its new flags, or [None] for [continue]. *)
Definition inherit_flags (f : Z) (childIsContainer : bool) : option Z :=
  let oi := has_bit f FlagObjectInherit in
  let ci := has_bit f FlagContainerInherit in
  let np := has_bit f FlagNoPropagateInherit in
  if negb oi && negb ci then None else
  if negb childIsContainer then
    if negb oi then None else Some (Z.lor (bic f allInheritFlags) FlagInherited)
  else if np then
    if negb ci then None else Some (Z.lor (bic f allInheritFlags) FlagInherited)
  else if ci then
    Some (Z.lor (bic f (Z.lor FlagNoPropagateInherit FlagInheritOnly)) FlagInherited)
  else Some (Z.lor (Z.lor (bic f FlagNoPropagateInherit) FlagInheritOnly) FlagInherited).

Definition ComputeInheritedACEs (parentDACL : Acl.ACL) (childIsContainer : bool) : list ACE :=
  omap (fun ace => set_Flags ace <$> inherit_flags (ace_Flags ace) childIsContainer)
       (Acl.Entries parentDACL).

Definition reinherit_control : Z :=
  Z.lor (Z.lor (Z.lor KACS_SD_DACL_AUTO_INHERITED KACS_SD_DACL_PROTECTED)
               KACS_SD_SACL_AUTO_INHERITED) KACS_SD_SACL_PROTECTED.

(** [a.Flags&FlagInherited == 0] *)
Definition explicit (a : ACE) : bool := negb (has_bit (ace_Flags a) FlagInherited).

(** The descriptor that Reinherit marshals. *)
Definition reinherited (parent child : SD.Descriptor) (childIsContainer : bool) : SD.Descriptor :=
  let inherited := match SD.DACL parent with
                   | Some l => ComputeInheritedACEs l childIsContainer
                   | None => [] end in
  let own := match SD.DACL child with
             | Some l => List.filter explicit (Acl.Entries l)
             | None => [] end in
  let entries := own ++ inherited in
  let hadDACL := if SD.DACL child is Some _ then true else false in
  SD.mkSD (Z.land (SD.Control child) reinherit_control) (SD.Owner child) (SD.Group child)
    (if hadDACL || (0 <? zlen entries) then Some (Acl.mkACL entries) else None)
    (SD.SACL child).

Definition Reinherit (parentSD childSD : bytes) (childIsContainer : bool) : outcome bytes :=
  parent ← wrap_err "reinherit: parent" (SD.ParseDescriptor parentSD);
  child ← wrap_err "reinherit: child" (SD.ParseDescriptor childSD);
  if negb (has_bit (SD.Control child) KACS_SD_SELF_RELATIVE) then Err ErrNotSelfRelative else
  SD.Marshal (reinherited parent child childIsContainer).

(** ** Flag arithmetic *)

Context {L : AceLaws U}.

Lemma flag_land i j x y : ace_flags !! i = Some x -> ace_flags !! j = Some y -> i <> j -> Z.land x y = 0.
Proof. apply masks_ok_disjoint with (w := 8), ace_flags_ok. Qed.
Lemma flag_ne x : In x ace_flags -> x <> 0.
Proof. intros H. by eapply masks_ok_fits, H; apply ace_flags_ok. Qed.

Ltac flag_index x :=
  lazymatch x with
  | FlagObjectInherit => constr:(0%nat)
  | FlagContainerInherit => constr:(1%nat)
  | FlagNoPropagateInherit => constr:(2%nat)
  | FlagInheritOnly => constr:(3%nat)
  | FlagInherited => constr:(4%nat)
  end.
Ltac disjoint :=
  unfold allInheritFlags; rewrite ?Z.land_lor_distr_l;
  repeat match goal with |- context [Z.land ?x ?y] =>
    let i := flag_index x in let j := flag_index y in
    rewrite (flag_land i j x y) by done end; done.
(** Evaluate the flag tests of computed flags. *)
Ltac flags :=
  repeat first
  [ rewrite has_bit_lor
  | match goal with |- context [has_bit (bic ?f ?k) ?m] =>
      first [ rewrite (has_bit_bic_drop f k m) by (unfold allInheritFlags; bits)
            | rewrite (has_bit_bic_keep f k m) by disjoint ] end
  | rewrite has_bit_self by (apply flag_ne; simpl; tauto)
  | match goal with |- context [has_bit ?x ?y] =>
      rewrite (has_bit_disjoint x y) by (let i := flag_index x in let j := flag_index y in
        apply (flag_land i j); done) end ].

Lemma inherit_flags_inherited f c g : inherit_flags f c = Some g -> has_bit g FlagInherited = true.
Proof.
  unfold inherit_flags. intros H. repeat case_match; simplify_eq; flags; by rewrite ?orb_true_r.
Qed.

(** ** Many generations *)

(** The flags after [n] generations of containers. *)
Definition descend_flags (n : nat) (f : Z) : option Z :=
  Nat.iter n (fun o => o ≫= fun f => inherit_flags f true) (Some f).

(** The rules of MS-DTYP 2.5.3.4.1 over [n >= 1] generations, in closed form. *)
Definition container_flags (n : nat) (f : Z) : option Z :=
  if has_bit f FlagNoPropagateInherit then
    if has_bit f FlagContainerInherit && (n =? 1)%nat
    then Some (Z.lor (bic f allInheritFlags) FlagInherited) else None
  else if has_bit f FlagContainerInherit then
    Some (Z.lor (bic f (Z.lor FlagNoPropagateInherit FlagInheritOnly)) FlagInherited)
  else if has_bit f FlagObjectInherit then
    Some (Z.lor (Z.lor (bic f FlagNoPropagateInherit) FlagInheritOnly) FlagInherited)
  else None.
Definition file_flags (n : nat) (f : Z) : option Z :=
  if has_bit f FlagObjectInherit && (negb (has_bit f FlagNoPropagateInherit) || (n =? 1)%nat)
  then Some (Z.lor (bic f allInheritFlags) FlagInherited) else None.

Lemma container_flags_1 f : inherit_flags f true = container_flags 1 f.
Proof.
  unfold inherit_flags, container_flags.
  by destruct (has_bit f FlagNoPropagateInherit), (has_bit f FlagContainerInherit), (has_bit f FlagObjectInherit).
Qed.

Lemma container_flags_step n f : (1 <= n)%nat ->
  container_flags n f ≫= (fun f => inherit_flags f true) = container_flags (S n) f.
Proof.
  intros Hn. unfold container_flags, inherit_flags.
  destruct (has_bit f FlagNoPropagateInherit) eqn:Enp.
  - rewrite (proj2 (Nat.eqb_neq (S n) 1)), andb_false_r by lia. destruct (_ && _); [|done]. cbn [mbind option_bind]. flags. done.
  - destruct (has_bit f FlagContainerInherit) eqn:Eci; [|destruct (has_bit f FlagObjectInherit) eqn:Eoi; [|done]].
    + cbn [mbind option_bind]. flags. rewrite Eci. cbn [orb negb andb]. rewrite andb_false_r. f_equal. bits.
    + cbn [mbind option_bind]. flags. rewrite Eci, Eoi. cbn [orb negb andb]. f_equal. bits.
Qed.

Lemma descend_flags_spec n f : (1 <= n)%nat -> descend_flags n f = container_flags n f.
Proof.
  destruct n as [|n]; [lia|]. intros _. induction n as [|n IH]; [apply container_flags_1|].
  change (descend_flags (S (S n)) f) with (descend_flags (S n) f ≫= (fun f => inherit_flags f true)).
  rewrite IH. apply container_flags_step. lia.
Qed.

Lemma file_flags_spec n f : (1 <= n)%nat ->
  (descend_flags (n - 1) f ≫= fun f => inherit_flags f false) = file_flags n f.
Proof.
  destruct n as [|[|n]]; [lia|..]; intros _.
  - unfold descend_flags, inherit_flags, file_flags. cbn.
    destruct (has_bit f FlagObjectInherit), (has_bit f FlagContainerInherit); cbn; by rewrite ?orb_true_r.
  - replace (S (S n) - 1)%nat with (S n) by lia. rewrite descend_flags_spec by lia.
    unfold container_flags, inherit_flags, file_flags. rewrite (proj2 (Nat.eqb_neq (S (S n)) 1)), orb_false_r by lia.
    destruct (has_bit f FlagNoPropagateInherit) eqn:Enp.
    + rewrite andb_false_r. destruct (_ && _); [|done]. cbn [mbind option_bind]. flags. done.
    + destruct (has_bit f FlagContainerInherit) eqn:Eci; [|destruct (has_bit f FlagObjectInherit) eqn:Eoi; [|done]].
      * cbn [mbind option_bind]. flags. rewrite Eci. cbn [orb negb andb]. rewrite andb_false_r.
        destruct (has_bit f FlagObjectInherit); [|done]. cbn [orb negb andb]. f_equal. unfold allInheritFlags. bits.
      * cbn [mbind option_bind]. flags. rewrite Eci, Eoi. cbn [orb negb andb]. f_equal. unfold allInheritFlags. bits.
Qed.
Lemma container_flags_bits n f g : container_flags n f = Some g -> has_bit g FlagInherited = true
  /\ has_bit g FlagInheritOnly = negb (has_bit f FlagContainerInherit)
  /\ has_bit g FlagNoPropagateInherit = false.
Proof.
  unfold container_flags. destruct (has_bit f FlagNoPropagateInherit) eqn:Enp.
  - destruct (has_bit f FlagContainerInherit) eqn:Eci; cbn [andb]; [|done].
    destruct (n =? 1)%nat; [|done]. intros [= <-]. flags. by rewrite orb_true_r.
  - destruct (has_bit f FlagContainerInherit) eqn:Eci; [|destruct (has_bit f FlagObjectInherit); [|done]];
      intros [= <-]; flags; by rewrite ?orb_true_r.
Qed.

Lemma file_flags_bits n f g : file_flags n f = Some g -> has_bit g FlagInherited = true
  /\ forall m, m ∈ [FlagObjectInherit; FlagContainerInherit; FlagNoPropagateInherit; FlagInheritOnly] ->
     has_bit g m = false.
Proof.
  unfold file_flags. destruct (_ && _); [|done]. intros [= <-]. split; [flags; by rewrite orb_true_r|].
  intros m Hm. rewrite !elem_of_cons in Hm. destruct Hm as [->|[->|[->|[->|[]%elem_of_nil]]]]; by flags.
Qed.
End inherit.

Section generations.
Context {U : Uapi} {L : AceLaws U}.

(** The DACL of a container [n] generations below, all of its ACEs inherited. *)
Definition descend (n : nat) (dacl : Acl.ACL) : Acl.ACL :=
  Nat.iter n (fun l => Acl.mkACL (ComputeInheritedACEs l true)) dacl.

Lemma omap_set_Flags (g h : Z -> option Z) (l : list ACE) :
  omap (fun a => set_Flags a <$> h (ace_Flags a)) (omap (fun a => set_Flags a <$> g (ace_Flags a)) l)
  = omap (fun a => set_Flags a <$> (g (ace_Flags a) ≫= h)) l.
Proof.
  induction l as [|a l IH]; [done|]. csimpl. destruct (g (ace_Flags a)) as [f|]; csimpl; [|done].
  by destruct (h f); csimpl; rewrite IH.
Qed.

Lemma omap_flags_ext (g h : Z -> option Z) (l : list ACE) : (forall f, g f = h f) ->
  omap (fun a => set_Flags a <$> g (ace_Flags a)) l = omap (fun a => set_Flags a <$> h (ace_Flags a)) l.
Proof. intros E. apply list_omap_ext, Forall_Forall2_diag, Forall_true. intros a. by rewrite E. Qed.

Lemma descend_spec n dacl :
  Acl.Entries (descend n dacl) = omap (fun a => set_Flags a <$> descend_flags n (ace_Flags a)) (Acl.Entries dacl).
Proof.
  induction n as [|n IH].
  - cbn. induction (Acl.Entries dacl) as [|[] l IHl]; [done|]. cbn in *. by rewrite <- IHl.
  - change (descend (S n) dacl) with (Acl.mkACL (ComputeInheritedACEs (descend n dacl) true)).
    cbn [Acl.Entries]. unfold ComputeInheritedACEs. rewrite IH.
    exact (omap_set_Flags (descend_flags n) (fun f => inherit_flags f true) _).
Qed.
End generations.

(** C9: inheritance over any number of generations.  In the DACL of a container [n]
    generations below, exactly these ACEs of the ancestor remain, in order: those
    marked container- or object-inherit when they propagate, and only to the first
    generation (and only if container-inherit) under no-propagate; a file there gets
    exactly the object-inherit ones.  An inherited ACE is marked inherited; on a
    container it is effective (not inherit-only) exactly if it was container-inherit;
    on a file it keeps no inheritance flag at all. *)
Theorem inherited_generations {U : Uapi} {L : AceLaws U} (n : nat) (dacl : Acl.ACL) (Hn : (1 <= n)%nat) :
  Acl.Entries (descend n dacl)
  = omap (fun a => set_Flags a <$> container_flags n (ace_Flags a)) (Acl.Entries dacl)
  /\ ComputeInheritedACEs (descend (n - 1) dacl) false
     = omap (fun a => set_Flags a <$> file_flags n (ace_Flags a)) (Acl.Entries dacl)
  /\ (forall f g, container_flags n f = Some g -> has_bit g FlagInherited = true
        /\ has_bit g FlagInheritOnly = negb (has_bit f FlagContainerInherit)
        /\ has_bit g FlagNoPropagateInherit = false)
  /\ (forall f g, file_flags n f = Some g -> has_bit g FlagInherited = true
        /\ forall m, m ∈ [FlagObjectInherit; FlagContainerInherit; FlagNoPropagateInherit; FlagInheritOnly] ->
           has_bit g m = false).
Proof.
  split_and!.
  - rewrite descend_spec. apply (omap_flags_ext (descend_flags n) (container_flags n)).
    intros f. by apply descend_flags_spec.
  - unfold ComputeInheritedACEs. rewrite descend_spec, (omap_set_Flags _ (fun f => inherit_flags f false)).
    apply (omap_flags_ext (fun f => descend_flags (n - 1) f ≫= _) (file_flags n)).
    intros f. by apply file_flags_spec.
  - intros f g. apply container_flags_bits.
  - intros f g. apply file_flags_bits.
Qed.

(** An ACE that is object-inherit only is carried through containers and takes effect
    on a file three levels down; with no-propagate it stops at the first container. *)
Lemma inherited_generations_witness :
  let a f := set_Flags (@Allow pkm (WK.SID WK.Everyone) 1) f in
  @ComputeInheritedACEs pkm (@descend pkm 2 (Acl.mkACL [a 1; a 5; a 2])) false = [a 16]
  /\ Acl.Entries (@descend pkm 3 (Acl.mkACL [a 1; a 5; a 2])) = [a 25; a 18].
Proof.
  intros a. pose proof (@inherited_generations pkm pkm_AceLaws 3 (Acl.mkACL [a 1; a 5; a 2]) ltac:(lia)) as (H1&H2&_&_).
  split; [etransitivity; [exact H2|]|etransitivity; [exact H1|]]; vm_compute; reflexivity.
Defined.


(** ** Reinherit *)

Section reinherit.
Context {U : Uapi} {LA : AceLaws U} {LS : SdLaws U}.

Definition dacl_entries (d : SD.Descriptor) : list ACE :=
  match SD.DACL d with Some l => Acl.Entries l | None => [] end.

(** What the parent hands down. *)
Definition handed_down (parent : SD.Descriptor) (c : bool) : list ACE :=
  match SD.DACL parent with Some l => ComputeInheritedACEs l c | None => [] end.

Lemma reinherited_entries p ch c :
  dacl_entries (reinherited p ch c) = List.filter explicit (dacl_entries ch) ++ handed_down p c.
Proof.
  unfold reinherited, dacl_entries, handed_down. cbn [SD.DACL].
  set (inh := match SD.DACL p with Some l => _ | None => _ end).
  destruct (SD.DACL ch) as [l|]; [done|]. cbn [orb List.filter app].
  destruct inh as [|a inh]; [done|]. destruct (Z.ltb_spec 0 (zlen (a :: inh))); [done|len].
Qed.

Lemma reinherited_DACL p ch c : SD.DACL (reinherited p ch c) =
  if (if SD.DACL ch is Some _ then true else false)
     || (0 <? zlen (List.filter explicit (dacl_entries ch) ++ handed_down p c))
  then Some (Acl.mkACL (List.filter explicit (dacl_entries ch) ++ handed_down p c)) else None.
Proof. unfold reinherited, dacl_entries, handed_down. cbn [SD.DACL]. by destruct (SD.DACL ch). Qed.

Lemma handed_down_inherited p c : List.filter explicit (handed_down p c) = [].
Proof.
  unfold handed_down. destruct (SD.DACL p) as [l|]; [|done]. unfold ComputeInheritedACEs.
  induction (Acl.Entries l) as [|a es IH]; [done|]. csimpl.
  destruct (inherit_flags (ace_Flags a) c) as [g|] eqn:E; csimpl; [|done].
  unfold explicit at 1. cbn [ace_Flags set_Flags]. by rewrite (inherit_flags_inherited _ _ _ E).
Qed.

Lemma Forall_list_filter {A} (P : A -> Prop) (f : A -> bool) l : Forall P l -> Forall P (List.filter f l).
Proof. induction 1 as [|x l Hx Hl IH]; simpl; [constructor|]. destruct (f x); [by constructor|done]. Qed.

Lemma filter_idem {A} (f : A -> bool) l : List.filter f (List.filter f l) = List.filter f l.
Proof. induction l as [|x l IH]; [done|]. simpl. destruct (f x) eqn:E; simpl; [by rewrite E, IH|done]. Qed.

(** Deriving again from the same parent changes nothing but the control word. *)
Lemma reinherited_idem p ch c k : Z.land k reinherit_control = Z.land (SD.Control ch) reinherit_control ->
  reinherited p (SD.set_Control (reinherited p ch c) k) c = reinherited p ch c.
Proof.
  intros Hk. set (r := reinherited p ch c).
  assert (List.filter explicit (dacl_entries (SD.set_Control r k)) = List.filter explicit (dacl_entries ch)) as Ef.
  { change (dacl_entries (SD.set_Control r k)) with (dacl_entries r). unfold r.
    by rewrite reinherited_entries, List.filter_app, handed_down_inherited, app_nil_r, filter_idem. }
  assert (SD.DACL (reinherited p (SD.set_Control r k) c) = SD.DACL r) as Ed.
  { rewrite reinherited_DACL, Ef. cbn [SD.DACL SD.set_Control]. unfold r. rewrite reinherited_DACL.
    destruct (SD.DACL ch); cbn [orb]; [done|]. by destruct (0 <? _). }
  unfold r in *. unfold reinherited in Ed at 1. unfold reinherited at 1. cbn [SD.DACL] in Ed. rewrite Ed.
  cbn [SD.Control SD.set_Control SD.Owner SD.Group SD.SACL]. rewrite Hk. reflexivity.
Qed.

Lemma control_land i j x y : sd_controls !! i = Some x -> sd_controls !! j = Some y -> i <> j -> Z.land x y = 0.
Proof. apply masks_ok_disjoint with (w := 16), sd_controls_ok. Qed.

(** The bits that Marshal adds are not among those that Reinherit keeps. *)
Lemma stored_control_kept m : In m [KACS_SD_SELF_RELATIVE; KACS_SD_SACL_PRESENT; KACS_SD_DACL_PRESENT] ->
  Z.land m reinherit_control = 0.
Proof.
  unfold reinherit_control. rewrite !Z.land_lor_distr_r. intros [<-|[<-|[<-|[]]]].
  - rewrite (control_land 10 6), (control_land 10 8), (control_land 10 7), (control_land 10 9); done.
  - rewrite (control_land 4 6), (control_land 4 8), (control_land 4 7), (control_land 4 9); done.
  - rewrite (control_land 2 6), (control_land 2 8), (control_land 2 7), (control_land 2 9); done.
Qed.

Lemma stored_control_land d :
  Z.land (SD.stored_control d) reinherit_control = Z.land (SD.Control d) reinherit_control.
Proof.
  unfold SD.stored_control. destruct (SD.SACL d), (SD.DACL d); rewrite !Z.land_lor_distr_l,
    ?(stored_control_kept KACS_SD_SELF_RELATIVE), ?(stored_control_kept KACS_SD_SACL_PRESENT),
    ?(stored_control_kept KACS_SD_DACL_PRESENT), ?Z.lor_0_r by (simpl; tauto); reflexivity.
Qed.

Lemma stored_control_self d : has_bit (SD.stored_control d) KACS_SD_SELF_RELATIVE = true.
Proof.
  assert (KACS_SD_SELF_RELATIVE <> 0) by (eapply masks_ok_fits; [apply sd_controls_ok|simpl; tauto]).
  unfold SD.stored_control. destruct (SD.SACL d), (SD.DACL d); rewrite !has_bit_lor, (has_bit_self KACS_SD_SELF_RELATIVE),
    ?orb_true_r by done; reflexivity.
Qed.

(** ** Well-formedness of what is marshalled *)

Lemma inherit_flags_fits f c g : fits 8 f -> inherit_flags f c = Some g -> fits 8 g.
Proof.
  assert (forall x, In x ace_flags -> fits 8 x) as Hx by (intros x ?; by eapply masks_ok_fits, H; apply ace_flags_ok).
  assert (fits 8 FlagInherited) by (apply Hx; simpl; tauto).
  assert (fits 8 FlagInheritOnly) by (apply Hx; simpl; tauto).
  intros Hf. unfold inherit_flags. intros E. repeat case_match; simplify_eq;
    repeat apply fits_lor; try apply fits_bic; done || lia.
Qed.

Definition decent (a : ACE) : Prop := ok a \/ hollow a.

Lemma set_Flags_decent a f : decent a -> fits 8 f -> decent (set_Flags a f).
Proof.
  unfold decent. intros [(Ht&_&H)|H] Hf; [left|by right]. split; [done|]. split; [done|]. exact H.
Qed.

Lemma parsed_decent l : SD.parsed_acl l -> Forall (fun a => decent a /\ fits 8 (ace_Flags a)) (Acl.Entries l).
Proof.
  intros [buf H]. apply Acl.ParseACL_Ok_inv in H as (?&?&?&b&?&_&_&_&_&H).
  eapply parse_n_Forall, H; [|done]. intros bu a n E. unfold decent.
  destruct (ParseACE_cases bu) as [E'|(t&f&b'&r&->&?&?&?&E')]; rewrite E' in E; [done|].
  apply parse_body_inv in E as (_&_&->&[[? _]|[? _]]); auto.
Qed.

Lemma marshalled_ok l b : Forall decent (Acl.Entries l) -> Acl.Marshal l = Ok b -> Acl.ok l.
Proof.
  intros Hd (aces & Ha & _)%Acl.ACL_Marshal_Ok_inv. unfold Acl.ok. revert aces Ha.
  induction Hd as [|a es Ha Hes IH]; intros aces E; [constructor|].
  apply encode_all_cons in E as (x & s & Hx & Hs & ->). constructor; [|by eapply IH].
  destruct Ha as [Ha|Hh]; [done|]. apply hollow_Marshal in Hh. by rewrite Hx in Hh.
Qed.

Lemma reinherited_decent p ch c : SD.parsed p -> SD.parsed ch ->
  Forall decent (dacl_entries (reinherited p ch c)).
Proof.
  intros Hp Hc. rewrite reinherited_entries. apply Forall_app_2.
  - unfold dacl_entries. destruct (SD.DACL ch) as [l|] eqn:E; [|constructor].
    destruct Hc as (_&_&_&Hd&_). specialize (Hd _ E). apply parsed_decent in Hd.
    apply Forall_list_filter. eapply Forall_impl; [exact Hd|]. by intros a [? _].
  - unfold handed_down. destruct (SD.DACL p) as [l|] eqn:E; [|constructor].
    destruct Hp as (_&_&_&Hd&_). specialize (Hd _ E). apply parsed_decent in Hd.
    unfold ComputeInheritedACEs. induction Hd as [|a es [Ha Hf] Hes IH]; [constructor|]. csimpl.
    destruct (inherit_flags (ace_Flags a) c) as [g|] eqn:Eg; csimpl; [|done].
    constructor; [|done]. apply set_Flags_decent; [done|]. by eapply inherit_flags_fits.
Qed.

(** Marshalling a descriptor of decent ACEs, when it succeeds, gives bytes that parse to it. *)
Lemma decent_parse r w : fits 16 (SD.Control r) -> SID.wf (SD.Owner r) -> SID.wf (SD.Group r) ->
  (forall l, SD.DACL r = Some l \/ SD.SACL r = Some l -> Forall decent (Acl.Entries l)) -> SD.Marshal r = Ok w ->
  SD.ParseDescriptor w = Ok (SD.set_Control r (SD.stored_control r)).
Proof.
  intros Hk Ho Hg Hd Hw. rewrite SD.Marshal_layout in Hw by done.
  apply bind_Ok_inv in Hw as (sb & Hsb & (db & Hdb & <-%Ok_inj)%bind_Ok_inv).
  rewrite <- (app_nil_r (SD.layout _ _ _)). apply SD.ParseDescriptor_layout; [|done|done]. split_and!; [done..| |].
  - intros l El. rewrite El in Hdb. eapply marshalled_ok; [|exact Hdb]. auto.
  - intros l El. rewrite El in Hsb. eapply marshalled_ok; [|exact Hsb]. auto.
Qed.

Lemma reinherited_parse p ch c w : SD.parsed p -> SD.parsed ch ->
  SD.Marshal (reinherited p ch c) = Ok w ->
  SD.ParseDescriptor w = Ok (SD.set_Control (reinherited p ch c) (SD.stored_control (reinherited p ch c))).
Proof.
  intros Hp Hc. pose proof (reinherited_decent p ch c Hp Hc) as Hd. pose proof Hc as (Hk&Ho&Hg&_&Hs).
  apply decent_parse; [|done|done|].
  - unfold reinherited. cbn [SD.Control]. apply fits_land_l; [lia| |done].
    assert (forall m, In m sd_controls -> 0 <= m) as Hm by (intros m ?; by eapply masks_ok_fits, H; apply sd_controls_ok).
    unfold reinherit_control. rewrite !Z.lor_nonneg. split_and!; apply Hm; simpl; tauto.
  - intros l [El|El]; [unfold dacl_entries in Hd; by rewrite El in Hd|].
    eapply Forall_impl; [apply parsed_decent; by apply Hs|]. by intros a [? _].
Qed.
End reinherit.

(** C10: [Reinherit] re-derives a child's inheritance.  It never panics; when it
    succeeds, both inputs parsed and its output parses as the child with the same
    owner, group and SACL, with the child's explicit ACEs first and in order and then
    exactly what the parent hands down, the child's earlier inherited ACEs being gone;
    the protected and auto-inherited control bits are preserved; and re-deriving from
    the same parent again returns the same bytes. *)
Theorem Reinherit_spec {U : Uapi} {LA : AceLaws U} {LS : SdLaws U} (parentSD childSD : bytes) (c : bool) :
  match Reinherit parentSD childSD c with
  | Panic => False
  | Err _ => True
  | Ok w => exists parent child d,
      SD.ParseDescriptor parentSD = Ok parent /\ SD.ParseDescriptor childSD = Ok child
      /\ SD.ParseDescriptor w = Ok d
      /\ SD.Owner d = SD.Owner child /\ SD.Group d = SD.Group child /\ SD.SACL d = SD.SACL child
      /\ dacl_entries d = List.filter explicit (dacl_entries child) ++ handed_down parent c
      /\ List.filter explicit (dacl_entries d) = List.filter explicit (dacl_entries child)
      /\ Z.land (SD.Control d) reinherit_control = Z.land (SD.Control child) reinherit_control
      /\ Reinherit parentSD w c = Ok w
  end.
Proof.
  pose proof (SD.ParseDescriptor_cases parentSD) as Hp. pose proof (SD.ParseDescriptor_cases childSD) as Hc.
  unfold Reinherit at 1. destruct (SD.ParseDescriptor parentSD) as [p| |] eqn:Ep; cbn; [|done..].
  destruct (SD.ParseDescriptor childSD) as [ch| |] eqn:Ec; cbn; [|done..].
  destruct (has_bit (SD.Control ch) KACS_SD_SELF_RELATIVE); cbn [negb]; [|done].
  destruct (SD.Marshal (reinherited p ch c)) as [w| |] eqn:Ew; [|done|].
  2: { apply SD.SD_Marshal_safe in Ew; [done|apply Hc..]. }
  pose proof (reinherited_parse _ _ _ _ Hp Hc Ew) as Hw. set (r := reinherited p ch c) in *.
  assert (Z.land (SD.stored_control r) reinherit_control = Z.land (SD.Control ch) reinherit_control) as Hk.
  { rewrite stored_control_land. unfold r, reinherited. cbn [SD.Control]. by rewrite <- Z.land_assoc, Z.land_diag. }
  exists p, ch, (SD.set_Control r (SD.stored_control r)). split_and!; [done..| | |done|].
  - apply reinherited_entries.
  - change (dacl_entries (SD.set_Control r _)) with (dacl_entries r). unfold r.
    by rewrite reinherited_entries, List.filter_app, handed_down_inherited, app_nil_r, filter_idem.
  - unfold Reinherit. rewrite Ep, Hw. cbn [wrap_err]. rewrite !bind_Ok.
    cbn [SD.Control SD.set_Control]. rewrite stored_control_self. cbn [negb]. unfold r.
    rewrite reinherited_idem; [exact Ew|]. exact Hk.
Qed.

(** The case of the package's own test: one stale inherited ACE is replaced. *)
Definition test_parent : bytes :=
  match @SD.Marshal pkm (SD.mkSD 0 SID.zero SID.zero
    (Some (Acl.mkACL [set_Flags (@Allow pkm (WK.SID WK.Everyone) 0x80000000) 3])) None) with Ok w => w | _ => [] end.
Definition test_child : bytes :=
  match @SD.Marshal pkm (SD.mkSD 0 SID.zero SID.zero
    (Some (Acl.mkACL [@Allow pkm (WK.SID WK.Anonymous) 0x10000000;
                      set_Flags (@Allow pkm (WK.SID WK.LocalSystem) 0x10000000) 16])) None) with Ok w => w | _ => [] end.

Lemma Reinherit_spec_witness :
  exists w d, @Reinherit pkm test_parent test_child false = Ok w /\ @SD.ParseDescriptor pkm w = Ok d
    /\ dacl_entries d = [@Allow pkm (WK.SID WK.Anonymous) 0x10000000;
                         set_Flags (@Allow pkm (WK.SID WK.Everyone) 0x80000000) 16].
Proof.
  pose proof (@Reinherit_spec pkm pkm_AceLaws pkm_SdLaws test_parent test_child false) as H.
  destruct (@Reinherit pkm test_parent test_child false) as [w| |] eqn:E; [|vm_compute in E; discriminate E..].
  destruct H as (p & ch & d & Hp & Hc & Hd & _ & _ & _ & He & _). exists w, d. split; [done|]. split; [done|].
  rewrite He. vm_compute in Hp. injection Hp as <-. vm_compute in Hc. injection Hc as <-. vm_compute. reflexivity.
Defined.

End Inherit.
