(* ===== verification/SddlTables.v ===== *)
(** * SddlTables: names of SIDs, rights, ACE types and flags (sddl/tables.go, sddl/guid.go)

    The Go maps are association lists; [rev_lookup] is the reverse map that the
    package's [init] builds, which keeps the least name of a value so that the
    result does not depend on the map's iteration order ([rev_lookup_perm]).
    [relativeAlias] does range over a map: the list order stands for one
    iteration order, and [relativeAlias_complete] shows that no other order gives
    another answer.  The theorems: every SID text reads back as its SID under any
    resolution context; a rights field is accepted exactly when it is a number or
    a run of mnemonics, closed or not by a hex literal, and means their union;
    GUID texts and GUIDs correspond one to one up to the case of the digits. *)

From S2P Require Import Prelude Outcome Uapi GoStd GoText Sid WellKnown Ace.

(** ** Tables *)

(** [m[key]] on a map literal. *)
Fixpoint assoc {K V} `{EqDecision K} (m : list (K * V)) (k : K) : option V :=
  match m with
  | [] => None
  | (k', v) :: m => if decide (k' = k) then Some v else assoc m k
  end.

(** [a < b] on strings. *)
Fixpoint str_lt (a b : bytes) : bool :=
  match a, b with
  | _, [] => false
  | [], _ :: _ => true
  | x :: a, y :: b => (b2z x <? b2z y) || ((b2z x =? b2z y) && str_lt a b)
  end.

(** The reverse map of [init]: [if prev, ok := m[v]; !ok || name < prev { m[v] = name }]. *)
Definition keep_least (prev : option bytes) (name : bytes) : option bytes :=
  match prev with
  | Some p => if str_lt name p then Some name else prev
  | None => Some name
  end.
Definition rev_lookup {V} `{EqDecision V} (m : list (bytes * V)) (v : V) : option bytes :=
  foldl (fun prev e => if decide (e.2 = v) then keep_least prev e.1 else prev) None m.

(** ** Lemmas on tables *)

Section assoc_lemmas.
Context {K V : Type} `{EqDecision K}.
Implicit Types m : list (K * V).

Lemma assoc_in m k v : assoc m k = Some v -> (k, v) ∈ m.
Proof.
  induction m as [|[k' v'] m IH]; [done|]. cbn [assoc]. rewrite elem_of_cons.
  destruct (decide (k' = k)) as [->|]; [intros [= ->]; by left|by right; apply IH].
Qed.

Lemma assoc_complete m k v : NoDup m.*1 -> (k, v) ∈ m -> assoc m k = Some v.
Proof.
  induction m as [|[k' v'] m IH]; [set_solver|]. cbn [assoc fmap list_fmap fst].
  intros [Hn Hd]%NoDup_cons [[= -> ->]|Hin]%elem_of_cons; [by rewrite decide_True|].
  rewrite decide_False; [by apply IH|]. intros ->. apply Hn. apply list_elem_of_fmap. by exists (k, v).
Qed.
End assoc_lemmas.

Section str_order.

Lemma str_lt_irrefl a : str_lt a a = false.
Proof. induction a as [|x a IH]; [done|]. cbn [str_lt]. rewrite Z.ltb_irrefl, IH. by rewrite andb_false_r. Qed.

Lemma str_lt_cons x a y b :
  str_lt (x :: a) (y :: b) = true <-> b2z x < b2z y \/ (x = y /\ str_lt a b = true).
Proof.
  cbn [str_lt]. rewrite orb_true_iff, andb_true_iff, Z.ltb_lt, Z.eqb_eq.
  split; intros [?|[E ?]]; auto; right; [by apply b2z_inj in E|by subst].
Qed.

Lemma str_lt_trans a b c : str_lt a b = true -> str_lt b c = true -> str_lt a c = true.
Proof.
  revert b c. induction a as [|x a IH]; intros [|y b] [|z c]; try done.
  rewrite !str_lt_cons. intros [?|[-> ?]] [?|[-> ?]]; [left; lia..|]. right. eauto.
Qed.

Lemma str_lt_total a b : str_lt a b = true \/ a = b \/ str_lt b a = true.
Proof.
  revert b. induction a as [|x a IH]; intros [|y b]; auto. rewrite !str_lt_cons.
  destruct (Z.lt_trichotomy (b2z x) (b2z y)) as [?|[E%b2z_inj|?]]; auto. subst y.
  destruct (IH b) as [?|[->|?]]; auto.
Qed.

Lemma str_lt_asym a b : str_lt a b = true -> str_lt b a = false.
Proof.
  intros H. destruct (str_lt b a) eqn:E; [|done]. pose proof (str_lt_trans _ _ _ H E).
  by rewrite str_lt_irrefl in *.
Qed.

(** Keeping the least of two names does not depend on the order they come in. *)
Lemma keep_least_comm p a b : keep_least (keep_least p a) b = keep_least (keep_least p b) a.
Proof.
  assert (forall x y, str_lt x y = false -> str_lt y x = false -> x = y) as Htot.
  { intros x y Hx Hy. destruct (str_lt_total x y) as [?|[?|?]]; congruence. }
  assert (forall a b, Some (if str_lt b a then b else a) = Some (if str_lt a b then a else b)) as Hmin.
  { intros x y. destruct (str_lt y x) eqn:Hx, (str_lt x y) eqn:Hy; try done.
    - by apply str_lt_asym in Hx; rewrite Hx in Hy.
    - by rewrite (Htot _ _ Hx Hy). }
  destruct p as [p|]; unfold keep_least.
  2: { specialize (Hmin a b). by destruct (str_lt b a), (str_lt a b). }
  destruct (str_lt a p) eqn:Ha, (str_lt b p) eqn:Hb; rewrite ?Ha, ?Hb.
  - specialize (Hmin a b). by destruct (str_lt b a), (str_lt a b).
  - destruct (str_lt b a) eqn:Hba; [|done]. by rewrite (str_lt_trans _ _ _ Hba Ha) in Hb.
  - destruct (str_lt a b) eqn:Hab; [|done]. by rewrite (str_lt_trans _ _ _ Hab Hb) in Ha.
  - done.
Qed.
End str_order.

Section rev_lookup_lemmas.
Context {V : Type} `{EqDecision V}.
Implicit Types m : list (bytes * V).

Lemma rev_lookup_app m e v :
  rev_lookup (m ++ [e]) v = if decide (e.2 = v) then keep_least (rev_lookup m v) e.1 else rev_lookup m v.
Proof. unfold rev_lookup. by rewrite foldl_app. Qed.

(** The map [init] builds is the same for every iteration order. *)
Lemma rev_lookup_perm m m' v : m ≡ₚ m' -> rev_lookup m v = rev_lookup m' v.
Proof.
  intros Hp. unfold rev_lookup. generalize (@None bytes) as p. induction Hp; intros p; simpl; auto.
  - destruct (decide _), (decide _); try done. by rewrite keep_least_comm.
  - rewrite IHHp1. apply IHHp2.
Qed.

Lemma rev_lookup_in m v n : rev_lookup m v = Some n -> (n, v) ∈ m.
Proof.
  induction m as [|[n' v'] m IH] using rev_ind; [done|]. rewrite rev_lookup_app, elem_of_app. cbn [fst snd].
  destruct (decide (v' = v)) as [->|]; [|auto]. unfold keep_least.
  destruct (rev_lookup m v) as [p|]; [destruct (str_lt n' p)|]; intros [= ->]; set_solver.
Qed.

Lemma rev_lookup_Some m v n : (n, v) ∈ m -> is_Some (rev_lookup m v).
Proof.
  induction m as [|[n' v'] m IH] using rev_ind; [set_solver|]. rewrite rev_lookup_app, elem_of_app. cbn [fst snd].
  destruct (decide (v' = v)) as [->|].
  - intros _. unfold keep_least. destruct (rev_lookup m v); [destruct (str_lt _ _)|]; done.
  - intros [?|[= -> ->]%list_elem_of_singleton]; [auto|done].
Qed.
End rev_lookup_lemmas.

Module Tab.

(** ** SID aliases *)

Inductive aliasEntry :=
  | aliasAbsolute (sid : SID.t)
  | aliasDomain (rid : Z)
  | aliasMachine (rid : Z).

Record options := mkOptions { domain : SID.t; machine : SID.t }.
(** [options{}] *)
Definition noOptions : options := mkOptions SID.zero SID.zero.

(** [type Option func( *options)], as the function from the options it changes to the changed ones. *)
Definition WithDomain (sid : SID.t) (o : options) : options := mkOptions sid (machine o).
Definition WithMachine (sid : SID.t) (o : options) : options := mkOptions (domain o) sid.
Definition collect (opts : list (options -> options)) : options := foldl (fun o fn => fn o) noOptions opts.

(** [mustSID]: the panic is raised when the package is initialised, so a table that
    evaluates has none. *)
Definition mustSID (authority : Z) (subs : list Z) : outcome SID.t :=
  match SID.NewSID authority subs with Ok s => Ok s | _ => Panic end.

Definition must (name : string) (authority : Z) (subs : list Z) : bytes * aliasEntry :=
  (str name, aliasAbsolute (match mustSID authority subs with Ok s => s | _ => SID.zero end)).
Definition known (name : string) (w : WK.WellKnown) : bytes * aliasEntry :=
  (str name, aliasAbsolute (WK.SID w)).
Definition dom (name : string) (rid : Z) : bytes * aliasEntry := (str name, aliasDomain rid).
Definition mach (name : string) (rid : Z) : bytes * aliasEntry := (str name, aliasMachine rid).

Definition sidAliases : list (bytes * aliasEntry) :=
  [known "WD" WK.Everyone; known "AN" WK.Anonymous; known "AU" WK.AuthenticatedUsers;
   must "IU" 5 [4]; must "NU" 5 [2]; must "SU" 5 [6]; must "RC" 5 [12]; must "WR" 5 [33];
   must "PS" 5 [10]; known "CO" WK.CreatorOwner; known "CG" WK.CreatorGroup; must "OW" 3 [4];
   must "ED" 5 [9]; must "AC" 15 [2; 1]; known "SY" WK.LocalSystem; known "LS" WK.LocalService;
   known "NS" WK.NetworkService;
   known "LW" WK.LowIL; known "ME" WK.MediumIL; known "MP" WK.MediumPlusIL; known "HI" WK.HighIL;
   known "SI" WK.SystemIL;
   known "BA" WK.BuiltinAdministrators; known "BU" WK.BuiltinUsers;
   must "BG" 5 [32; 546]; must "PU" 5 [32; 547]; must "AO" 5 [32; 548]; must "SO" 5 [32; 549];
   must "PO" 5 [32; 550]; must "BO" 5 [32; 551]; must "RE" 5 [32; 552]; must "RU" 5 [32; 554];
   must "RD" 5 [32; 555]; must "NO" 5 [32; 556]; must "MU" 5 [32; 558]; must "LU" 5 [32; 559];
   must "IS" 5 [32; 568]; must "CY" 5 [32; 569]; must "ER" 5 [32; 573]; must "CD" 5 [32; 574];
   must "RA" 5 [32; 575]; must "ES" 5 [32; 576]; must "MS" 5 [32; 577]; must "HA" 5 [32; 578];
   must "AA" 5 [32; 579]; must "RM" 5 [32; 580];
   dom "RO" 498; dom "DA" 512; dom "DU" 513; dom "DG" 514; dom "DC" 515; dom "DD" 516; dom "CA" 517;
   dom "SA" 518; dom "EA" 519; dom "PA" 520; dom "CN" 522; dom "AP" 525; dom "KA" 526; dom "EK" 527;
   dom "RS" 553;
   mach "LA" 500; mach "LG" 501].

(** The entries of one kind, as (name, value) tables. *)
Definition absolutes : list (bytes * SID.t) :=
  omap (fun e => match e.2 with aliasAbsolute s => Some (e.1, s) | _ => None end) sidAliases.
Definition domains : list (bytes * Z) :=
  omap (fun e => match e.2 with aliasDomain r => Some (e.1, r) | _ => None end) sidAliases.
Definition machines : list (bytes * Z) :=
  omap (fun e => match e.2 with aliasMachine r => Some (e.1, r) | _ => None end) sidAliases.

Definition absAliasBySID (s : SID.t) : option bytes := rev_lookup absolutes s.

Definition resolveAlias (o : options) (name : bytes) : outcome SID.t :=
  match assoc sidAliases name with
  | None => Err (Errorf "unknown SID alias")
  | Some (aliasDomain rid) =>
      if negb (SID.IsValid (domain o))
      then Err (Errorf "domain-relative alias needs a domain context (sddl.WithDomain)")
      else SID.Child (domain o) rid
  | Some (aliasMachine rid) =>
      if negb (SID.IsValid (machine o))
      then Err (Errorf "machine-relative alias needs a machine context (sddl.WithMachine)")
      else SID.Child (machine o) rid
  | Some (aliasAbsolute sid) => Ok sid
  end.

Definition parseSIDText (o : options) (text : bytes) : outcome SID.t :=
  if has_prefix text (str "S-") then SID.SIDFromString text else resolveAlias o text.

(** The loop over the entries of one kind, [rids] being those of that kind. *)
Fixpoint relativeAlias (base s : SID.t) (rids : list (bytes * Z)) : option bytes :=
  match rids with
  | [] => None
  | (name, rid) :: rids =>
      if bool_decide (SID.Child base rid = Ok s) then Some name else relativeAlias base s rids
  end.

Definition formatSID (o : options) (s : SID.t) : bytes :=
  match absAliasBySID s with
  | Some name => name
  | None =>
      match (if SID.IsValid (domain o) then relativeAlias (domain o) s domains else None) with
      | Some name => name
      | None =>
          match (if SID.IsValid (machine o) then relativeAlias (machine o) s machines else None) with
          | Some name => name
          | None => SID.String s
          end
      end
  end.

(** ** Access masks *)

Section masks.
Context {U : Uapi}.

Definition fileRead : Z :=
  lor_all [KACS_ACCESS_READ_CONTROL; KACS_ACCESS_SYNCHRONIZE; KACS_FILE_READ_DATA; KACS_FILE_READ_EA;
           KACS_FILE_READ_ATTRIBUTES].
Definition fileWrite : Z :=
  lor_all [KACS_ACCESS_READ_CONTROL; KACS_ACCESS_SYNCHRONIZE; KACS_FILE_WRITE_DATA; KACS_FILE_APPEND_DATA;
           KACS_FILE_WRITE_EA; KACS_FILE_WRITE_ATTRIBUTES].
Definition fileExecute : Z :=
  lor_all [KACS_ACCESS_READ_CONTROL; KACS_ACCESS_SYNCHRONIZE; KACS_FILE_EXECUTE; KACS_FILE_READ_ATTRIBUTES].
Definition fileAll : Z :=
  lor_all [KACS_ACCESS_DELETE; KACS_ACCESS_READ_CONTROL; KACS_ACCESS_WRITE_DAC; KACS_ACCESS_WRITE_OWNER;
           KACS_ACCESS_SYNCHRONIZE; KACS_FILE_READ_DATA; KACS_FILE_WRITE_DATA; KACS_FILE_APPEND_DATA;
           KACS_FILE_READ_EA; KACS_FILE_WRITE_EA; KACS_FILE_EXECUTE; KACS_FILE_DELETE_CHILD;
           KACS_FILE_READ_ATTRIBUTES; KACS_FILE_WRITE_ATTRIBUTES].

Definition rightsMnemonics : list (bytes * Z) :=
  [(str "GA", KACS_ACCESS_GENERIC_ALL); (str "GR", KACS_ACCESS_GENERIC_READ);
   (str "GW", KACS_ACCESS_GENERIC_WRITE); (str "GX", KACS_ACCESS_GENERIC_EXECUTE);
   (str "RC", KACS_ACCESS_READ_CONTROL); (str "SD", KACS_ACCESS_DELETE);
   (str "WD", KACS_ACCESS_WRITE_DAC); (str "WO", KACS_ACCESS_WRITE_OWNER);
   (str "FA", fileAll); (str "FR", fileRead); (str "FW", fileWrite); (str "FX", fileExecute);
   (str "CC", 0x001); (str "DC", 0x002); (str "LC", 0x004); (str "SW", 0x008); (str "RP", 0x010);
   (str "WP", 0x020); (str "DT", 0x040); (str "LO", 0x080); (str "CR", 0x100);
   (str "NW", 0x001); (str "NR", 0x002); (str "NX", 0x004)].

Definition hasHexPrefix (s : bytes) : bool :=
  (2 <? zlen s) && (has_prefix s (str "0x") || has_prefix s (str "0X")).

Definition parseHexMask (s : bytes) : outcome Z :=
  match parse_uint 16 32 (drop 2 s) with
  | Some v => Ok v
  | None => Err (Errorf "malformed hex access mask")
  end.

Definition isAllDigits (s : bytes) : bool := forallb (in_range 48 57) s && (0 <? zlen s).

(** The loop of parseMask: [s] is [field[i:]], at most one round per two bytes. *)
Fixpoint parseMask_loop (fuel : nat) (s : bytes) (mask : Z) : outcome Z :=
  match fuel with
  | O => Panic
  | S fuel =>
      match s with
      | [] => Ok mask
      | _ =>
          if hasHexPrefix s then v ← parseHexMask s; Ok (Z.lor mask v)
          else if zlen s <? 2 then Err (Errorf "malformed rights mnemonics")
          else
            code ← slice s 0 2;
            match assoc rightsMnemonics code with
            | None => Err (Errorf "unknown rights mnemonic")
            | Some bit => s ← slice_from s 2; parseMask_loop fuel s (Z.lor mask bit)
            end
      end
  end.

Definition parseMask (field : bytes) : outcome Z :=
  match field with
  | [] => Ok 0
  | _ =>
      if hasHexPrefix field then parseHexMask field
      else if isAllDigits field then
        match parse_uint 10 32 field with
        | Some v => Ok v
        | None => Err (Errorf "malformed access mask")
        end
      else parseMask_loop (S (length field)) field 0
  end.

Definition formatMask (m : Z) : bytes := if m =? 0 then [] else str "0x" ++ format_uint 16 m.

(** ** ACE types *)

Definition aceTypeTags : list (bytes * Z) :=
  [(str "A", KACS_ACE_TYPE_ACCESS_ALLOWED); (str "D", KACS_ACE_TYPE_ACCESS_DENIED);
   (str "OA", KACS_ACE_TYPE_ACCESS_ALLOWED_OBJECT); (str "OD", KACS_ACE_TYPE_ACCESS_DENIED_OBJECT);
   (str "AU", KACS_ACE_TYPE_SYSTEM_AUDIT); (str "AL", KACS_ACE_TYPE_SYSTEM_ALARM);
   (str "OU", KACS_ACE_TYPE_SYSTEM_AUDIT_OBJECT); (str "OL", KACS_ACE_TYPE_SYSTEM_ALARM_OBJECT);
   (str "ML", KACS_ACE_TYPE_SYSTEM_MANDATORY_LABEL);
   (str "XA", KACS_ACE_TYPE_ACCESS_ALLOWED_CALLBACK); (str "XD", KACS_ACE_TYPE_ACCESS_DENIED_CALLBACK);
   (str "XU", KACS_ACE_TYPE_SYSTEM_AUDIT_CALLBACK);
   (str "ZA", KACS_ACE_TYPE_ACCESS_ALLOWED_CALLBACK_OBJECT);
   (str "RA", KACS_ACE_TYPE_SYSTEM_RESOURCE_ATTRIBUTE);
   (str "SP", KACS_ACE_TYPE_SYSTEM_SCOPED_POLICY_ID);
   (str "TL", KACS_ACE_TYPE_SYSTEM_PROCESS_TRUST_LABEL);
   (str "FL", KACS_ACE_TYPE_SYSTEM_ACCESS_FILTER)].

Definition aceTagByType (t : Z) : option bytes := rev_lookup aceTypeTags t.

Definition isCallbackType (t : Z) : bool :=
  existsb (Z.eqb t)
    [KACS_ACE_TYPE_ACCESS_ALLOWED_CALLBACK; KACS_ACE_TYPE_ACCESS_DENIED_CALLBACK;
     KACS_ACE_TYPE_SYSTEM_AUDIT_CALLBACK; KACS_ACE_TYPE_ACCESS_ALLOWED_CALLBACK_OBJECT].

Definition isObjectType (t : Z) : bool :=
  existsb (Z.eqb t)
    [KACS_ACE_TYPE_ACCESS_ALLOWED_OBJECT; KACS_ACE_TYPE_ACCESS_DENIED_OBJECT;
     KACS_ACE_TYPE_SYSTEM_AUDIT_OBJECT; KACS_ACE_TYPE_SYSTEM_ALARM_OBJECT].

Definition aceTypeSupported (t : Z) : bool :=
  existsb (Z.eqb t)
    [KACS_ACE_TYPE_ACCESS_ALLOWED; KACS_ACE_TYPE_ACCESS_DENIED;
     KACS_ACE_TYPE_SYSTEM_AUDIT; KACS_ACE_TYPE_SYSTEM_ALARM; KACS_ACE_TYPE_SYSTEM_MANDATORY_LABEL;
     KACS_ACE_TYPE_ACCESS_ALLOWED_OBJECT; KACS_ACE_TYPE_ACCESS_DENIED_OBJECT;
     KACS_ACE_TYPE_SYSTEM_AUDIT_OBJECT; KACS_ACE_TYPE_SYSTEM_ALARM_OBJECT;
     KACS_ACE_TYPE_ACCESS_ALLOWED_CALLBACK; KACS_ACE_TYPE_ACCESS_DENIED_CALLBACK;
     KACS_ACE_TYPE_SYSTEM_AUDIT_CALLBACK; KACS_ACE_TYPE_ACCESS_ALLOWED_CALLBACK_OBJECT].

(** ** ACE flags *)

Definition aceFlagText : list (Z * bytes) :=
  [(KACS_ACE_FLAG_CONTAINER_INHERIT, str "CI"); (KACS_ACE_FLAG_OBJECT_INHERIT, str "OI");
   (KACS_ACE_FLAG_NO_PROPAGATE_INHERIT, str "NP"); (KACS_ACE_FLAG_INHERIT_ONLY, str "IO");
   (KACS_ACE_FLAG_INHERITED, str "ID"); (KACS_ACE_FLAG_SUCCESSFUL_ACCESS, str "SA");
   (KACS_ACE_FLAG_FAILED_ACCESS, str "FA")].

(** What [init] computes from the table. *)
Definition aceFlagByCode : list (bytes * Z) := (fun e => (e.2, e.1)) <$> aceFlagText.
Definition knownAceFlags : Z := lor_all aceFlagText.*1.

Fixpoint textToAceFlags_loop (s : bytes) (f : Z) : outcome Z :=
  match s with
  | a :: b :: s =>
      match assoc aceFlagByCode [a; b] with
      | None => Err (Errorf "unknown ACE flag")
      | Some bit => textToAceFlags_loop s (Z.lor f bit)
      end
  | _ => Ok f
  end.
Definition textToAceFlags (s : bytes) : outcome Z :=
  if negb (zlen s mod 2 =? 0) then Err (Errorf "malformed ACE flags") else textToAceFlags_loop s 0.

Definition aceFlagsToText (f : Z) : bytes :=
  concat (snd <$> filter (fun e => has_bit f e.1 = true) aceFlagText).
End masks.

(** ** ACL control bits *)

Definition controlDACLAutoInheritReq : Z := 0x0100.
Definition controlSACLAutoInheritReq : Z := 0x0200.
(** ** SID names: lemmas *)

Lemma sidAliases_names : NoDup sidAliases.*1.
Proof. apply (bool_decide_eq_true_1 _). vm_compute. reflexivity. Qed.

(** No alias can be taken for a literal. *)
Lemma sidAliases_not_raw n e : (n, e) ∈ sidAliases -> has_prefix n (str "S-") = false /\ length n = 2%nat.
Proof.
  intros H. assert (forallb (fun e => negb (has_prefix e.1 (str "S-")) && bool_decide (length e.1 = 2%nat)) sidAliases
    = true) as Ht by (vm_compute; reflexivity).
  rewrite forallb_forall in Ht. apply list_elem_of_In, Ht in H. cbn [fst] in H.
  apply andb_true_iff in H as [H1 H2%bool_decide_eq_true]. by apply negb_true_iff in H1.
Qed.

Lemma absolutes_in n s : (n, s) ∈ absolutes -> (n, aliasAbsolute s) ∈ sidAliases.
Proof. unfold absolutes. rewrite list_elem_of_omap. intros ([n' []] & Hin & E); simplify_eq/=. done. Qed.
Lemma domains_in n r : (n, r) ∈ domains -> (n, aliasDomain r) ∈ sidAliases.
Proof. unfold domains. rewrite list_elem_of_omap. intros ([n' []] & Hin & E); simplify_eq/=. done. Qed.
Lemma machines_in n r : (n, r) ∈ machines -> (n, aliasMachine r) ∈ sidAliases.
Proof. unfold machines. rewrite list_elem_of_omap. intros ([n' []] & Hin & E); simplify_eq/=. done. Qed.

Lemma resolveAlias_in o n e : (n, e) ∈ sidAliases ->
  parseSIDText o n = match e with
    | aliasAbsolute s => Ok s
    | aliasDomain r => if negb (SID.IsValid (domain o))
        then Err (Errorf "domain-relative alias needs a domain context (sddl.WithDomain)")
        else SID.Child (domain o) r
    | aliasMachine r => if negb (SID.IsValid (machine o))
        then Err (Errorf "machine-relative alias needs a machine context (sddl.WithMachine)")
        else SID.Child (machine o) r
    end.
Proof.
  intros H. unfold parseSIDText. rewrite (proj1 (sidAliases_not_raw _ _ H)). unfold resolveAlias.
  rewrite (assoc_complete _ _ _ sidAliases_names H). by destruct e.
Qed.

Lemma relativeAlias_in base s rids n : relativeAlias base s rids = Some n ->
  exists r, (n, r) ∈ rids /\ SID.Child base r = Ok s.
Proof.
  induction rids as [|[n' r'] rids IH]; [done|]. cbn [relativeAlias]. case_bool_decide as E.
  - intros [= ->]. exists r'. split; [by left|done].
  - intros (r & ? & ?)%IH. exists r. split; [by right|done].
Qed.

Lemma relativeAlias_complete base s rids n r : SID.wf base ->
  NoDup rids.*2 -> Forall (fits 32) rids.*2 ->
  (n, r) ∈ rids -> SID.Child base r = Ok s -> relativeAlias base s rids = Some n.
Proof.
  intros Hb. induction rids as [|[n' r'] rids IH]; [set_solver|].
  cbn [relativeAlias fmap list_fmap snd]. intros [Hn Hd]%NoDup_cons [Hf Hfs]%Forall_cons Hin Hc.
  apply elem_of_cons in Hin as [[= -> ->]|Hin]; [by rewrite bool_decide_eq_true_2|].
  rewrite bool_decide_eq_false_2; [by apply IH|]. intros Hc'.
  assert (r ∈ rids.*2) as Hr by (apply list_elem_of_fmap; by exists (n, r)).
  assert (r = r') as ->; [|done]. eapply SID.Child_inj; [done|..]; [|done|done|done].
  rewrite Forall_forall in Hfs. by apply Hfs.
Qed.

(** The range over the map gives one answer, whatever its order. *)
Lemma relativeAlias_perm base s rids rids' : SID.wf base ->
  NoDup rids.*2 -> Forall (fits 32) rids.*2 -> rids ≡ₚ rids' ->
  relativeAlias base s rids = relativeAlias base s rids'.
Proof.
  intros Hb Hn Hf Hp.
  assert (NoDup rids'.*2 /\ Forall (fits 32) rids'.*2) as [Hn' Hf'] by (by rewrite <- Hp).
  destruct (relativeAlias base s rids) as [n|] eqn:E.
  - apply relativeAlias_in in E as (r & Hin & Hc). symmetry. eapply relativeAlias_complete; [done..| |done].
    by rewrite <- Hp.
  - destruct (relativeAlias base s rids') as [n|] eqn:E'; [|done].
    apply relativeAlias_in in E' as (r & Hin & Hc). rewrite <- E.
    eapply relativeAlias_complete; [done..| |done]. by rewrite Hp.
Qed.

Lemma domains_rids : NoDup domains.*2 /\ Forall (fits 32) domains.*2.
Proof. split; apply (bool_decide_eq_true_1 _); vm_compute; reflexivity. Qed.
Lemma machines_rids : NoDup machines.*2 /\ Forall (fits 32) machines.*2.
Proof. split; apply (bool_decide_eq_true_1 _); vm_compute; reflexivity. Qed.

(** What an entry of the table holds. *)
Definition entry_ok (e : aliasEntry) : Prop :=
  match e with aliasAbsolute s => SID.valid s | aliasDomain r | aliasMachine r => fits 32 r end.

Lemma must_ok name a ss : bool_decide (Forall (fits 32) ss) = true -> is_ok (SID.NewSID a ss) = true ->
  entry_ok (must name a ss).2.
Proof.
  intros Hf%bool_decide_eq_true Ho. unfold must, mustSID. cbn [snd entry_ok].
  destruct (SID.NewSID a ss) eqn:E; [|done..]. by eapply SID.NewSID_wf.
Qed.

(** The table has no malformed entry, so [mustSID] does not panic when the package is initialised. *)
Lemma sidAliases_ok : Forall (fun e => entry_ok e.2) sidAliases.
Proof.
  unfold sidAliases. repeat apply Forall_cons_2; [..|apply Forall_nil_2].
  all: first [exact (WK.SID_ok _) | refine (must_ok _ _ _ _ _); vm_compute; reflexivity
             | unfold entry_ok, dom, mach; cbn [snd]; split; lia].
Qed.

#[global] Opaque sidAliases absolutes domains machines.

(** What [formatSID] writes: a name of the table, or the literal. *)
Lemma formatSID_cases o s : (exists e, (formatSID o s, e) ∈ sidAliases /\ parseSIDText o (formatSID o s) = Ok s)
  \/ formatSID o s = SID.String s.
Proof.
  unfold formatSID. destruct (absAliasBySID s) as [n|] eqn:Ea.
  { left. apply rev_lookup_in, absolutes_in in Ea. eexists. split; [exact Ea|]. by rewrite (resolveAlias_in _ _ _ Ea). }
  destruct (SID.IsValid (domain o)) eqn:Hd; [destruct (relativeAlias (domain o) s domains) as [n|] eqn:Ed|].
  { left. apply relativeAlias_in in Ed as (r & Hin%domains_in & Hc). eexists. split; [exact Hin|].
    by rewrite (resolveAlias_in _ _ _ Hin), Hd. }
  all: destruct (SID.IsValid (machine o)) eqn:Hm; [destruct (relativeAlias (machine o) s machines) as [n|] eqn:Em|];
    [left|by right..]; apply relativeAlias_in in Em as (r & Hin%machines_in & Hc); eexists; (split; [exact Hin|]);
    by rewrite (resolveAlias_in _ _ _ Hin), Hm.
Qed.

Lemma SID_String_prefix s : SID.valid s -> has_prefix (SID.String s) (str "S-") = true.
Proof. intros [_ H]. unfold SID.String. by rewrite H. Qed.

Lemma parseSIDText_format o s : SID.valid s -> parseSIDText o (formatSID o s) = Ok s.
Proof.
  intros Hs. destruct (formatSID_cases o s) as [(e & _ & E)| ->]; [done|].
  unfold parseSIDText. rewrite (SID_String_prefix _ Hs). destruct Hs as [Hw Hv].
  destruct (SID.wf_valid _ Hw Hv) as (a & ss & D). by eapply SID.SIDFromString_denotes.
Qed.
(** A resolution context built from SIDs of the package. *)
Definition options_ok (o : options) : Prop := SID.wf (domain o) /\ SID.wf (machine o).

(** A SID text resolves to a SID of the package or to an error. *)
Lemma parseSIDText_ok o text : options_ok o ->
  match parseSIDText o text with Ok s => SID.valid s | Err _ => True | Panic => False end.
Proof.
  intros [Hd Hm]. unfold parseSIDText. destruct (has_prefix _ _).
  { pose proof (SID.SIDFromString_ok text). by destruct (SID.SIDFromString text). }
  unfold resolveAlias. destruct (assoc sidAliases text) as [e|] eqn:E; [|done].
  apply assoc_in in E. pose proof sidAliases_ok as H. rewrite Forall_forall in H. apply H in E. cbn [snd] in E.
  destruct e as [s|r|r]; cbn [entry_ok] in E; [done|..]; destruct (negb _); try done.
  - destruct (SID.Child (domain o) r) eqn:Ec; [exact (SID.Child_wf _ _ _ Hd E Ec)|done|by apply SID.Child_safe in Ec].
  - destruct (SID.Child (machine o) r) eqn:Ec; [exact (SID.Child_wf _ _ _ Hm E Ec)|done|by apply SID.Child_safe in Ec].
Qed.

(** The characters of a SID's text: letters, digits and dashes. *)
Definition sid_char (c : byte) : bool :=
  in_range 48 57 c || in_range 65 90 c || in_range 97 122 c || (b2z c =? 45).

Lemma formatSID_chars o s : SID.valid s -> forallb sid_char (formatSID o s) = true.
Proof.
  intros [_ Hv]. destruct (formatSID_cases o s) as [(e & Hin & _)| ->].
  { assert (forallb (fun e => forallb sid_char e.1) sidAliases = true) as Ht by (vm_compute; reflexivity).
    rewrite forallb_forall in Ht. by apply list_elem_of_In, Ht in Hin. }
  assert (forall b v, 2 <= b <= 36 -> forallb sid_char (format_uint b v) = true) as Hf.
  { intros b v Hb. apply forallb_forall. intros c Hc%list_elem_of_In. pose proof (format_uint_chars b v Hb) as H.
    rewrite Forall_forall in H. apply H in Hc. unfold sid_char, in_range. lia. }
  unfold SID.String. rewrite Hv. cbn [negb]. rewrite !forallb_app. apply andb_true_iff. split; [done|].
  apply andb_true_iff. split.
  - unfold SID.format_authority. destruct (_ <=? _); [|by apply Hf]. by rewrite forallb_app, Hf.
  - apply forallb_forall. intros c (l & Hl%list_elem_of_In & Hc)%in_concat.
    apply list_elem_of_fmap in Hl as (v & -> & _). destruct Hc as [<-|Hc]; [done|].
    specialize (Hf 10 v ltac:(lia)). rewrite forallb_forall in Hf. by apply Hf.
Qed.

(** ** Access masks: lemmas *)

Section mask_lemmas.
Context {U : Uapi}.

(** The texts of a rights run and what they mean: mnemonics, then at most one hex literal. *)
Inductive rights_run : bytes -> Z -> Prop :=
  | run_nil : rights_run [] 0
  | run_hex s v : hasHexPrefix s = true -> parse_uint 16 32 (drop 2 s) = Some v -> rights_run s v
  | run_code code bit s v :
      (code, bit) ∈ rightsMnemonics -> rights_run s v -> rights_run (code ++ s) (Z.lor bit v).

(** A rights field: a run, or a decimal number of 32 bits. *)
Definition mask_text (field : bytes) (mask : Z) : Prop :=
  rights_run field mask \/ (isAllDigits field = true /\ parse_uint 10 32 field = Some mask).

Lemma rightsMnemonics_code code bit : (code, bit) ∈ rightsMnemonics ->
  exists a b, code = [a; b] /\ in_range 65 90 a = true /\ assoc rightsMnemonics code = Some bit.
Proof.
  intros H.
  assert (NoDup rightsMnemonics.*1) as Hn by (apply (bool_decide_eq_true_1 _); vm_compute; reflexivity).
  assert (forallb (fun c => match c with [a; b] => in_range 65 90 a | _ => false end) rightsMnemonics.*1 = true)
    as Ht by (vm_compute; reflexivity).
  rewrite forallb_forall in Ht. specialize (Ht code).
  destruct code as [|a [|b [|? ?]]]; cycle 2.
  { exists a, b. split_and!; [done| |by apply assoc_complete].
    apply Ht, list_elem_of_In, list_elem_of_fmap. by exists ([a; b], bit). }
  all: exfalso; refine (diff_false_true (Ht _)); apply list_elem_of_In, list_elem_of_fmap; by eexists (_, bit).
Qed.

Lemma hasHexPrefix_code a s : in_range 65 90 a = true -> hasHexPrefix (a :: s) = false.
Proof.
  intros H%in_range_spec. unfold hasHexPrefix. change (str "0x") with [x30; x78]. change (str "0X") with [x30; x58].
  cbn [has_prefix]. rewrite bool_decide_eq_false_2; [by rewrite andb_false_r|].
  intros ->. destruct H as [H _]. by apply H.
Qed.

Lemma hasHexPrefix_inv s : hasHexPrefix s = true -> exists x ds, s = x30 :: x :: ds /\ ds <> [] /\ (x = x78 \/ x = x58).
Proof.
  unfold hasHexPrefix. change (str "0x") with [x30; x78]. change (str "0X") with [x30; x58].
  destruct s as [|a [|x [|d ds]]]; [done..|]. cbn [has_prefix]. rewrite !andb_true_r.
  intros [_ H]%andb_true_iff. exists x, (d :: ds). apply orb_true_iff in H.
  split_and!; [|done|]; destruct H as [[->%bool_decide_eq_true ->%bool_decide_eq_true]%andb_true_iff
    |[->%bool_decide_eq_true ->%bool_decide_eq_true]%andb_true_iff]; auto.
Qed.

Lemma digits_not_hex s : isAllDigits s = true -> hasHexPrefix s = false.
Proof.
  intros H. destruct (hasHexPrefix s) eqn:E; [|done]. apply hasHexPrefix_inv in E as (x & ds & -> & _ & Hx).
  unfold isAllDigits in H. by destruct Hx as [-> | ->].
Qed.

Lemma parseMask_loop_run fuel s mask v : (length s < fuel)%nat ->
  parseMask_loop fuel s mask = Ok v <-> exists w, rights_run s w /\ v = Z.lor mask w.
Proof.
  revert s mask. induction fuel as [|fuel IH]; intros s mask Hf; [lia|]. cbn [parseMask_loop].
  destruct s as [|a s]; [|destruct (hasHexPrefix (a :: s)) eqn:Hh].
  - split; [intros <-%Ok_inj; exists 0; split; [constructor|by rewrite Z.lor_0_r]|].
    intros (w & Hw & ->). inversion Hw as [|? ? Hx|code bit ? ? (? & ? & -> & _)%rightsMnemonics_code]; subst; [|done..].
    by rewrite Z.lor_0_r.
  - unfold parseHexMask. split.
    + destruct (parse_uint 16 32 _) as [x|] eqn:E; [|done]. intros <-%Ok_inj. exists x. split; [by constructor|done].
    + intros (w & Hw & ->). inversion Hw as [|? ? Hx Hp|code bit ? ? Hin]; subst; [by rewrite Hp|].
      apply rightsMnemonics_code in Hin as (x & y & -> & Hr & _). cbn [app] in *. simplify_eq.
      by rewrite hasHexPrefix_code in Hh.
  - destruct (Z.ltb_spec (zlen (a :: s)) 2) as [Hl|Hl].
    { destruct s; [|len]. split; [done|]. intros (w & Hw & ->).
      inversion Hw as [|? ? Hx Hp|code bit ? ? Hin]; subst; [congruence|].
      by apply rightsMnemonics_code in Hin as (x & y & -> & _). }
    destruct s as [|b s]; [len|]. change (a :: b :: s) with ([a; b] ++ s). rewrite (slice_prefix [a; b] s 2), bind_Ok by done.
    rewrite (slice_from_app [a; b] s 2) by done.
    destruct (assoc rightsMnemonics [a; b]) as [bit|] eqn:Ea.
    + rewrite bind_Ok, IH by (simpl in *; lia). pose proof (assoc_in _ _ _ Ea) as Hin. split.
      * intros (w & Hw & ->). exists (Z.lor bit w). split; [by apply (run_code [a; b])|by rewrite Z.lor_assoc].
      * intros (w & Hw & ->). cbn [app] in Hw.
        inversion Hw as [|? ? Hx Hp|code bit' ? ? Hin' Hw' E]; subst; [congruence|].
        apply rightsMnemonics_code in Hin' as (x & y & -> & _ & Ea'). cbn [app] in *. simplify_eq.
        eexists. split; [done|by rewrite Z.lor_assoc].
    + split; [done|]. intros (w & Hw & ->). cbn [app] in Hw.
      inversion Hw as [|? ? Hx Hp|code bit' ? ? Hin' Hw' E]; subst; [congruence|].
      apply rightsMnemonics_code in Hin' as (x & y & -> & _ & Ea'). cbn [app] in *. simplify_eq.
Qed.

Lemma parseMask_loop_safe fuel s mask : (length s < fuel)%nat -> safe (parseMask_loop fuel s mask).
Proof.
  revert s mask. induction fuel as [|fuel IH]; intros s mask Hf; [lia|]. cbn [parseMask_loop].
  destruct s as [|a s]; [apply safe_Ok|]. unfold parseHexMask.
  destruct (hasHexPrefix _); [by destruct (parse_uint 16 32 _)|].
  destruct (Z.ltb_spec (zlen (a :: s)) 2); [apply safe_Err|]. destruct s as [|b s]; [len|].
  change (a :: b :: s) with ([a; b] ++ s). rewrite (slice_prefix [a; b] s 2), bind_Ok by done. rewrite (slice_from_app [a; b] s 2) by done.
  destruct (assoc _ _); [|apply safe_Err]. apply IH. simpl in *. lia.
Qed.

Lemma parseMask_safe field : safe (parseMask field).
Proof.
  unfold parseMask, parseHexMask. destruct field as [|a s]; [apply safe_Ok|].
  destruct (hasHexPrefix _); [by destruct (parse_uint 16 32 _)|].
  destruct (isAllDigits _); [by destruct (parse_uint 10 32 _)|]. apply parseMask_loop_safe. lia.
Qed.

Lemma parseMask_text field mask : parseMask field = Ok mask <-> mask_text field mask.
Proof.
  unfold parseMask, mask_text. destruct field as [|a s].
  { split; [intros <-%Ok_inj; left; constructor|]. intros [H|[? ?]]; [|done].
    inversion H as [|? ? ?|code bit ? ? (? & ? & -> & _)%rightsMnemonics_code]; subst; done. }
  destruct (hasHexPrefix (a :: s)) eqn:Hh.
  { unfold parseHexMask. split.
    - destruct (parse_uint 16 32 _) eqn:E; [|done]. intros <-%Ok_inj. left. by constructor.
    - intros [H|[H%digits_not_hex _]]; [|congruence].
      inversion H as [|? ? _ Hp|code bit ? ? (x & y & -> & Hr & _)%rightsMnemonics_code]; subst; [by rewrite Hp|].
      cbn [app] in *. simplify_eq. by rewrite hasHexPrefix_code in Hh. }
  destruct (isAllDigits (a :: s)) eqn:Hd.
  { split.
    - destruct (parse_uint 10 32 _) eqn:E; [|done]. intros <-%Ok_inj. by right.
    - intros [H|[_ ->]]; [|done].
      inversion H as [|? ? ?|code bit ? ? (x & y & -> & Hr & _)%rightsMnemonics_code]; subst; [congruence|].
      cbn [app] in *. simplify_eq. unfold isAllDigits in Hd. cbn [forallb] in Hd.
      unfold in_range in *. lia. }
  rewrite parseMask_loop_run by lia. split.
  - intros (w & Hw & ->). by left.
  - intros [H|[? _]]; [|done]. eexists. split; [done|by rewrite Z.lor_0_l].
Qed.

Lemma parseMask_format m : fits 32 m -> parseMask (formatMask m) = Ok m.
Proof.
  intros Hm. unfold fits in Hm. unfold formatMask. destruct (Z.eqb_spec m 0) as [->|]; [reflexivity|].
  pose proof (format_uint_ne 16 m). apply parseMask_text. left. apply run_hex.
  - unfold hasHexPrefix. change (str "0x" ++ ?s) with (x30 :: x78 :: s).
    assert (zlen (format_uint 16 m) <> 0) by (intros ?%zlen_0_inv; done).
    destruct (Z.ltb_spec 2 (zlen (x30 :: x78 :: format_uint 16 m))); [done|len].
  - apply parse_format_uint; lia.
Qed.

(** ** ACE flags and types: lemmas *)

Context `{!AceLaws U, !SddlLaws U}.

Lemma aceFlagText_bits : forallb is_bit aceFlagText.*1 = true.
Proof.
  apply forallb_forall. intros x Hx. pose proof ace_flags_bits as H. rewrite forallb_forall in H. apply H.
  cbn in Hx |- *. tauto.
Qed.

Lemma aceFlagByCode_codes : NoDup aceFlagByCode.*1.
Proof. apply (bool_decide_eq_true_1 _). vm_compute. reflexivity. Qed.

Lemma aceFlagText_length e : e ∈ aceFlagText -> length e.2 = 2%nat.
Proof. revert e. apply Forall_forall. by repeat constructor. Qed.

Lemma textToAceFlags_loop_codes (l : list (Z * bytes)) f :
  (forall e, e ∈ l -> e ∈ aceFlagText) -> textToAceFlags_loop (concat l.*2) f = Ok (Z.lor f (lor_all l.*1)).
Proof.
  revert f. induction l as [|[bit code] l IH]; intros f Hl; [by rewrite Z.lor_0_r|].
  assert ((code, bit) ∈ aceFlagByCode) as Hin.
  { apply list_elem_of_fmap. exists (bit, code). split; [done|]. apply Hl. by left. }
  assert (exists a b, code = [a; b]) as (a & b & ->).
  { pose proof (aceFlagText_length (bit, code) (Hl _ (list_elem_of_here _ _))) as Hf.
    cbn [snd] in Hf. destruct code as [|a [|b [|? ?]]]; try done. eauto. }
  cbn [fmap list_fmap fst snd concat app textToAceFlags_loop].
  rewrite (assoc_complete _ _ _ aceFlagByCode_codes Hin).
  rewrite IH by (intros e He; apply Hl; by right). cbn [lor_all foldr]. by rewrite Z.lor_assoc.
Qed.

Lemma textToAceFlags_text f : bic f knownAceFlags = 0 -> textToAceFlags (aceFlagsToText f) = Ok f.
Proof.
  intros Hf. unfold textToAceFlags, aceFlagsToText.
  set (l := filter (fun e : Z * bytes => has_bit f e.1 = true) aceFlagText).
  assert (forall e, e ∈ l -> e ∈ aceFlagText) as Hl by (intros e [_ ?]%list_elem_of_filter; done).
  assert (zlen (concat l.*2) mod 2 = 0) as E.
  { assert (Forall (fun e : Z * bytes => length e.2 = 2%nat) l) as H.
    { apply Forall_forall. intros e He. by apply aceFlagText_length, Hl. }
    clear -H. induction H as [|[b c] l Hc _ IH]; [done|]. cbn [fmap list_fmap snd concat] in *.
    rewrite zlen_app. unfold zlen at 1. rewrite Hc. change (Z.of_nat 2) with 2. Z.div_mod_to_equations. lia. }
  rewrite E. cbn [Z.eqb negb]. change (snd <$> l) with l.*2. rewrite textToAceFlags_loop_codes by done.
  rewrite Z.lor_0_l. f_equal. rewrite <- (bic_0_land _ _ Hf) at 1. unfold knownAceFlags.
  rewrite <- lor_all_filter by apply aceFlagText_bits. f_equal. unfold l.
  generalize aceFlagText. intros t. induction t as [|e t IH]; [done|].
  rewrite filter_cons. cbn [fmap list_fmap]. rewrite filter_cons.
  destruct (decide (has_bit f e.1 = true)); [cbn [fmap list_fmap]; by rewrite IH|done].
Qed.

Lemma aceTypeTags_in t tag : aceTagByType t = Some tag -> assoc aceTypeTags tag = Some t.
Proof.
  intros H%rev_lookup_in. apply assoc_complete; [|done].
  apply (bool_decide_eq_true_1 _). vm_compute. reflexivity.
Qed.

Lemma aceTypeSupported_tag t : aceTypeSupported t = true -> is_Some (aceTagByType t).
Proof.
  unfold aceTypeSupported. intros (t' & Hin & <-%Z.eqb_eq)%existsb_exists.
  assert (t ∈ aceTypeTags.*2) as H.
  { apply list_elem_of_In. cbn in Hin |- *. tauto. }
  apply list_elem_of_fmap in H as ([n t'] & -> & H). by eapply rev_lookup_Some.
Qed.
End mask_lemmas.
(** ** Properties *)

(** Every SID has a readable name.  Under any resolution context, the text [formatSID] writes for a
    valid SID (an alias, absolute, domain- or machine-relative, or the S-1-... literal) is resolved by
    [parseSIDText] under the same context to the same SID; and since Go ranges over the alias map
    in an unspecified order, the name chosen is shown not to depend on that order. *)
Theorem parseSIDText_formatSID (o : options) (s : SID.t) (Hs : SID.valid s) :
  parseSIDText o (formatSID o s) = Ok s
  /\ (forall abs', absolutes ≡ₚ abs' -> rev_lookup abs' s = absAliasBySID s)
  /\ (forall base rids, SID.wf base ->
        domains ≡ₚ rids -> relativeAlias base s rids = relativeAlias base s domains)
  /\ (forall base rids, SID.wf base ->
        machines ≡ₚ rids -> relativeAlias base s rids = relativeAlias base s machines).
Proof.
  split_and!.
  - by apply parseSIDText_format.
  - intros abs' Hp. symmetry. by apply rev_lookup_perm.
  - intros base rids Hb Hp. destruct domains_rids. symmetry. by apply relativeAlias_perm.
  - intros base rids Hb Hp. destruct machines_rids. symmetry. by apply relativeAlias_perm.
Qed.

Definition sample_options : options := mkOptions (WK.SID WK.BuiltinUsers) SID.zero.
Definition sample_admin : SID.t :=
  match SID.Child (WK.SID WK.BuiltinUsers) 512 with Ok s => s | _ => SID.zero end.

Lemma parseSIDText_formatSID_witness :
  formatSID sample_options sample_admin = str "DA"
  /\ parseSIDText sample_options (str "DA") = Ok sample_admin.
Proof.
  split; [vm_compute; reflexivity|].
  refine (proj1 (parseSIDText_formatSID sample_options sample_admin _)).
  split; [|vm_compute; reflexivity].
  refine (proj1 (SID.Child_wf (WK.SID WK.BuiltinUsers) _ 512 _ _ _));
    [apply WK.SID_wf|split; lia|vm_compute; reflexivity].
Defined.

(** C16: the rights field of an ACE.  [parseMask] accepts a field exactly when it is a decimal number
    of 32 bits, or a run of mnemonics that may be closed by one hex literal of 32 bits (the literal
    alone and the empty field included), and returns the number, or the union of the rights the run
    names; every other field is an error, never a panic; and the text [formatMask] writes for any
    32-bit mask is read back as that mask. *)
Theorem parseMask_spec {U : Uapi} (field : bytes) (mask : Z) :
  (parseMask field = Ok mask <-> mask_text field mask)
  /\ parseMask field <> Panic
  /\ (fits 32 mask -> parseMask (formatMask mask) = Ok mask).
Proof. split_and!; [apply parseMask_text|apply parseMask_safe|apply parseMask_format]. Qed.

Lemma parseMask_spec_witness :
  fits 32 0x1200af /\ @parseMask pkm (formatMask 0x1200af) = Ok 0x1200af
  /\ @parseMask pkm (str "FRFX0x6") = Ok 0x1200af.
Proof.
  split_and!; [split; lia| |].
  - refine (proj2 (proj2 (@parseMask_spec pkm (str "FRFX0x6") 0x1200af)) _). split; lia.
  - vm_compute. reflexivity.
Defined.
End Tab.

(** ** GUIDs (guid.go) *)

Module Guid.

(** [s[i] == '-'] *)
Definition dash (s : bytes) (i : nat) : bool :=
  match s !! i with Some c => bool_decide (c = x2d) | None => false end.

Definition parseGUID (s : bytes) : outcome bytes :=
  if negb (zlen s =? 36) || negb (dash s 8) || negb (dash s 13) || negb (dash s 18) || negb (dash s 23)
  then Err (Errorf "malformed GUID") else
  match hex_decode (zseg 0 8 s ++ zseg 9 13 s ++ zseg 14 18 s ++ zseg 19 23 s ++ zseg 24 36 s) with
  | Some raw =>
      Ok (rev (zseg 0 4 raw) ++ rev (zseg 4 6 raw) ++ rev (zseg 6 8 raw) ++ zseg 8 16 raw)
  | None => Err (Errorf "malformed GUID")
  end.

Definition formatGUID (g : bytes) : bytes :=
  let display := rev (zseg 0 4 g) ++ rev (zseg 4 6 g) ++ rev (zseg 6 8 g) ++ zseg 8 16 g in
  let h := hex_encode display in
  zseg 0 8 h ++ [x2d] ++ zseg 8 12 h ++ [x2d] ++ zseg 12 16 h ++ [x2d] ++ zseg 16 20 h ++ [x2d] ++ zseg 20 32 h.

(** ** Lemmas *)

(** The permutation between the wire order and the display order; it is its own inverse. *)
Definition mixed (g : bytes) : bytes := rev (zseg 0 4 g) ++ rev (zseg 4 6 g) ++ rev (zseg 6 8 g) ++ zseg 8 16 g.
Definition dashed (h : bytes) : bytes :=
  zseg 0 8 h ++ [x2d] ++ zseg 8 12 h ++ [x2d] ++ zseg 12 16 h ++ [x2d] ++ zseg 16 20 h ++ [x2d] ++ zseg 20 32 h.
Definition undashed (s : bytes) : bytes :=
  zseg 0 8 s ++ zseg 9 13 s ++ zseg 14 18 s ++ zseg 19 23 s ++ zseg 24 36 s.

(** [strings.ToLower] on ASCII text. *)
Definition lower (c : byte) : byte :=
  if (65 <=? b2z c) && (b2z c <=? 90) then z2b (b2z c + 32) else c.

Ltac list_of_length l H :=
  repeat (let x := fresh "c" in destruct l as [|x l]; [discriminate H|]; apply (f_equal pred) in H; cbn [length pred] in H);
  destruct l; [clear H|discriminate H].

Lemma mixed_mixed g : length g = 16%nat -> mixed (mixed g) = g /\ length (mixed g) = 16%nat.
Proof. intros H. list_of_length g H. split; reflexivity. Qed.

Lemma dashed_spec h : length h = 32%nat ->
  length (dashed h) = 36%nat /\ undashed (dashed h) = h
  /\ dash (dashed h) 8 && dash (dashed h) 13 && dash (dashed h) 18 && dash (dashed h) 23 = true.
Proof. intros H. list_of_length h H. split_and!; reflexivity. Qed.

Lemma undashed_spec s : length s = 36%nat ->
  dash s 8 && dash s 13 && dash s 18 && dash s 23 = true ->
  length (undashed s) = 32%nat /\ dashed (undashed s) = s.
Proof.
  intros H. list_of_length s H. unfold dash. cbn [lookup list_lookup].
  rewrite !andb_true_iff, !bool_decide_eq_true. intros [[[-> ->] ->] ->]. split; reflexivity.
Qed.

Lemma parseGUID_dashes s : parseGUID s =
  if bool_decide (length s = 36%nat) && (dash s 8 && dash s 13 && dash s 18 && dash s 23)
  then match hex_decode (undashed s) with Some raw => Ok (mixed raw) | None => Err (Errorf "malformed GUID") end
  else Err (Errorf "malformed GUID").
Proof.
  unfold parseGUID. fold (undashed s). unfold zlen.
  replace (Z.of_nat (length s) =? 36) with (bool_decide (length s = 36%nat)).
  2: { case_bool_decide as E; [by rewrite E|]. symmetry. apply Z.eqb_neq. lia. }
  by destruct (bool_decide _), (dash s 8), (dash s 13), (dash s 18), (dash s 23).
Qed.

Lemma hex_val_inv c d : hex_val c = Some d -> digit_char d = lower c /\ 0 <= d < 16.
Proof.
  revert d. destruct c; intros d H; vm_compute in H; try discriminate H; injection H as <-;
    (split; [reflexivity|lia]).
Qed.

Lemma hex_decode_inv s b : hex_decode s = Some b -> hex_encode b = lower <$> s.
Proof.
  revert b. remember (length s) as n eqn:Hn. revert s Hn.
  induction (lt_wf n) as [n _ IH]. intros s -> b.
  destruct s as [|h [|l s]]; cbn [hex_decode]; [by intros [= <-]|done|].
  destruct (hex_val h) as [x|] eqn:Hx; [|done]. destruct (hex_val l) as [y|] eqn:Hy; [|done].
  cbn [mbind option_bind]. destruct (hex_decode s) as [b'|] eqn:E; [|done]. cbn [mbind option_bind]. intros [= <-].
  apply hex_val_inv in Hx as [Ex Hx], Hy as [Ey Hy].
  unfold hex_encode. rewrite !fmap_cons. cbn [concat hex_byte app]. rewrite b2z_z2b_small by lia.
  replace ((16 * x + y) / 16) with x by (Z.div_mod_to_equations; lia).
  replace ((16 * x + y) mod 16) with y by (Z.div_mod_to_equations; lia).
  rewrite Ex, Ey. do 2 f_equal. apply (IH (length s)); [simpl; lia|done|done].
Qed.

Lemma parseGUID_safe s : safe (parseGUID s).
Proof. rewrite parseGUID_dashes. destruct (_ && _); [by destruct (hex_decode _)|done]. Qed.

Lemma parseGUID_format g : zlen g = 16 -> parseGUID (formatGUID g) = Ok g.
Proof.
  intros Hg. assert (length g = 16%nat) as Hl by (unfold zlen in Hg; lia).
  destruct (mixed_mixed _ Hl) as [Hm Hml].
  change (formatGUID g) with (dashed (hex_encode (mixed g))).
  destruct (dashed_spec (hex_encode (mixed g))) as (H36 & Hu & Hd).
  { rewrite length_hex_encode, Hml. done. }
  rewrite parseGUID_dashes, H36, Hd, Hu, hex_decode_encode, Hm. done.
Qed.

Lemma lower_dashed h : lower <$> dashed h = dashed (lower <$> h).
Proof.
  unfold dashed, zseg. rewrite !fmap_app, !fmap_take, !fmap_drop. reflexivity.
Qed.

Lemma parseGUID_inv s g : parseGUID s = Ok g -> zlen g = 16 /\ formatGUID g = lower <$> s.
Proof.
  rewrite parseGUID_dashes. case_bool_decide as Hl; [|done]. cbn [andb]. destruct (_ && _ && _ && _) eqn:Hd; [|done].
  destruct (undashed_spec _ Hl Hd) as [Hu E]. destruct (hex_decode (undashed s)) as [raw|] eqn:Hr; [|done].
  intros <-%Ok_inj. apply hex_decode_inv in Hr.
  assert (length raw = 16%nat) as Hraw.
  { apply (f_equal length) in Hr. rewrite length_hex_encode, length_fmap, Hu in Hr. lia. }
  destruct (mixed_mixed _ Hraw) as [Hm Hml]. split; [unfold zlen; by rewrite Hml|].
  change (formatGUID (mixed raw)) with (dashed (hex_encode (mixed (mixed raw)))).
  by rewrite Hm, Hr, <- lower_dashed, E.
Qed.

Lemma formatGUID_length g : zlen g = 16 -> length (formatGUID g) = 36%nat.
Proof.
  intros Hg. assert (length g = 16%nat) as Hl by (unfold zlen in Hg; lia).
  destruct (mixed_mixed _ Hl) as [_ Hml].
  apply (dashed_spec (hex_encode (mixed g))). by rewrite length_hex_encode, Hml.
Qed.

Lemma formatGUID_chars g : Forall (fun c => 48 <= b2z c <= 57 \/ 97 <= b2z c <= 102 \/ c = x2d) (formatGUID g).
Proof.
  change (formatGUID g) with (dashed (hex_encode (mixed g))). pose proof (hex_encode_chars (mixed g)) as H.
  assert (Forall (fun c => 48 <= b2z c <= 57 \/ 97 <= b2z c <= 102 \/ c = x2d) (hex_encode (mixed g))) as H'
    by (eapply Forall_impl; [exact H|]; simpl; tauto).
  unfold dashed, zseg. repeat (apply Forall_app_2 || apply Forall_take || apply Forall_drop || exact H'
    || (apply Forall_singleton; by right; right)).
Qed.

(** GUID texts and wire GUIDs correspond one to one.  Rendering a 16-byte GUID and parsing the
    text gives the GUID back; conversely any text [parseGUID] accepts yields 16 bytes whose rendering
    is that text with its hex digits in lower case; every other text is an error, not a panic. *)
Theorem parseGUID_spec (g s : bytes) :
  (zlen g = 16 -> parseGUID (formatGUID g) = Ok g)
  /\ match parseGUID s with
     | Ok g => zlen g = 16 /\ formatGUID g = lower <$> s
     | Err e => e = Errorf "malformed GUID"
     | Panic => False
     end.
Proof.
  split; [apply parseGUID_format|]. destruct (parseGUID s) as [g'|e|] eqn:E.
  - by apply parseGUID_inv.
  - rewrite parseGUID_dashes in E. destruct (_ && _); [destruct (hex_decode _)|]; naive_solver.
  - by apply parseGUID_safe in E.
Qed.

Definition sample_guid : bytes := hex_byte x12 ++ hex_byte x34 ++ hex_byte x56 ++ hex_byte xab
  ++ hex_byte x78 ++ hex_byte x9a ++ hex_byte xbc ++ hex_byte xde.

Lemma parseGUID_spec_witness : zlen sample_guid = 16 /\ parseGUID (formatGUID sample_guid) = Ok sample_guid.
Proof. split; [reflexivity|]. apply (parseGUID_spec sample_guid []). reflexivity. Defined.
End Guid.
