(* ===== verification/SddlDecompile.v ===== *)
(** * SddlDecompile: condition bytecode to text (sddl/decompile.go)

    [decodeTokens] walks the postfix tokens with a stack of rendered texts.  Its
    first argument bounds the recursion: every round and every descent into a
    composite drops at least one byte, so [S (length b)] is enough, and running
    out is reported as a panic so that the safety theorem covers it too.  The
    remaining bytes [b[i:]] stand for the index [i] of the source.  The theorems:
    no input makes the decoder panic or loop, and on the bytecode of an
    expression it returns the text of that expression. *)

From S2P Require Import Prelude Outcome GoStd GoText Sid WellKnown Condition SddlTables.

Module Decompile.
Import Cond Tab.

Definition artxMagic : bytes := str "artx".

Definition tkInt64 : Z := 0x04.
Definition tkString : Z := 0x10.
Definition tkOctet : Z := 0x18.
Definition tkComposite : Z := 0x50.
Definition tkSID : Z := 0x51.
Definition tkExists : Z := 0x87.
Definition tkNotExists : Z := 0x8d.
Definition tkAnd : Z := 0xa0.
Definition tkOr : Z := 0xa1.
Definition tkNot : Z := 0xa2.
Definition tkAttrLocal : Z := 0xf8.
Definition tkAttrUser : Z := 0xf9.
Definition tkAttrRes : Z := 0xfa.
Definition tkAttrDev : Z := 0xfb.

Definition errTrunc : err := Errorf "truncated conditional expression".
Definition errUnderflow : err := Errorf "malformed conditional expression: operand stack underflow".

Definition compareSym : list (Z * bytes) :=
  [(CompareOp_byte OpEqual, str "=="); (CompareOp_byte OpNotEqual, str "!=");
   (CompareOp_byte OpLess, str "<"); (CompareOp_byte OpLessEqual, str "<=");
   (CompareOp_byte OpGreater, str ">"); (CompareOp_byte OpGreaterEqual, str ">=");
   (CompareOp_byte OpContains, str "Contains"); (CompareOp_byte OpAnyOf, str "Any_of");
   (CompareOp_byte OpNotContains, str "Not_Contains"); (CompareOp_byte OpNotAnyOf, str "Not_Any_of")].

Definition memberKw : list (Z * bytes) :=
  [(MemberOp_byte OpMemberOf, str "Member_of");
   (MemberOp_byte OpDeviceMemberOf, str "Device_Member_of");
   (MemberOp_byte OpMemberOfAny, str "Member_of_Any");
   (MemberOp_byte OpDeviceMemberOfAny, str "Device_Member_of_Any");
   (MemberOp_byte OpNotMemberOf, str "Not_Member_of");
   (MemberOp_byte OpNotDeviceMemberOf, str "Not_Device_Member_of");
   (MemberOp_byte OpNotMemberOfAny, str "Not_Member_of_Any");
   (MemberOp_byte OpNotDeviceMemberOfAny, str "Not_Device_Member_of_Any")].

(** The double quote, which a literal of this file cannot hold. *)
Definition quote : bytes := [x22].
Definition quoted (s : bytes) : bytes := quote ++ s ++ quote.

(** [units[i] = uint16(b[2*i]) | uint16(b[2*i+1])<<8]; a trailing odd byte is dropped. *)
Fixpoint units (b : bytes) : list Z :=
  match b with
  | lo :: hi :: b => Z.lor (b2z lo) (Z.shiftl (b2z hi) 8) :: units b
  | _ => []
  end.
Definition utf16Decode (b : bytes) : bytes := utf8_encode (utf16_decode (units b)).

(** [int64(v)] for a uint64 [v]. *)
Definition to_int64 (v : Z) : Z := if 2 ^ 63 <=? v then v - 2 ^ 64 else v.

(** The tags with a length-prefixed body. *)
Definition data_tags : list Z :=
  [tkString; tkOctet; tkSID; tkComposite; tkAttrLocal; tkAttrUser; tkAttrRes; tkAttrDev].

Section decode.
Context (opt : options).

(** [decode] is the recursive call [decodeTokens(data, opt)]. *)
Definition decodeDataToken (decode : bytes -> outcome (list bytes)) (tag : Z) (data : bytes) : outcome bytes :=
  if tag =? tkString then Ok (quoted (utf16Decode data))
  else if tag =? tkOctet then Ok (str "#" ++ hex_encode data)
  else if tag =? tkSID then
    sid ← wrap_err "malformed SID literal" (SID.ParseSID data);
    Ok (str "SID(" ++ formatSID opt sid ++ str ")")
  else if tag =? tkComposite then
    items ← decode data;
    Ok (str "{" ++ join_str (str ", ") items ++ str "}")
  else if tag =? tkAttrLocal then Ok (utf16Decode data)
  else if tag =? tkAttrUser then Ok (str "@User." ++ utf16Decode data)
  else if tag =? tkAttrRes then Ok (str "@Resource." ++ utf16Decode data)
  else if tag =? tkAttrDev then Ok (str "@Device." ++ utf16Decode data)
  else Err (Errorf "unknown data token").

(** The switch on the tag of [b = b[i:]]: how many bytes are consumed and the new stack. [None] is the
    padding byte.  The stack's top is the head of the list. *)
Definition decode_step (decode : bytes -> outcome (list bytes)) (tag : Z) (b : bytes) (stack : list bytes)
    : outcome (option (Z * list bytes)) :=
  if tag =? 0 then Ok None
  else if tag =? tkInt64 then
    if zlen b <? 11 then Err errTrunc else
    w ← slice b 1 9;
    v ← get_le 8 w;
    Ok (Some (11, format_int (to_int64 v) :: stack))
  else if existsb (Z.eqb tag) data_tags then
    if zlen b <? 5 then Err errTrunc else
    w ← slice b 1 5;
    n ← get_le 4 w;
    if (n <? 0) || (zlen b <? 5 + n) then Err errTrunc else
    data ← slice b 5 (5 + n);
    s ← decodeDataToken decode tag data;
    Ok (Some (5 + n, s :: stack))
  else if (tag =? tkExists) || (tag =? tkNotExists) then
    match stack with
    | operand :: stack =>
        let kw := if tag =? tkNotExists then str "Not_Exists" else str "Exists" in
        Ok (Some (1, (kw ++ str " " ++ operand) :: stack))
    | _ => Err errUnderflow
    end
  else if tag =? tkNot then
    match stack with
    | sub :: stack => Ok (Some (1, (str "!(" ++ sub ++ str ")") :: stack))
    | _ => Err errUnderflow
    end
  else if (tag =? tkAnd) || (tag =? tkOr) then
    match stack with
    | rhs :: lhs :: stack =>
        let sym := if tag =? tkOr then str "||" else str "&&" in
        Ok (Some (1, (str "(" ++ lhs ++ str ") " ++ sym ++ str " (" ++ rhs ++ str ")") :: stack))
    | _ => Err errUnderflow
    end
  else
    match assoc compareSym tag with
    | Some sym =>
        match stack with
        | rhs :: lhs :: stack => Ok (Some (1, (lhs ++ str " " ++ sym ++ str " " ++ rhs) :: stack))
        | _ => Err errUnderflow
        end
    | None =>
        match assoc memberKw tag with
        | Some kw =>
            match stack with
            | operand :: stack => Ok (Some (1, (kw ++ str " " ++ operand) :: stack))
            | _ => Err errUnderflow
            end
        | None => Err (Errorf "unknown conditional token")
        end
    end.

(** The loop; the result is the slice [stack], bottom first. *)
Fixpoint decodeTokens_loop (fuel : nat) (b : bytes) (stack : list bytes) : outcome (list bytes) :=
  match fuel with
  | O => Panic
  | S fuel =>
      match b with
      | [] => Ok (rev stack)
      | tag :: _ =>
          r ← decode_step (fun data => decodeTokens_loop fuel data []) (b2z tag) b stack;
          match r with
          | None => Ok (rev stack)
          | Some (n, stack) => b ← slice_from b n; decodeTokens_loop fuel b stack
          end
      end
  end.
Definition decodeTokens (b : bytes) : outcome (list bytes) := decodeTokens_loop (S (length b)) b [].

Definition decodeCondition (code : bytes) : outcome bytes :=
  if (zlen code <? 4) || negb (bool_decide (zseg 0 4 code = artxMagic))
  then Err (Errorf "conditional expression is missing the artx prefix") else
  c ← slice_from code 4;
  stack ← decodeTokens c;
  match stack with
  | [s] => Ok s
  | _ => Err (Errorf "conditional expression left several values on the stack, want 1")
  end.

(** ** The text of an expression *)

Definition compare_text (op : CompareOp) : bytes := default [] (assoc compareSym (CompareOp_byte op)).
Definition member_text (op : MemberOp) : bytes := default [] (assoc memberKw (MemberOp_byte op)).

Fixpoint operand_text (o : operand) : bytes :=
  match o with
  | OInt n => format_int n
  | OString s => quoted s
  | OOctet data => str "#" ++ hex_encode data
  | OSid sid => str "SID(" ++ formatSID opt sid ++ str ")"
  | OLocal name => name
  | OUser name => str "@User." ++ name
  | OResource name => str "@Resource." ++ name
  | ODevice name => str "@Device." ++ name
  | OComposite items => str "{" ++ join_str (str ", ") (operand_text <$> items) ++ str "}"
  end.

Fixpoint cond_text (c : cond) : bytes :=
  match c with
  | CCompare op lhs rhs => operand_text lhs ++ str " " ++ compare_text op ++ str " " ++ operand_text rhs
  | CMember op o => member_text op ++ str " " ++ operand_text o
  | CExists o => str "Exists " ++ operand_text o
  | CNotExists o => str "Not_Exists " ++ operand_text o
  | CAnd c rhs => str "(" ++ cond_text c ++ str ") && (" ++ cond_text rhs ++ str ")"
  | COr c rhs => str "(" ++ cond_text c ++ str ") || (" ++ cond_text rhs ++ str ")"
  | CNot c => str "!(" ++ cond_text c ++ str ")"
  end.
End decode.

(** ** UTF-16 operands *)

Lemma units_words us : Forall (fits 16) us -> units (words 2 us) = us.
Proof.
  induction 1 as [|u us Hu _ IH]; [done|]. rewrite words_cons. cbn [le_enc app units]. rewrite IH. f_equal.
  unfold fits in Hu. change (Z.lor (b2z (z2b u)) (Z.shiftl (b2z (z2b (u / 256))) 8) = u).
  rewrite !b2z_z2b, lor_shiftl_add by (try apply Z.mod_pos_bound; lia).
  Z.div_mod_to_equations. lia.
Qed.

Lemma utf16Decode_le s : utf8_valid s = true -> utf16Decode (utf16le s) = s.
Proof.
  intros [Hs E]%utf8_decode_encode. unfold utf16Decode, utf16le.
  by rewrite units_words, utf16_decode_encode by auto using utf16_encode_fits.
Qed.

Lemma to_int64_le n : - 2 ^ 63 <= n < 2 ^ 63 -> to_int64 (n mod 2 ^ 64) = n.
Proof.
  intros Hn. unfold to_int64. destruct (Z.lt_ge_cases n 0).
  - assert (n mod 2 ^ 64 = n + 2 ^ 64) as -> by (Z.div_mod_to_equations; lia).
    destruct (Z.leb_spec (2 ^ 63) (n + 2 ^ 64)); lia.
  - rewrite Z.mod_small by lia. destruct (Z.leb_spec (2 ^ 63) n); lia.
Qed.

(** ** No input makes the decoder panic *)

Section safety.
Context (opt : options).

Lemma decodeDataToken_safe decode tag data : safe (decode data) -> safe (decodeDataToken opt decode tag data).
Proof.
  intros Hd. unfold decodeDataToken. 
  repeat match goal with |- safe (if ?c then _ else _) => destruct c; [try (repeat safe_step; auto with safe; fail)|] end;
    repeat safe_step; auto with safe.
Qed.

(** One step does not panic, and consumes between one byte and all of them. *)
Lemma decode_step_ok decode t b stack :
  (forall data, (length data <= length b)%nat -> safe (decode data)) ->
  match decode_step opt decode (b2z t) (t :: b) stack with
  | Ok (Some (n, _)) => 1 <= n <= zlen (t :: b)
  | Panic => False
  | _ => True
  end.
Proof.
  intros Hd. pose proof (zlen_nonneg b). unfold decode_step. destruct (b2z t =? 0); [done|].
  destruct (b2z t =? tkInt64).
  { destruct (Z.ltb_spec (zlen (t :: b)) 11); [done|]. rewrite slice_ok, bind_Ok by lia.
    rewrite get_le_ok by (rewrite zlen_zseg; lia). rewrite bind_Ok. lia. }
  destruct (existsb _ _).
  { destruct (Z.ltb_spec (zlen (t :: b)) 5); [done|]. rewrite slice_ok, bind_Ok by lia.
    destruct (get_le 4 _) as [n| |] eqn:En; [|done|].
    2: { by apply (safe_get_le 4 (zseg 1 5 (t :: b))) in En; [|rewrite zlen_zseg; lia]. }
    apply get_le_Ok_inv in En as (_ & _ & Hn). rewrite bind_Ok.
    destruct (Z.ltb_spec n 0); [lia|]. destruct (Z.ltb_spec (zlen (t :: b)) (5 + n)); [done|]. cbn [orb].
    rewrite slice_ok, bind_Ok by lia.
    destruct (decodeDataToken _ _ _ _) eqn:E; [rewrite bind_Ok; lia|done|].
    apply decodeDataToken_safe in E; [done|]. apply Hd.
    unfold zseg. rewrite length_take, length_drop. cbn [length]. lia. }
  rewrite zlen_cons.
  destruct ((b2z t =? tkExists) || _); [destruct stack; [done|lia]|].
  destruct (b2z t =? tkNot); [destruct stack; [done|lia]|].
  destruct ((b2z t =? tkAnd) || _); [destruct stack as [|? [|? ?]]; [done..|lia]|].
  destruct (assoc compareSym _); [destruct stack as [|? [|? ?]]; [done..|lia]|].
  destruct (assoc memberKw _); [destruct stack; [done|lia]|done].
Qed.

Lemma decodeTokens_loop_safe fuel b stack : (length b < fuel)%nat -> safe (decodeTokens_loop opt fuel b stack).
Proof.
  revert b stack. induction fuel as [|fuel IH]; intros b stack Hf; [lia|]. cbn [decodeTokens_loop].
  destruct b as [|t b]; [apply safe_Ok|]. cbn [length] in Hf.
  pose proof (decode_step_ok (fun data => decodeTokens_loop opt fuel data []) t b stack) as H.
  destruct (decode_step _ _ _ _ _) as [[[n stack']|]|e|]; [|done..|exfalso; apply H; intros; apply IH; lia].
  rewrite bind_Ok. specialize (H ltac:(intros; apply IH; lia)).
  rewrite slice_from_ok, bind_Ok by lia. apply IH. rewrite length_drop. cbn [length]. lia.
Qed.

(** More fuel than needed changes nothing. *)
Lemma decodeDataToken_ext decode decode' tag data : decode data = decode' data ->
  decodeDataToken opt decode tag data = decodeDataToken opt decode' tag data.
Proof. intros E. unfold decodeDataToken. by rewrite E. Qed.

Lemma decode_step_ext decode decode' t b stack :
  (forall data, (length data <= length b)%nat -> decode data = decode' data) ->
  decode_step opt decode (b2z t) (t :: b) stack = decode_step opt decode' (b2z t) (t :: b) stack.
Proof.
  intros E. unfold decode_step. destruct (b2z t =? 0); [done|]. destruct (b2z t =? tkInt64); [done|].
  destruct (existsb _ _); [|done]. destruct (_ <? 5); [done|].
  destruct (slice _ 1 5); [|done..]. rewrite !bind_Ok. destruct (get_le 4 _) as [n| |]; [|done..]. rewrite !bind_Ok.
  destruct (Z.ltb_spec n 0); [done|]. cbn [orb]. destruct (_ <? 5 + n); [done|].
  destruct (slice _ 5 _) as [data| |] eqn:Ed; [|done..]. rewrite !bind_Ok.
  erewrite decodeDataToken_ext; [done|]. apply E. apply slice_Ok_inv in Ed as (_ & _ & ->).
  unfold zseg. rewrite length_take, length_drop. cbn [length]. lia.
Qed.

Lemma decodeTokens_loop_fuel fuel fuel' b stack : (length b < fuel)%nat -> (length b < fuel')%nat ->
  decodeTokens_loop opt fuel b stack = decodeTokens_loop opt fuel' b stack.
Proof.
  revert fuel' b stack. induction fuel as [|fuel IH]; intros [|fuel'] b stack Hf Hf'; [lia..|].
  cbn [decodeTokens_loop]. destruct b as [|t b]; [done|]. cbn [length] in *.
  rewrite (decode_step_ext _ (fun data => decodeTokens_loop opt fuel' data []))
    by (intros data Hl; apply IH; lia).
  pose proof (decode_step_ok (fun data => decodeTokens_loop opt fuel' data []) t b stack) as H.
  destruct (decode_step _ _ _ _ _) as [[[n stack']|]|e|]; [|done..].
  rewrite !bind_Ok. specialize (H ltac:(intros; apply decodeTokens_loop_safe; lia)).
  rewrite slice_from_ok, !bind_Ok by lia. apply IH; rewrite length_drop; cbn [length]; lia.
Qed.

Lemma decodeCondition_safe code : safe (decodeCondition opt code).
Proof.
  unfold decodeCondition. destruct (Z.ltb_spec (zlen code) 4); [apply safe_Err|]. cbn [orb].
  destruct (negb _); [apply safe_Err|]. apply safe_bind; [apply safe_slice_from; lia|]. intros c _.
  apply safe_bind; [apply decodeTokens_loop_safe; lia|].
  intros [|s [|? ?]] _; auto with safe.
Qed.
End safety.

(** ** The bytecode of an expression *)

Section correct.
Context (opt : options).

(** [decodes b s]: in front of any bytes and on any stack, the tokens [b] push the text [s]. *)
Definition decodes (b s : bytes) : Prop :=
  forall fuel rest stack, (length (b ++ rest) < fuel)%nat ->
  exists fuel', (length rest < fuel')%nat
    /\ decodeTokens_loop opt fuel (b ++ rest) stack = decodeTokens_loop opt fuel' rest (s :: stack).

(** A token that [decode_step] consumes whole runs the stack from [stack] to [stack']. *)
Lemma decode_one fuel t b rest stack stack' : (length (t :: b ++ rest) < S fuel)%nat ->
  decode_step opt (fun data => decodeTokens_loop opt fuel data []) (b2z t) ((t :: b) ++ rest) stack
    = Ok (Some (zlen (t :: b), stack')) ->
  exists fuel', (length rest < fuel')%nat
    /\ decodeTokens_loop opt (S fuel) ((t :: b) ++ rest) stack = decodeTokens_loop opt fuel' rest stack'.
Proof.
  intros Hf E. exists fuel. split; [rewrite length_cons, length_app in Hf; lia|].
  change ((t :: b) ++ rest) with (t :: b ++ rest) in *. cbn [decodeTokens_loop]. rewrite E, bind_Ok.
  change (t :: b ++ rest) with ((t :: b) ++ rest). by rewrite slice_from_app.
Qed.

(** A length-prefixed token. *)
Lemma decodes_data tag data s : tag ∈ data_tags -> zlen data < 2 ^ 32 ->
  (forall decode, (forall r, decodeTokens_loop opt (S (length data)) data [] = Ok r -> decode data = Ok r) ->
    decodeDataToken opt decode tag data = Ok s) ->
  decodes (tokenWith tag data) s.
Proof.
  intros Htag Hl Hd [|fuel] rest stack Hf; [lia|]. unfold tokenWith in *. pose proof (zlen_nonneg data).
  assert (b2z (z2b tag) = tag /\ tag <> 0 /\ tag <> tkInt64 /\ existsb (Z.eqb tag) data_tags = true)
    as (Et & H0 & H4 & Hx).
  { unfold data_tags in Htag. repeat (apply elem_of_cons in Htag as [->|Htag]; [by vm_compute|]). by apply elem_of_nil in Htag. }
  apply decode_one; [exact Hf|]. rewrite Et. unfold decode_step.
  apply Z.eqb_neq in H0 as ->. apply Z.eqb_neq in H4 as ->. rewrite Hx.
  set (b := ((z2b tag :: le_enc 4 (zlen data) ++ data) ++ rest)).
  assert (zlen b = 5 + zlen data + zlen rest) as Hb by (unfold b; len). pose proof (zlen_nonneg rest).
  destruct (Z.ltb_spec (zlen b) 5); [lia|].
  rewrite (slice_is b [z2b tag] (le_enc 4 (zlen data)) (data ++ rest)) by (done || (unfold b; app_eq) || len).
  rewrite bind_Ok. rewrite <- (app_nil_r (le_enc _ _)), get_le_app_small, bind_Ok by lia.
  destruct (Z.ltb_spec (zlen data) 0); [lia|]. destruct (Z.ltb_spec (zlen b) (5 + zlen data)); [lia|]. cbn [orb].
  rewrite (slice_is b (z2b tag :: le_enc 4 (zlen data)) data rest) by ((unfold b; app_eq) || len).
  rewrite bind_Ok, Hd, bind_Ok. { do 3 f_equal. len. }
  intros r Hr. rewrite <- Hr. apply (decodeTokens_loop_fuel opt); [|lia].
  fold b in Hf. unfold zlen in *. lia.
Qed.

Lemma decodes_int n : - 2 ^ 63 <= n < 2 ^ 63 -> decodes (opd_tok (IntOperand n)) (format_int n).
Proof.
  intros Hn [|fuel] rest stack Hf; [lia|]. cbn [opd_tok IntOperand] in *.
  set (tail := le_enc 8 n ++ [z2b (if n <? 0 then signNegative else signNone)] ++ [z2b baseDecimal]) in *.
  change ([z2b tokInt64] ++ tail) with (z2b tokInt64 :: tail) in *.
  apply decode_one; [exact Hf|]. set (b := (z2b tokInt64 :: tail) ++ rest).
  assert (zlen tail = 10) as Ht by (unfold tail; len). pose proof (zlen_nonneg rest).
  change (b2z (z2b tokInt64)) with tkInt64. unfold decode_step. cbn [Z.eqb tkInt64 Pos.eqb].
  destruct (Z.ltb_spec (zlen b) 11); [unfold b in *; len|].
  rewrite (slice_is b [z2b tokInt64] (le_enc 8 n) (drop 8 tail ++ rest)) by
    (done || (unfold b, tail; cbn [app]; by rewrite drop_app_length', <- !app_assoc by apply length_le_enc) || len).
  rewrite bind_Ok. rewrite <- (app_nil_r (le_enc _ _)), get_le_app, bind_Ok.
  change (256 ^ Z.of_nat 8) with (2 ^ 64). rewrite to_int64_le by done. by rewrite zlen_cons, Ht.
Qed.

(** Rendered operands, and the tokens after them, are read one after the other. *)
Lemma decodes_items (l : list (bytes * bytes)) fuel stack :
  Forall (fun e => decodes e.1 e.2) l -> (length (concat l.*1) < fuel)%nat ->
  exists fuel', decodeTokens_loop opt fuel (concat l.*1) stack = Ok (rev (rev l.*2 ++ stack)) /\ (0 < fuel')%nat.
Proof.
  intros Hl. revert fuel stack. induction Hl as [|[b s] l Hb _ IH]; intros fuel stack Hf.
  { exists 1%nat. destruct fuel; [lia|]. split; [done|lia]. }
  cbn [fmap list_fmap fst snd concat] in *. destruct (Hb fuel (concat l.*1) stack Hf) as (fuel' & Hf' & ->).
  destruct (IH fuel' (s :: stack) Hf') as (k & -> & Hk). exists k. split; [|done].
  cbn [rev]. by rewrite <- app_assoc.
Qed.

(** The contract of an encodable operand: its leaves are, and its bytes can be counted in 32 bits. *)
Lemma decodes_operand o : operand_all leaf_ok o -> zlen (opd_tok (compile_operand o)) < 2 ^ 32 ->
  decodes (opd_tok (compile_operand o)) (operand_text opt o).
Proof.
  induction o as [n|s|d|sid|s|s|s|s|items IH] using operand_rect_items; intros Hok Hl;
    [by apply decodes_int|..].
  all: cbn [compile_operand opd_tok StringOperand OctetOperand SIDOperand LocalAttr UserAttr ResourceAttr
    DeviceAttr Composite operand_text operand_all leaf_ok] in *.
  all: assert (forall tag data, zlen (tokenWith tag data) = 5 + zlen data) as Htok by (intros; unfold tokenWith; len).
  all: rewrite Htok in Hl; apply decodes_data; [apply (bool_decide_eq_true_1 _); reflexivity|lia|].
  1,4-7: intros decode _; unfold decodeDataToken; cbn; by rewrite utf16Decode_le.
  - done.
  - intros decode _. unfold decodeDataToken. cbn -[formatSID]. by rewrite SID.ParseSID_Bytes_self.
  - change (operand_all leaf_ok (OComposite items)) in Hok. apply operand_all_items in Hok.
    intros decode Hd. unfold decodeDataToken. cbn -[join_str].
    set (l := (fun o => (opd_tok (compile_operand o), operand_text opt o)) <$> items).
    assert (opd_tok <$> (compile_operand <$> items) = l.*1 /\ operand_text opt <$> items = l.*2) as [E1 E2]
      by (unfold l; by rewrite <- !list_fmap_compose).
    rewrite E1 in *. assert (Forall (fun e => decodes e.1 e.2) l) as Hf.
    { unfold l. apply Forall_fmap, Forall_forall. intros o Ho. rewrite Forall_forall in IH, Hok.
      apply IH; [done|by apply Hok|]. apply list_elem_of_split in Ho as (p & q & ->).
      unfold l in Hl. rewrite !fmap_app, concat_app in Hl. cbn [fmap list_fmap fst concat] in Hl. len. }
    destruct (decodes_items l (S (length (concat l.*1))) [] Hf ltac:(lia)) as (k & E & _).
    rewrite app_nil_r, rev_involutive in E. rewrite (Hd _ E), bind_Ok, <- E2. done.
Qed.

(** An operator token: its byte is the tag. *)
Lemma decodes_op fuel tag rest stack stack' : b2z (z2b tag) = tag ->
  (length ([z2b tag] ++ rest) < fuel)%nat ->
  (forall decode b, decode_step opt decode tag b stack = Ok (Some (1, stack'))) ->
  exists fuel', (length rest < fuel')%nat
    /\ decodeTokens_loop opt fuel ([z2b tag] ++ rest) stack = decodeTokens_loop opt fuel' rest stack'.
Proof.
  intros Et Hf E. destruct fuel as [|fuel]; [lia|]. apply decode_one; [exact Hf|]. rewrite Et. apply E.
Qed.

Lemma compare_step decode op b lhs rhs stack :
  decode_step opt decode (CompareOp_byte op) b (rhs :: lhs :: stack)
  = Ok (Some (1, (lhs ++ str " " ++ compare_text op ++ str " " ++ rhs) :: stack)).
Proof. by destruct op. Qed.
Lemma member_step decode op b o stack :
  decode_step opt decode (MemberOp_byte op) b (o :: stack)
  = Ok (Some (1, (member_text op ++ str " " ++ o) :: stack)).
Proof. by destruct op. Qed.

(** The postfix tokens of an expression push its text. *)
Lemma decodes_cond c : cond_all leaf_ok c -> zlen (cond_tok (compile c)) < 2 ^ 32 ->
  decodes (cond_tok (compile c)) (cond_text opt c).
Proof.
  induction c as [op l r|op o|o|o|c IHc r IHr|c IHc r IHr|c IHc]; cbn [cond_all]; intros Hok Hl fuel rest stack Hf;
    cbn [compile cond_tok Compare Member Exists NotExists And Or Not cond_text] in *;
    rewrite <- ?app_assoc in *; rewrite ?zlen_app in Hl;
    repeat match type of Hl with context [zlen ?x] => unless (0 <= zlen x) by assumption; pose proof (zlen_nonneg x) end.
  - destruct Hok as [Hol Hor]. destruct (decodes_operand l Hol ltac:(lia) fuel _ stack Hf) as (f1 & Hf1 & ->).
    destruct (decodes_operand r Hor ltac:(lia) f1 _ (operand_text opt l :: stack) Hf1) as (f2 & Hf2 & ->).
    apply decodes_op; [by destruct op|done|]. intros. apply compare_step.
  - destruct (decodes_operand o Hok ltac:(lia) fuel _ stack Hf) as (f1 & Hf1 & ->).
    apply decodes_op; [by destruct op|done|]. intros. apply member_step.
  - destruct (decodes_operand o Hok ltac:(lia) fuel _ stack Hf) as (f1 & Hf1 & ->).
    by apply decodes_op.
  - destruct (decodes_operand o Hok ltac:(lia) fuel _ stack Hf) as (f1 & Hf1 & ->).
    by apply decodes_op.
  - destruct Hok as [Hol Hor]. destruct (IHc Hol ltac:(lia) fuel _ stack Hf) as (f1 & Hf1 & ->).
    destruct (IHr Hor ltac:(lia) f1 _ (cond_text opt c :: stack) Hf1) as (f2 & Hf2 & ->). by apply decodes_op.
  - destruct Hok as [Hol Hor]. destruct (IHc Hol ltac:(lia) fuel _ stack Hf) as (f1 & Hf1 & ->).
    destruct (IHr Hor ltac:(lia) f1 _ (cond_text opt c :: stack) Hf1) as (f2 & Hf2 & ->). by apply decodes_op.
  - destruct (IHc Hok ltac:(lia) fuel _ stack Hf) as (f1 & Hf1 & ->). by apply decodes_op.
Qed.

Lemma decodeTokens_padding fuel k stack : (0 < fuel)%nat ->
  decodeTokens_loop opt fuel (replicate k x00) stack = Ok (rev stack).
Proof. intros. destruct fuel; [lia|]. by destruct k. Qed.

Lemma decodeCondition_Encode_text c : cond_all leaf_ok c -> zlen (cond_tok (compile c)) < 2 ^ 32 ->
  decodeCondition opt (Encode (compile c)) = Ok (cond_text opt c).
Proof.
  intros Hok Hl. destruct (Encode_layout (compile c)) as [k ->]. unfold decodeCondition.
  set (body := cond_tok (compile c) ++ replicate k x00).
  change (str "artx") with artxMagic. pose proof (zlen_nonneg body).
  destruct (Z.ltb_spec (zlen (artxMagic ++ body)) 4) as [Hlt|_]; [rewrite zlen_app in Hlt; change (zlen artxMagic) with 4 in Hlt; lia|].
  rewrite (zseg_app_l artxMagic) by done. rewrite bool_decide_eq_true_2 by done. cbn [negb orb].
  rewrite slice_from_app, bind_Ok by done. unfold decodeTokens.
  destruct (decodes_cond c Hok Hl (S (length body)) (replicate k x00) []) as (f & Hf & E); [fold body; lia|].
  fold body in E. rewrite E.
  by rewrite decodeTokens_padding by lia.
Qed.
End correct.

(** ** Properties *)

(** C15: decompiling is total, and exact on well-formed bytecode.  Whatever bytes a callback ACE carries,
    [decodeCondition] returns a text or an
    error: it never reads out of range, and it finishes, each round and each descent into a
    composite having dropped at least a byte.  For any expression whose leaves the
    builders can encode (an int64, valid UTF-8 text, a valid SID; composites nested to any depth),
    as long as its tokens fit the 32-bit length fields, [decodeCondition] of [Encode] returns the
    expression's text: no token is misframed, no operands are swapped, and the padding is not read as tokens. *)
Theorem decodeCondition_spec (opt : options) :
  (forall code, decodeCondition opt code <> Panic)
  /\ (forall b stack fuel, (length b < fuel)%nat ->
       decodeTokens_loop opt fuel b stack = decodeTokens_loop opt (S (length b)) b stack)
  /\ (forall c, cond_all leaf_ok c -> zlen (cond_tok (compile c)) < 2 ^ 32 ->
       decodeCondition opt (Encode (compile c)) = Ok (cond_text opt c)).
Proof.
  split_and!; [apply decodeCondition_safe| |apply decodeCondition_Encode_text].
  intros b stack fuel Hf. apply decodeTokens_loop_fuel; lia.
Qed.

(** @User.dept == "PM" && Member_of {SID(BA), SID(WD)} *)
Definition sample_cond : cond :=
  CAnd (CCompare OpEqual (OUser (str "dept")) (OString (str "PM")))
       (CMember OpMemberOf (OComposite [OSid (WK.SID WK.BuiltinAdministrators); OSid (WK.SID WK.Everyone)])).

Lemma decodeCondition_spec_witness :
  decodeCondition noOptions (str "artx" ++ [x50; xff; xff; xff; xff]) = Err errTrunc
  /\ cond_text noOptions sample_cond
    = str "(@User.dept == " ++ quoted (str "PM") ++ str ") && (Member_of {SID(BA), SID(WD)})"
  /\ decodeTokens_loop noOptions 9 [x04; x01] [] = decodeTokens_loop noOptions 3 [x04; x01] []
  /\ decodeCondition noOptions (Encode (compile sample_cond)) = Ok (cond_text noOptions sample_cond).
Proof.
  split; [vm_compute; reflexivity|]. split; [vm_compute; reflexivity|].
  destruct (decodeCondition_spec noOptions) as (_&Hf&H). split; [apply Hf; cbn; lia|].
  apply H; [|vm_compute; reflexivity].
  cbn [cond_all operand_all leaf_ok foldr sample_cond].
  repeat match goal with |- _ /\ _ => split end; first [exact I|apply WK.SID_ok|reflexivity].
Defined.
End Decompile.
