(* ===== verification/SddlCondition.v ===== *)
(** * SddlCondition: condition text to bytecode (sddl/condition.go)

    The lexer ([lex_loop], one [lex_step] per round) and the recursive-descent
    parser.  The lexer's index [i] is kept as the position of the remaining text;
    the parser's cursor is the list of the remaining tokens, which is never
    empty because [next] does not go past the final EOF.  The recursions are
    bounded by fuel computed from the input length ([parseConditionText]); running
    out is reported as a panic, so safety includes termination.  The theorems:
    the text of an expression compiles to exactly its bytecode, and on any text
    the parser finishes with an error or with the bytecode of some expression. *)

From S2P Require Import Prelude Outcome GoStd GoText Sid WellKnown Condition SddlTables SddlDecompile.

Module CondText.
Import Cond Tab.

(** ** Vocabulary *)

Definition relSymbols : list (bytes * CompareOp) :=
  [(str "==", OpEqual); (str "!=", OpNotEqual); (str "<", OpLess); (str "<=", OpLessEqual);
   (str ">", OpGreater); (str ">=", OpGreaterEqual)].

Definition relKeywords : list (bytes * CompareOp) :=
  [(str "Contains", OpContains); (str "Any_of", OpAnyOf);
   (str "Not_Contains", OpNotContains); (str "Not_Any_of", OpNotAnyOf)].

Definition memberOps : list (bytes * MemberOp) :=
  [(str "Member_of", OpMemberOf); (str "Device_Member_of", OpDeviceMemberOf);
   (str "Member_of_Any", OpMemberOfAny); (str "Device_Member_of_Any", OpDeviceMemberOfAny);
   (str "Not_Member_of", OpNotMemberOf); (str "Not_Device_Member_of", OpNotDeviceMemberOf);
   (str "Not_Member_of_Any", OpNotMemberOfAny); (str "Not_Device_Member_of_Any", OpNotDeviceMemberOfAny)].

(** ** Lexer *)

Inductive ctokKind :=
  | ctEOF | ctLParen | ctRParen | ctLBrace | ctRBrace | ctComma | ctAndAnd | ctOrOr | ctBang
  | ctRel | ctIdent | ctAttr | ctInt | ctString | ctSID | ctOctet.
#[global] Instance ctokKind_eq_dec : EqDecision ctokKind.
Proof. solve_decision. Defined.

Record ctok := mkCtok { kind : ctokKind; pos : Z; text : bytes }.

Definition isHexDigit (c : byte) : bool := in_range 48 57 c || in_range 97 102 c || in_range 65 70 c.
Definition isIdentStart (c : byte) : bool := in_range 65 90 c || in_range 97 122 c || (b2z c =? 95).
Definition isIdentChar (c : byte) : bool := isIdentStart c || in_range 48 57 c.
Definition isNumChar (c : byte) : bool :=
  in_range 48 57 c || in_range 97 102 c || in_range 65 70 c || (b2z c =? 120) || (b2z c =? 88).

(** [for j < len(in) && p(in[j]) { j++ }]: what is passed over. *)
Fixpoint span (p : byte -> bool) (s : bytes) : bytes :=
  match s with
  | c :: s => if p c then c :: span p s else []
  | [] => []
  end.

(** [i+1 < len(in) && in[i+1] == c] on the text after [in[i]]. *)
Definition next_is (c : byte) (s : bytes) : bool :=
  match s with x :: _ => bool_decide (x = c) | [] => false end.

Definition is_blank (c : byte) : bool := (b2z c =? 32) || (b2z c =? 9) || (b2z c =? 10) || (b2z c =? 13).
Definition attr_char (c : byte) : bool := isIdentChar c || (b2z c =? 46).

(** The switch on [c = in[i]], [s] being the text after it: the token, if there is one, and the
    number of bytes consumed. *)
Definition lex_step (i : Z) (c : byte) (s : bytes) : outcome (option ctok * Z) :=
  let tok k t := Some (mkCtok k i t) in
  if is_blank c then Ok (None, 1)
  else if bool_decide ([c] = str "(") then Ok (tok ctLParen [c], 1)
  else if bool_decide ([c] = str ")") then Ok (tok ctRParen [c], 1)
  else if bool_decide ([c] = str "{") then Ok (tok ctLBrace [c], 1)
  else if bool_decide ([c] = str "}") then Ok (tok ctRBrace [c], 1)
  else if bool_decide ([c] = str ",") then Ok (tok ctComma [c], 1)
  else if bool_decide ([c] = str "&") then
    if next_is x26 s then Ok (tok ctAndAnd (str "&&"), 2) else Err (Errorf "expected '&&'")
  else if bool_decide ([c] = str "|") then
    if next_is x7c s then Ok (tok ctOrOr (str "||"), 2) else Err (Errorf "expected '||'")
  else if bool_decide ([c] = str "!") then
    if next_is x3d s then Ok (tok ctRel (str "!="), 2) else Ok (tok ctBang (str "!"), 1)
  else if bool_decide ([c] = str "=") then
    if next_is x3d s then Ok (tok ctRel (str "=="), 2) else Err (Errorf "expected '=='")
  else if bool_decide ([c] = str "<") || bool_decide ([c] = str ">") then
    if next_is x3d s then Ok (tok ctRel [c; x3d], 2) else Ok (tok ctRel [c], 1)
  else if bool_decide ([c] = Decompile.quote) then
    match cut_at x22 s with
    | Some (p, _) => Ok (tok ctString p, 2 + zlen p)
    | None => Err (Errorf "unterminated string literal")
    end
  else if bool_decide ([c] = str "#") then
    let p := span isHexDigit s in Ok (tok ctOctet p, 1 + zlen p)
  else if bool_decide ([c] = str "@") then
    let p := span attr_char s in Ok (tok ctAttr (c :: p), 1 + zlen p)
  else if bool_decide ([c] = str "-") || in_range 48 57 c then
    let p := span isNumChar s in Ok (tok ctInt (c :: p), 1 + zlen p)
  else if isIdentStart c then
    let word := span isIdentChar (c :: s) in
    let rest := drop (length word) (c :: s) in
    if bool_decide (word = str "SID") && next_is x28 rest then
      match cut_at x29 (drop 1 rest) with
      | Some (p, _) => Ok (tok ctSID p, zlen word + 1 + zlen p + 1)
      | None => Err (Errorf "unterminated SID(...)")
      end
    else Ok (tok ctIdent word, zlen word)
  else Err (Errorf "unexpected character").

Fixpoint lex_loop (fuel : nat) (i : Z) (s : bytes) : outcome (list ctok) :=
  match fuel with
  | O => Panic
  | S fuel =>
      match s with
      | [] => Ok [mkCtok ctEOF i []]
      | c :: s' =>
          '(tok, n) ← lex_step i c s';
          rest ← slice_from s n;
          toks ← lex_loop fuel (i + n) rest;
          Ok (option_list tok ++ toks)
      end
  end.
Definition lexCondition (s : bytes) : outcome (list ctok) := lex_loop (S (length s)) 0 s.

(** ** Parser *)

Section parser.
Context (opt : options).

Definition peek (ts : list ctok) : outcome ctok := match ts with t :: _ => Ok t | [] => Panic end.
Definition next (ts : list ctok) : outcome (ctok * list ctok) :=
  match ts with
  | [] => Panic
  | [t] => Ok (t, ts)
  | t :: ts => Ok (t, ts)
  end.

Definition attrOperand (t : bytes) : outcome Operand :=
  match cut_at x2e t with
  | None => Err (Errorf "attribute needs a Class.name form")
  | Some (p, name) =>
      class ← slice t 1 (zlen p);
      if bool_decide (name = []) then Err (Errorf "attribute has an empty name")
      else if bool_decide (class = str "User") then Ok (UserAttr name)
      else if bool_decide (class = str "Device") then Ok (DeviceAttr name)
      else if bool_decide (class = str "Resource") then Ok (ResourceAttr name)
      else Err (Errorf "unknown attribute class")
  end.

(** The functions of the recursive descent are mutually recursive in the source; each is a definition over the
    functions it calls, and a block of fixpoints that spend one unit of fuel at each call ties them together. *)
Definition parseOperand_body (parseComposite : list Operand -> list ctok -> outcome (Operand * list ctok))
    (ts : list ctok) : outcome (Operand * list ctok) :=
  t ← peek ts;
  match kind t with
  | ctInt =>
      '(_, ts) ← next ts;
      match parse_int0 (text t) with
      | Some n => Ok (IntOperand n, ts)
      | None => Err (Errorf "malformed integer")
      end
  | ctString => '(_, ts) ← next ts; Ok (StringOperand (text t), ts)
  | ctOctet =>
      '(_, ts) ← next ts;
      match hex_decode (text t) with
      | Some raw => Ok (OctetOperand raw, ts)
      | None => Err (Errorf "malformed octet string")
      end
  | ctSID =>
      '(_, ts) ← next ts;
      match parseSIDText opt (text t) with
      | Ok sid => Ok (SIDOperand sid, ts)
      | Err e => Err e
      | Panic => Panic
      end
  | ctAttr => '(_, ts) ← next ts; o ← attrOperand (text t); Ok (o, ts)
  | ctIdent => '(_, ts) ← next ts; Ok (LocalAttr (text t), ts)
  | ctLBrace => '(_, ts) ← next ts; parseComposite [] ts
  | _ => Err (Errorf "expected an operand")
  end.

(** [parseComposite] after the brace: [composite] is the next round of its loop. *)
Definition parseComposite_body (parseOperand : list ctok -> outcome (Operand * list ctok))
    (composite : list Operand -> list ctok -> outcome (Operand * list ctok))
    (items : list Operand) (ts : list ctok) : outcome (Operand * list ctok) :=
  t ← peek ts;
  if bool_decide (kind t = ctRBrace) then '(_, ts) ← next ts; Ok (Composite items, ts)
  else if bool_decide (kind t = ctEOF) then Err (Errorf "unterminated '{'")
  else
    '(item, ts) ← parseOperand ts;
    t ← peek ts;
    ts ← (if bool_decide (kind t = ctComma) then '(_, ts) ← next ts; Ok ts
          else if negb (bool_decide (kind t = ctRBrace)) then Err (Errorf "expected ',' or '}'")
          else Ok ts);
    composite (items ++ [item]) ts.

Fixpoint parseOperand_f (fuel : nat) (ts : list ctok) : outcome (Operand * list ctok) :=
  match fuel with O => Panic | S fuel => parseOperand_body (parseComposite_f fuel) ts end
with parseComposite_f (fuel : nat) (items : list Operand) (ts : list ctok) : outcome (Operand * list ctok) :=
  match fuel with O => Panic | S fuel => parseComposite_body (parseOperand_f fuel) (parseComposite_f fuel) items ts end.
Definition parseOperand (ts : list ctok) : outcome (Operand * list ctok) :=
  parseOperand_f (2 * length ts) ts.

Definition parseRelOp (ts : list ctok) : outcome (CompareOp * list ctok) :=
  '(t, ts) ← next ts;
  match kind t with
  | ctRel =>
      match assoc relSymbols (text t) with
      | Some op => Ok (op, ts)
      | None => Err (Errorf "unknown operator")
      end
  | ctIdent =>
      match assoc relKeywords (text t) with
      | Some op => Ok (op, ts)
      | None => Err (Errorf "expected a relational operator, got a word")
      end
  | _ => Err (Errorf "expected a relational operator")
  end.

(** The prefix forms of parseTerm; [None]: the term is an infix relation. *)
Definition prefixForm (t : ctok) : option (Operand -> Condition) :=
  if bool_decide (kind t = ctIdent) then
    if bool_decide (text t = str "Exists") then Some Exists
    else if bool_decide (text t = str "Not_Exists") then Some NotExists
    else Member <$> assoc memberOps (text t)
  else None.

Definition parseOr_body (parseAnd : list ctok -> outcome (Condition * list ctok))
    (or_loop : Condition -> list ctok -> outcome (Condition * list ctok)) (ts : list ctok) : outcome (Condition * list ctok) :=
  '(lhs, ts) ← parseAnd ts; or_loop lhs ts.

(** One round of the loop of parseOr. *)
Definition or_loop_body (parseAnd : list ctok -> outcome (Condition * list ctok))
    (or_loop : Condition -> list ctok -> outcome (Condition * list ctok)) (lhs : Condition) (ts : list ctok)
    : outcome (Condition * list ctok) :=
  t ← peek ts;
  if bool_decide (kind t = ctOrOr) then
    '(_, ts) ← next ts;
    '(rhs, ts) ← parseAnd ts;
    or_loop (Or lhs rhs) ts
  else Ok (lhs, ts).

Definition parseAnd_body (parseUnary : list ctok -> outcome (Condition * list ctok))
    (and_loop : Condition -> list ctok -> outcome (Condition * list ctok)) (ts : list ctok) : outcome (Condition * list ctok) :=
  '(lhs, ts) ← parseUnary ts; and_loop lhs ts.

(** One round of the loop of parseAnd. *)
Definition and_loop_body (parseUnary : list ctok -> outcome (Condition * list ctok))
    (and_loop : Condition -> list ctok -> outcome (Condition * list ctok)) (lhs : Condition) (ts : list ctok)
    : outcome (Condition * list ctok) :=
  t ← peek ts;
  if bool_decide (kind t = ctAndAnd) then
    '(_, ts) ← next ts;
    '(rhs, ts) ← parseUnary ts;
    and_loop (And lhs rhs) ts
  else Ok (lhs, ts).

Definition parseUnary_body (parseUnary parseTerm : list ctok -> outcome (Condition * list ctok)) (ts : list ctok)
    : outcome (Condition * list ctok) :=
  t ← peek ts;
  if bool_decide (kind t = ctBang) then
    '(_, ts) ← next ts;
    '(sub, ts) ← parseUnary ts;
    Ok (Not sub, ts)
  else parseTerm ts.

Definition parseTerm_body (parseOr : list ctok -> outcome (Condition * list ctok)) (ts : list ctok)
    : outcome (Condition * list ctok) :=
  t ← peek ts;
  if bool_decide (kind t = ctLParen) then
    '(_, ts) ← next ts;
    '(e, ts) ← parseOr ts;
    t ← peek ts;
    if negb (bool_decide (kind t = ctRParen)) then Err (Errorf "expected ')'") else
    '(_, ts) ← next ts;
    Ok (e, ts)
  else
    match prefixForm t with
    | Some form => '(_, ts) ← next ts; '(operand, ts) ← parseOperand ts; Ok (form operand, ts)
    | None =>
        '(lhs, ts) ← parseOperand ts;
        '(op, ts) ← parseRelOp ts;
        '(rhs, ts) ← parseOperand ts;
        Ok (Compare op lhs rhs, ts)
    end.

Fixpoint parseOr (fuel : nat) (ts : list ctok) : outcome (Condition * list ctok) :=
  match fuel with O => Panic | S fuel => parseOr_body (parseAnd fuel) (or_loop fuel) ts end
with or_loop (fuel : nat) (lhs : Condition) (ts : list ctok) : outcome (Condition * list ctok) :=
  match fuel with O => Panic | S fuel => or_loop_body (parseAnd fuel) (or_loop fuel) lhs ts end
with parseAnd (fuel : nat) (ts : list ctok) : outcome (Condition * list ctok) :=
  match fuel with O => Panic | S fuel => parseAnd_body (parseUnary fuel) (and_loop fuel) ts end
with and_loop (fuel : nat) (lhs : Condition) (ts : list ctok) : outcome (Condition * list ctok) :=
  match fuel with O => Panic | S fuel => and_loop_body (parseUnary fuel) (and_loop fuel) lhs ts end
with parseUnary (fuel : nat) (ts : list ctok) : outcome (Condition * list ctok) :=
  match fuel with O => Panic | S fuel => parseUnary_body (parseUnary fuel) (parseTerm fuel) ts end
with parseTerm (fuel : nat) (ts : list ctok) : outcome (Condition * list ctok) :=
  match fuel with O => Panic | S fuel => parseTerm_body (parseOr fuel) ts end.

Definition parseExpr (ts : list ctok) : outcome (Condition * list ctok) := parseOr (4 * length ts + 4) ts.

Definition parseConditionText (s : bytes) : outcome Condition :=
  toks ← lexCondition s;
  '(cond, ts) ← parseExpr toks;
  t ← peek ts;
  if negb (bool_decide (kind t = ctEOF)) then Err (Errorf "unexpected token after expression") else
  Ok cond.
End parser.

(** ** The tokens of an expression *)

Abbreviation ktok := (ctokKind * bytes)%type.
Definition erase (t : ctok) : ktok := (kind t, text t).

Section tokens.
Context (opt : options).

Fixpoint operand_toks (o : operand) : list ktok :=
  match o with
  | OInt n => [(ctInt, format_int n)]
  | OString s => [(ctString, s)]
  | OOctet data => [(ctOctet, hex_encode data)]
  | OSid sid => [(ctSID, formatSID opt sid)]
  | OLocal name => [(ctIdent, name)]
  | OUser name => [(ctAttr, str "@User." ++ name)]
  | OResource name => [(ctAttr, str "@Resource." ++ name)]
  | ODevice name => [(ctAttr, str "@Device." ++ name)]
  | OComposite items =>
      (ctLBrace, str "{")
      :: match items with
         | [] => []
         | o :: items => operand_toks o ++ concat ((fun o => (ctComma, str ",") :: operand_toks o) <$> items)
         end
      ++ [(ctRBrace, str "}")]
  end.

Definition compare_tok (op : CompareOp) : ktok :=
  (match op with
   | OpContains | OpAnyOf | OpNotContains | OpNotAnyOf => ctIdent
   | _ => ctRel
   end, Decompile.compare_text op).

Definition parens (l : list ktok) : list ktok := (ctLParen, str "(") :: l ++ [(ctRParen, str ")")].

Fixpoint cond_toks (c : cond) : list ktok :=
  match c with
  | CCompare op lhs rhs => operand_toks lhs ++ compare_tok op :: operand_toks rhs
  | CMember op o => (ctIdent, Decompile.member_text op) :: operand_toks o
  | CExists o => (ctIdent, str "Exists") :: operand_toks o
  | CNotExists o => (ctIdent, str "Not_Exists") :: operand_toks o
  | CAnd c rhs => parens (cond_toks c) ++ (ctAndAnd, str "&&") :: parens (cond_toks rhs)
  | COr c rhs => parens (cond_toks c) ++ (ctOrOr, str "||") :: parens (cond_toks rhs)
  | CNot c => (ctBang, str "!") :: parens (cond_toks c)
  end.

(** A name the text can carry: an identifier. *)
Definition is_ident (name : bytes) : bool :=
  match name with c :: s => isIdentStart c && forallb isIdentChar s | [] => false end.
(** The words that open a prefix form. *)
Definition prefix_words : list bytes := str "Exists" :: str "Not_Exists" :: memberOps.*1.

(** The leaves with a textual form of their own: the grammar has no escapes. *)
Definition leaf_text_ok (o : operand) : Prop :=
  match o with
  | OInt n => - 2 ^ 63 <= n < 2 ^ 63
  | OString s => x22 ∉ s
  | OSid sid => SID.valid sid
  | OLocal name => is_ident name = true /\ name ∉ prefix_words
  | OUser name | OResource name | ODevice name => name <> [] /\ forallb attr_char name = true
  | OOctet _ | OComposite _ => True
  end.
End tokens.

(** ** Lexing *)

(** A character that ends every open token. *)
Definition stop_char (c : byte) : bool :=
  negb (attr_char c) && negb (bool_decide (c ∈ str "=(")).
Definition stops (s : bytes) : bool := match s with c :: _ => stop_char c | [] => true end.

(** [lexes b s ks]: in front of any text (one that [stops], if [b]), [s] lexes to the tokens [ks]. *)
Definition lexes (b : bool) (s : bytes) (ks : list ktok) : Prop :=
  forall fuel i rest, (length (s ++ rest) < fuel)%nat -> (b = true -> stops rest = true) ->
  exists ts fuel', erase <$> ts = ks /\ (length rest < fuel')%nat
    /\ lex_loop fuel i (s ++ rest) = (r ← lex_loop fuel' (i + zlen s) rest; Ok (ts ++ r)).

Lemma lexes_weaken b s ks : lexes false s ks -> lexes b s ks.
Proof. intros H fuel i rest Hf _. by apply H. Qed.

Lemma lexes_nil b : lexes b [] [].
Proof.
  intros fuel i rest Hf _. exists [], fuel. split_and!; [done|done|]. rewrite Z.add_0_r.
  change ([] ++ rest) with rest. by destruct (lex_loop fuel i rest).
Qed.

Lemma lexes_app b c s ks s' ks' : lexes b s ks -> lexes c s' ks' ->
  (b = true -> (s' <> [] /\ stops s' = true) \/ (s' = [] /\ c = true)) -> lexes c (s ++ s') (ks ++ ks').
Proof.
  intros H H' Hb fuel i rest Hf Hc. rewrite <- app_assoc in *.
  destruct (H fuel i (s' ++ rest) Hf) as (ts & f1 & <- & Hf1 & ->).
  { intros Eb. destruct (Hb Eb) as [[Hne Hst]|[-> ->]]; [by destruct s'|by apply Hc]. }
  destruct (H' f1 (i + zlen s) rest Hf1 Hc) as (ts' & f2 & <- & Hf2 & ->).
  exists (ts ++ ts'), f2. split_and!; [by rewrite fmap_app|done|].
  rewrite zlen_app, Z.add_assoc. destruct (lex_loop f2 _ rest); [|done..].
  rewrite !bind_Ok. by rewrite <- app_assoc.
Qed.

(** One token, or one blank. *)
Lemma lexes_step b c s ks :
  (forall i rest, (b = true -> stops rest = true) ->
    exists tok, lex_step i c (s ++ rest) = Ok (tok, zlen (c :: s)) /\ erase <$> option_list tok = ks) ->
  lexes b (c :: s) ks.
Proof.
  intros H [|fuel] i rest Hf Hb; [lia|]. destruct (H i rest Hb) as (tok & E & Ek).
  exists (option_list tok), fuel. split_and!; [done|rewrite length_app in Hf; cbn [length] in Hf; lia|].
  change ((c :: s) ++ rest) with (c :: s ++ rest). cbn [lex_loop]. rewrite E, bind_Ok. cbn beta iota.
  change (c :: s ++ rest) with ((c :: s) ++ rest). by rewrite slice_from_app.
Qed.

Lemma span_app p s rest : forallb p s = true -> match rest with c :: _ => p c = false | [] => True end ->
  span p (s ++ rest) = s.
Proof.
  intros Hs Hr. induction s as [|c s IH]; cbn [app span].
  - destruct rest; [done|]. cbn [span]. by rewrite Hr.
  - cbn [forallb] in Hs. apply andb_true_iff in Hs as [-> Hs]. by rewrite IH.
Qed.

Lemma stops_class (p : byte -> bool) rest :
  (forall c, p c = true -> attr_char c = true) -> stops rest = true ->
  match rest with c :: _ => p c = false | [] => True end.
Proof.
  intros Hp. destruct rest as [|c rest]; [done|]. cbn [stops]. unfold stop_char.
  intros [H _]%andb_true_iff. destruct (p c) eqn:E; [|done]. by rewrite (Hp _ E) in H.
Qed.

Lemma attr_char_ident c : isIdentChar c = true -> attr_char c = true.
Proof. intros H. unfold attr_char. by rewrite H. Qed.
Lemma attr_char_num c : isNumChar c = true -> attr_char c = true.
Proof. destruct c; reflexivity || discriminate. Qed.
Lemma attr_char_hex c : isHexDigit c = true -> attr_char c = true.
Proof. destruct c; reflexivity || discriminate. Qed.

Lemma next_is_stops c rest : c ∈ str "=(" -> stops rest = true -> next_is c rest = false.
Proof.
  intros Hc. destruct rest as [|x rest]; [done|]. cbn [stops next_is]. unfold stop_char.
  intros [_ H]%andb_true_iff. apply bool_decide_eq_false_2. intros ->.
  by rewrite bool_decide_eq_true_2 in H.
Qed.

(** The fixed texts. *)
Ltac lex_fixed := apply lexes_step; intros; eexists; split; [reflexivity|reflexivity].

Lemma lexes_blank : lexes false (str " ") [].
Proof. lex_fixed. Qed.
Lemma lexes_lparen : lexes false (str "(") [(ctLParen, str "(")].
Proof. lex_fixed. Qed.
Lemma lexes_rparen : lexes false (str ")") [(ctRParen, str ")")].
Proof. lex_fixed. Qed.
Lemma lexes_lbrace : lexes false (str "{") [(ctLBrace, str "{")].
Proof. lex_fixed. Qed.
Lemma lexes_rbrace : lexes false (str "}") [(ctRBrace, str "}")].
Proof. lex_fixed. Qed.
Lemma lexes_comma : lexes false (str ",") [(ctComma, str ",")].
Proof. lex_fixed. Qed.
Lemma lexes_and : lexes false (str "&&") [(ctAndAnd, str "&&")].
Proof. lex_fixed. Qed.
Lemma lexes_or : lexes false (str "||") [(ctOrOr, str "||")].
Proof. lex_fixed. Qed.
Lemma lexes_not : lexes false (str "!(") [(ctBang, str "!"); (ctLParen, str "(")].
Proof.
  intros [|[|fuel]] i rest Hf _; [cbn in Hf; lia..|].
  exists [mkCtok ctBang i (str "!"); mkCtok ctLParen (i + 1) (str "(")], fuel.
  split_and!; [done|cbn in Hf; lia|]. change (str "!(" ++ rest) with (x21 :: x28 :: rest).
  cbn [lex_loop]. change (lex_step i x21 (x28 :: rest)) with (Ok (Some (mkCtok ctBang i (str "!")), 1)).
  rewrite bind_Ok. cbn beta iota. rewrite (slice_from_app [x21] (x28 :: rest)) by done. rewrite bind_Ok.
  cbn [lex_loop]. change (lex_step (i + 1) x28 rest) with (Ok (Some (mkCtok ctLParen (i + 1) (str "(")), 1)).
  rewrite bind_Ok. cbn beta iota. rewrite (slice_from_app [x28] rest), bind_Ok by done.
  replace (i + zlen (str "!(")) with (i + 1 + 1) by (change (zlen (str "!(")) with 2; lia).
  by destruct (lex_loop fuel _ rest).
Qed.

(** Words. *)
Lemma lex_step_ident i c s : isIdentStart c = true -> lex_step i c s =
  let word := span isIdentChar (c :: s) in
  let rest := drop (length word) (c :: s) in
  if bool_decide (word = str "SID") && next_is x28 rest then
    match cut_at x29 (drop 1 rest) with
    | Some (p, _) => Ok (Some (mkCtok ctSID i p), zlen word + 1 + zlen p + 1)
    | None => Err (Errorf "unterminated SID(...)")
    end
  else Ok (Some (mkCtok ctIdent i word), zlen word).
Proof. destruct c; intros H; discriminate H || reflexivity. Qed.

Lemma lexes_ident name : is_ident name = true -> lexes true name [(ctIdent, name)].
Proof.
  destruct name as [|c s]; [done|]. cbn [is_ident]. intros [Hc Hs]%andb_true_iff.
  apply lexes_step. intros i rest Hr. specialize (Hr eq_refl). rewrite lex_step_ident by done. cbv zeta.
  change (c :: s ++ rest) with ((c :: s) ++ rest).
  rewrite span_app; [| |by apply stops_class; [apply attr_char_ident|]].
  2: { cbn [forallb]. unfold isIdentChar at 1. by rewrite Hc, Hs. }
  rewrite drop_app_length, next_is_stops, andb_false_r by (done || (apply (bool_decide_eq_true_1 _); reflexivity)).
  eexists. split; reflexivity.
Qed.

Lemma cut_at_app c s rest : c ∉ s -> cut_at c (s ++ c :: rest) = Some (s, rest).
Proof.
  induction s as [|x s IH]; intros H; cbn [app cut_at].
  - by rewrite bool_decide_eq_true_2.
  - apply not_elem_of_cons in H as [Hx H]. rewrite bool_decide_eq_false_2 by congruence. by rewrite IH.
Qed.

Lemma lexes_sid p : x29 ∉ p -> lexes false (str "SID(" ++ p ++ str ")") [(ctSID, p)].
Proof.
  intros Hp. change (str "SID(" ++ p ++ str ")") with (x53 :: x49 :: x44 :: x28 :: p ++ [x29]).
  apply lexes_step. intros i rest _. rewrite lex_step_ident by done. cbv zeta.
  change (x53 :: (x49 :: x44 :: x28 :: p ++ [x29]) ++ rest) with (str "SID" ++ x28 :: (p ++ [x29]) ++ rest).
  rewrite span_app by done. rewrite drop_app_length, bool_decide_eq_true_2 by done.
  cbn [next_is andb]. rewrite bool_decide_eq_true_2 by done. cbn [drop].
  replace ((p ++ [x29]) ++ rest) with (p ++ x29 :: rest) by app_eq.
  rewrite drop_0, cut_at_app by done. exists (Some (mkCtok ctSID i p)). split; [|done].
  do 2 f_equal. change (zlen (str "SID")) with 3. len.
Qed.

Lemma lexes_string s : x22 ∉ s -> lexes false (Decompile.quoted s) [(ctString, s)].
Proof.
  intros Hs. change (Decompile.quoted s) with (x22 :: s ++ [x22]). apply lexes_step. intros i rest _.
  change (lex_step i x22 ((s ++ [x22]) ++ rest)) with
    (match cut_at x22 ((s ++ [x22]) ++ rest) with
     | Some (p, _) => Ok (Some (mkCtok ctString i p), 2 + zlen p)
     | None => Err (Errorf "unterminated string literal") end).
  rewrite <- app_assoc. cbn [app]. rewrite cut_at_app by done. exists (Some (mkCtok ctString i s)). split; [|done]. do 2 f_equal. len.
Qed.

Lemma lexes_octet b : lexes true (str "#" ++ hex_encode b) [(ctOctet, hex_encode b)].
Proof.
  change (str "#" ++ hex_encode b) with (x23 :: hex_encode b). apply lexes_step. intros i rest Hr.
  specialize (Hr eq_refl). change (lex_step i x23 ?s) with
    (Ok (Some (mkCtok ctOctet i (span isHexDigit s)), 1 + zlen (span isHexDigit s))).
  rewrite span_app; [| |by apply stops_class; [apply attr_char_hex|]].
  - eexists. split; [by rewrite zlen_cons|done].
  - apply forallb_forall. intros c Hc%list_elem_of_In. pose proof (hex_encode_chars b) as H.
    rewrite Forall_forall in H. apply H in Hc. unfold isHexDigit, in_range. lia.
Qed.

Lemma lexes_attr p : forallb attr_char p = true -> lexes true (str "@" ++ p) [(ctAttr, str "@" ++ p)].
Proof.
  intros Hp. change (str "@" ++ p) with (x40 :: p). apply lexes_step. intros i rest Hr. specialize (Hr eq_refl).
  change (lex_step i x40 ?s) with
    (Ok (Some (mkCtok ctAttr i (x40 :: span attr_char s)), 1 + zlen (span attr_char s))).
  rewrite span_app by (done || by apply stops_class). eexists. split; [by rewrite zlen_cons|done].
Qed.

Lemma lex_step_num i c s : bool_decide ([c] = str "-") || in_range 48 57 c = true ->
  lex_step i c s = Ok (Some (mkCtok ctInt i (c :: span isNumChar s)), 1 + zlen (span isNumChar s)).
Proof. destruct c; intros H; discriminate H || reflexivity. Qed.

Lemma lexes_int n : lexes true (format_int n) [(ctInt, format_int n)].
Proof.
  assert (exists c s, format_int n = c :: s /\ bool_decide ([c] = str "-") || in_range 48 57 c = true
    /\ forallb isNumChar s = true) as (c & s & -> & Hc & Hs).
  { assert (forall v, forallb isNumChar (format_uint 10 v) = true) as Hd.
    { intros v. apply forallb_forall. intros c Hc%list_elem_of_In. pose proof (format_uint_decimal v) as H.
      rewrite Forall_forall in H. apply H in Hc. unfold isNumChar, in_range. lia. }
    unfold format_int. destruct (n <? 0); [by eexists _, _|].
    destruct (format_uint_first n) as (c & s & E & Hc). exists c, s. split; [done|].
    specialize (Hd n). rewrite E in Hd. cbn [forallb] in Hd. apply andb_true_iff in Hd as [_ Hd].
    split; [|done]. unfold in_range. lia. }
  apply lexes_step. intros i rest Hr. specialize (Hr eq_refl). rewrite lex_step_num by done.
  rewrite span_app by (done || by apply stops_class; [apply attr_char_num|]).
  eexists. split; [by rewrite zlen_cons|done].
Qed.

Lemma lexes_compare op : lexes true (Decompile.compare_text op) [compare_tok op].
Proof.
  destruct op; try (apply lexes_ident; reflexivity); try (apply lexes_weaken; lex_fixed).
  all: match goal with |- lexes _ (Decompile.compare_text ?o) _ => pose (op := o) end; apply lexes_step; intros i rest Hr; specialize (Hr eq_refl); exists (Some (mkCtok ctRel i (Decompile.compare_text op))); split; [|reflexivity].
  all: apply (next_is_stops x3d) in Hr; [|apply (bool_decide_eq_true_1 _); reflexivity].
  all: unfold lex_step; cbn; cbn in Hr; by rewrite Hr.
Qed.

Lemma lexes_member op : lexes true (Decompile.member_text op) [(ctIdent, Decompile.member_text op)].
Proof. apply lexes_ident. by destruct op. Qed.


(** ** The text of an expression lexes to its tokens *)

Section lex_text.
Context (opt : options).

Lemma lexes_items b s ks (l : list (bytes * list ktok)) :
  lexes true s ks -> Forall (fun e => lexes true e.1 e.2) l ->
  lexes b (s ++ concat ((fun e => str ", " ++ e.1) <$> l) ++ str "}")
    (ks ++ concat ((fun e => (ctComma, str ",") :: e.2) <$> l) ++ [(ctRBrace, str "}")]).
Proof.
  intros Hs Hl. revert s ks Hs. induction Hl as [|[s' ks'] l H' _ IH]; intros s ks Hs.
  - apply lexes_weaken. apply (lexes_app true false); [done|apply lexes_rbrace|by left].
  - rewrite !fmap_cons. cbn [concat fst snd]. rewrite <- !app_assoc.
    apply (lexes_app true _ s ks); [exact Hs| |by left].
    change ((ctComma, str ",") :: ks') with ([(ctComma, str ",")] ++ [] ++ ks'). rewrite <- !app_assoc.
    change (str ", ") with (str "," ++ str " "). rewrite <- !app_assoc.
    apply (lexes_app false); [apply lexes_comma| |done].
    apply (lexes_app false _ (str " ") []); [apply lexes_blank| |done]. by apply IH.
Qed.

Lemma lexes_operand o : operand_all leaf_text_ok o ->
  lexes true (Decompile.operand_text opt o) (operand_toks opt o).
Proof.
  induction o as [n|s|d|sid|s|s|s|s|items IH] using operand_rect_items;
    cbn [operand_all leaf_text_ok Decompile.operand_text operand_toks]; intros Hok.
  - apply lexes_int.
  - by apply lexes_weaken, lexes_string.
  - apply lexes_octet.
  - apply lexes_weaken, lexes_sid. intros Hin. pose proof (formatSID_chars opt sid Hok) as H.
    rewrite forallb_forall in H. apply list_elem_of_In, H in Hin. done.
  - apply lexes_ident, Hok.
  - change (str "@User." ++ s) with (str "@" ++ str "User." ++ s). apply lexes_attr.
    rewrite forallb_app. by destruct Hok as [_ ->].
  - change (str "@Resource." ++ s) with (str "@" ++ str "Resource." ++ s). apply lexes_attr.
    rewrite forallb_app. by destruct Hok as [_ ->].
  - change (str "@Device." ++ s) with (str "@" ++ str "Device." ++ s). apply lexes_attr.
    rewrite forallb_app. by destruct Hok as [_ ->].
  - change (operand_all leaf_text_ok (OComposite items)) in Hok. apply operand_all_items in Hok.
    change ((ctLBrace, str "{") :: ?l) with ([(ctLBrace, str "{")] ++ l).
    apply (lexes_app false); [apply lexes_lbrace| |done].
    destruct items as [|o items]; [apply lexes_weaken, lexes_rbrace|].
    apply Forall_cons in IH as [IHo IH], Hok as [Ho Hok]. rewrite fmap_cons, join_str_cons, <- !app_assoc.
    set (l := (fun o => (Decompile.operand_text opt o, operand_toks opt o)) <$> items).
    assert ((fun q => str ", " ++ q) <$> (Decompile.operand_text opt <$> items) = (fun e => str ", " ++ e.1) <$> l)
      as -> by (unfold l; by rewrite <- !list_fmap_compose).
    assert ((fun o => (ctComma, str ",") :: operand_toks opt o) <$> items = (fun e => (ctComma, str ",") :: e.2) <$> l)
      as -> by (unfold l; by rewrite <- !list_fmap_compose).
    apply lexes_items; [by apply IHo|]. unfold l. apply Forall_fmap, Forall_forall. intros o' Ho'.
    rewrite Forall_forall in IH, Hok. by apply IH; [|apply Hok].
Qed.

(** A word, a blank and an operand. *)
Lemma lexes_prefix w o : lexes true w [(ctIdent, w)] -> operand_all leaf_text_ok o ->
  lexes true (w ++ str " " ++ Decompile.operand_text opt o) ((ctIdent, w) :: operand_toks opt o).
Proof.
  intros Hw Ho. apply (lexes_app true true _ [_]); [done| |by left].
  apply (lexes_app false _ (str " ") []); [apply lexes_blank|by apply lexes_operand|done].
Qed.

Lemma lexes_parens s ks : lexes true s ks -> lexes false (str "(" ++ s ++ str ")") (parens ks).
Proof.
  intros H. apply (lexes_app false _ _ [_]); [apply lexes_lparen| |done].
  apply (lexes_app true); [done|apply lexes_rparen|by left].
Qed.

Lemma lexes_infix s ks w kw s' ks' : lexes true s ks -> lexes false w [kw] -> lexes true s' ks' ->
  lexes false (str "(" ++ s ++ str ") " ++ w ++ str " (" ++ s' ++ str ")") (parens ks ++ kw :: parens ks').
Proof.
  intros H Hw H'. pose proof (lexes_parens _ _ H) as Hl. pose proof (lexes_parens _ _ H') as Hr.
  assert (str "(" ++ s ++ str ") " ++ w ++ str " (" ++ s' ++ str ")"
    = (str "(" ++ s ++ str ")") ++ str " " ++ w ++ str " " ++ str "(" ++ s' ++ str ")") as ->.
  { change (str ") ") with (str ")" ++ str " "). change (str " (") with (str " " ++ str "("). by rewrite <- !app_assoc. }
  apply (lexes_app false); [done| |done].
  apply (lexes_app false _ (str " ") []); [apply lexes_blank| |done].
  apply (lexes_app false _ w [kw]); [done| |done].
  by apply (lexes_app false _ (str " ") []); [apply lexes_blank| |].
Qed.

Lemma lexes_cond c : cond_all leaf_text_ok c -> lexes true (Decompile.cond_text opt c) (cond_toks opt c).
Proof.
  induction c as [op l r|op o|o|o|c IHc r IHr|c IHc r IHr|c IHc];
    cbn [cond_all Decompile.cond_text cond_toks]; intros Hok.
  - destruct Hok as [Hl Hr]. apply (lexes_app true true); [by apply lexes_operand| |by left].
    apply (lexes_app false _ (str " ") []); [apply lexes_blank| |done].
    apply (lexes_app true true _ [_]); [apply lexes_compare| |by left].
    apply (lexes_app false _ (str " ") []); [apply lexes_blank|by apply lexes_operand|done].
  - apply lexes_prefix; [apply lexes_member|done].
  - apply (lexes_prefix (str "Exists")); [by apply lexes_ident|done].
  - apply (lexes_prefix (str "Not_Exists")); [by apply lexes_ident|done].
  - destruct Hok as [Hl Hr]. apply lexes_weaken, (lexes_infix _ _ (str "&&")); [by apply IHc|apply lexes_and|by apply IHr].
  - destruct Hok as [Hl Hr]. apply lexes_weaken, (lexes_infix _ _ (str "||")); [by apply IHc|apply lexes_or|by apply IHr].
  - apply lexes_weaken. apply (lexes_app false _ (str "!(") [_; _]); [apply lexes_not| |done].
    apply (lexes_app true); [by apply IHc|apply lexes_rparen|by left].
Qed.

Lemma lexCondition_lexes s ks : lexes true s ks ->
  exists ts e, lexCondition s = Ok (ts ++ [e]) /\ erase <$> ts = ks /\ kind e = ctEOF.
Proof.
  intros H. destruct (H (S (length s)) 0 []) as (ts & f & E & Hf & El).
  { rewrite app_nil_r. lia. } { done. }
  rewrite app_nil_r in El. unfold lexCondition. rewrite El. destruct f as [|f]; [cbn in Hf; lia|].
  eexists ts, _. by split_and!.
Qed.
End lex_text.


(** ** The tokens of an expression parse to its bytecode *)

Section parse_toks.
Context (opt : options).

Lemma next_cons t ts : ts <> [] -> next (t :: ts) = Ok (t, ts).
Proof. by destruct ts. Qed.

(** Take a token off the front. *)
Lemma toks_cons ts k ks : erase <$> ts = k :: ks -> exists t ts', ts = t :: ts' /\ erase t = k /\ erase <$> ts' = ks.
Proof. destruct ts as [|t ts]; [done|]. rewrite fmap_cons. intros [= ? ?]. by exists t, ts. Qed.
Lemma toks_app ts ks ks' : erase <$> ts = ks ++ ks' ->
  exists l r, ts = l ++ r /\ erase <$> l = ks /\ erase <$> r = ks'.
Proof. intros (l & r & -> & -> & ->)%fmap_app_inv. by exists l, r. Qed.
Lemma erase_kind t k s : erase t = (k, s) -> kind t = k /\ text t = s.
Proof. by intros [= ? ?]. Qed.

Lemma attrOperand_user name : name <> [] -> attrOperand (str "@User." ++ name) = Ok (UserAttr name).
Proof.
  intros Hn. unfold attrOperand. change (cut_at x2e (str "@User." ++ name)) with (Some (str "@User", name)). cbn beta iota.
  rewrite (slice_mid (str "@") (str "User") (str "." ++ name)), bind_Ok by done. by rewrite bool_decide_eq_false_2.
Qed.
Lemma attrOperand_resource name : name <> [] -> attrOperand (str "@Resource." ++ name) = Ok (ResourceAttr name).
Proof.
  intros Hn. unfold attrOperand. change (cut_at x2e (str "@Resource." ++ name)) with (Some (str "@Resource", name)). cbn beta iota.
  rewrite (slice_mid (str "@") (str "Resource") (str "." ++ name)), bind_Ok by done. by rewrite bool_decide_eq_false_2.
Qed.
Lemma attrOperand_device name : name <> [] -> attrOperand (str "@Device." ++ name) = Ok (DeviceAttr name).
Proof.
  intros Hn. unfold attrOperand. change (cut_at x2e (str "@Device." ++ name)) with (Some (str "@Device", name)). cbn beta iota.
  rewrite (slice_mid (str "@") (str "Device") (str "." ++ name)), bind_Ok by done. by rewrite bool_decide_eq_false_2.
Qed.

(** The first token of an operand is none of the structural ones. *)
Definition operand_head (k : ctokKind) : bool :=
  match k with ctInt | ctString | ctOctet | ctSID | ctIdent | ctAttr | ctLBrace => true | _ => false end.
Lemma operand_toks_head o : exists k s l, operand_toks opt o = (k, s) :: l /\ operand_head k = true.
Proof. destruct o; cbn [operand_toks]; eexists _, _, _; split; reflexivity. Qed.

Definition items_toks (items : list operand) : list ktok :=
  match items with
  | [] => []
  | o :: items => operand_toks opt o ++ concat ((fun o => (ctComma, str ",") :: operand_toks opt o) <$> items)
  end ++ [(ctRBrace, str "}")].

Definition parses_operand (o : operand) : Prop :=
  forall fuel ts rest, erase <$> ts = operand_toks opt o -> rest <> [] -> (2 * length ts <= fuel)%nat ->
  parseOperand_f opt fuel (ts ++ rest) = Ok (compile_operand o, rest).

Lemma parseComposite_toks items : Forall parses_operand items ->
  forall fuel done_ ts rest, erase <$> ts = items_toks items -> rest <> [] -> (2 * length ts - 1 <= fuel)%nat ->
  parseComposite_f opt fuel done_ (ts ++ rest) = Ok (Composite (done_ ++ (compile_operand <$> items)), rest).
Proof.
  induction 1 as [|o items Ho _ IH]; intros fuel done_ ts rest Hts Hr Hf.
  { apply toks_cons in Hts as (t & ts' & -> & Et & ->%fmap_nil_inv). apply erase_kind in Et as [Ek _].
    cbn [length] in Hf. destruct fuel as [|fuel]; [lia|]. cbn [app peek parseComposite_f]. unfold parseComposite_body. cbn [app peek]. rewrite bind_Ok, Ek.
    rewrite bool_decide_eq_true_2, next_cons, bind_Ok, app_nil_r by done. done. }
  unfold items_toks in Hts. rewrite <- app_assoc in Hts. apply toks_app in Hts as (to & tr & -> & Hto & Htr).
  destruct (operand_toks_head o) as (k & s & l & El & Hk). pose proof Hto as Hto'. rewrite El in Hto'.
  apply toks_cons in Hto' as (t & to' & -> & Et & _). apply erase_kind in Et as [Ek _].
  rewrite length_app in Hf. cbn [length] in Hf.
  destruct fuel as [|fuel]; [lia|]. rewrite <- app_assoc. cbn [app peek parseComposite_f]. unfold parseComposite_body. cbn [app peek]. rewrite bind_Ok, Ek.
  rewrite !bool_decide_eq_false_2 by (intros ->; done).
  assert (tr <> []) as Htr0 by (intros ->; by destruct items).
  assert (1 <= length tr)%nat by (destruct tr; [done|cbn [length]; lia]).
  change (t :: to' ++ tr ++ rest) with ((t :: to') ++ tr ++ rest).
  rewrite (Ho fuel (t :: to') (tr ++ rest)), bind_Ok by (done || (by destruct tr) || (cbn [length]; lia)).
  cbn beta iota. destruct items as [|o' items].
  - (* the last item *)
    cbn [fmap list_fmap concat app] in Htr. specialize (IH fuel (done_ ++ [compile_operand o]) tr rest Htr Hr ltac:(lia)).
    apply toks_cons in Htr as (u & tr' & -> & Eu & ->%fmap_nil_inv). apply erase_kind in Eu as [Eu _].
    cbn [app] in IH |- *. cbn [peek]. rewrite bind_Ok, Eu, bool_decide_eq_false_2, bool_decide_eq_true_2 by done.
    cbn [negb]. rewrite bind_Ok, IH. by rewrite <- app_assoc.
  - (* a comma follows *)
    rewrite fmap_cons in Htr. cbn [concat app] in Htr.
    apply toks_cons in Htr as (u & tr' & -> & Eu & Htr). apply erase_kind in Eu as [Eu _].
    cbn [app peek]. rewrite bind_Ok, Eu, bool_decide_eq_true_2, next_cons, !bind_Ok by (done || by destruct tr').
    cbn [length] in *. rewrite (IH fuel (done_ ++ [compile_operand o]) tr' rest); [|exact Htr|done|lia].
    by rewrite <- app_assoc.
Qed.

Lemma parses_operand_ok o : operand_all leaf_text_ok o -> parses_operand o.
Proof.
  induction o as [n|s|d|sid|s|s|s|s|items IH] using operand_rect_items; intros Hok fuel ts rest Hts Hr Hf.
  all: cbn [operand_toks operand_all leaf_text_ok] in *.
  all: apply toks_cons in Hts as (t & ts' & -> & Et & Hts); apply erase_kind in Et as [Ek Es].
  all: cbn [length] in Hf; destruct fuel as [|fuel]; [lia|]; cbn [app parseOperand_f]; unfold parseOperand_body; cbn [app peek]; rewrite bind_Ok, Ek.
  all: rewrite next_cons, bind_Ok by (by destruct ts'); cbn beta iota; rewrite ?Es.
  1-8: apply fmap_nil_inv in Hts as ->; cbn [app].
  - by rewrite parse_int0_format.
  - done.
  - by rewrite hex_decode_encode.
  - by rewrite parseSIDText_format.
  - done.
  - by rewrite attrOperand_user by apply Hok.
  - by rewrite attrOperand_resource by apply Hok.
  - by rewrite attrOperand_device by apply Hok.
  - change (operand_all leaf_text_ok (OComposite items)) in Hok. apply operand_all_items in Hok.
    rewrite (parseComposite_toks items); [done| |exact Hts|done|lia].
    apply Forall_forall. intros o Ho. rewrite Forall_forall in IH, Hok. by apply IH; [|apply Hok].
Qed.

Lemma parseOperand_toks o ts rest : operand_all leaf_text_ok o -> erase <$> ts = operand_toks opt o -> rest <> [] ->
  parseOperand opt (ts ++ rest) = Ok (compile_operand o, rest).
Proof. intros Ho Hts Hr. apply parses_operand_ok; [done..|]. rewrite length_app. lia. Qed.

Lemma parseRelOp_tok op t rest : erase t = compare_tok op -> rest <> [] -> parseRelOp (t :: rest) = Ok (op, rest).
Proof.
  intros [Ek Es]%erase_kind Hr. unfold parseRelOp. rewrite next_cons, bind_Ok by done. cbn beta iota.
  rewrite Ek, Es. by destruct op.
Qed.

(** What ends an expression. *)
Definition closes (rest : list ctok) : Prop :=
  exists t r, rest = t :: r /\ (kind t = ctRParen \/ kind t = ctEOF).

Lemma closes_ne rest : closes rest -> rest <> [].
Proof. by intros (t & r & -> & _). Qed.

Lemma or_loop_closes fuel v rest : closes rest -> (0 < fuel)%nat -> or_loop opt fuel v rest = Ok (v, rest).
Proof.
  intros (t & r & -> & Hk) Hf. destruct fuel; [lia|]. cbn [peek or_loop]. unfold or_loop_body. cbn [peek]. rewrite bind_Ok.
  rewrite bool_decide_eq_false_2; [done|]. by destruct Hk as [-> | ->].
Qed.
Lemma and_loop_other fuel v t r : kind t <> ctAndAnd -> (0 < fuel)%nat -> and_loop opt fuel v (t :: r) = Ok (v, t :: r).
Proof.
  intros Hk Hf. destruct fuel; [lia|]. cbn [peek and_loop]. unfold and_loop_body. cbn [peek]. rewrite bind_Ok.
  by rewrite bool_decide_eq_false_2.
Qed.

Lemma and_loop_step fuel v t ts : kind t = ctAndAnd -> ts <> [] ->
  and_loop opt (S fuel) v (t :: ts) = '(rhs, ts) ← parseUnary opt fuel ts; and_loop opt fuel (And v rhs) ts.
Proof.
  intros Hk Hts. cbn [peek and_loop]. unfold and_loop_body. cbn [peek]. rewrite bind_Ok, bool_decide_eq_true_2 by done. by rewrite next_cons, bind_Ok.
Qed.
Lemma or_loop_step fuel v t ts : kind t = ctOrOr -> ts <> [] ->
  or_loop opt (S fuel) v (t :: ts) = '(rhs, ts) ← parseAnd opt fuel ts; or_loop opt fuel (Or v rhs) ts.
Proof.
  intros Hk Hts. cbn [peek or_loop]. unfold or_loop_body. cbn [peek]. rewrite bind_Ok, bool_decide_eq_true_2 by done. by rewrite next_cons, bind_Ok.
Qed.

(** An expression that is a single unary. *)
Lemma parseOr_unary fuel ts v rest : parseUnary opt fuel ts = Ok (v, rest) -> closes rest ->
  parseOr opt (S (S fuel)) ts = Ok (v, rest).
Proof.
  intros H Hr. assert (0 < fuel)%nat by (destruct fuel; [done|lia]).
  pose proof Hr as (t & r & -> & Hk). cbn [parseOr]. unfold parseOr_body. cbn [parseAnd]. unfold parseAnd_body. rewrite H, bind_Ok. cbn beta iota.
  rewrite and_loop_other, bind_Ok by (done || (by destruct Hk as [-> | ->])). cbn beta iota.
  apply or_loop_closes; [done|lia].
Qed.

Lemma parseUnary_term fuel ts t r v : ts = t :: r -> kind t <> ctBang ->
  parseTerm opt fuel ts = Ok v -> parseUnary opt (S fuel) ts = Ok v.
Proof.
  intros -> Hk H. cbn [peek parseUnary]. unfold parseUnary_body. cbn [peek]. rewrite bind_Ok. by rewrite bool_decide_eq_false_2.
Qed.

(** The infix relation: an operand that opens no other form, an operator, an operand. *)
Lemma parseTerm_compare fuel op l r ts rest :
  operand_all leaf_text_ok l -> operand_all leaf_text_ok r ->
  erase <$> ts = operand_toks opt l ++ compare_tok op :: operand_toks opt r -> rest <> [] -> (0 < fuel)%nat ->
  parseTerm opt fuel (ts ++ rest) = Ok (Compare op (compile_operand l) (compile_operand r), rest).
Proof.
  intros Hl Hr (tl & tr & -> & Htl & Htr)%toks_app Hrest Hf.
  apply toks_cons in Htr as (t & tr' & -> & Et & Htr).
  destruct fuel as [|fuel]; [lia|]. rewrite <- app_assoc.
  pose proof (parseOperand_toks l tl ((t :: tr') ++ rest) Hl Htl ltac:(done)) as E.
  destruct (operand_toks_head l) as (k & s & l' & El & Hk). pose proof Htl as Htl'. rewrite El in Htl'.
  apply toks_cons in Htl' as (u & tl' & -> & [Eu Es]%erase_kind & _).
  cbn [parseTerm]. unfold parseTerm_body. change (peek ((u :: tl') ++ (t :: tr') ++ rest)) with (Ok u). rewrite bind_Ok.
  rewrite bool_decide_eq_false_2 by (rewrite Eu; intros ->; done).
  assert (prefixForm u = None) as ->.
  { unfold prefixForm. case_bool_decide as Hi; [|done]. rewrite Eu in Hi. rewrite Hi in El.
    destruct l; cbn [operand_toks] in El; try discriminate El. injection El as E1 _. rewrite <- E1 in Es. rewrite Es. cbn [operand_all leaf_text_ok] in Hl.
    destruct Hl as [_ Hn]. unfold prefix_words in Hn. rewrite !not_elem_of_cons in Hn. destruct Hn as (H1 & H2 & H3).
    rewrite !bool_decide_eq_false_2 by done. destruct (assoc memberOps name) as [m|] eqn:Ea; [|done].
    apply assoc_in in Ea. destruct H3. apply list_elem_of_fmap. by exists (name, m). }
  rewrite E, bind_Ok. cbn [app]. rewrite (parseRelOp_tok op), bind_Ok by (done || by destruct tr').
  cbn beta iota. by rewrite (parseOperand_toks r), bind_Ok.
Qed.

(** A prefix form. *)
Lemma parseTerm_prefix fuel w form o ts rest :
  prefixForm (mkCtok ctIdent 0 w) = Some form -> operand_all leaf_text_ok o ->
  erase <$> ts = (ctIdent, w) :: operand_toks opt o -> rest <> [] -> (0 < fuel)%nat ->
  parseTerm opt fuel (ts ++ rest) = Ok (form (compile_operand o), rest).
Proof.
  intros Hw Ho (t & ts' & -> & [Ek Es]%erase_kind & Hts)%toks_cons Hr Hf. destruct fuel as [|fuel]; [lia|].
  cbn [app peek parseTerm]. unfold parseTerm_body. cbn [app peek]. rewrite bind_Ok, bool_decide_eq_false_2 by (by rewrite Ek).
  assert (prefixForm t = Some form) as ->.
  { rewrite <- Hw. unfold prefixForm. cbn [kind text]. by rewrite Ek, Es. }
  rewrite next_cons, bind_Ok by (by destruct ts'). cbn beta iota. by rewrite (parseOperand_toks o), bind_Ok.
Qed.

Definition parses_cond (c : cond) : Prop :=
  forall fuel ts rest, erase <$> ts = cond_toks opt c -> closes rest -> (4 * length ts + 4 <= fuel)%nat ->
  parseOr opt fuel (ts ++ rest) = Ok (compile c, rest).

Lemma parseTerm_parens c fuel ts rest : parses_cond c ->
  erase <$> ts = parens (cond_toks opt c) -> rest <> [] -> (4 * length ts <= fuel)%nat ->
  parseTerm opt fuel (ts ++ rest) = Ok (compile c, rest).
Proof.
  intros Hc (t & ts1 & -> & [Ek _]%erase_kind & (tc & tr & -> & Htc & Htr)%toks_app)%toks_cons Hr Hf.
  apply toks_cons in Htr as (u & tr' & -> & [Eu _]%erase_kind & ->%fmap_nil_inv).
  cbn [length] in Hf. rewrite length_app in Hf. cbn [length] in Hf. destruct fuel as [|fuel]; [lia|].
  cbn [app peek parseTerm]. unfold parseTerm_body. cbn [app peek]. rewrite bind_Ok, Ek, bool_decide_eq_true_2 by done. rewrite <- app_assoc. cbn [app].
  rewrite next_cons, bind_Ok by (by destruct tc). cbn beta iota.
  rewrite (Hc fuel tc (u :: rest)), bind_Ok; [|done|by exists u, rest; auto|lia].
  cbn beta iota. cbn [peek]. rewrite bind_Ok, Eu, bool_decide_eq_true_2 by done. cbn [negb].
  by rewrite next_cons, bind_Ok.
Qed.

Lemma parseUnary_parens c fuel ts rest : parses_cond c ->
  erase <$> ts = parens (cond_toks opt c) -> rest <> [] -> (4 * length ts + 1 <= fuel)%nat ->
  parseUnary opt fuel (ts ++ rest) = Ok (compile c, rest).
Proof.
  intros Hc Hts Hr Hf. pose proof Hts as Hts'. apply toks_cons in Hts' as (t & ts' & -> & [Ek _]%erase_kind & _).
  destruct fuel as [|fuel]; [lia|]. eapply parseUnary_term; [reflexivity|by rewrite Ek|].
  apply (parseTerm_parens c fuel (t :: ts')); [done..|lia].
Qed.

Lemma parses_infix (conj : bool) c r fuel ts rest : parses_cond c -> parses_cond r ->
  erase <$> ts = parens (cond_toks opt c) ++ (if conj then (ctAndAnd, str "&&") else (ctOrOr, str "||")) :: parens (cond_toks opt r) ->
  closes rest -> (4 * length ts + 4 <= fuel)%nat ->
  parseOr opt fuel (ts ++ rest) = Ok ((if conj then And else Or) (compile c) (compile r), rest).
Proof.
  intros Hc Hr (tl & tr & -> & Htl & (t & tr' & -> & Et & Htr)%toks_cons)%toks_app Hrest Hf.
  rewrite length_app in Hf. cbn [length] in Hf. rewrite <- app_assoc. cbn [app].
  pose proof (closes_ne _ Hrest) as Hne. assert (t :: tr' ++ rest <> []) as Hne' by done.
  assert (tr' ++ rest <> []) as Hne'' by (by destruct tr').
  assert (length tl = 0 -> False)%nat as Hl0 by (destruct tl; done).
  assert (length tr' = 0 -> False)%nat as Hr0 by (destruct tr'; done).
  destruct fuel as [|[|[|[|fuel]]]]; [lia..|].
  destruct Hrest as (u & rest' & -> & Hu). destruct conj; apply erase_kind in Et as [Et _].
  - cbn [parseOr]. unfold parseOr_body. cbn [parseAnd]. unfold parseAnd_body. rewrite (parseUnary_parens c _ tl), bind_Ok by (done || lia). cbn beta iota.
    rewrite and_loop_step by done.
    rewrite (parseUnary_parens r _ tr'), bind_Ok by (done || lia). cbn beta iota.
    rewrite and_loop_other, bind_Ok by (lia || (by destruct Hu as [-> | ->])). cbn beta iota.
    apply or_loop_closes; [by exists u, rest'|lia].
  - cbn [parseOr]. unfold parseOr_body. cbn [parseAnd]. unfold parseAnd_body. rewrite (parseUnary_parens c _ tl), bind_Ok by (done || lia). cbn beta iota.
    rewrite and_loop_other, bind_Ok by (lia || by rewrite Et). cbn beta iota.
    rewrite or_loop_step by done. cbn [parseAnd]. unfold parseAnd_body. rewrite (parseUnary_parens r _ tr'), bind_Ok by (done || lia). cbn beta iota.
    rewrite and_loop_other, bind_Ok by (lia || (by destruct Hu as [-> | ->])). cbn beta iota.
    apply or_loop_closes; [by exists u, rest'|lia].
Qed.

Lemma parses_prefix fuel w form o ts rest :
  prefixForm (mkCtok ctIdent 0 w) = Some form -> operand_all leaf_text_ok o ->
  erase <$> ts = (ctIdent, w) :: operand_toks opt o -> closes rest -> (4 <= fuel)%nat ->
  parseOr opt fuel (ts ++ rest) = Ok (form (compile_operand o), rest).
Proof.
  intros Hw Ho Hts Hr Hf. destruct fuel as [|[|[|fuel]]]; [lia..|]. apply parseOr_unary; [|done].
  pose proof Hts as Hts'. apply toks_cons in Hts' as (t & ts' & -> & [Ek _]%erase_kind & _).
  eapply parseUnary_term; [reflexivity|by rewrite Ek|].
  apply (parseTerm_prefix fuel w form o (t :: ts')); [done..|by apply closes_ne|lia].
Qed.

Lemma parses_cond_ok c : cond_all leaf_text_ok c -> parses_cond c.
Proof.
  induction c as [op l r|op o|o|o|c IHc r IHr|c IHc r IHr|c IHc];
    cbn [cond_all]; intros Hok fuel ts rest Hts Hr Hf; cbn [cond_toks compile] in *.
  - destruct Hok as [Hl Hrr]. destruct fuel as [|[|[|fuel]]]; [lia..|]. apply parseOr_unary; [|done].
    destruct (operand_toks_head l) as (k & s & l' & El & Hk). pose proof Hts as Hts'. rewrite El in Hts'.
    apply toks_cons in Hts' as (t & ts' & -> & [Ek _]%erase_kind & _).
    eapply parseUnary_term; [reflexivity|rewrite Ek; by intros ->|].
    apply (parseTerm_compare fuel op l r (t :: ts')); [done..|by apply closes_ne|lia].
  - apply (parses_prefix fuel (Decompile.member_text op)); [by destruct op|done..|lia].
  - apply (parses_prefix fuel (str "Exists")); [done..|lia].
  - apply (parses_prefix fuel (str "Not_Exists")); [done..|lia].
  - destruct Hok. apply (parses_infix true); auto.
  - destruct Hok. apply (parses_infix false); auto.
  - apply toks_cons in Hts as (t & ts' & -> & [Ek _]%erase_kind & Hts). cbn [length] in Hf.
    destruct fuel as [|[|[|fuel]]]; [lia..|]. apply parseOr_unary; [|done].
    cbn [app peek parseUnary]. unfold parseUnary_body. cbn [app peek]. rewrite bind_Ok, Ek, bool_decide_eq_true_2 by done.
    rewrite next_cons, bind_Ok by (by destruct ts'). cbn beta iota.
    rewrite (parseUnary_parens c), bind_Ok; [done|by apply IHc|done|by apply closes_ne|lia].
Qed.

(** From the tokens of a text to the result of the parser. *)
Lemma parseConditionText_lexed s ks v : lexes true s ks ->
  (forall fuel ts rest, erase <$> ts = ks -> closes rest -> (4 * length ts + 4 <= fuel)%nat ->
     parseOr opt fuel (ts ++ rest) = Ok (v, rest)) ->
  parseConditionText opt s = Ok v.
Proof.
  intros Hs Hv. destruct (lexCondition_lexes s ks Hs) as (ts & e & E & Hts & He).
  unfold parseConditionText. rewrite E, bind_Ok. unfold parseExpr.
  rewrite Hv, bind_Ok; [|done|by exists e, []; auto|rewrite length_app; lia].
  cbn beta iota. cbn [peek]. by rewrite bind_Ok, He, bool_decide_eq_true_2.
Qed.

Lemma parseConditionText_text c : cond_all leaf_text_ok c ->
  parseConditionText opt (Decompile.cond_text opt c) = Ok (compile c).
Proof.
  intros Hok. eapply parseConditionText_lexed; [by apply lexes_cond|]. intros fuel ts rest. by apply parses_cond_ok.
Qed.

(** The form an ACE holds: the expression in parentheses. *)
Lemma parseConditionText_enclosed c : cond_all leaf_text_ok c ->
  parseConditionText opt (str "(" ++ Decompile.cond_text opt c ++ str ")") = Ok (compile c).
Proof.
  intros Hok. eapply parseConditionText_lexed; [by apply lexes_weaken, lexes_parens, lexes_cond|].
  intros fuel ts rest Hts Hr Hf. destruct fuel as [|[|[|fuel]]]; [lia..|]. apply parseOr_unary; [|done].
  destruct ts as [|t ts]; [done|]. cbn [length] in Hf.
  apply (parseUnary_parens c); [by apply parses_cond_ok|done|by apply closes_ne|cbn [length]; lia].
Qed.
End parse_toks.


(** ** On any text the parser finishes, with an error or the bytecode of an expression *)

(** What the lexer promises to the parser: an EOF at the end and nowhere else, and attribute tokens that
    start with their sign. *)
Definition tok_ok (t : ctok) : Prop :=
  kind t <> ctEOF /\ (kind t = ctAttr -> exists p, text t = x40 :: p).
Definition toks_ok (ts : list ctok) : Prop :=
  exists l e, ts = l ++ [e] /\ kind e = ctEOF /\ Forall tok_ok l.

Lemma toks_ok_cons t ts : tok_ok t -> toks_ok ts -> toks_ok (t :: ts).
Proof. intros Ht (l & e & -> & He & Hl). exists (t :: l), e. split_and!; [done|done|by constructor]. Qed.

Lemma length_span p s : (length (span p s) <= length s)%nat.
Proof. induction s as [|c s IH]; cbn [span]; [done|]. destruct (p c); cbn [length]; lia. Qed.
Lemma zlen_span p s : zlen (span p s) <= zlen s.
Proof. unfold zlen. pose proof (length_span p s). lia. Qed.

Lemma lex_step_ok i c s : match lex_step i c s with
  | Ok (tok, n) => 1 <= n <= zlen (c :: s) /\ Forall tok_ok (option_list tok)
  | Err _ => True
  | Panic => False
  end.
Proof.
  pose proof (zlen_nonneg s). rewrite zlen_cons.
  assert (forall k t, k <> ctEOF -> k <> ctAttr -> Forall tok_ok (option_list (Some (mkCtok k i t)))) as Hk.
  { intros k t H1 H2. apply Forall_singleton. by split. }
  assert (forall x, next_is x s = true -> 2 <= 1 + zlen s) as Hn by (intros x; destruct s; [done|len]).
  unfold lex_step. cbv zeta.
  repeat match goal with
  | |- match (if ?c then _ else _) with _ => _ end =>
      lazymatch c with context [next_is _ (drop _ _)] => fail | _ => destruct c eqn:? end
  | |- match match cut_at ?x s with _ => _ end with _ => _ end => destruct (cut_at x s) as [[p q]|] eqn:Hc
  end; try exact I.
  all: try (split; [lia|by apply Hk || apply Forall_nil_2]).
  all: try (split; [match goal with H : next_is _ _ = true |- _ => apply Hn in H end; lia|by apply Hk]).
  - apply cut_at_inv in Hc as [-> _]. split; [len|by apply Hk].
  - split; [pose proof (zlen_span isHexDigit s); pose proof (zlen_nonneg (span isHexDigit s)); lia|by apply Hk].
  - split; [pose proof (zlen_span attr_char s); pose proof (zlen_nonneg (span attr_char s)); lia|].
    apply Forall_singleton. split; [done|]. intros _. eexists. cbn [text].
    match goal with H : bool_decide ([c] = str "@") = true |- _ => apply bool_decide_eq_true in H; injection H as -> end.
    reflexivity.
  - split; [pose proof (zlen_span isNumChar s); pose proof (zlen_nonneg (span isNumChar s)); lia|by apply Hk].
  - set (word := span isIdentChar (c :: s)). set (rest := drop (length word) (c :: s)).
    assert (zlen word + zlen rest = 1 + zlen s) as Hl.
    { unfold rest. rewrite zlen_drop, zlen_cons. pose proof (zlen_span isIdentChar (c :: s)) as Hw. fold word in Hw.
      rewrite zlen_cons in Hw. unfold zlen in *. lia. }
    assert (1 <= zlen word) as Hw1.
    { unfold word. cbn [span]. unfold isIdentChar at 1. match goal with H : isIdentStart c = true |- _ => rewrite H end.
      cbn [orb]. len. }
    pose proof (zlen_nonneg rest). destruct (bool_decide _ && _) eqn:E; [|split; [lia|by apply Hk]].
    apply andb_true_iff in E as [_ E]. destruct rest as [|x rest']; [done|]. cbn [drop].
    rewrite drop_0. destruct (cut_at x29 rest') as [[p q]|] eqn:Hc; [|done].
    apply cut_at_inv in Hc as [-> _]. split; [len|by apply Hk].
Qed.

Lemma lex_loop_ok fuel i s : (length s < fuel)%nat ->
  match lex_loop fuel i s with Ok ts => toks_ok ts | Err _ => True | Panic => False end.
Proof.
  revert i s. induction fuel as [|fuel IH]; intros i s Hf; [lia|]. cbn [lex_loop].
  destruct s as [|c s]; [exists [], (mkCtok ctEOF i []); by split_and!|]. cbn [length] in Hf.
  pose proof (lex_step_ok i c s) as H. destruct (lex_step i c s) as [[tok n]|e|]; [|done..].
  destruct H as [Hn Ht]. rewrite bind_Ok. cbn beta iota. rewrite slice_from_ok, bind_Ok by lia.
  specialize (IH (i + n) (drop (Z.to_nat n) (c :: s)) ltac:(rewrite length_drop; cbn [length]; lia)).
  destruct (lex_loop fuel _ _) as [ts|e|]; [|done..]. rewrite bind_Ok.
  destruct tok as [t|]; [|done]. change (Forall tok_ok [t]) in Ht. apply Forall_cons in Ht as [Ht _].
  by apply toks_ok_cons.
Qed.

Section sound.
Context (opt : options) (Hopt : options_ok opt).

(** What the parser guarantees of a leaf: the integer is an int64, the SID one of the package. *)
Definition leaf_sane (o : operand) : Prop :=
  match o with
  | OInt n => - 2 ^ 63 <= n < 2 ^ 63
  | OSid sid => SID.valid sid
  | _ => True
  end.
Definition is_operand (b : Operand) : Prop := exists o, b = compile_operand o /\ operand_all leaf_sane o.
Definition is_cond (b : Condition) : Prop := exists c, b = compile c /\ cond_all leaf_sane c.

(** [steps P k ts m]: from the tokens [ts], [m] does not panic, and when it succeeds its value satisfies [P]
    and at least [k] tokens are consumed. *)
Definition steps {A} (P : A -> Prop) (k : nat) (ts : list ctok) (m : outcome (A * list ctok)) : Prop :=
  match m with
  | Ok (a, ts') => P a /\ toks_ok ts' /\ (length ts' + k <= length ts)%nat
  | Err _ => True
  | Panic => False
  end.

Lemma steps_bind {A B} (P : A -> Prop) (Q : B -> Prop) k j ts m (f : A * list ctok -> outcome (B * list ctok)) :
  steps P k ts m ->
  (forall a ts', P a -> toks_ok ts' -> (length ts' + k <= length ts)%nat -> steps Q j ts' (f (a, ts'))) ->
  steps Q (k + j) ts (m ≫= f).
Proof.
  destruct m as [[a ts']|e|]; cbn [steps]; [|done..]. intros (Ha & Ht & Hl) H. rewrite bind_Ok.
  specialize (H a ts' Ha Ht Hl). unfold steps in *. destruct (f (a, ts')) as [[b ts'']|e|]; [|done..].
  destruct H as (? & ? & ?). split_and!; [done|done|lia].
Qed.
Lemma steps_weaken {A} (P Q : A -> Prop) k j ts m : steps P k ts m -> (forall a, P a -> Q a) -> (j <= k)%nat -> steps Q j ts m.
Proof. destruct m as [[a ts']|e|]; cbn [steps]; [|done..]. intros (? & ? & ?) HPQ Hj. split_and!; [auto|done|lia]. Qed.
Lemma steps_ret {A} (P : A -> Prop) a ts : P a -> toks_ok ts -> steps P 0 ts (Ok (a, ts)).
Proof. cbn [steps]. intros. split_and!; [done|done|lia]. Qed.

Lemma steps_longer {A} (P : A -> Prop) k ts ts' m : (length ts <= length ts')%nat -> steps P k ts m -> steps P k ts' m.
Proof. destruct m as [[a ts'']|e|]; cbn [steps]; [|done..]. intros ? (? & ? & ?). split_and!; [done|done|lia]. Qed.

Lemma toks_ok_peek ts : toks_ok ts -> exists t, peek ts = Ok t /\ (1 <= length ts)%nat
  /\ (kind t <> ctEOF -> tok_ok t /\ exists ts', ts = t :: ts' /\ toks_ok ts' /\ next ts = Ok (t, ts')).
Proof.
  intros (l & e & -> & He & Hl). destruct l as [|t l].
  - exists e. split_and!; [done|cbn [app length]; lia|done].
  - apply Forall_cons in Hl as [Ht Hl]. exists t. split_and!; [done|cbn [app length]; lia|].
    intros _. split; [done|]. exists (l ++ [e]). split_and!; [done|by exists l, e|]. cbn [app]. apply next_cons.
    by destruct l.
Qed.

(** [next], when the token looked at is not the EOF. *)
Lemma steps_next {B} (Q : B -> Prop) j t ts (f : ctok * list ctok -> outcome (B * list ctok)) :
  toks_ok ts -> peek ts = Ok t -> kind t <> ctEOF ->
  (forall ts', toks_ok ts' -> (S (length ts') = length ts)%nat -> steps Q j ts' (f (t, ts'))) ->
  steps Q (S j) ts (next ts ≫= f).
Proof.
  intros Hts Hp Hk Hf. destruct (toks_ok_peek ts Hts) as (t' & Hp' & _ & H). assert (t' = t) as -> by congruence.
  destruct (H Hk) as (_ & ts' & -> & Hts' & ->). rewrite bind_Ok. specialize (Hf ts' Hts' eq_refl).
  unfold steps in *. destruct (f (t, ts')) as [[b ts'']|e|]; [|done..]. cbn [length]. destruct Hf as (? & ? & ?).
  split_and!; [done|done|lia].
Qed.

Lemma attrOperand_ok p : match attrOperand (x40 :: p) with Ok o => is_operand o | Err _ => True | Panic => False end.
Proof.
  unfold attrOperand. destruct (cut_at x2e (x40 :: p)) as [[q name]|] eqn:E; [|done].
  pose proof (cut_at_inv _ _ _ _ E) as [Eq _]. destruct q as [|y q]; [done|]. cbn [app] in Eq. injection Eq as <- Eq.
  rewrite Eq. rewrite (slice_is _ [x40] q (x2e :: name)) by (done || len). rewrite bind_Ok.
  case_bool_decide; [exact I|]. case_bool_decide; [exists (OUser name); by split|].
  case_bool_decide; [exists (ODevice name); by split|]. case_bool_decide; [exists (OResource name); by split|exact I].
Qed.

Lemma Forall_is_operand items : Forall is_operand items ->
  exists os, items = compile_operand <$> os /\ Forall (operand_all leaf_sane) os.
Proof.
  induction 1 as [|item items (o & -> & Ho) _ (os & -> & Hos)]; [by exists []|].
  exists (o :: os). split; [done|by constructor].
Qed.

Lemma parseOperand_sound fuel :
  (forall ts, toks_ok ts -> (2 * length ts <= fuel)%nat -> steps is_operand 1 ts (parseOperand_f opt fuel ts))
  /\ (forall items ts, Forall is_operand items -> toks_ok ts -> (2 * length ts + 1 <= fuel)%nat ->
        steps is_operand 1 ts (parseComposite_f opt fuel items ts)).
Proof.
  induction fuel as [|fuel [IHo IHc]].
  { split; [|intros; lia]. intros ts (l & e & -> & _) Hf. rewrite length_app in Hf. cbn [length] in Hf. lia. }
  split.
  - intros ts Hts Hf. destruct (toks_ok_peek ts Hts) as (t & Hp & Hl & Ht). cbn [parseOperand_f]. unfold parseOperand_body. rewrite Hp, bind_Ok.
    assert (kind t <> ctEOF -> forall o, is_operand o -> steps is_operand 1 ts ('(_, ts) ← next ts; Ok (o, ts))) as Hret.
    { intros Hk o Ho. eapply (steps_next _ 0); [done..|]. intros ts' Hts' _. cbn beta iota. by apply steps_ret. }
    destruct (kind t) eqn:Hk; try exact I.
    + eapply (steps_next _ 0); [done|done|by rewrite Hk|]. intros ts' Hts' Hlen. cbn beta iota.
      eapply steps_weaken; [apply (IHc [] ts'); [by constructor|done|lia]|done|lia].
    + apply Hret; [done|]. exists (OLocal (text t)). by split.
    + destruct Ht as [[_ Ha] _]; [done|]. destruct (Ha Hk) as [p Ep]. rewrite Ep.
      eapply (steps_next _ 0); [done|done|by rewrite Hk|]. intros ts' Hts' _. cbn beta iota.
      pose proof (attrOperand_ok p) as Ho. destruct (attrOperand _) as [o|e|]; [|done..]. rewrite bind_Ok. by apply steps_ret.
    + eapply (steps_next _ 0); [done|done|by rewrite Hk|]. intros ts' Hts' _. cbn beta iota.
      destruct (parse_int0 (text t)) as [n|] eqn:En; [|exact I]. apply steps_ret; [|done].
      exists (OInt n). split; [done|by apply parse_int0_bound in En].
    + apply Hret; [done|]. exists (OString (text t)). by split.
    + eapply (steps_next _ 0); [done|done|by rewrite Hk|]. intros ts' Hts' _. cbn beta iota.
      pose proof (parseSIDText_ok opt (text t) Hopt) as Hs. destruct (parseSIDText opt (text t)) as [sid|e|]; [|done..].
      apply steps_ret; [|done]. exists (OSid sid). by split.
    + eapply (steps_next _ 0); [done|done|by rewrite Hk|]. intros ts' Hts' _. cbn beta iota.
      destruct (hex_decode (text t)) as [raw|]; [|exact I]. apply steps_ret; [|done]. exists (OOctet raw). by split.
  - intros items ts Hi Hts Hf. destruct (toks_ok_peek ts Hts) as (t & Hp & Hl & Ht).
    cbn [parseComposite_f]. unfold parseComposite_body. rewrite Hp, bind_Ok. case_bool_decide as Hk.
    { eapply (steps_next _ 0); [done|done|by rewrite Hk|]. intros ts' Hts' _. cbn beta iota.
      apply steps_ret; [|done]. apply Forall_is_operand in Hi as (os & -> & Hos).
      exists (OComposite os). split; [done|]. by apply operand_all_items. }
    case_bool_decide as Hk'; [exact I|].
    apply (steps_bind is_operand is_operand 1 0); [apply IHo; [done|lia]|]. intros item ts1 Hitem Hts1 Hl1. cbn beta iota.
    destruct (toks_ok_peek ts1 Hts1) as (t1 & Hp1 & _ & Ht1). rewrite Hp1, bind_Ok.
    assert (Forall is_operand (items ++ [item])) as Hi' by (by apply Forall_app_2; [|constructor]).
    case_bool_decide as Hc.
    + destruct Ht1 as (_ & ts2 & -> & Hts2 & ->); [by rewrite Hc|]. rewrite !bind_Ok. cbn [length] in Hl1.
      eapply steps_weaken; [eapply steps_longer, (IHc _ ts2); [|done|done|]|done|]; cbn [length]; lia.
    + destruct (negb _) eqn:Hn; [exact I|]. rewrite bind_Ok.
      eapply steps_weaken; [apply (IHc _ ts1); [done|done|lia]|done|lia].
Qed.

Lemma parseOperand_steps ts : toks_ok ts -> steps is_operand 1 ts (parseOperand opt ts).
Proof. intros Hts. apply (proj1 (parseOperand_sound (2 * length ts))); [done|lia]. Qed.

Lemma parseRelOp_steps ts : toks_ok ts -> steps (fun _ => True) 1 ts (parseRelOp ts).
Proof.
  intros Hts. destruct (toks_ok_peek ts Hts) as (t & Hp & Hl & Ht). unfold parseRelOp.
  destruct (decide (kind t = ctEOF)) as [Hk|Hk].
  - assert (exists r, next ts = Ok (t, r)) as [r ->].
    { destruct ts as [|u [|v ts]]; [done|..]; cbn [peek] in Hp; apply Ok_inj in Hp as ->; by eexists. }
    rewrite bind_Ok. cbn beta iota. by rewrite Hk.
  - eapply (steps_next _ 0); [done..|]. intros ts' Hts' _. cbn beta iota.
    destruct (kind t); try exact I; [destruct (assoc relSymbols _)|destruct (assoc relKeywords _)]; try exact I;
      by apply steps_ret.
Qed.

Lemma prefixForm_sound t form o : prefixForm t = Some form -> is_operand o -> is_cond (form o).
Proof.
  unfold prefixForm. case_bool_decide; [|done]. intros Hf (o' & -> & Ho).
  case_bool_decide; [injection Hf as <-; exists (CExists o'); by split|].
  case_bool_decide; [injection Hf as <-; exists (CNotExists o'); by split|].
  destruct (assoc memberOps (text t)) as [m|]; [|done]. cbn [fmap option_fmap option_map] in Hf. injection Hf as <-.
  exists (CMember m o'). by split.
Qed.

Lemma is_cond_infix (conj : bool) a b : is_cond a -> is_cond b -> is_cond ((if conj then And else Or) a b).
Proof.
  intros (c & -> & Hc) (r & -> & Hr). destruct conj; [exists (CAnd c r)|exists (COr c r)]; by split_and!.
Qed.

(** The fuel each procedure needs on [n] tokens; it drops along every call. *)
Lemma parse_sound fuel :
  (forall ts, toks_ok ts -> (4 * length ts + 4 <= fuel)%nat -> steps is_cond 1 ts (parseOr opt fuel ts))
  /\ (forall a ts, is_cond a -> toks_ok ts -> (4 * length ts + 4 <= fuel)%nat -> steps is_cond 0 ts (or_loop opt fuel a ts))
  /\ (forall ts, toks_ok ts -> (4 * length ts + 3 <= fuel)%nat -> steps is_cond 1 ts (parseAnd opt fuel ts))
  /\ (forall a ts, is_cond a -> toks_ok ts -> (4 * length ts + 3 <= fuel)%nat -> steps is_cond 0 ts (and_loop opt fuel a ts))
  /\ (forall ts, toks_ok ts -> (4 * length ts + 2 <= fuel)%nat -> steps is_cond 1 ts (parseUnary opt fuel ts))
  /\ (forall ts, toks_ok ts -> (4 * length ts + 1 <= fuel)%nat -> steps is_cond 1 ts (parseTerm opt fuel ts)).
Proof.
  induction fuel as [|fuel (IHor & IHol & IHand & IHal & IHun & IHte)].
  { split_and!; intros; lia. }
  split_and!.
  - intros ts Hts Hf. cbn [parseOr]. unfold parseOr_body. apply (steps_bind is_cond is_cond 1 0); [apply IHand; [done|lia]|].
    intros a ts1 Ha Hts1 Hl. apply IHol; [done|done|lia].
  - intros a ts Ha Hts Hf. destruct (toks_ok_peek ts Hts) as (t & Hp & _ & _). cbn [or_loop]. unfold or_loop_body. rewrite Hp, bind_Ok.
    case_bool_decide as Hk; [|by apply steps_ret].
    eapply (steps_weaken _ _ 2 0); [|done|lia]. eapply (steps_next _ 1); [done|done|by rewrite Hk|]. intros ts1 Hts1 Hl.
    cbn beta iota. apply (steps_bind is_cond is_cond 1 0); [apply IHand; [done|lia]|].
    intros b ts2 Hb Hts2 Hl2. apply IHol; [by apply (is_cond_infix false)|done|lia].
  - intros ts Hts Hf. cbn [parseAnd]. unfold parseAnd_body. apply (steps_bind is_cond is_cond 1 0); [apply IHun; [done|lia]|].
    intros a ts1 Ha Hts1 Hl. apply IHal; [done|done|lia].
  - intros a ts Ha Hts Hf. destruct (toks_ok_peek ts Hts) as (t & Hp & _ & _). cbn [and_loop]. unfold and_loop_body. rewrite Hp, bind_Ok.
    case_bool_decide as Hk; [|by apply steps_ret].
    eapply (steps_weaken _ _ 2 0); [|done|lia]. eapply (steps_next _ 1); [done|done|by rewrite Hk|]. intros ts1 Hts1 Hl.
    cbn beta iota. apply (steps_bind is_cond is_cond 1 0); [apply IHun; [done|lia]|].
    intros b ts2 Hb Hts2 Hl2. apply IHal; [by apply (is_cond_infix true)|done|lia].
  - intros ts Hts Hf. destruct (toks_ok_peek ts Hts) as (t & Hp & _ & _). cbn [parseUnary]. unfold parseUnary_body. rewrite Hp, bind_Ok.
    case_bool_decide as Hk; [|apply IHte; [done|lia]].
    eapply (steps_weaken _ _ 2 1); [|done|lia]. eapply (steps_next _ 1); [done|done|by rewrite Hk|]. intros ts1 Hts1 Hl.
    cbn beta iota. apply (steps_bind is_cond is_cond 1 0); [apply IHun; [done|lia]|].
    intros b ts2 (c & -> & Hc) Hts2 Hl2. apply steps_ret; [|done]. exists (CNot c). by split.
  - intros ts Hts Hf. destruct (toks_ok_peek ts Hts) as (t & Hp & _ & _). cbn [parseTerm]. unfold parseTerm_body. rewrite Hp, bind_Ok.
    case_bool_decide as Hk; [|destruct (prefixForm t) as [form|] eqn:Hform].
    + eapply (steps_weaken _ _ 2 1); [|done|lia]. eapply (steps_next _ 1); [done|done|by rewrite Hk|]. intros ts1 Hts1 Hl.
      cbn beta iota. apply (steps_bind is_cond is_cond 1 0); [apply IHor; [done|lia]|].
      intros b ts2 Hb Hts2 Hl2. cbn beta iota. destruct (toks_ok_peek ts2 Hts2) as (u & Hu & _ & _). rewrite Hu, bind_Ok.
      case_bool_decide as Hku; [|exact I]. cbn [negb]. eapply (steps_weaken _ _ 1 0); [|done|lia].
      eapply (steps_next _ 0); [done|done|by rewrite Hku|]. intros ts3 Hts3 _. by apply steps_ret.
    + assert (kind t <> ctEOF) as Hne.
      { unfold prefixForm in Hform. case_bool_decide as Hi; [by rewrite Hi|done]. }
      eapply (steps_weaken _ _ 2 1); [|done|lia]. eapply (steps_next _ 1); [done..|]. intros ts1 Hts1 Hl.
      cbn beta iota. apply (steps_bind is_operand is_cond 1 0); [by apply parseOperand_steps|].
      intros o ts2 Ho Hts2 _. apply steps_ret; [by eapply prefixForm_sound|done].
    + eapply (steps_weaken _ _ 3 1); [|done|lia].
      apply (steps_bind is_operand is_cond 1 2); [by apply parseOperand_steps|]. intros l ts1 Hl Hts1 _. cbn beta iota.
      apply (steps_bind (fun _ => True) is_cond 1 1); [by apply parseRelOp_steps|]. intros op ts2 _ Hts2 _. cbn beta iota.
      apply (steps_bind is_operand is_cond 1 0); [by apply parseOperand_steps|]. intros r ts3 Hr Hts3 _.
      apply steps_ret; [|done]. destruct Hl as (l' & -> & Hl), Hr as (r' & -> & Hr).
      exists (CCompare op l' r'). by split_and!.
Qed.

Lemma parseConditionText_steps s :
  match parseConditionText opt s with Ok c => is_cond c | Err _ => True | Panic => False end.
Proof.
  unfold parseConditionText, lexCondition. pose proof (lex_loop_ok (S (length s)) 0 s ltac:(lia)) as H.
  destruct (lex_loop _ 0 s) as [ts|e|]; [|done..]. rewrite bind_Ok. unfold parseExpr.
  pose proof (proj1 (parse_sound (4 * length ts + 4)) ts H ltac:(lia)) as Hs.
  destruct (parseOr _ _ ts) as [[c ts']|e|]; [|done..]. destruct Hs as (Hc & Hts' & _).
  rewrite bind_Ok. cbn beta iota. destruct (toks_ok_peek ts' Hts') as (t & -> & _ & _). rewrite bind_Ok.
  by destruct (negb _).
Qed.
End sound.


(** ** Properties *)

Lemma noOptions_ok : options_ok noOptions.
Proof. split; by left. Qed.

(** C14: the condition compiler is total, emits only well-formed bytecode, and compiles the text of an expression to that
    expression.  On any text and under any
    resolution context made of SIDs of the package, lexing and parsing finish (the recursion is
    bounded by the number of tokens) without a panic, and the result is an error or the bytecode of some expression
    tree whose integers are int64 and whose SIDs are valid, so that no accepted text can produce a
    token stream the evaluator would misread.  For every expression whose leaves
    have a textual form (int64 integers, strings without a double quote, valid SIDs, identifiers that
    are not operator words, attribute names of name characters; composites nested to any depth),
    [parseConditionText] compiles its text to exactly the bytecode of the expression, under any
    resolution context: every operator, precedence by parentheses, operand order and literal included. *)
Theorem parseConditionText_spec (opt : options) :
  (forall c, cond_all leaf_text_ok c -> parseConditionText opt (Decompile.cond_text opt c) = Ok (compile c))
  /\ (options_ok opt -> forall s,
       match parseConditionText opt s with
       | Ok b => exists c, b = compile c /\ cond_all leaf_sane c
       | Err _ => True
       | Panic => False
       end).
Proof. split; [apply parseConditionText_text|]. intros Ho s. by apply parseConditionText_steps. Qed.

Lemma parseConditionText_spec_witness :
  parseConditionText noOptions (str "(@User.dept == " ++ Decompile.quoted (str "PM")
    ++ str ") && (Member_of {SID(BA), SID(WD)})") = Ok (compile Decompile.sample_cond)
  /\ match parseConditionText noOptions (str "!(Member_of SID(BA)) && a < -0x10 || Exists b") with
     | Ok b => exists c, b = compile c /\ cond_all leaf_sane c
     | Err _ => True
     | Panic => False
     end.
Proof.
  destruct (parseConditionText_spec noOptions) as [Ht Hs]. split; [|apply (Hs noOptions_ok (str "!(Member_of SID(BA)) && a < -0x10 || Exists b"))].
  refine (Ht Decompile.sample_cond _).
  cbn [cond_all operand_all leaf_text_ok foldr Decompile.sample_cond].
  repeat match goal with |- _ /\ _ => split end; first [exact I|apply WK.SID_ok|reflexivity|discriminate|idtac].
  apply (bool_decide_eq_true_1 _). reflexivity.
Defined.

End CondText.
