(* ===== verification/SddlParse.v ===== *)
(** * SddlParse: SDDL text to a security descriptor (sddl/parse.go)

    The recogniser's cursor is a position and the text from it on, which together
    stand for [p.pos] and [p.in[p.pos:]]; errors are [SyntaxError]s with the
    offset the code reports (message arguments are left out).  The two unbounded
    loops take fuel from the length of the text; running out is reported as a
    panic, so the totality theorem covers termination. *)

From S2P Require Import Prelude Outcome Uapi GoStd GoText Sid WellKnown Condition Ace Acl Descriptor.
From S2P Require Import SddlTables SddlDecompile SddlCondition.

Module Parse.
Import Tab.

(** [err.Error()], by the name of its message. *)
Definition Error_text (e : err) : string :=
  match e with
  | Errorf msg => msg
  | ErrBadSID => "libp/wire: malformed SID"
  | _ => "error"
  end.

(** The parser's position and the text from there on. *)
Record cursor := mkCursor { at_ : Z; rest : bytes }.

(** [p.pos += n] *)
Definition advance (p : cursor) (n : Z) : outcome cursor :=
  r ← slice_from (rest p) n; Ok (mkCursor (at_ p + n) r).

Definition isComponentTag (c : byte) : bool := existsb (fun x => bool_decide (x = c)) (str "OGDS").
Definition isFlagChar (c : byte) : bool := in_range 65 90 c || in_range 97 122 c || (b2z c =? 95).
Definition is_digit (c : byte) : bool := in_range 48 57 c.

Section parse.
Context {U : Uapi} (opt : options).

(** ** SIDs *)

(** The bytes consumed, and whether there was a digit. *)
Definition scanNumber (s : bytes) : Z * bool :=
  if has_prefix s (str "0x") || has_prefix s (str "0X") then
    let n := 2 + zlen (CondText.span CondText.isHexDigit (drop 2 s)) in (n, 2 <? n)
  else let n := zlen (CondText.span is_digit s) in (n, 0 <? n).

(** The loop over the sub-authorities; the result is the cursor after the literal. *)
Fixpoint scan_subs (fuel : nat) (p : cursor) : outcome cursor :=
  match fuel with
  | O => Panic
  | S fuel =>
      if CondText.next_is x2d (rest p) then
        p ← advance p 1;
        let '(n, found) := scanNumber (rest p) in
        p ← advance p n;
        if negb found then Err (Syntax (at_ p) "expected a SID sub-authority") else scan_subs fuel p
      else Ok p
  end.

(** The text of the literal and the cursor after it. *)
Definition scanRawSID (p : cursor) : outcome (bytes * cursor) :=
  if negb (has_prefix (rest p) (str "S-1-")) then Err (Syntax (at_ p) "expected a SID") else
  q ← advance p 4;
  let '(n, found) := scanNumber (rest q) in
  q ← advance q n;
  if negb found then Err (Syntax (at_ q) "expected the SID identifier authority") else
  q ← scan_subs (S (length (rest q))) q;
  t ← slice (rest p) 0 (at_ q - at_ p);
  Ok (t, q).

Definition scanSID (p : cursor) : outcome (SID.t * cursor) :=
  '(t, q) ← (if has_prefix (rest p) (str "S-") then scanRawSID p
             else if zlen (rest p) <? 2 then Err (Syntax (at_ p) "expected a SID")
             else t ← slice (rest p) 0 2; q ← advance p 2; Ok (t, q));
  match parseSIDText opt t with
  | Ok s => Ok (s, q)
  | Err e => Err (Syntax (at_ p) (Error_text e))
  | Panic => Panic
  end.

(** ** ACEs *)

(** The fields of an ACE body with their offsets: split on ';' outside parentheses. [cur] is the field
    read so far and [start] its offset, [i] the offset of [s]. *)
Fixpoint split_loop (depth : Z) (cur : bytes) (start i : Z) (s : bytes) : list (bytes * Z) :=
  match s with
  | [] => [(cur, start)]
  | c :: s =>
      if bool_decide ([c] = str "(") then split_loop (depth + 1) (cur ++ [c]) start (i + 1) s
      else if bool_decide ([c] = str ")") then split_loop (depth - 1) (cur ++ [c]) start (i + 1) s
      else if bool_decide ([c] = str ";") && (depth =? 0) then (cur, start) :: split_loop depth [] (i + 1) (i + 1) s
      else split_loop depth (cur ++ [c]) start (i + 1) s
  end.
Definition splitFields (body : bytes) (baseOff : Z) : list (bytes * Z) := split_loop 0 [] baseOff baseOff body.

(** An error of a sub-parser, reported at [off]. *)
Definition at_offset {A} (off : Z) (m : outcome A) : outcome A :=
  match m with Err e => Err (Syntax off (Error_text e)) | m => m end.

Definition parseGUIDField (field : bytes * Z) : outcome (option bytes) :=
  if bool_decide (field.1 = []) then Ok None else
  g ← at_offset field.2 (Guid.parseGUID field.1); Ok (Some g).
Definition parseGUIDFields (obj inh : bytes * Z) : outcome (option bytes * option bytes) :=
  o ← parseGUIDField obj;
  i ← parseGUIDField inh;
  Ok (o, i).

(** The fields both kinds of ACE start with: flags and mask. *)
Definition parseStructuredACE (t : Z) (fields : list (bytes * Z)) (off0 : Z) : outcome Ace.ACE :=
  match fields with
  | [_; f1; f2; f3; f4; f5] =>
      flags ← at_offset f1.2 (textToAceFlags f1.1);
      mask ← at_offset f2.2 (parseMask f2.1);
      if (negb (bool_decide (f3.1 = [])) || negb (bool_decide (f4.1 = []))) && negb (isObjectType t)
      then Err (Syntax f3.2 "ACE type does not carry object-type GUIDs") else
      '(objType, inhType) ← parseGUIDFields f3 f4;
      if bool_decide (f5.1 = []) then Err (Syntax f5.2 "ACE is missing its principal SID") else
      sid ← at_offset f5.2 (parseSIDText opt f5.1);
      Ok (Ace.mkACE t flags mask sid objType inhType None)
  | _ => Err (Syntax off0 "ACE has the wrong number of fields, want 6")
  end.

(** The switch on the type; no other type reaches it, and the zero ACE is its default. *)
Definition callbackACE (t : Z) (sid : SID.t) (mask : Z) (o i : option bytes) (cond : Cond.Condition) : Ace.ACE :=
  if t =? KACS_ACE_TYPE_ACCESS_ALLOWED_CALLBACK then Ace.AllowCallback sid mask cond
  else if t =? KACS_ACE_TYPE_ACCESS_DENIED_CALLBACK then Ace.DenyCallback sid mask cond
  else if t =? KACS_ACE_TYPE_SYSTEM_AUDIT_CALLBACK then Ace.AuditCallback sid mask cond
  else if t =? KACS_ACE_TYPE_ACCESS_ALLOWED_CALLBACK_OBJECT then Ace.AllowCallbackObject sid mask o i cond
  else Ace.noACE.

Definition parseCallbackACE (t : Z) (fields : list (bytes * Z)) (off0 : Z) : outcome Ace.ACE :=
  match fields with
  | [_; f1; f2; f3; f4; f5; f6] =>
      flags ← at_offset f1.2 (textToAceFlags f1.1);
      mask ← at_offset f2.2 (parseMask f2.1);
      '(objType, inhType) ← parseGUIDFields f3 f4;
      if (bool_decide (is_Some objType) || bool_decide (is_Some inhType))
         && negb (t =? KACS_ACE_TYPE_ACCESS_ALLOWED_CALLBACK_OBJECT)
      then Err (Syntax f3.2 "ACE type does not carry object-type GUIDs") else
      if bool_decide (f5.1 = []) then Err (Syntax f5.2 "ACE is missing its principal SID") else
      sid ← at_offset f5.2 (parseSIDText opt f5.1);
      cond ← at_offset f6.2 (CondText.parseConditionText opt f6.1);
      Ok (Ace.set_Flags (callbackACE t sid mask objType inhType cond) flags)
  | _ => Err (Syntax off0 "ACE has the wrong number of fields, want 7")
  end.

Definition parseACEBody (body : bytes) (baseOff : Z) : outcome Ace.ACE :=
  let fields := splitFields body baseOff in
  if zlen fields <? 6 then Err (Syntax baseOff "ACE has too few fields, want at least 6") else
  '(typeTag, off0) ← index fields 0;
  match assoc aceTypeTags typeTag with
  | None => Err (Syntax off0 "unknown ACE type")
  | Some t =>
      if negb (aceTypeSupported t) then Err (Syntax off0 "ACE type is not yet supported")
      else if isCallbackType t then parseCallbackACE t fields off0
      else parseStructuredACE t fields off0
  end.

(** The index of the parenthesis that brings the depth back to zero. *)
Fixpoint find_close (depth i : Z) (s : bytes) : option Z :=
  match s with
  | [] => None
  | c :: s =>
      if bool_decide ([c] = str "(") then find_close (depth + 1) (i + 1) s
      else if bool_decide ([c] = str ")") then
        if depth - 1 =? 0 then Some i else find_close (depth - 1) (i + 1) s
      else find_close depth (i + 1) s
  end.

Definition scanACE (p : cursor) : outcome (Ace.ACE * cursor) :=
  match find_close 0 0 (rest p) with
  | None => Err (Syntax (at_ p) "unterminated ACE - missing ')'")
  | Some end_ =>
      body ← slice (rest p) 1 end_;
      q ← advance p (end_ + 1);
      ace ← parseACEBody body (at_ p + 1);
      Ok (ace, q)
  end.

(** ** ACLs *)

Record aclFlags := mkFlags {
  protected : bool; autoInherited : bool; autoInheritReq : bool; nullACL : bool
}.
Definition NO_ACCESS_CONTROL : bytes := str "NO_ACCESS_CONTROL".

Fixpoint parseACLFlags_loop (fuel : nat) (s : bytes) (f : aclFlags) : outcome aclFlags :=
  match fuel with
  | O => Panic
  | S fuel =>
      match s with
      | [] => Ok f
      | c :: _ =>
          if has_prefix s NO_ACCESS_CONTROL then
            if nullACL f then Err (Errorf "duplicate NO_ACCESS_CONTROL") else
            s ← slice_from s (zlen NO_ACCESS_CONTROL);
            parseACLFlags_loop fuel s (mkFlags (protected f) (autoInherited f) (autoInheritReq f) true)
          else if bool_decide ([c] = str "P") then
            s ← slice_from s 1;
            parseACLFlags_loop fuel s (mkFlags true (autoInherited f) (autoInheritReq f) (nullACL f))
          else if has_prefix s (str "AI") then
            s ← slice_from s 2;
            parseACLFlags_loop fuel s (mkFlags (protected f) true (autoInheritReq f) (nullACL f))
          else if has_prefix s (str "AR") then
            s ← slice_from s 2;
            parseACLFlags_loop fuel s (mkFlags (protected f) (autoInherited f) true (nullACL f))
          else Err (Errorf "unknown ACL flag")
      end
  end.
Definition parseACLFlags (s : bytes) : outcome aclFlags :=
  parseACLFlags_loop (S (length s)) s (mkFlags false false false false).

(** The first loop of scanACL: the flag characters and the cursor after them. *)
Fixpoint scan_flags (i : Z) (s : bytes) : outcome (bytes * cursor) :=
  match s with
  | [] => Ok ([], mkCursor i [])
  | c :: s' =>
      if bool_decide ([c] = str "(") then Ok ([], mkCursor i s)
      else if CondText.next_is x3a s' && isComponentTag c then Ok ([], mkCursor i s)
      else if negb (isFlagChar c) then Err (Syntax i "unexpected character in ACL flags")
      else '(l, p) ← scan_flags (i + 1) s'; Ok (c :: l, p)
  end.

(** [for p.pos < len(p.in) && p.in[p.pos] == '('] *)
Fixpoint scan_aces (fuel : nat) (entries : list Ace.ACE) (p : cursor) : outcome (list Ace.ACE * cursor) :=
  match fuel with
  | O => Panic
  | S fuel =>
      if CondText.next_is x28 (rest p) then
        '(ace, p) ← scanACE p;
        scan_aces fuel (entries ++ [ace]) p
      else Ok (entries, p)
  end.

(** The control bits of an ACL component. *)
Definition acl_control (f : aclFlags) (present prot inherited req : Z) : Z :=
  Z.lor (Z.lor (Z.lor (if nullACL f then 0 else present) (if protected f then prot else 0))
               (if autoInherited f then inherited else 0))
        (if autoInheritReq f then req else 0).

Definition scanACL (d : SD.Descriptor) (isSACL : bool) (p : cursor) : outcome (SD.Descriptor * cursor) :=
  '(l, q) ← scan_flags (at_ p) (rest p);
  f ← at_offset (at_ p) (parseACLFlags (to_upper l));
  if nullACL f && CondText.next_is x28 (rest q)
  then Err (Syntax (at_ q) "NO_ACCESS_CONTROL cannot accompany ACEs") else
  '(entries, q) ← scan_aces (S (length (rest q))) [] q;
  let acl := if nullACL f then None else Some (Acl.mkACL entries) in
  if isSACL then
    let control := acl_control f KACS_SD_SACL_PRESENT KACS_SD_SACL_PROTECTED KACS_SD_SACL_AUTO_INHERITED
                     controlSACLAutoInheritReq in
    Ok (SD.mkSD (Z.lor (SD.Control d) control) (SD.Owner d) (SD.Group d) (SD.DACL d) acl, q)
  else
    let control := acl_control f KACS_SD_DACL_PRESENT KACS_SD_DACL_PROTECTED KACS_SD_DACL_AUTO_INHERITED
                     controlDACLAutoInheritReq in
    Ok (SD.mkSD (Z.lor (SD.Control d) control) (SD.Owner d) (SD.Group d) acl (SD.SACL d), q).

(** ** The descriptor *)

Definition zeroSD : SD.Descriptor := SD.mkSD 0 SID.zero SID.zero None None.

(** One component: [seen] holds the tags already met. *)
Definition component (tag : byte) (d : SD.Descriptor) (p : cursor) : outcome (SD.Descriptor * cursor) :=
  if bool_decide ([tag] = str "O") then
    '(s, p) ← scanSID p; Ok (SD.mkSD (SD.Control d) s (SD.Group d) (SD.DACL d) (SD.SACL d), p)
  else if bool_decide ([tag] = str "G") then
    '(s, p) ← scanSID p; Ok (SD.mkSD (SD.Control d) (SD.Owner d) s (SD.DACL d) (SD.SACL d), p)
  else scanACL d (bool_decide ([tag] = str "S")) p.

Fixpoint parse_loop (fuel : nat) (d : SD.Descriptor) (seen : list byte) (p : cursor) : outcome SD.Descriptor :=
  match fuel with
  | O => Panic
  | S fuel =>
      match rest p with
      | [] => Ok d
      | tag :: s =>
          if negb (CondText.next_is x3a s) then Err (Syntax (at_ p) "expected a component tag - O:, G:, D: or S:")
          else if negb (isComponentTag tag) then Err (Syntax (at_ p) "unknown component tag")
          else if bool_decide (tag ∈ seen) then Err (Syntax (at_ p) "duplicate component")
          else
            p ← advance p 2;
            '(d, p) ← component tag d p;
            parse_loop fuel d (tag :: seen) p
      end
  end.

(** [Parse] *)
Definition Parse (s : bytes) : outcome SD.Descriptor :=
  let s := trim_space s in parse_loop (S (length s)) zeroSD [] (mkCursor 0 s).
End parse.

(** ** Parentheses and fields *)

(** Text in which every parenthesis is matched. *)
Inductive balanced : bytes -> Prop :=
  | bal_nil : balanced []
  | bal_char c s : [c] <> str "(" -> [c] <> str ")" -> balanced s -> balanced (c :: s)
  | bal_parens s s' : balanced s -> balanced s' -> balanced (str "(" ++ s ++ str ")" ++ s').

Definition no_paren (c : byte) : bool := negb (bool_decide ([c] = str "(")) && negb (bool_decide ([c] = str ")")).

Lemma no_paren_spec c : no_paren c = true <-> [c] <> str "(" /\ [c] <> str ")".
Proof. unfold no_paren. by rewrite andb_true_iff, !negb_true_iff, !bool_decide_eq_false. Qed.

Lemma balanced_app s s' : balanced s -> balanced s' -> balanced (s ++ s').
Proof.
  induction 1 as [|c s H1 H2 _ IH|s t Hs _ Ht IH]; intros Hs'; [done| |].
  - cbn [app]. constructor; auto.
  - rewrite <- !app_assoc. apply bal_parens; auto.
Qed.

Lemma balanced_plain s : forallb no_paren s = true -> balanced s.
Proof.
  induction s as [|c s IH]; [constructor|]. cbn [forallb]. intros [Hc Hs]%andb_true_iff.
  apply no_paren_spec in Hc as [H1 H2]. constructor; auto.
Qed.

Lemma balanced_enclosed s : balanced s -> balanced (str "(" ++ s ++ str ")").
Proof. intros H. rewrite <- (app_nil_r (str ")")). apply bal_parens; [done|constructor]. Qed.

Lemma find_close_balanced s : balanced s -> forall d i r, 1 <= d ->
  find_close d i (s ++ r) = find_close d (i + zlen s) r.
Proof.
  induction 1 as [|c s H1 H2 _ IH|s t _ IHs _ IHt]; intros d i r Hd.
  - by rewrite Z.add_0_r.
  - cbn [app find_close]. rewrite !bool_decide_eq_false_2 by done. rewrite IH by done. f_equal. len.
  - change (str "(" ++ s ++ str ")" ++ t) with (x28 :: s ++ x29 :: t). cbn [app find_close].
    rewrite bool_decide_eq_true_2 by done. rewrite <- app_assoc, IHs by lia. cbn [app find_close].
    rewrite bool_decide_eq_false_2, bool_decide_eq_true_2 by done.
    destruct (Z.eqb_spec (d + 1 - 1) 0); [lia|]. replace (d + 1 - 1) with d by lia. rewrite IHt by done. f_equal. len.
Qed.

(** Text that the field splitter passes over at depth [d]. *)
Definition passes (d : Z) (s : bytes) : Prop :=
  forall cur start i r, split_loop d cur start i (s ++ r) = split_loop d (cur ++ s) start (i + zlen s) r.

Lemma passes_app d s t : passes d s -> passes d t -> passes d (s ++ t).
Proof.
  intros Hs Ht cur start i r. rewrite <- app_assoc, Hs, Ht, <- app_assoc. f_equal. len.
Qed.

Lemma passes_char d c : [c] <> str "(" -> [c] <> str ")" -> ([c] <> str ";" \/ d <> 0) -> passes d [c].
Proof.
  intros H1 H2 H3 cur start i r. cbn [app split_loop]. rewrite !(bool_decide_eq_false_2 ([c] = str "(")), !(bool_decide_eq_false_2 ([c] = str ")")) by done.
  destruct (bool_decide ([c] = str ";") && (d =? 0)) eqn:E; [|done].
  apply andb_true_iff in E as [E%bool_decide_eq_true E']. apply Z.eqb_eq in E'. naive_solver.
Qed.

Lemma passes_enclosed d s : passes (d + 1) s -> passes d (str "(" ++ s ++ str ")").
Proof.
  intros Hs cur start i r. change (str "(" ++ s ++ str ")") with (x28 :: s ++ [x29]). cbn [app split_loop].
  rewrite bool_decide_eq_true_2 by done. rewrite <- app_assoc, Hs. cbn [app split_loop].
  rewrite bool_decide_eq_false_2, bool_decide_eq_true_2 by done. replace (d + 1 - 1) with d by lia.
  rewrite <- !app_assoc. f_equal. len.
Qed.

Lemma passes_nil d : passes d [].
Proof. intros cur start i r. cbn [app]. by rewrite app_nil_r, Z.add_0_r. Qed.

Lemma passes_balanced s : balanced s -> forall d, 1 <= d -> passes d s.
Proof.
  induction 1 as [|c s H1 H2 _ IH|s t _ IHs _ IHt]; intros d Hd.
  - apply passes_nil.
  - apply (passes_app d [c]); [apply passes_char; [done|done|right; lia]|auto].
  - rewrite (app_assoc s), app_assoc. apply passes_app; [|auto]. apply passes_enclosed, IHs. lia.
Qed.

(** A field without parentheses and separators. *)
Definition field_char (c : byte) : bool := no_paren c && negb (bool_decide ([c] = str ";")).

Lemma passes_plain s : forallb field_char s = true -> passes 0 s.
Proof.
  induction s as [|c s IH]; [intros _; apply passes_nil|]. cbn [forallb]. intros [Hc Hs]%andb_true_iff.
  unfold field_char in Hc. apply andb_true_iff in Hc as [[H1 H2]%no_paren_spec H3].
  apply negb_true_iff, bool_decide_eq_false in H3. apply (passes_app 0 [c]); [|auto]. apply passes_char; auto.
Qed.

(** Joined fields are split again. *)
Lemma split_loop_join fs f start i : passes 0 f -> Forall (passes 0) fs ->
  (split_loop 0 [] start i (join_str (str ";") (f :: fs))).*1 = f :: fs.
Proof.
  intros Hf Hfs. revert f start i Hf. induction Hfs as [|g fs Hg _ IH]; intros f start i Hf.
  - change (join_str (str ";") [f]) with f. rewrite <- (app_nil_r f) at 1. by rewrite Hf.
  - change (join_str (str ";") (f :: g :: fs)) with (f ++ x3b :: join_str (str ";") (g :: fs)). rewrite Hf.
    cbn [split_loop]. rewrite !(bool_decide_eq_false_2 ([x3b] = _)) by done. rewrite bool_decide_eq_true_2 by done.
    cbn [andb Z.eqb]. rewrite fmap_cons, IH by done. done.
Qed.

Lemma splitFields_join f fs off : passes 0 f -> Forall (passes 0) fs ->
  (splitFields (join_str (str ";") (f :: fs)) off).*1 = f :: fs.
Proof. intros. by apply split_loop_join. Qed.

Lemma passes_field s : forallb field_char s = true -> balanced s /\ passes 0 s.
Proof.
  intros H. split; [|by apply passes_plain]. apply balanced_plain, forallb_forall. intros c Hc.
  rewrite forallb_forall in H. apply H in Hc. unfold field_char in Hc. by apply andb_true_iff in Hc as [? _].
Qed.

Section scan_lemmas.
Context {U : Uapi} (opt : options).

Lemma advance_app i s r n : n = zlen s -> advance (mkCursor i (s ++ r)) n = Ok (mkCursor (i + n) r).
Proof. intros ->. unfold advance. cbn [Parse.rest at_]. by rewrite slice_from_app. Qed.

(** An enclosed ACE body is taken whole, whatever follows it. *)
Lemma scanACE_enclosed i body r : balanced body ->
  scanACE opt (mkCursor i (str "(" ++ body ++ str ")" ++ r))
  = ace ← parseACEBody opt body (i + 1); Ok (ace, mkCursor (i + zlen body + 2) r).
Proof.
  intros Hb. unfold scanACE. cbn [Parse.rest at_].
  assert (find_close 0 0 (str "(" ++ body ++ str ")" ++ r) = Some (1 + zlen body)) as ->.
  { change (str "(" ++ body ++ str ")" ++ r) with (x28 :: body ++ x29 :: r). cbn [find_close].
    rewrite bool_decide_eq_true_2 by done. rewrite find_close_balanced by (done || lia). cbn [find_close].
    rewrite bool_decide_eq_false_2, bool_decide_eq_true_2 by done. destruct (Z.eqb_spec (0 + 1 - 1) 0); [|lia].
    done. }
  rewrite (slice_is _ (str "(") body (str ")" ++ r)), bind_Ok by done.
  replace (str "(" ++ body ++ str ")" ++ r) with ((str "(" ++ body ++ str ")") ++ r) by app_eq.
  rewrite advance_app, bind_Ok by (rewrite !zlen_app; change (zlen (str "(")) with 1; change (zlen (str ")")) with 1; lia).
  destruct (parseACEBody opt body (i + 1)); [|done..]. rewrite !bind_Ok. do 3 f_equal. lia.
Qed.
End scan_lemmas.

End Parse.
