(* ===== verification/SddlFormat.v ===== *)
(** * SddlFormat: a security descriptor to SDDL text (sddl/format.go, sddl/sddl.go)

    The formatter, part by part, and what its texts look like to the recogniser of
    SddlParse.v: the text of an ACE is one parenthesised group whose fields are cut at
    the semicolons, whatever SIDs, GUIDs, conditions and resource attributes it holds,
    and parses back to the ACE. *)

From S2P Require Import Prelude Outcome Uapi GoStd GoText Sid WellKnown Condition Ace Acl Descriptor.
From S2P Require Import SddlTables SddlDecompile SddlCondition SddlParse.

Module Format.
Import Tab.

Section format.
Context {U : Uapi} (opt : options).

Definition too_short : err := Errorf "ACE body is too short".

Definition guidAt (body : bytes) (off : Z) : outcome bytes :=
  if zlen body <? off + 16 then Err too_short else slice body off (off + 16).

(** One GUID of the object header: its text, and the offset after it. *)
Definition guid_text (body : bytes) (present bit off : Z) : outcome (bytes * Z) :=
  if has_bit present bit then g ← guidAt body off; Ok (Guid.formatGUID g, off + 16)
  else Ok ([], off).

Definition fields_text (fields : list bytes) : bytes := str "(" ++ join_str (str ";") fields ++ str ")".

Definition formatCallbackACE (a : Ace.ACE) (tag : bytes) : outcome bytes :=
  let body := default [] (Ace.Raw a) in
  if zlen body <? 4 then Err too_short else
  w ← slice body 0 4;
  mask ← get_le 4 w;
  '(objGUID, inhGUID, off) ←
    (if Ace.ace_Type a =? KACS_ACE_TYPE_ACCESS_ALLOWED_CALLBACK_OBJECT then
       if zlen body <? 8 then Err too_short else
       w ← slice body 4 8;
       present ← get_le 4 w;
       '(objGUID, off) ← guid_text body present KACS_ACE_OBJECT_TYPE_PRESENT 8;
       '(inhGUID, off) ← guid_text body present KACS_ACE_INHERITED_OBJECT_TYPE_PRESENT off;
       Ok (objGUID, inhGUID, off)
     else Ok ([], [], 4));
  if zlen body <? off then Err too_short else
  r ← slice_from body off;
  sid ← wrap_err "ACE" (SID.ParseSID r);
  let off := off + zlen (SID.Bytes sid) in
  if zlen body <? off then Err too_short else
  r ← slice_from body off;
  condText ← wrap_err "ACE" (Decompile.decodeCondition opt r);
  Ok (fields_text [tag; aceFlagsToText (Ace.ace_Flags a); formatMask mask; objGUID; inhGUID;
                   formatSID opt sid; str "(" ++ condText ++ str ")"]).

Definition opt_guid_text (g : option bytes) : bytes :=
  match g with Some g => Guid.formatGUID g | None => [] end.

Definition formatACE (a : Ace.ACE) : outcome bytes :=
  match aceTagByType (Ace.ace_Type a) with
  | None => Err (Errorf "ACE type has no SDDL tag")
  | Some tag =>
      if negb (aceTypeSupported (Ace.ace_Type a)) then Err (Errorf "ACE type is not yet supported")
      else if negb (bic (Ace.ace_Flags a) knownAceFlags =? 0)
      then Err (Errorf "ACE carries flag bits with no SDDL representation")
      else if isCallbackType (Ace.ace_Type a) then formatCallbackACE a tag
      else Ok (fields_text [tag; aceFlagsToText (Ace.ace_Flags a); formatMask (Ace.Mask a);
                            opt_guid_text (Ace.ObjectType a); opt_guid_text (Ace.InheritedObjectType a);
                            formatSID opt (Ace.ace_SID a)])
  end.

Fixpoint formatACEs (aces : list Ace.ACE) : outcome bytes :=
  match aces with
  | [] => Ok []
  | a :: aces => s ← wrap_err "libp/sddl: ACE" (formatACE a); r ← formatACEs aces; Ok (s ++ r)
  end.

Definition formatACLFlags (c : Z) (isSACL : bool) : bytes :=
  let '(prot, inherited, req) :=
    if isSACL then (KACS_SD_SACL_PROTECTED, KACS_SD_SACL_AUTO_INHERITED, controlSACLAutoInheritReq)
    else (KACS_SD_DACL_PROTECTED, KACS_SD_DACL_AUTO_INHERITED, controlDACLAutoInheritReq) in
  (if has_bit c prot then str "P" else [])
  ++ (if has_bit c req then str "AR" else [])
  ++ (if has_bit c inherited then str "AI" else []).

(** What formatACLSection writes to the builder. *)
Definition formatACLSection (prefix : bytes) (acl : option Acl.ACL) (flags : bytes) : outcome bytes :=
  match acl with
  | None => Ok (if bool_decide (flags = []) then [] else prefix ++ flags ++ Parse.NO_ACCESS_CONTROL)
  | Some l => s ← formatACEs (Acl.Entries l); Ok (prefix ++ flags ++ s)
  end.

Definition sid_section (prefix : bytes) (s : SID.t) : bytes :=
  if SID.IsValid s then prefix ++ formatSID opt s else [].

Definition Format (d : SD.Descriptor) : outcome bytes :=
  let o := sid_section (str "O:") (SD.Owner d) in
  let g := sid_section (str "G:") (SD.Group d) in
  if (has_bit (SD.Control d) KACS_SD_DACL_PRESENT && bool_decide (SD.DACL d = None))
     || (has_bit (SD.Control d) KACS_SD_SACL_PRESENT && bool_decide (SD.SACL d = None))
  then Err (Errorf "libp/sddl: ACL presence and data disagree") else
  da ← formatACLSection (str "D:") (SD.DACL d) (formatACLFlags (SD.Control d) false);
  sa ← formatACLSection (str "S:") (SD.SACL d) (formatACLFlags (SD.Control d) true);
  let b := o ++ g ++ da ++ sa in
  Ok (if bool_decide (b = []) then str "D:NO_ACCESS_CONTROL" else b).
End format.

(** ** What is written is made of words and matched parentheses *)

Definition word (s : bytes) : Prop := forallb sid_char s = true.

Lemma sid_char_field c : sid_char c = true -> Parse.field_char c = true.
Proof. destruct c; intros H; reflexivity || discriminate H. Qed.
Lemma word_field s : word s -> Parse.balanced s /\ Parse.passes 0 s.
Proof.
  intros H. apply Parse.passes_field, forallb_forall. intros c Hc. unfold word in H. rewrite forallb_forall in H.
  by apply sid_char_field, H.
Qed.

Lemma word_app s t : word s -> word t -> word (s ++ t).
Proof. unfold word. intros Hs Ht. by rewrite forallb_app, Hs, Ht. Qed.

Lemma word_chars s : Forall (fun c => 48 <= b2z c <= 57 \/ 97 <= b2z c <= 122) s -> word s.
Proof.
  intros H. apply forallb_forall. intros c Hc%list_elem_of_In. rewrite Forall_forall in H. apply H in Hc.
  unfold sid_char, in_range. lia.
Qed.

Lemma word_mask m : word (formatMask m).
Proof.
  unfold formatMask. destruct (m =? 0); [done|]. apply word_app; [done|]. apply word_chars, format_uint_chars. lia.
Qed.

Lemma word_guid g : word (Guid.formatGUID g).
Proof.
  pose proof (Guid.formatGUID_chars g) as H. apply forallb_forall. intros c Hc%list_elem_of_In.
  rewrite Forall_forall in H. apply H in Hc as [?|[?| ->]]; [unfold sid_char, in_range; lia..|done].
Qed.

Section words.
Context {U : Uapi}.

Lemma word_flags f : word (aceFlagsToText f).
Proof.
  unfold word, aceFlagsToText. apply forallb_forall. intros c (l & Hl%list_elem_of_In & Hc)%in_concat.
  apply list_elem_of_fmap in Hl as (e & -> & [_ He]%list_elem_of_filter).
  assert (forallb (fun l => forallb sid_char l) aceFlagText.*2 = true) as H by reflexivity.
  rewrite forallb_forall in H. assert (In e.2 aceFlagText.*2) as Hin.
  { apply list_elem_of_In, list_elem_of_fmap. by exists e. }
  apply H in Hin. rewrite forallb_forall in Hin. by apply Hin.
Qed.

Lemma word_tag t tag : aceTagByType t = Some tag -> word tag /\ tag <> [].
Proof.
  intros H%rev_lookup_in.
  assert (forallb (fun l => forallb sid_char l && negb (bool_decide (l = []))) aceTypeTags.*1 = true) as Ht by reflexivity.
  rewrite forallb_forall in Ht. assert (In tag aceTypeTags.*1) as Hin.
  { apply list_elem_of_In, list_elem_of_fmap. by exists (tag, t). }
  apply Ht, andb_true_iff in Hin as [Hw He%negb_true_iff%bool_decide_eq_false]. done.
Qed.

Lemma word_opt_guid g : word (opt_guid_text g).
Proof. destruct g; [apply word_guid|done]. Qed.
End words.

(** The leaves with an SDDL form: encodable, writable, and with no parenthesis inside a string (the ACE scanner
    counts parentheses without looking at quotes). *)
Definition leaf_sddl_ok (o : Cond.operand) : Prop :=
  Cond.leaf_ok o /\ CondText.leaf_text_ok o
  /\ match o with Cond.OString s => forallb Parse.no_paren s = true | _ => True end.

Section cond_balanced.
Context (opt : options).
Import Cond Parse.

Lemma no_paren_attr c : CondText.attr_char c = true -> no_paren c = true.
Proof. destruct c; intros H; reflexivity || discriminate H. Qed.
Lemma balanced_attr s : forallb CondText.attr_char s = true -> balanced s.
Proof.
  intros H. apply balanced_plain, forallb_forall. intros c Hc. rewrite forallb_forall in H. by apply no_paren_attr, H.
Qed.
Lemma balanced_word s : word s -> balanced s.
Proof. apply word_field. Qed.

Lemma balanced_concat l : Forall balanced l -> balanced (concat l).
Proof. induction 1; [constructor|]. by apply balanced_app. Qed.

Lemma balanced_operand o : operand_all leaf_sddl_ok o -> balanced (Decompile.operand_text opt o).
Proof.
  induction o as [n|s|d|sid|s|s|s|s|items IH] using operand_rect_items;
    cbn [operand_all leaf_sddl_ok Decompile.operand_text]; intros Hok.
  - apply balanced_word. unfold format_int. pose proof (word_chars _ (format_uint_chars 10 n ltac:(lia))).
    destruct (n <? 0); [|done]. apply (word_app (str "-")); [done|]. apply word_chars, format_uint_chars. lia.
  - apply (balanced_app Decompile.quote); [by apply balanced_plain|]. apply balanced_app; [|by apply balanced_plain].
    apply balanced_plain, Hok.
  - apply (balanced_app (str "#")); [by apply balanced_plain|]. apply balanced_word, word_chars.
    eapply Forall_impl; [apply hex_encode_chars|]. simpl. lia.
  - assert (forall t, str "SID(" ++ t = str "SID" ++ str "(" ++ t) as -> by done. apply balanced_app; [by apply balanced_plain|].
    apply balanced_enclosed, balanced_word, formatSID_chars, Hok.
  - destruct Hok as (_ & [Hi _] & _). apply balanced_attr. destruct s as [|c s]; [done|]. cbn [CondText.is_ident] in Hi.
    apply andb_true_iff in Hi as [Hc Hs]. cbn [forallb]. unfold CondText.attr_char at 1, CondText.isIdentChar at 1.
    rewrite Hc. cbn [orb andb]. apply forallb_forall. intros x Hx. rewrite forallb_forall in Hs.
    by apply CondText.attr_char_ident, Hs.
  - apply balanced_app; [by apply balanced_plain|apply balanced_attr, Hok].
  - apply balanced_app; [by apply balanced_plain|apply balanced_attr, Hok].
  - apply balanced_app; [by apply balanced_plain|apply balanced_attr, Hok].
  - change (operand_all leaf_sddl_ok (OComposite items)) in Hok. apply operand_all_items in Hok.
    assert (Forall balanced (Decompile.operand_text opt <$> items)) as Hb.
    { apply Forall_fmap, Forall_forall. intros o Ho. rewrite Forall_forall in IH, Hok. by apply IH; [|apply Hok]. }
    apply (balanced_app (str "{")); [by apply balanced_plain|]. apply balanced_app; [|by apply balanced_plain].
    destruct (Decompile.operand_text opt <$> items) as [|t l]; [constructor|]. rewrite join_str_cons.
    apply Forall_cons in Hb as [Ht Hl]. apply balanced_app; [done|]. apply balanced_concat, Forall_fmap.
    eapply Forall_impl; [done|]. intros s Hs. apply balanced_app; [by apply balanced_plain|done].
Qed.

Lemma balanced_infix w s t : forallb no_paren w = true -> balanced s -> balanced t ->
  balanced (str "(" ++ s ++ str ") " ++ w ++ str " (" ++ t ++ str ")").
Proof.
  intros Hw Hs Ht.
  replace (str "(" ++ s ++ str ") " ++ w ++ str " (" ++ t ++ str ")")
    with (str "(" ++ s ++ str ")" ++ str " " ++ w ++ str " " ++ str "(" ++ t ++ str ")") by done.
  apply bal_parens; [done|]. apply balanced_app; [by apply balanced_plain|].
  apply balanced_app; [by apply balanced_plain|]. apply balanced_app; [by apply balanced_plain|].
  by apply balanced_enclosed.
Qed.

Lemma balanced_cond c : cond_all leaf_sddl_ok c -> balanced (Decompile.cond_text opt c).
Proof.
  induction c as [op l r|op o|o|o|c IHc r IHr|c IHc r IHr|c IHc]; cbn [cond_all Decompile.cond_text]; intros Hok.
  - destruct Hok as [Hl Hr]. apply balanced_app; [by apply balanced_operand|].
    apply balanced_app; [by apply balanced_plain|]. apply balanced_app; [apply balanced_plain; by destruct op|].
    apply balanced_app; [by apply balanced_plain|by apply balanced_operand].
  - apply balanced_app; [apply balanced_plain; by destruct op|].
    apply balanced_app; [by apply balanced_plain|by apply balanced_operand].
  - apply balanced_app; [by apply balanced_plain|by apply balanced_operand].
  - apply balanced_app; [by apply balanced_plain|by apply balanced_operand].
  - destruct Hok. apply (balanced_infix (str "&&")); auto.
  - destruct Hok. apply (balanced_infix (str "||")); auto.
  - apply (balanced_app (str "!")); [by apply balanced_plain|]. apply (balanced_enclosed (Decompile.cond_text opt c)). auto.
Qed.
End cond_balanced.

(** ** One ACE: what is written is read back *)

Section ace_roundtrip.
Context {U : Uapi} `{!AceLaws U, !SddlLaws U} (opt : options).

Lemma parseGUIDField_text g off : Ace.guid_ok g -> Parse.parseGUIDField (opt_guid_text g, off) = Ok g.
Proof.
  unfold Parse.parseGUIDField. destruct g as [g|]; cbn [fst snd opt_guid_text Ace.guid_ok]; intros Hg.
  - rewrite bool_decide_eq_false_2. 2: { intros E%(f_equal length). by rewrite Guid.formatGUID_length in E. }
    by rewrite Guid.parseGUID_format.
  - by rewrite bool_decide_eq_true_2.
Qed.

Lemma formatSID_ne s : SID.valid s -> formatSID opt s <> [].
Proof.
  intros Hs E. pose proof (parseSIDText_format opt s Hs) as H. rewrite E in H.
  assert (parseSIDText opt [] = Err (Errorf "unknown SID alias")) as H' by (vm_compute; reflexivity). congruence.
Qed.

(** An ACE of a structured type with a text form. *)
Definition structured_ok (a : Ace.ACE) : Prop :=
  aceTypeSupported (Ace.ace_Type a) = true /\ isCallbackType (Ace.ace_Type a) = false
  /\ Ace.ok a /\ bic (Ace.ace_Flags a) knownAceFlags = 0.

Definition ace_fields (f mask : Z) (o i : option bytes) (s : SID.t) : list bytes :=
  [aceFlagsToText f; formatMask mask; opt_guid_text o; opt_guid_text i; formatSID opt s].

Lemma ace_fields_word f mask o i s : SID.valid s -> Forall word (ace_fields f mask o i s).
Proof.
  intros Hs. repeat apply Forall_cons_2; [apply word_flags|apply word_mask|apply word_opt_guid..|by apply formatSID_chars|].
  apply Forall_nil_2.
Qed.

Lemma supported_shape t : aceTypeSupported t = true -> isCallbackType t = false ->
  Ace.isSimpleMaskSID t = true \/ isObjectType t = true.
Proof.
  unfold aceTypeSupported, isCallbackType, Ace.isSimpleMaskSID, isObjectType. cbn [existsb].
  repeat match goal with |- context [t =? ?x] => destruct (t =? x) end; cbn; auto.
Qed.

(** Joined words, with a further enclosed field or not, are a balanced body whose fields are the words. *)
Lemma body_split fs last off : Forall word fs -> fs <> [] ->
  (match last with Some c => Parse.balanced c | None => True end) ->
  let all := fs ++ (match last with Some c => [str "(" ++ c ++ str ")"] | None => [] end) in
  Parse.balanced (join_str (str ";") all) /\ (Parse.splitFields (join_str (str ";") all) off).*1 = all.
Proof.
  intros Hfs Hne Hl all. assert (Forall (fun s => Parse.balanced s /\ Parse.passes 0 s) all) as Hall.
  { apply Forall_app_2; [eapply Forall_impl; [done|apply word_field]|]. destruct last as [c|]; [|constructor].
    apply Forall_singleton. split; [by apply Parse.balanced_enclosed|].
    apply Parse.passes_enclosed, Parse.passes_balanced; [done|lia]. }
  unfold all in *. destruct fs as [|f fs]; [done|]. cbn [app] in *. apply Forall_cons in Hall as [[Hb Hp] Hall]. split.
  - rewrite join_str_cons. apply Parse.balanced_app; [done|]. apply balanced_concat, Forall_fmap.
    eapply Forall_impl; [done|]. intros s [Hs _]. apply (Parse.balanced_app (str ";")); [by apply Parse.balanced_plain|done].
  - apply Parse.splitFields_join; [done|]. eapply Forall_impl; [done|]. by intros s [_ ?].
Qed.

(** Take the fields, with their offsets, from their texts. *)
Lemma fields_cons {A} (l : list (A * Z)) x xs : l.*1 = x :: xs -> exists o l', l = (x, o) :: l' /\ l'.*1 = xs.
Proof. destruct l as [|[y o] l]; [done|]. intros [= -> ?]. by exists o, l. Qed.

Lemma parseACEBody_structured a tag off : structured_ok a -> aceTagByType (Ace.ace_Type a) = Some tag ->
  let fs := tag :: ace_fields (Ace.ace_Flags a) (Ace.Mask a) (Ace.ObjectType a) (Ace.InheritedObjectType a) (Ace.ace_SID a) in
  Parse.balanced (join_str (str ";") fs) /\ Parse.parseACEBody opt (join_str (str ";") fs) off = Ok a.
Proof.
  intros (Hsup & Hcb & (Ht & Hf & Hok) & Hbic) Htag fs.
  assert (Ace.structured a /\ Ace.guid_ok (Ace.ObjectType a) /\ Ace.guid_ok (Ace.InheritedObjectType a)
    /\ (isObjectType (Ace.ace_Type a) = false -> Ace.ObjectType a = None /\ Ace.InheritedObjectType a = None))
    as ((Hm & Hs & Hraw) & Ho & Hi & Hno).
  { destruct (Ace.isSimpleMaskSID (Ace.ace_Type a)) eqn:Es.
    - destruct Hok as (? & -> & ->). by split_and!.
    - destruct (supported_shape _ Hsup Hcb) as [?|Hobj]; [congruence|].
      change (Ace.isObject (Ace.ace_Type a)) with (isObjectType (Ace.ace_Type a)) in Hok. rewrite Hobj in *.
      destruct Hok as (? & ? & ?). by split_and!. }
  destruct (word_tag _ _ Htag) as [Hwt _].
  destruct (body_split fs None off) as [Hb Hsplit]; [by constructor; [|apply ace_fields_word]|done|done|].
  cbn [app] in *. rewrite app_nil_r in Hb, Hsplit. split; [exact Hb|]. unfold Parse.parseACEBody. cbv zeta.
  destruct (fields_cons _ _ _ Hsplit) as (o0 & l0 & E & H0). rewrite E.
  destruct (fields_cons _ _ _ H0) as (o1 & l1 & -> & H1). destruct (fields_cons _ _ _ H1) as (o2 & l2 & -> & H2).
  destruct (fields_cons _ _ _ H2) as (o3 & l3 & -> & H3). destruct (fields_cons _ _ _ H3) as (o4 & l4 & -> & H4).
  destruct (fields_cons _ _ _ H4) as (o5 & l5 & -> & ->%fmap_nil_inv).
  cbn [Z.ltb]. rewrite !zlen_cons, zlen_nil. cbn [Z.add Z.ltb Z.compare Pos.add Pos.succ Pos.compare Pos.compare_cont].
  change (index ((tag, o0) :: ?l) 0) with (Ok (tag, o0)). rewrite bind_Ok. cbn beta iota.
  rewrite (aceTypeTags_in _ _ Htag), Hsup, Hcb. cbn [negb]. unfold Parse.parseStructuredACE. cbn [fst snd].
  rewrite textToAceFlags_text, parseMask_format by done. cbn [Parse.at_offset]. rewrite !bind_Ok.
  assert ((negb (bool_decide (opt_guid_text (Ace.ObjectType a) = []))
    || negb (bool_decide (opt_guid_text (Ace.InheritedObjectType a) = []))) && negb (isObjectType (Ace.ace_Type a)) = false) as ->.
  { destruct (isObjectType (Ace.ace_Type a)); [by rewrite andb_false_r|]. by destruct Hno as [-> ->]. }
  unfold Parse.parseGUIDFields. rewrite !parseGUIDField_text, !bind_Ok by done. cbn beta iota.
  rewrite bool_decide_eq_false_2 by (by apply formatSID_ne). rewrite parseSIDText_format by done.
  cbn [Parse.at_offset]. rewrite bind_Ok. rewrite <- Hraw. by destruct a.
Qed.

Lemma formatACE_structured a : structured_ok a ->
  exists body, formatACE opt a = Ok (str "(" ++ body ++ str ")") /\ Parse.balanced body
    /\ forall off, Parse.parseACEBody opt body off = Ok a.
Proof.
  intros Hok. pose proof Hok as (Hsup & Hcb & _ & Hbic). destruct (aceTypeSupported_tag _ Hsup) as [tag Htag].
  eexists. split; [|split; [apply (parseACEBody_structured a tag 0 Hok Htag)|intros off; by apply parseACEBody_structured]].
  unfold formatACE. rewrite Htag, Hsup, Hcb, Hbic. done.
Qed.
End ace_roundtrip.


(** ** Callback ACEs *)

Section callback_roundtrip.
Context {U : Uapi} `{!AceLaws U, !SddlLaws U} (opt : options).
Import Cond.

Lemma guid_text_read body present bit off g off' : Ace.read_guid body present bit off = Ok (g, off') ->
  guid_text body present bit off = Ok (opt_guid_text g, off').
Proof.
  unfold Ace.read_guid, guid_text, guidAt. destruct (has_bit present bit); [|by intros [= <- <-]].
  destruct (zlen body <? off + 16); [done|]. destruct (slice body off (off + 16)); [|done..]. by intros [= <- <-].
Qed.

(** The conditional ACEs with a text form: built by the constructors from an expression. *)
Inductive conditional : Ace.ACE -> Prop :=
  | conditional_intro t f mask sid o i c :
      isCallbackType t = true -> fits 32 mask -> SID.valid sid -> Ace.guid_ok o -> Ace.guid_ok i ->
      (t <> KACS_ACE_TYPE_ACCESS_ALLOWED_CALLBACK_OBJECT -> o = None /\ i = None) ->
      cond_all leaf_sddl_ok c -> zlen (cond_tok (compile c)) < 2 ^ 32 -> bic f knownAceFlags = 0 ->
      conditional (Ace.set_Flags (Parse.callbackACE t sid mask o i (compile c)) f).

Definition callback_raw (t mask : Z) (sid : SID.t) (o i : option bytes) (c : cond) : bytes :=
  (if t =? KACS_ACE_TYPE_ACCESS_ALLOWED_CALLBACK_OBJECT
   then le_enc 4 mask ++ le_enc 4 (Ace.presence o i) ++ default [] o ++ default [] i
   else le_enc 4 mask) ++ SID.Bytes sid ++ Encode (compile c).

Lemma callback_types : NoDup [KACS_ACE_TYPE_ACCESS_ALLOWED_CALLBACK; KACS_ACE_TYPE_ACCESS_DENIED_CALLBACK;
  KACS_ACE_TYPE_ACCESS_ALLOWED_CALLBACK_OBJECT; KACS_ACE_TYPE_SYSTEM_AUDIT_CALLBACK].
Proof.
  pose proof (codes_ok_NoDup _ _ ace_types_ok) as H. unfold ace_types in H.
  do 9 (apply NoDup_cons in H as [_ H]). rewrite !NoDup_cons in *. set_solver.
Qed.

Lemma callbackACE_raw t sid mask o i c : isCallbackType t = true ->
  Parse.callbackACE t sid mask o i (compile c) = Ace.rawOnly t (Some (callback_raw t mask sid o i c)).
Proof.
  pose proof callback_types as H. rewrite !NoDup_cons, !not_elem_of_cons in H.
  destruct H as ((N1 & N2 & N3 & _) & (N4 & N5 & _) & (N6 & _) & _).
  unfold isCallbackType, Parse.callbackACE, callback_raw. cbn [existsb].
  destruct (Z.eqb_spec t KACS_ACE_TYPE_ACCESS_ALLOWED_CALLBACK) as [->|].
  { apply Z.eqb_neq in N2 as ->. reflexivity. }
  destruct (Z.eqb_spec t KACS_ACE_TYPE_ACCESS_DENIED_CALLBACK) as [->|].
  { apply Z.eqb_neq in N4 as ->. reflexivity. }
  destruct (Z.eqb_spec t KACS_ACE_TYPE_SYSTEM_AUDIT_CALLBACK) as [->|].
  { destruct (Z.eqb_spec KACS_ACE_TYPE_SYSTEM_AUDIT_CALLBACK KACS_ACE_TYPE_ACCESS_ALLOWED_CALLBACK_OBJECT); [congruence|].
    reflexivity. }
  destruct (Z.eqb_spec t KACS_ACE_TYPE_ACCESS_ALLOWED_CALLBACK_OBJECT) as [->|]; [|done].
  intros _. unfold Ace.AllowCallbackObject, Ace.objectBody. rewrite <- !app_assoc. done.
Qed.

Lemma callback_type_supported t : isCallbackType t = true -> aceTypeSupported t = true.
Proof.
  unfold isCallbackType, aceTypeSupported. rewrite !existsb_exists. intros (x & Hin & E). exists x. split; [|done].
  simpl in *. tauto.
Qed.

Definition callback_fields (tag : bytes) (f mask : Z) (o i : option bytes) (sid : SID.t) (c : cond) : list bytes :=
  (tag :: ace_fields opt f mask o i sid) ++ [str "(" ++ Decompile.cond_text opt c ++ str ")"].

(** Reading the body back: mask, GUIDs, SID and condition. *)
Lemma formatCallbackACE_raw t f tag mask sid o i c :
  fits 32 mask -> SID.valid sid -> Ace.guid_ok o -> Ace.guid_ok i ->
  (t <> KACS_ACE_TYPE_ACCESS_ALLOWED_CALLBACK_OBJECT -> o = None /\ i = None) ->
  cond_all leaf_ok c -> zlen (cond_tok (compile c)) < 2 ^ 32 ->
  formatCallbackACE opt (Ace.mkACE t f 0 SID.zero None None (Some (callback_raw t mask sid o i c))) tag
  = Ok (fields_text (callback_fields tag f mask o i sid c)).
Proof.
  intros Hm Hs Ho Hi Hno Hc Hl. unfold formatCallbackACE. cbn [Ace.Raw Ace.ace_Type Ace.ace_Flags default from_option id].
  unfold id. set (tail := SID.Bytes sid ++ Encode (compile c)).
  pose proof (zlen_nonneg tail). pose proof (zlen_nonneg (default [] o)). pose proof (zlen_nonneg (default [] i)).
  assert (forall p off, off = zlen p ->
    (if zlen (p ++ tail) <? off then Err too_short else
     r ← slice_from (p ++ tail) off;
     sid ← wrap_err "ACE" (SID.ParseSID r);
     (if zlen (p ++ tail) <? off + zlen (SID.Bytes sid) then Err too_short else
      r ← slice_from (p ++ tail) (off + zlen (SID.Bytes sid));
      condText ← wrap_err "ACE" (Decompile.decodeCondition opt r);
      Ok (fields_text [tag; aceFlagsToText f; formatMask mask; opt_guid_text o; opt_guid_text i;
                       formatSID opt sid; str "(" ++ condText ++ str ")"])))
    = Ok (fields_text (callback_fields tag f mask o i sid c))) as Htail.
  { intros p off ->. pose proof (zlen_nonneg p). destruct (Z.ltb_spec (zlen (p ++ tail)) (zlen p)); [len|].
    rewrite slice_from_app, bind_Ok by done. rewrite (SID.ParseSID_app sid (Encode (compile c)) Hs : SID.ParseSID tail = _). cbn [wrap_err].
    rewrite bind_Ok. pose proof (zlen_nonneg (Encode (compile c))).
    destruct (Z.ltb_spec (zlen (p ++ tail)) (zlen p + zlen (SID.Bytes sid))); [unfold tail in *; len|].
    rewrite (slice_from_is _ (p ++ SID.Bytes sid) (Encode (compile c))) by (unfold tail; (app_eq || len)).
    rewrite bind_Ok, Decompile.decodeCondition_Encode_text by done. done. }
  unfold callback_raw. fold tail.
  destruct (Z.eqb_spec t KACS_ACE_TYPE_ACCESS_ALLOWED_CALLBACK_OBJECT) as [Et|Et].
  - rewrite <- !app_assoc. set (h := le_enc 4 mask ++ le_enc 4 (Ace.presence o i)).
    assert (zlen h = 8) as Hh by (unfold h; len).
    destruct (Ace.read_guids h o i tail Ho Hi Hh) as (R1 & R2 & Hp).
    replace (le_enc 4 mask ++ le_enc 4 (Ace.presence o i) ++ default [] o ++ default [] i ++ tail)
      with (h ++ default [] o ++ default [] i ++ tail) by (unfold h; app_eq).
    set (body := h ++ default [] o ++ default [] i ++ tail) in *.
    assert (8 <= zlen body) by (unfold body; len).
    destruct (Z.ltb_spec (zlen body) 4); [lia|].
    rewrite (slice_is body [] (le_enc 4 mask) (le_enc 4 (Ace.presence o i) ++ default [] o ++ default [] i ++ tail) 0 4), bind_Ok
      by ((unfold body, h; app_eq) || len).
    rewrite <- (app_nil_r (le_enc 4 mask)), get_le_app_small, bind_Ok by done.
    destruct (Z.ltb_spec (zlen body) 8); [lia|].
    rewrite (slice_is body (le_enc 4 mask) (le_enc 4 (Ace.presence o i)) (default [] o ++ default [] i ++ tail) 4 8), bind_Ok
      by ((unfold body, h; app_eq) || len).
    rewrite <- (app_nil_r (le_enc 4 (Ace.presence o i))), get_le_app_small, bind_Ok by done.
    rewrite (guid_text_read _ _ _ _ _ _ R1), bind_Ok. cbn beta iota.
    rewrite (guid_text_read _ _ _ _ _ _ R2), !bind_Ok. cbn beta iota.
    replace body with ((h ++ default [] o ++ default [] i) ++ tail) by (unfold body; app_eq).
    apply Htail. len.
  - destruct (Hno Et) as [-> ->]. destruct (Z.ltb_spec (zlen (le_enc 4 mask ++ tail)) 4); [len|].
    rewrite slice_prefix, bind_Ok by done. rewrite <- (app_nil_r (le_enc 4 mask)) at 1.
    rewrite get_le_app_small, !bind_Ok by done. cbn beta iota. by apply Htail.
Qed.

Lemma formatACE_conditional a : conditional a ->
  exists body, formatACE opt a = Ok (str "(" ++ body ++ str ")") /\ Parse.balanced body
    /\ forall off, Parse.parseACEBody opt body off = Ok a.
Proof.
  intros [t f mask sid o i c Ht Hm Hs Ho Hi Hno Hc Hl Hf]. rewrite callbackACE_raw by done.
  pose proof (callback_type_supported _ Ht) as Hsup. destruct (aceTypeSupported_tag _ Hsup) as [tag Htag].
  assert (cond_all leaf_ok c /\ cond_all CondText.leaf_text_ok c) as [Hc1 Hc2].
  { split; eapply cond_all_impl; try exact Hc; by intros o' (? & ? & ?). }
  destruct (word_tag _ _ Htag) as [Hwt _].
  set (words := tag :: ace_fields opt f mask o i sid).
  destruct (body_split words (Some (Decompile.cond_text opt c)) 0) as [Hb _];
    [by constructor; [|apply ace_fields_word]|done|by apply balanced_cond|].
  exists (join_str (str ";") (callback_fields tag f mask o i sid c)). split_and!; [|exact Hb|].
  - unfold formatACE. cbn [Ace.ace_Type Ace.ace_Flags Ace.set_Flags Ace.rawOnly].
    rewrite Htag, Hsup, Hf, Ht. cbn [negb Z.eqb].
    change (Ace.set_Flags ?x f) with (Ace.mkACE t f 0 SID.zero None None (Some (callback_raw t mask sid o i c))).
    by rewrite formatCallbackACE_raw.
  - intros off. destruct (body_split words (Some (Decompile.cond_text opt c)) off) as [_ Hsplit];
      [by constructor; [|apply ace_fields_word]|done|by apply balanced_cond|].
    change (words ++ _) with (callback_fields tag f mask o i sid c) in Hsplit.
    unfold Parse.parseACEBody. cbv zeta. unfold callback_fields at 2 in Hsplit. cbn [ace_fields app] in Hsplit.
    destruct (fields_cons _ _ _ Hsplit) as (o0 & l0 & E & H0). rewrite E.
    destruct (fields_cons _ _ _ H0) as (o1 & l1 & -> & H1). destruct (fields_cons _ _ _ H1) as (o2 & l2 & -> & H2).
    destruct (fields_cons _ _ _ H2) as (o3 & l3 & -> & H3). destruct (fields_cons _ _ _ H3) as (o4 & l4 & -> & H4).
    destruct (fields_cons _ _ _ H4) as (o5 & l5 & -> & H5). destruct (fields_cons _ _ _ H5) as (o6 & l6 & -> & ->%fmap_nil_inv).
    rewrite !zlen_cons, zlen_nil. cbn [Z.add Z.ltb Z.compare Pos.add Pos.succ Pos.compare Pos.compare_cont].
    change (index ((tag, o0) :: ?l) 0) with (Ok (tag, o0)). rewrite bind_Ok. cbn beta iota.
    rewrite (aceTypeTags_in _ _ Htag), Hsup, Ht. cbn [negb]. unfold Parse.parseCallbackACE. cbn [fst snd].
    rewrite textToAceFlags_text, parseMask_format by done. cbn [Parse.at_offset]. rewrite !bind_Ok.
    unfold Parse.parseGUIDFields. rewrite !parseGUIDField_text, !bind_Ok by done. cbn beta iota.
    assert ((bool_decide (is_Some o) || bool_decide (is_Some i))
      && negb (t =? KACS_ACE_TYPE_ACCESS_ALLOWED_CALLBACK_OBJECT) = false) as ->.
    { destruct (Z.eqb_spec t KACS_ACE_TYPE_ACCESS_ALLOWED_CALLBACK_OBJECT) as [|Et]; [by rewrite andb_false_r|].
      by destruct (Hno Et) as [-> ->]. }
    rewrite bool_decide_eq_false_2 by (by apply formatSID_ne). rewrite parseSIDText_format by done.
    cbn [Parse.at_offset]. rewrite bind_Ok, CondText.parseConditionText_enclosed by done. cbn [Parse.at_offset].
    by rewrite bind_Ok, callbackACE_raw.
Qed.
End callback_roundtrip.

End Format.
