(* ===== verification/SddlRoundTrip.v ===== *)
(** * SddlRoundTrip: [Parse] reads back what [Format] writes (sddl/sddl.go)

    Each component of the text — owner, group, DACL, SACL — is shown to be read by
    one turn of the parser's loop, whatever component follows it ([reads]); the
    descriptor is rebuilt from the four.  [sddl_ok] says which descriptors have a
    text form at all. *)

From S2P Require Import Prelude Outcome Uapi GoStd GoText Sid WellKnown Condition Ace Acl Descriptor.
From S2P Require Import SddlTables SddlDecompile SddlCondition SddlParse SddlFormat.

Module RoundTrip.
Import Tab Parse Format.

(** What follows a component: the end, or the next component's tag. *)
Definition follows (r : bytes) : Prop :=
  r = [] \/ exists tag s, r = tag :: x3a :: s /\ isComponentTag tag = true.

(** ** SIDs *)

Lemma follows_span p r : follows r -> p x4f = false -> p x47 = false -> p x44 = false -> p x53 = false ->
  match r with c :: _ => p c = false | [] => True end.
Proof.
  intros [->|(tag & s & -> & Ht)] H1 H2 H3 H4; [done|]. unfold isComponentTag in Ht. rewrite existsb_exists in Ht.
  destruct Ht as (x & Hin & E%bool_decide_eq_true). subst x. simpl in Hin. naive_solver.
Qed.

(** A character that ends a decimal number. *)
Definition ends_number (r : bytes) : Prop :=
  match r with c :: _ => is_digit c = false /\ c <> x78 /\ c <> x58 | [] => True end.

Lemma follows_ends r : follows r -> ends_number r.
Proof.
  intros H. pose proof (follows_span (fun c => is_digit c || bool_decide (c = x78) || bool_decide (c = x58)) r H) as E.
  specialize (E eq_refl eq_refl eq_refl eq_refl). destruct r as [|c r]; [done|].
  apply orb_false_iff in E as [[? ?%bool_decide_eq_false]%orb_false_iff ?%bool_decide_eq_false]. by split_and!.
Qed.

Lemma scanNumber_dec n r : ends_number r -> scanNumber (format_uint 10 n ++ r) = (zlen (format_uint 10 n), true).
Proof.
  intros Hr. pose proof (format_uint_decimal n) as Hd. destruct (format_uint_first n) as (c & s & E & Hc). rewrite E in *.
  assert (forallb is_digit (c :: s) = true) as Hdig.
  { apply forallb_forall. intros x Hx%list_elem_of_In. rewrite Forall_forall in Hd. apply Hd in Hx.
    unfold is_digit, in_range. lia. }
  assert (has_prefix ((c :: s) ++ r) (str "0x") = false /\ has_prefix ((c :: s) ++ r) (str "0X") = false) as [H1 H2].
  { assert (forall y, is_digit y = false -> match r with x :: _ => x <> y | [] => True end ->
      has_prefix ((c :: s) ++ r) [x30; y] = false) as H.
    { intros y Hy Hry. cbn [app has_prefix]. destruct s as [|x s]; cbn [app].
      - destruct r as [|x r]; [by rewrite andb_false_r|]. by rewrite (bool_decide_eq_false_2 (x = y)), andb_false_r.
      - rewrite (bool_decide_eq_false_2 (x = y)), andb_false_r; [done|]. intros ->. cbn [forallb] in Hdig.
        by rewrite Hy, andb_false_r in Hdig. }
    split; (apply H; [done|]); (destruct r as [|x r]; [done|]); by destruct Hr as (? & ? & ?). }
  unfold scanNumber. rewrite H1, H2. cbn [orb]. rewrite CondText.span_app; [|done|by destruct r; [|apply Hr]].
  done.
Qed.

Lemma scanNumber_hex n r : match r with c :: _ => CondText.isHexDigit c = false | [] => True end ->
  scanNumber (str "0x" ++ format_uint 16 n ++ r) = (2 + zlen (format_uint 16 n), true).
Proof.
  intros Hr. assert (Forall (fun c => CondText.isHexDigit c = true) (format_uint 16 n)) as Hd.
  { apply format_uint_loop_digits; [lia| |done]. intros d Hd.
    assert (forall k, (k < 16)%nat -> CondText.isHexDigit (digit_char (Z.of_nat k)) = true) as H.
    { intros k Hk. do 16 (destruct k as [|k]; [done|]). lia. }
    specialize (H (Z.to_nat d) ltac:(lia)). by rewrite Z2Nat.id in H by lia. }
  unfold scanNumber. assert (has_prefix (str "0x" ++ format_uint 16 n ++ r) (str "0x") = true) as ->.
  { done. }
  cbn [orb]. change (drop 2 (str "0x" ++ ?t)) with t. rewrite CondText.span_app; [|by apply forallb_forall; intros x Hx%list_elem_of_In; rewrite Forall_forall in Hd; apply Hd|done].
  f_equal. pose proof (format_uint_ne 16 n). destruct (format_uint 16 n); [done|]. apply Z.ltb_lt. len.
Qed.

Lemma scan_subs_text ss fuel i r : (length ss < fuel)%nat -> ends_number r -> CondText.next_is x2d r = false ->
  let t := concat ((fun sub => x2d :: format_uint 10 sub) <$> ss) in
  scan_subs fuel (mkCursor i (t ++ r)) = Ok (mkCursor (i + zlen t) r).
Proof.
  revert fuel i. induction ss as [|x ss IH]; intros fuel i Hf Hr Hn t; (destruct fuel as [|fuel]; [cbn [length] in Hf; lia|]).
  - cbn [scan_subs Parse.rest]. unfold t. cbn [fmap list_fmap concat app]. rewrite Hn. do 2 f_equal. len.
  - cbn [scan_subs Parse.rest]. unfold t. rewrite fmap_cons. cbn [concat app].
    set (t' := concat _) in *. cbn [CondText.next_is]. rewrite bool_decide_eq_true_2 by done.
    rewrite <- app_assoc. rewrite (advance_app i [x2d] (format_uint 10 x ++ t' ++ r)), bind_Ok by done. cbn [Parse.rest].
    rewrite scanNumber_dec by (unfold t'; destruct ss; [done|by cbn]). rewrite advance_app, bind_Ok by done. cbn [negb].
    cbn [length] in Hf. rewrite IH by (done || lia). do 2 f_equal. unfold t. len.
Qed.

Lemma subs_length ss : (length ss <= length (concat ((fun sub => x2d :: format_uint 10 sub) <$> ss)))%nat.
Proof. induction ss as [|x ss IH]; [done|]. rewrite fmap_cons. cbn [concat length app]. rewrite length_app. lia. Qed.

Section sids.
Context {U : Uapi} (opt : options).

(** A SID whose text the scanner delimits: hexadecimal digits of an authority would run into a following
    [D:] component. *)
Definition delimited (s : SID.t) : Prop := SID.authority s < 2 ^ 32 \/ 0 < SID.count s.

Lemma scanNumber_authority a ss r : (a < 2 ^ 32 \/ ss <> []) -> follows r ->
  let t := concat ((fun sub => x2d :: format_uint 10 sub) <$> ss) in
  scanNumber (SID.format_authority a ++ t ++ r) = (zlen (SID.format_authority a), true).
Proof.
  intros Ha Hr t. assert (ends_number (t ++ r)) as Hend.
  { unfold t. destruct ss as [|x ss]; [by apply follows_ends|by cbn]. }
  unfold SID.format_authority. destruct (Z.leb_spec (2 ^ 32) a) as [H32|]; [|by apply scanNumber_dec].
  rewrite <- app_assoc, scanNumber_hex, zlen_app; [done|]. destruct Ha as [?|Hss]; [lia|].
  unfold t. by destruct ss.
Qed.

Lemma scanRawSID_String s i r : SID.valid s -> delimited s -> follows r ->
  scanRawSID (mkCursor i (SID.String s ++ r)) = Ok (SID.String s, mkCursor (i + zlen (SID.String s)) r).
Proof.
  intros [Hwf Hv] Hd Hr. destruct (SID.wf_valid s Hwf Hv) as (a & ss & Hs). unfold delimited in Hd.
  destruct (SID.denotes_count _ _ _ Hs) as [_ Hc]. rewrite Hc, (SID.denotes_authority _ _ _ Hs) in Hd.
  unfold SID.String. rewrite Hv, (SID.denotes_authority _ _ _ Hs), (SID.denotes_sub_authorities _ _ _ Hs). cbn [negb].
  set (t := concat _). set (au := SID.format_authority a). unfold scanRawSID. cbn [Parse.rest at_].
  rewrite <- !app_assoc. assert (forall l, has_prefix (str "S-1-" ++ l) (str "S-1-") = true) as -> by done. cbn [negb].
  rewrite advance_app, bind_Ok by done. cbn [Parse.rest].
  unfold au, t. rewrite scanNumber_authority; [|destruct Hd as [?|Hd]; [by left|right; by intros ->]|done]. fold au t.
  rewrite advance_app, bind_Ok by done. cbn [negb Parse.rest].
  assert (CondText.next_is x2d r = false) as Hdash.
  { destruct Hr as [->|(c & s' & -> & Ht)]; [done|]. cbn [CondText.next_is]. apply bool_decide_eq_false. by intros ->. }
  pose proof (subs_length ss). fold t in H.
  unfold t. rewrite scan_subs_text; [|fold t; rewrite length_app; lia|by apply follows_ends|done].
  fold t. rewrite bind_Ok. cbn [at_].
  assert (zlen (str "S-1-" ++ au ++ t) = 4 + zlen au + zlen t) as Hl by (rewrite !zlen_app; change (zlen (str "S-1-")) with 4; lia).
  rewrite (slice_is _ [] (str "S-1-" ++ au ++ t) r), bind_Ok by (app_eq || (rewrite ?Hl, ?zlen_nil; lia)).
  do 3 f_equal. lia.
Qed.

Lemma scanSID_format s i r : SID.valid s -> delimited s -> follows r ->
  scanSID opt (mkCursor i (formatSID opt s ++ r)) = Ok (s, mkCursor (i + zlen (formatSID opt s)) r).
Proof.
  intros Hs Hd Hr. unfold scanSID. cbn [Parse.rest at_].
  destruct (formatSID_cases opt s) as [(e & Hin & _)|E].
  - assert (exists x y, formatSID opt s = [x; y] /\ has_prefix [x; y] (str "S-") = false) as (x & y & E & Hp).
    { assert (forallb (fun e => match e.1 with [x; y] => negb (has_prefix [x; y] (str "S-")) | _ => false end) sidAliases = true)
        as Ht by (vm_compute; reflexivity).
      rewrite forallb_forall in Ht. apply list_elem_of_In, Ht in Hin. cbn [fst] in Hin.
      destruct (formatSID opt s) as [|x [|y [|]]]; [done..| |done]. exists x, y. split; [done|]. by apply negb_true_iff. }
    pose proof (parseSIDText_format opt s Hs) as Hparse. rewrite E in *.
    replace (has_prefix ([x; y] ++ r) (str "S-")) with false by (symmetry; exact Hp).
    destruct (Z.ltb_spec (zlen ([x; y] ++ r)) 2); [len|].
    rewrite (slice_is _ [] [x; y] r), bind_Ok by done. rewrite advance_app, !bind_Ok by done. cbn beta iota.
    by rewrite Hparse.
  - assert (has_prefix (formatSID opt s ++ r) (str "S-") = true) as ->.
    { rewrite E. unfold SID.String. destruct Hs as [_ ->]. done. }
    rewrite E at 1. rewrite scanRawSID_String, bind_Ok by done. cbn beta iota. rewrite <- E.
    by rewrite parseSIDText_format.
Qed.
End sids.

(** ** ACLs *)

Section acls.
Context {U : Uapi} `{!AceLaws U, !SddlLaws U} (opt : options).

(** The ACEs with a text form. *)
Definition ace_sddl_ok (a : Ace.ACE) : Prop := structured_ok a \/ conditional a.

Lemma formatACE_ok a : ace_sddl_ok a ->
  exists body, formatACE opt a = Ok (str "(" ++ body ++ str ")") /\ balanced body
    /\ forall off, parseACEBody opt body off = Ok a.
Proof. intros [H|H]; [by apply formatACE_structured|by apply formatACE_conditional]. Qed.

(** Nothing, or text between an opening and a closing parenthesis. *)
Definition enclosed (t : bytes) : Prop := t = [] \/ exists m, t = str "(" ++ m ++ str ")".

Lemma scan_aces_format l : Forall ace_sddl_ok l ->
  exists t, formatACEs opt l = Ok t /\ enclosed t /\ forall fuel i entries r,
    (length t < fuel)%nat -> CondText.next_is x28 r = false ->
    scan_aces opt fuel entries (mkCursor i (t ++ r)) = Ok (entries ++ l, mkCursor (i + zlen t) r).
Proof.
  induction 1 as [|a l Ha _ (t & Ef & Ht & IH)].
  - exists []. split_and!; [done|by left|]. intros [|fuel] i entries r Hf Hr; [cbn [length] in Hf; lia|].
    cbn [app scan_aces Parse.rest]. rewrite Hr, app_nil_r. do 3 f_equal. len.
  - destruct (formatACE_ok a Ha) as (body & Eb & Hb & Hp). exists ((str "(" ++ body ++ str ")") ++ t). split_and!.
    + cbn [formatACEs]. rewrite Eb. cbn [wrap_err]. by rewrite bind_Ok, Ef, bind_Ok.
    + right. destruct Ht as [->|(m & ->)]; [exists body; app_eq|]. exists (body ++ str ")" ++ str "(" ++ m). app_eq.
    + intros fuel i entries r Hf Hr. rewrite !length_app in Hf. cbn [length str] in Hf. destruct fuel as [|fuel]; [lia|].
      rewrite <- !app_assoc. cbn [scan_aces Parse.rest].
      assert (forall s, CondText.next_is x28 (str "(" ++ s) = true) as -> by done.
      rewrite scanACE_enclosed, Hp, !bind_Ok by done. cbn beta iota. rewrite IH by (done || (cbn in Hf; lia)).
      rewrite <- app_assoc. do 3 f_equal. rewrite !zlen_app. change (zlen (str "(")) with 1. change (zlen (str ")")) with 1. lia.
Qed.

(** The flags of an ACL: the scanner stops before the ACEs or the next component. *)
Definition after_flags (r : bytes) : Prop := follows r \/ CondText.next_is x28 r = true.

Lemma scan_flags_text l i r : forallb isFlagChar l = true -> after_flags r ->
  scan_flags i (l ++ r) = Ok (l, mkCursor (i + zlen l) r).
Proof.
  intros Hl Hr. revert i. induction l as [|c l IH]; intros i.
  - cbn [app]. rewrite Z.add_0_r. destruct Hr as [[->|(tag & s & -> & Ht)]|Hr]; [done| |].
    + cbn [scan_flags]. rewrite bool_decide_eq_false_2 by (intros [= ->]; done). cbn [CondText.next_is].
      by rewrite bool_decide_eq_true_2, Ht.
    + destruct r as [|c r]; [done|]. apply bool_decide_eq_true in Hr as ->. done.
  - cbn [forallb] in Hl. apply andb_true_iff in Hl as [Hc Hl]. cbn [app scan_flags].
    rewrite bool_decide_eq_false_2 by (intros [= ->]; done).
    assert (CondText.next_is x3a (l ++ r) = false) as ->.
    { destruct l as [|x l]; cbn [app CondText.next_is].
      - destruct Hr as [[->|(tag & s & -> & Ht)]|Hr]; [done| |].
        + cbn [CondText.next_is]. apply bool_decide_eq_false. intros ->. done.
        + destruct r as [|x r]; [done|]. apply bool_decide_eq_true in Hr as ->. done.
      - apply bool_decide_eq_false. intros ->. done. }
    rewrite andb_false_l, Hc. cbn [negb]. rewrite IH, bind_Ok by done. cbn beta iota. do 3 f_equal. len.
Qed.

Definition flag_text (prot req inherited null : bool) : bytes :=
  (if prot then str "P" else []) ++ (if req then str "AR" else []) ++ (if inherited then str "AI" else [])
  ++ (if null then NO_ACCESS_CONTROL else []).

Lemma flag_text_ok prot req inherited null :
  forallb isFlagChar (flag_text prot req inherited null) = true
  /\ parseACLFlags (to_upper (flag_text prot req inherited null)) = Ok (mkFlags prot inherited req null).
Proof. destruct prot, req, inherited, null; by vm_compute. Qed.

End acls.
(** ** One turn of the parser's loop per component *)

Section components.
Context {U : Uapi} `{!AceLaws U, !SddlLaws U} (opt : options).

(** The shape of a component's text: nothing, or a tag, a colon and text whose last character survives trimming. *)
Definition part (tag : byte) (t : bytes) : Prop :=
  t = [] \/ ((exists s, t = tag :: x3a :: s) /\ exists m c, t = m ++ [c] /\ plain c).

(** The loop reads [t] and goes from [d] to [d'], whatever component follows. *)
Definition reads (tag : byte) (t : bytes) (d d' : SD.Descriptor) : Prop :=
  forall fuel seen i r, follows r -> tag ∉ seen -> (length t + length r < fuel)%nat ->
  exists fuel' seen', (length r < fuel')%nat /\ seen' ⊆ tag :: seen
    /\ parse_loop opt fuel d seen (mkCursor i (t ++ r)) = parse_loop opt fuel' d' seen' (mkCursor (i + zlen t) r).

Lemma reads_nil tag d : reads tag [] d d.
Proof.
  intros fuel seen i r Hr Ht Hf. cbn [length app] in *. exists fuel, seen. rewrite Z.add_0_r.
  split_and!; [lia|set_solver|done].
Qed.

Lemma reads_component tag s d d' : isComponentTag tag = true ->
  (forall i r, follows r -> component opt tag d (mkCursor i (s ++ r)) = Ok (d', mkCursor (i + zlen s) r)) ->
  reads tag (tag :: x3a :: s) d d'.
Proof.
  intros Htag Hc fuel seen i r Hr Ht Hf. cbn [length] in Hf. destruct fuel as [|fuel]; [lia|].
  exists fuel, (tag :: seen). split; [lia|]. split; [done|].
  cbn [app parse_loop Parse.rest CondText.next_is]. rewrite bool_decide_eq_true_2, Htag by done. cbn [negb].
  rewrite bool_decide_eq_false_2 by done.
  rewrite (advance_app i [tag; x3a] (s ++ r)), bind_Ok by done. rewrite Hc, bind_Ok by done. cbn beta iota.
  do 2 f_equal. len.
Qed.

Lemma reads_app tag tag' t t' d d' d'' fuel seen i r : reads tag t d d' -> reads tag' t' d' d'' ->
  part tag' t' -> isComponentTag tag' = true -> follows r -> tag ∉ seen -> tag' ∉ tag :: seen ->
  (length t + length t' + length r < fuel)%nat ->
  exists fuel' seen', (length r < fuel')%nat /\ seen' ⊆ tag' :: tag :: seen
    /\ parse_loop opt fuel d seen (mkCursor i (t ++ t' ++ r)) = parse_loop opt fuel' d'' seen' (mkCursor (i + zlen t + zlen t') r).
Proof.
  intros H H' Hp Htag Hr Hs Hs' Hf.
  assert (follows (t' ++ r)) as Hfol by (destruct Hp as [->|[[s ->] _]]; [done|right; by exists tag', (s ++ r)]).
  destruct (H fuel seen i (t' ++ r) Hfol Hs) as (fuel' & seen' & Hf' & Hi & ->); [rewrite length_app; lia|].
  rewrite length_app in Hf'.
  destruct (H' fuel' seen' (i + zlen t) r Hr) as (fuel'' & seen'' & Hf'' & Hi' & ->); [set_solver|lia|].
  exists fuel'', seen''. split; [done|]. split; [set_solver|done].
Qed.

(** The last character of text in a class of printable characters. *)
Lemma last_plain (p : byte -> bool) s : (forall c, p c = true -> plain c) -> forallb p s = true -> s <> [] ->
  exists m c, s = m ++ [c] /\ plain c.
Proof.
  intros Hp Hs Hne. destruct (exists_last Hne) as (m & c & ->). exists m, c. split; [done|].
  rewrite forallb_app in Hs. apply andb_true_iff in Hs as [_ Hs]. cbn [forallb] in Hs. apply Hp.
  by apply andb_true_iff in Hs as [? _].
Qed.

(** ** Owner and group *)

Definition sid_ok (s : SID.t) : Prop := s = SID.zero \/ (SID.valid s /\ delimited s).

Definition set_owner (s : SID.t) (d : SD.Descriptor) := SD.mkSD (SD.Control d) s (SD.Group d) (SD.DACL d) (SD.SACL d).
Definition set_group (s : SID.t) (d : SD.Descriptor) := SD.mkSD (SD.Control d) (SD.Owner d) s (SD.DACL d) (SD.SACL d).

Lemma sid_section_reads (tag : byte) (s : SID.t) d d' : isComponentTag tag = true -> sid_ok s ->
  (s = SID.zero -> d = d') ->
  (forall p, component opt tag d p = '(s, p) ← scanSID opt p; Ok (if bool_decide (tag = x4f) then set_owner s d else set_group s d, p)) ->
  d' = (if bool_decide (tag = x4f) then set_owner s d else set_group s d) ->
  let t := sid_section opt [tag; x3a] s in part tag t /\ reads tag t d d'.
Proof.
  intros Htag [->|[Hs Hd]] H0 Hc Hd' t; unfold t, sid_section.
  - rewrite SID.zero_invalid. split; [by left|]. rewrite H0 by done. apply reads_nil.
  - pose proof Hs as [_ ->]. cbn [app]. split.
    + right. split; [by eexists|]. destruct (last_plain sid_char (formatSID opt s)) as (m & c & E & Hp).
      * intros c. unfold sid_char, in_range, plain. rewrite !orb_true_iff, !andb_true_iff, !Z.leb_le, Z.eqb_eq. lia.
      * by apply formatSID_chars.
      * by apply formatSID_ne.
      * exists (tag :: x3a :: m), c. split; [by rewrite E|done].
    + apply reads_component; [done|]. intros i r Hr. rewrite Hc, scanSID_format, bind_Ok by done.
      cbn beta iota. by rewrite <- Hd'.
Qed.

(** ** The ACLs *)

Definition present_mask (isSACL : bool) : Z := if isSACL then KACS_SD_SACL_PRESENT else KACS_SD_DACL_PRESENT.
Definition acl_masks (isSACL : bool) : list Z :=
  if isSACL then [KACS_SD_SACL_PRESENT; KACS_SD_SACL_PROTECTED; KACS_SD_SACL_AUTO_INHERITED; controlSACLAutoInheritReq]
  else [KACS_SD_DACL_PRESENT; KACS_SD_DACL_PROTECTED; KACS_SD_DACL_AUTO_INHERITED; controlDACLAutoInheritReq].
Definition acl_bits (isSACL : bool) : Z := lor_all (acl_masks isSACL).

Lemma acl_masks_bits isSACL : forallb is_bit (acl_masks isSACL) = true.
Proof.
  pose proof sd_controls_bits as H. rewrite forallb_forall in H. apply forallb_forall. intros x Hx.
  unfold acl_masks in Hx. destruct isSACL; simpl in Hx;
    (destruct Hx as [<-|[<-|[<-|[<-|[]]]]]; try (apply H; simpl; tauto); reflexivity).
Qed.

Definition set_acl (isSACL : bool) (acl : option Acl.ACL) (c : Z) (d : SD.Descriptor) : SD.Descriptor :=
  if isSACL then SD.mkSD (Z.lor (SD.Control d) c) (SD.Owner d) (SD.Group d) (SD.DACL d) acl
  else SD.mkSD (Z.lor (SD.Control d) c) (SD.Owner d) (SD.Group d) acl (SD.SACL d).
Definition get_acl (isSACL : bool) (d : SD.Descriptor) : option Acl.ACL := if isSACL then SD.SACL d else SD.DACL d.

(** The control bits read are those of the ACL's masks that were set. *)
Lemma acl_control_spec isSACL c (null : bool) a p i r : acl_masks isSACL = [a; p; i; r] ->
  has_bit c a = negb null ->
  acl_control (mkFlags (has_bit c p) (has_bit c i) (has_bit c r) null) a p i r = Z.land c (acl_bits isSACL).
Proof.
  intros E Hn. pose proof (acl_masks_bits isSACL) as H. unfold acl_bits. rewrite E in *. cbn [forallb lor_all foldr] in *.
  apply andb_true_iff in H as [Ha H]. apply andb_true_iff in H as [Hp H]. apply andb_true_iff in H as [Hi H].
  apply andb_true_iff in H as [Hr _]. rewrite !Z.land_lor_distr_r, !land_is_bit, Hn, Z.land_0_r, Z.lor_0_r by done.
  unfold acl_control. cbn [nullACL protected autoInherited autoInheritReq].
  rewrite <- !Z.lor_assoc. by destruct null.
Qed.

(** The ACL of a component: its ACEs have a text form, and its control bits agree with its presence. *)
Definition acl_sddl_ok (acl : option Acl.ACL) : Prop := forall l, acl = Some l -> Forall ace_sddl_ok (Acl.Entries l).

Lemma scanACL_text isSACL acl c d i t r : acl_sddl_ok acl -> has_bit c (present_mask isSACL) = bool_decide (is_Some acl) ->
  enclosed t -> (match acl with Some l => formatACEs opt (Acl.Entries l) = Ok t | None => t = [] end) -> follows r ->
  let f := formatACLFlags c isSACL ++ (if acl is Some _ then [] else NO_ACCESS_CONTROL) in
  scanACL opt d isSACL (mkCursor i (f ++ t ++ r))
  = Ok (set_acl isSACL acl (Z.land c (acl_bits isSACL)) d, mkCursor (i + zlen f + zlen t) r).
Proof.
  intros Hacl Hpres Henc Ht Hr f.
  assert (exists a p inh req, acl_masks isSACL = [a; p; inh; req] /\ a = present_mask isSACL
    /\ f = flag_text (has_bit c p) (has_bit c req) (has_bit c inh) (negb (bool_decide (is_Some acl))))
    as (a & p & inh & req & Em & Ea & Ef).
  { unfold f, flag_text, formatACLFlags, acl_masks, present_mask. destruct isSACL.
    all: do 4 eexists; split; [reflexivity|split; [reflexivity|]]; rewrite <- !app_assoc; by destruct acl. }
  destruct (flag_text_ok (has_bit c p) (has_bit c req) (has_bit c inh) (negb (bool_decide (is_Some acl)))) as [Hchars Hparse].
  rewrite <- Ef in Hchars, Hparse.
  assert (after_flags (t ++ r)) as Haf by (destruct Henc as [->|[m ->]]; [by left|by right]).
  unfold scanACL. cbn [at_ Parse.rest]. rewrite scan_flags_text, bind_Ok by done. cbn beta iota.
  rewrite Hparse. cbn [at_offset]. rewrite bind_Ok. cbn [nullACL Parse.rest].
  assert (CondText.next_is x28 r = false) as Hparen.
  { destruct Hr as [->|(c' & s' & -> & Hc')]; [done|]. cbn [CondText.next_is]. apply bool_decide_eq_false. by intros ->. }
  pose proof (acl_control_spec isSACL c (negb (bool_decide (is_Some acl))) a p inh req Em) as Hctl.
  rewrite Ea, Hpres, negb_involutive in Hctl. specialize (Hctl eq_refl).
  destruct acl as [l|].
  - cbn [bool_decide is_Some_dec negb andb]. rewrite bool_decide_eq_true_2 in * by done. cbn [negb andb] in *.
    destruct (scan_aces_format opt (Acl.Entries l) (Hacl l eq_refl)) as (t' & Ef' & _ & Hs).
    assert (t' = t) as -> by congruence. rewrite Hs, bind_Ok by (done || (rewrite length_app; lia)). cbn [app].
    unfold set_acl. rewrite <- Hctl. unfold acl_masks, present_mask in *. destruct l. by destruct isSACL; injection Em as _ <- <- <-.
  - rewrite bool_decide_eq_false_2 in * by (by intros [? ?]). cbn [negb andb] in *. subst t. cbn [app]. rewrite Hparen.
    cbn [scan_aces Parse.rest]. rewrite Hparen, bind_Ok. cbn beta iota. rewrite zlen_nil, Z.add_0_r.
    unfold set_acl. rewrite <- Hctl. unfold acl_masks, present_mask in *. by destruct isSACL; injection Em as _ <- <- <-.
Qed.

Definition acl_tag (isSACL : bool) : byte := if isSACL then x53 else x44.

Lemma component_acl isSACL d p : component opt (acl_tag isSACL) d p = scanACL opt d isSACL p.
Proof. by destruct isSACL. Qed.

Lemma part_acl tag f t : forallb isFlagChar f = true -> enclosed t -> part tag (tag :: x3a :: f ++ t).
Proof.
  intros Hf Ht. right. split; [by eexists|]. destruct Ht as [->|[m ->]].
  - rewrite app_nil_r. destruct (last_plain (fun c => isFlagChar c || (b2z c =? 58)) (x3a :: f)) as (m & c & E & Hp); [|..|done|].
    + intros c. unfold isFlagChar, in_range, plain. rewrite !orb_true_iff, !andb_true_iff, !Z.leb_le, !Z.eqb_eq. lia.
    + cbn [forallb]. apply forallb_forall. intros c Hc. rewrite forallb_forall in Hf. by rewrite (Hf c Hc).
    + exists (tag :: m), c. by rewrite E.
  - exists (tag :: x3a :: f ++ str "(" ++ m), x29. split; [app_eq|by cbv].
Qed.

Lemma acl_section_reads isSACL acl c d : acl_sddl_ok acl -> has_bit c (present_mask isSACL) = bool_decide (is_Some acl) ->
  get_acl isSACL d = None ->
  exists t, formatACLSection opt [acl_tag isSACL; x3a] acl (formatACLFlags c isSACL) = Ok t
    /\ part (acl_tag isSACL) t /\ reads (acl_tag isSACL) t d (set_acl isSACL acl (Z.land c (acl_bits isSACL)) d).
Proof.
  intros Hacl Hpres Hd. set (f := formatACLFlags c isSACL).
  assert (forall b, forallb isFlagChar (f ++ (if b : bool then [] else NO_ACCESS_CONTROL)) = true) as Hf.
  { intros b. unfold f, formatACLFlags. destruct isSACL, b; repeat match goal with |- context [has_bit c ?x] => destruct (has_bit c x) end; done. }
  assert (exists t, match acl with Some l => formatACEs opt (Acl.Entries l) = Ok t | None => t = [] end /\ enclosed t)
    as (t & Ht & Henc).
  { destruct acl as [l|]; [|exists []; by split; [|left]].
    destruct (scan_aces_format opt (Acl.Entries l) (Hacl l eq_refl)) as (t & ? & ? & _). by exists t. }
  set (whole := f ++ (if acl is Some _ then [] else NO_ACCESS_CONTROL)).
  assert (part (acl_tag isSACL) (acl_tag isSACL :: x3a :: whole ++ t)
    /\ reads (acl_tag isSACL) (acl_tag isSACL :: x3a :: whole ++ t) d (set_acl isSACL acl (Z.land c (acl_bits isSACL)) d)) as [Hp Hr].
  { split; [apply part_acl; [destruct acl; [apply (Hf true)|apply (Hf false)]|done]|].
    apply reads_component; [by destruct isSACL|]. intros i r Hr. rewrite component_acl, <- app_assoc.
    unfold whole, f. rewrite scanACL_text by done. do 3 f_equal. len. }
  destruct acl as [l|]; cbn [formatACLSection].
  - exists (acl_tag isSACL :: x3a :: whole ++ t). rewrite Ht, bind_Ok. split_and!; [|done..].
    unfold whole. by rewrite app_nil_r.
  - subst t. rewrite app_nil_r in *. destruct (bool_decide_reflect (f = [])) as [E|E].
    2: { exists (acl_tag isSACL :: x3a :: whole). by split. }
    exists []. split; [done|]. split; [by left|].
    assert (Z.land c (acl_bits isSACL) = 0) as ->.
    { unfold f, formatACLFlags in E. unfold acl_bits, acl_masks. pose proof (acl_masks_bits isSACL) as Hb. unfold acl_masks in Hb.
      destruct isSACL; cbn [forallb present_mask] in *; cbn [lor_all foldr].
      all: apply andb_true_iff in Hb as [B1 Hb]; apply andb_true_iff in Hb as [B2 Hb];
        apply andb_true_iff in Hb as [B3 Hb]; apply andb_true_iff in Hb as [B4 _].
      all: rewrite !Z.land_lor_distr_r, !land_is_bit, Hpres, Z.land_0_r by done.
      all: repeat match goal with |- context [has_bit ?y ?x] => destruct (has_bit y x); [done|] end.
      all: reflexivity. }
    assert (set_acl isSACL None 0 d = d) as ->; [|apply reads_nil].
    unfold set_acl, get_acl in *. destruct d, isSACL; cbn in *; by rewrite Z.lor_0_r, Hd.
Qed.

End components.

(** ** The descriptor *)

Section descriptor.
Context {U : Uapi} `{!AceLaws U, !SddlLaws U} (opt : options).

(** The descriptors with a text form: SIDs the scanner delimits, ACLs of ACEs with a text form, and no control
    bits but those of the ACLs, the presence bits agreeing with the ACLs. *)
Definition sddl_ok (d : SD.Descriptor) : Prop :=
  sid_ok (SD.Owner d) /\ sid_ok (SD.Group d)
  /\ (forall isSACL, acl_sddl_ok (get_acl isSACL d)
        /\ has_bit (SD.Control d) (present_mask isSACL) = bool_decide (is_Some (get_acl isSACL d)))
  /\ bic (SD.Control d) (Z.lor (acl_bits false) (acl_bits true)) = 0.

Lemma part_last tag t s : part tag t -> (s = [] \/ exists m c, s = m ++ [c] /\ plain c) ->
  t ++ s = [] \/ exists m c, t ++ s = m ++ [c] /\ plain c.
Proof.
  intros Ht [->|(m & c & -> & Hc)]; [|right; exists (t ++ m), c; by rewrite <- app_assoc].
  rewrite app_nil_r. destruct Ht as [->|[_ ?]]; [by left|by right].
Qed.

(** Text that starts with a component's tag is left alone by the trimming. *)
Lemma trim_component b : (b = [] \/ exists m c, b = m ++ [c] /\ plain c) ->
  (b = [] \/ exists tag s, b = tag :: x3a :: s /\ isComponentTag tag = true) -> trim_space b = b.
Proof.
  intros [->|(m & d & E & Hd)] Hf; [done|]. destruct Hf as [->|(tag & s & -> & Ht)]; [done|].
  destruct m as [|x m]; [done|]. injection E as <- E. rewrite E. apply trim_space_plain; [|done].
  unfold isComponentTag in Ht. rewrite existsb_exists in Ht.
  destruct Ht as (x & Hin & Ex%bool_decide_eq_true). subst x. unfold plain. simpl in Hin. destruct Hin as [<-|[<-|[<-|[<-|[]]]]]; by cbv.
Qed.

Lemma follows_part tag t r : isComponentTag tag = true -> part tag t -> follows r -> follows (t ++ r).
Proof. intros Htag [->|[[s ->] _]] Hr; [done|]. right. by exists tag, (s ++ r). Qed.

Lemma format_parse d : sddl_ok d -> exists s, Format opt d = Ok s /\ Parse opt s = Ok d.
Proof.
  intros (Ho & Hg & Hacl & Hc).
  destruct (Hacl false) as [Hda Hdp]. destruct (Hacl true) as [Hsa Hsp].
  cbn [get_acl present_mask] in *. set (c := SD.Control d) in *.
  set (d0 := zeroSD). set (d1 := set_owner (SD.Owner d) d0). set (d2 := set_group (SD.Group d) d1).
  set (d3 := set_acl false (SD.DACL d) (Z.land c (acl_bits false)) d2).
  set (d4 := set_acl true (SD.SACL d) (Z.land c (acl_bits true)) d3).
  assert (d4 = d) as E4.
  { unfold d4, d3, d2, d1, d0, set_acl, set_group, set_owner, zeroSD. cbn [SD.Control SD.Owner SD.Group SD.DACL SD.SACL].
    rewrite Z.lor_0_l, <- Z.land_lor_distr_r, (bic_0_land _ _ Hc : Z.land c _ = c). unfold c. by destruct d. }
  destruct (sid_section_reads opt x4f (SD.Owner d) d0 d1) as [Po Ro]; [done|done|by intros E; unfold d1; rewrite E| |done|].
  { intros p. reflexivity. }
  destruct (sid_section_reads opt x47 (SD.Group d) d1 d2) as [Pg Rg]; [done|done|by intros E; unfold d2; rewrite E| |done|].
  { intros p. reflexivity. }
  destruct (acl_section_reads opt false (SD.DACL d) c d2) as (td & Ed & Pd & Rd); [done..|].
  destruct (acl_section_reads opt true (SD.SACL d) c d3) as (ts & Es & Ps & Rs); [done..|].
  fold d3 in Rd. fold d4 in Rs. cbn [acl_tag] in *.
  set (o := sid_section opt [x4f; x3a] (SD.Owner d)) in *. set (g := sid_section opt [x47; x3a] (SD.Group d)) in *.
  set (b := o ++ g ++ td ++ ts).
  assert (Format opt d = Ok (if bool_decide (b = []) then str "D:NO_ACCESS_CONTROL" else b)) as EF.
  { unfold Format. fold c. rewrite Hdp, Hsp.
    assert (forall a : option Acl.ACL, bool_decide (is_Some a) && bool_decide (a = None) = false) as Hn.
    { intros [a|]; [|done]. by rewrite andb_false_r. }
    rewrite !Hn. cbn [orb]. change (str "D:") with [x44; x3a]. change (str "S:") with [x53; x3a]. rewrite Ed, bind_Ok, Es, bind_Ok. done. }
  assert (follows ts) as Fs by (rewrite <- (app_nil_r ts); eapply follows_part; [|exact Ps|by left]; done).
  assert (follows (td ++ ts)) as Fd by (by eapply follows_part; [|exact Pd|]).
  assert (follows (g ++ td ++ ts)) as Fg by (by eapply follows_part; [|exact Pg|]).
  assert (follows b) as Fb by (by eapply follows_part; [|exact Po|]).
  assert (trim_space b = b) as Etrim.
  { apply trim_component; [|exact Fb]. eapply part_last; [exact Po|]. eapply part_last; [exact Pg|].
    eapply part_last; [exact Pd|]. rewrite <- (app_nil_r ts). eapply part_last; [exact Ps|by left]. }
  assert (Parse opt b = Ok d) as EP.
  { unfold Parse. rewrite Etrim. cbv zeta. rewrite <- E4. change zeroSD with d0.
    change (mkCursor 0 b) with (mkCursor 0 (o ++ g ++ td ++ ts)).
    destruct (Ro (S (length b)) [] 0 (g ++ td ++ ts)) as (f1 & s1 & L1 & I1 & ->);
      [done|set_solver|unfold b; rewrite !length_app; lia|].
    rewrite !length_app in L1. destruct (Rg f1 s1 (0 + zlen o) (td ++ ts)) as (f2 & s2 & L2 & I2 & ->);
      [done|set_solver|rewrite !length_app; lia|].
    rewrite !length_app in L2. destruct (Rd f2 s2 (0 + zlen o + zlen g) ts) as (f3 & s3 & L3 & I3 & ->); [done|set_solver|lia|].
    rewrite <- (app_nil_r ts) in L3 |- *. rewrite length_app in L3.
    destruct (Rs f3 s3 (0 + zlen o + zlen g + zlen td) []) as (f4 & s4 & L4 & _ & ->); [by left|set_solver|lia|].
    destruct f4; [cbn in L4; lia|done]. }
  eexists. split; [exact EF|]. case_bool_decide as Eb; [|done].
  rewrite Eb in EP. rewrite <- EP. by vm_compute.
Qed.

(** C12: formatting and parsing a descriptor are inverse.  For every descriptor with a text form -
    any combination of owner, group, DACL and SACL, present or not, with any of the control bits SDDL knows;
    structured ACEs of every supported type, object GUIDs included; conditional ACEs holding any
    expression - [Format] succeeds and [Parse] of the text gives back the descriptor, component by
    component and bit by bit, even when the text has no component at all. *)
Theorem Parse_Format (d : SD.Descriptor) (Hd : sddl_ok d) : exists s, Format opt d = Ok s /\ Parse opt s = Ok d.
Proof. by apply format_parse. Qed.
End descriptor.

Module Sample.
#[local] Existing Instance pkm.
Import Cond.

Definition ba : SID.t := WK.SID WK.BuiltinAdministrators.
Definition everyone : SID.t := WK.SID WK.Everyone.

(** Administrators: full access, inherited by containers and objects. *)
Definition plain_ace : Ace.ACE := Ace.mkACE KACS_ACE_TYPE_ACCESS_ALLOWED 3 0x10000000 ba None None None.
(** Everyone: one right on one type of object. *)
Definition object_ace : Ace.ACE :=
  Ace.mkACE KACS_ACE_TYPE_ACCESS_ALLOWED_OBJECT 0 0x10 everyone (Some (replicate 16 x07)) None None.
(** Everyone, on a condition. *)
Definition conditional_ace : Ace.ACE :=
  Ace.set_Flags (Parse.callbackACE KACS_ACE_TYPE_ACCESS_ALLOWED_CALLBACK everyone 0x1 None None (compile Decompile.sample_cond)) 0.

Definition descriptor : SD.Descriptor :=
  SD.mkSD (Z.lor KACS_SD_DACL_PRESENT (Z.lor KACS_SD_DACL_PROTECTED KACS_SD_SACL_PROTECTED))
    ba SID.zero (Some (Acl.mkACL [plain_ace; object_ace; conditional_ace])) None.

Lemma plain_structured : structured_ok plain_ace.
Proof.
  split; [reflexivity|split; [reflexivity|split; [|reflexivity]]]. split; [by cbv|split; [by cbv|]].
  change (Ace.structured plain_ace /\ @None bytes = None /\ @None bytes = None).
  split; [|by split]. split; [by cbv|split; [apply WK.SID_ok|done]].
Qed.
Lemma object_structured : structured_ok object_ace.
Proof.
  split; [reflexivity|split; [reflexivity|split; [|reflexivity]]]. split; [by cbv|split; [by cbv|]].
  change (Ace.structured object_ace /\ zlen (replicate 16 x07) = 16 /\ True).
  split; [|by split]. split; [by cbv|split; [apply WK.SID_ok|done]].
Qed.
Lemma sample_conditional : conditional conditional_ace.
Proof.
  apply conditional_intro; [reflexivity|by cbv|apply WK.SID_ok|done|done|done| |vm_compute; reflexivity|reflexivity].
  unfold leaf_sddl_ok. cbn [cond_all operand_all leaf_ok CondText.leaf_text_ok foldr Decompile.sample_cond].
  repeat match goal with |- _ /\ _ => split end; first [exact I|apply WK.SID_ok|reflexivity|discriminate|idtac].
  apply (bool_decide_eq_true_1 _). reflexivity.
Qed.

Lemma descriptor_ok : sddl_ok descriptor.
Proof.
  split; [right; split; [apply WK.SID_ok|left; by vm_compute]|]. split; [by left|]. split; [|by vm_compute].
  intros [|]; (split; [|by vm_compute]); [done|]. intros l [= <-]. cbn [Acl.Entries].
  repeat apply Forall_cons_2; [left; apply plain_structured|left; apply object_structured|right; apply sample_conditional|].
  apply Forall_nil_2.
Qed.

Lemma Parse_Format_witness :
  is_ok (Format noOptions descriptor) = true
  /\ exists s, Format noOptions descriptor = Ok s /\ Parse noOptions s = Ok descriptor.
Proof. split; [vm_compute; reflexivity|]. exact (@Parse_Format pkm _ _ noOptions descriptor descriptor_ok). Defined.

(** The text it goes through. *)
Example descriptor_text : Format noOptions descriptor = Ok (
  str "O:BAD:P(A;CIOI;0x10000000;;;BA)(OA;;0x10;07070707-0707-0707-0707-070707070707;;WD)"
  ++ str "(XA;;0x1;;;WD;((@User.dept == " ++ Decompile.quoted (str "PM") ++ str ") && (Member_of {SID(BA), SID(WD)})))S:PNO_ACCESS_CONTROL").
Proof. vm_compute. reflexivity. Qed.

(** The limits of [sddl_ok] are real.  An authority of nine hexadecimal digits with no sub-authority,
    0x123456789, runs into the tag of the DACL that follows: the descriptor formats, and its text does
    not parse. *)
Definition hex_owner : SD.Descriptor :=
  SD.mkSD KACS_SD_DACL_PRESENT (SID.mk (go_copy (SID.raw SID.zero) (SID.enc 0x123456789 []))) SID.zero (Some (Acl.mkACL [])) None.

Lemma hex_owner_valid : SID.valid (SD.Owner hex_owner).
Proof.
  destruct (SID.ok_parts_NewSID 0x123456789 []) as [s E]; [split; [by cbv|split; [by constructor|by cbv]]|].
  assert (s = SD.Owner hex_owner) as <- by (injection E as <-; vm_compute; reflexivity).
  by eapply SID.NewSID_wf; [|exact E].
Qed.

Lemma hex_authority_not_delimited :
  SID.valid (SD.Owner hex_owner) /\ exists s e, Format noOptions hex_owner = Ok s /\ Parse noOptions s = Err e.
Proof.
  split; [apply hex_owner_valid|]. exists (str "O:S-1-0x123456789D:"). eexists. split; [vm_compute; reflexivity|].
  vm_compute. reflexivity.
Qed.

(** A string literal with a parenthesis: the ACE scanner counts it, so the text of a well-formed conditional
    ACE does not parse. *)
Definition paren_cond : cond := CCompare OpEqual (OUser (str "dept")) (OString (str "a)b")).
Definition paren_ace : SD.Descriptor :=
  SD.mkSD KACS_SD_DACL_PRESENT SID.zero SID.zero (Some (Acl.mkACL [Ace.AllowCallback everyone 0x1 (compile paren_cond)])) None.

Lemma paren_in_string_not_parsed :
  cond_all leaf_ok paren_cond /\ cond_all CondText.leaf_text_ok paren_cond
  /\ exists s e, Format noOptions paren_ace = Ok s /\ Parse noOptions s = Err e.
Proof.
  split; [split; by vm_compute|]. split.
  - split; [split; [discriminate|reflexivity]|apply (bool_decide_eq_true_1 _); reflexivity].
  - exists (str "D:(XA;;0x1;;;WD;(@User.dept == " ++ Decompile.quoted (str "a)b") ++ str "))"). eexists.
    split; [vm_compute; reflexivity|]. vm_compute. reflexivity.
Qed.
End Sample.
End RoundTrip.
