(* ===== verification/SddlSound.v ===== *)
(** * SddlSound: what [Parse] promises on any text (sddl/parse.go, sddl/sddl.go)

    Every function of the recogniser is shown to satisfy [sound]: from a cursor
    inside the text it does not panic, its errors are syntax errors whose offset is
    inside the text, and what it accepts meets a postcondition - the cursor after it
    included, so that the fuel of the loops, the length of the text, is always
    enough.  The descriptor it returns is one that the binary codec takes. *)

From S2P Require Import Prelude Outcome Uapi GoStd GoText Sid WellKnown Condition Ace Acl Descriptor.
From S2P Require Import SddlTables SddlDecompile SddlCondition SddlParse SddlFormat SddlRoundTrip.

Module Sound.
Import Tab Parse Format RoundTrip.

(** ** Texts of [n] bytes *)

(** The outcome of a step over a text of [n] bytes: a value satisfying [Q], or a syntax error inside the text. *)
Definition sound {A} (n : Z) (Q : A -> Prop) (m : outcome A) : Prop :=
  match m with
  | Ok a => Q a
  | Err e => exists off msg, e = Syntax off msg /\ 0 <= off <= n
  | Panic => False
  end.

(** A cursor into the text. *)
Definition within (n : Z) (p : cursor) : Prop := 0 <= at_ p /\ at_ p + zlen (rest p) = n.

Section sound_lemmas.
Context {A B : Type} (n : Z).

Lemma sound_Ok (Q : A -> Prop) a : Q a -> sound n Q (Ok a).
Proof. done. Qed.
Lemma sound_Err (Q : A -> Prop) off msg : 0 <= off <= n -> sound n Q (Err (Syntax off msg)).
Proof. intros H. by exists off, msg. Qed.
Lemma sound_bind (Q : A -> Prop) (R : B -> Prop) m (f : A -> outcome B) :
  sound n Q m -> (forall a, Q a -> sound n R (f a)) -> sound n R (m ≫= f).
Proof. destruct m; [|done..]. intros H Hf. by apply Hf. Qed.
Lemma sound_weaken (Q R : A -> Prop) m : sound n Q m -> (forall a, Q a -> R a) -> sound n R m.
Proof. destruct m; [|done..]. intros H HQ. by apply HQ. Qed.
Lemma sound_exact (Q : A -> Prop) m a : m = Ok a -> Q a -> sound n Q m.
Proof. by intros ->. Qed.
(** A sub-parser's error is reported at an offset of the caller. *)
Lemma sound_at_offset (Q : A -> Prop) off (m : outcome A) : 0 <= off <= n ->
  match m with Ok a => Q a | Err _ => True | Panic => False end -> sound n Q (at_offset off m).
Proof. intros H Hm. destruct m; [done|by apply sound_Err|done]. Qed.
End sound_lemmas.

Lemma advance_sound n p k : within n p -> 0 <= k <= zlen (rest p) ->
  sound n (fun q => within n q /\ zlen (rest q) = zlen (rest p) - k /\ at_ q = at_ p + k) (advance p k).
Proof.
  intros [Hp Hn] Hk. unfold advance. rewrite slice_from_ok, bind_Ok by done. unfold within. cbn [sound Parse.rest at_].
  rewrite zlen_drop by done. lia.
Qed.

Lemma within_bounds n p : within n p -> 0 <= at_ p <= n.
Proof. unfold within. pose proof (zlen_nonneg (rest p)). lia. Qed.

Lemma next_is_zlen c s : CondText.next_is c s = true -> 1 <= zlen s.
Proof. destruct s; [done|len]. Qed.

(** ** SIDs *)

Lemma span_within p s : 0 <= zlen (CondText.span p s) <= zlen s.
Proof. pose proof (CondText.zlen_span p s). pose proof (zlen_nonneg (CondText.span p s)). lia. Qed.

Lemma has_prefix_zlen s p : has_prefix s p = true -> zlen p <= zlen s.
Proof.
  revert s. induction p as [|x p IH]; intros s; [pose proof (zlen_nonneg s); len|]. destruct s as [|y s]; [done|].
  cbn [has_prefix]. intros [_ H%IH]%andb_true_iff. len.
Qed.

Lemma scanNumber_bound s k found : scanNumber s = (k, found) -> 0 <= k <= zlen s /\ (found = true -> 1 <= k).
Proof.
  unfold scanNumber. destruct (has_prefix s (str "0x") || has_prefix s (str "0X")) eqn:E; intros [= <- <-].
  - assert (2 <= zlen s) as Hl by (apply orb_true_iff in E as [E|E]; by apply has_prefix_zlen in E).
    pose proof (span_within CondText.isHexDigit (drop 2 s)) as H. rewrite (zlen_drop 2) in H by lia. lia.
  - pose proof (span_within is_digit s). lia.
Qed.

(** The cursor moved on, within the text. *)
Definition further {A} (n : Z) (p : cursor) (k : Z) (x : A * cursor) : Prop :=
  within n x.2 /\ zlen (rest x.2) + k <= zlen (rest p).

Lemma scan_subs_sound n fuel p : within n p -> (length (rest p) < fuel)%nat ->
  sound n (fun q => within n q /\ zlen (rest q) <= zlen (rest p)) (scan_subs fuel p).
Proof.
  revert p. induction fuel as [|fuel IH]; intros p Hp Hf; [lia|]. cbn [scan_subs].
  destruct (CondText.next_is x2d (rest p)) eqn:E; [|by split]. apply next_is_zlen in E.
  eapply sound_bind; [apply (advance_sound n p 1); [done|lia]|]. intros q (Hq & Hl & _).
  destruct (scanNumber (rest q)) as [k found] eqn:Es. apply scanNumber_bound in Es as [Hk _].
  eapply sound_bind; [by apply (advance_sound n q k)|]. intros q' (Hq' & Hl' & _).
  destruct found; cbn [negb]; [|by apply sound_Err, within_bounds].
  eapply sound_weaken; [apply IH; [done|unfold zlen in *; lia]|]. intros q'' [? ?]. split; [done|lia].
Qed.

Lemma scanRawSID_sound n p : within n p -> sound n (further n p 0) (scanRawSID p).
Proof.
  intros Hp. unfold scanRawSID. destruct (has_prefix (rest p) (str "S-1-")) eqn:E; cbn [negb];
    [|by apply sound_Err, within_bounds].
  apply has_prefix_zlen in E. change (zlen (str "S-1-")) with 4 in E.
  eapply sound_bind; [apply (advance_sound n p 4); [done|lia]|]. intros q (Hq & Hl & Ha).
  destruct (scanNumber (rest q)) as [k found] eqn:Es. apply scanNumber_bound in Es as [Hk _].
  eapply sound_bind; [by apply (advance_sound n q k)|]. intros q' (Hq' & Hl' & Ha').
  destruct found; cbn [negb]; [|by apply sound_Err, within_bounds].
  eapply sound_bind; [apply (scan_subs_sound n); [done|lia]|]. intros q'' [Hq'' Hl''].
  destruct Hp as [Hp0 Hpn], Hq'' as [Hq0 Hqn]. pose proof (zlen_nonneg (rest q'')).
  rewrite slice_ok, bind_Ok by lia. split; [done|cbn [snd]; lia].
Qed.

Section sids.
Context {U : Uapi} (opt : options) (Hopt : options_ok opt).

Lemma scanSID_sound n p : within n p -> sound n (fun x => SID.valid x.1 /\ further n p 0 x) (scanSID opt p).
Proof.
  intros Hp. unfold scanSID. eapply (sound_bind n (further n p 0)).
  - destruct (has_prefix (rest p) (str "S-")); [by apply scanRawSID_sound|].
    destruct (Z.ltb_spec (zlen (rest p)) 2); [by apply sound_Err, within_bounds|].
    rewrite slice_ok, bind_Ok by lia. eapply sound_bind; [apply (advance_sound n p 2); [done|lia]|].
    intros q (Hq & Hl & _). split; [done|cbn [snd]; lia].
  - intros [t q] Hq. pose proof (parseSIDText_ok opt t Hopt) as H.
    destruct (parseSIDText opt t); [by split|by apply sound_Err, within_bounds|done].
Qed.
End sids.
(** ** Fields *)

Lemma split_loop_offsets depth cur start i s lo : lo <= start -> start <= i ->
  Forall (fun f : bytes * Z => lo <= f.2 <= i + zlen s) (split_loop depth cur start i s).
Proof.
  revert depth cur start i. induction s as [|c s IH]; intros depth cur start i Hlo Hi; cbn [split_loop].
  - apply Forall_cons_2; [cbn [snd]; rewrite zlen_nil; lia|apply Forall_nil_2].
  - assert (forall d cur' start', lo <= start' -> start' <= i + 1 ->
      Forall (fun f : bytes * Z => lo <= f.2 <= i + zlen (c :: s)) (split_loop d cur' start' (i + 1) s)) as H.
    { intros. eapply Forall_impl; [by apply IH|]. intros f. cbn beta. rewrite zlen_cons. lia. }
    repeat match goal with |- Forall _ (if ?b then _ else _) => destruct b end; [apply H; lia..| |apply H; lia].
    apply Forall_cons_2; [cbn [snd]; pose proof (zlen_nonneg (c :: s)); lia|apply H; lia].
Qed.

Lemma splitFields_offsets body off :
  Forall (fun f : bytes * Z => off <= f.2 <= off + zlen body) (splitFields body off).
Proof. apply split_loop_offsets; lia. Qed.

(** ** ACEs *)

Section aces.
Context {U : Uapi} `{!AceLaws U, !SddlLaws U}.

Lemma lor_all_fits w l : 0 <= w -> Forall (fits w) l -> fits w (lor_all l).
Proof.
  intros Hw. induction 1 as [|x l Hx _ IH]; [|by apply fits_lor].
  unfold fits. cbn. pose proof (Z.pow_pos_nonneg 2 w). lia.
Qed.

Lemma rightsMnemonics_fits : Forall (fits 32) rightsMnemonics.*2.
Proof.
  pose proof named_rights_fit as H. rewrite forallb_forall in H.
  assert (forall x, In x named_rights -> fits 32 x) as Hf by (intros x Hx; eapply bool_decide_eq_true_1, H, Hx).
  assert (forall l, forallb (fun x => existsb (Z.eqb x) named_rights) l = true -> fits 32 (lor_all l)) as Hl.
  { intros l Hl. apply lor_all_fits; [done|]. rewrite forallb_forall in Hl. apply Forall_forall. intros x Hx%list_elem_of_In.
    apply Hl, existsb_exists in Hx as (y & Hy & ->%Z.eqb_eq). by apply Hf. }
  unfold rightsMnemonics. cbn [fmap list_fmap snd].
  do 8 (apply Forall_cons_2; [apply Hf; unfold named_rights; cbn [In]; tauto|]).
  do 4 (apply Forall_cons_2; [apply Hl; unfold named_rights; cbn [forallb existsb]; rewrite !Z.eqb_refl, ?orb_true_r; reflexivity|]).
  repeat (apply Forall_cons_2; [split; reflexivity || discriminate|]). apply Forall_nil_2.
Qed.

Lemma rights_run_fits s v : rights_run s v -> fits 32 v.
Proof.
  induction 1 as [|s v _ Hp|code bit s v Hin _ IH]; [by cbv|by apply parse_uint_bound in Hp|].
  apply fits_lor; [done| |done]. pose proof rightsMnemonics_fits as H. rewrite Forall_forall in H. apply H.
  apply list_elem_of_fmap. by exists (code, bit).
Qed.

Lemma parseMask_ok field : match parseMask field with Ok m => fits 32 m | Err _ => True | Panic => False end.
Proof.
  pose proof (parseMask_safe field) as Hs. destruct (parseMask field) as [m| |] eqn:E; [|done..].
  apply parseMask_text in E as [H|[_ H]]; [by apply rights_run_fits in H|by apply parse_uint_bound in H].
Qed.

Lemma textToAceFlags_ok s : match textToAceFlags s with Ok f => fits 8 f | Err _ => True | Panic => False end.
Proof.
  assert (forall s f, fits 8 f -> match textToAceFlags_loop s f with Ok f => fits 8 f | Err _ => True | Panic => False end) as H.
  { intros t. enough (forall n t, (length t <= n)%nat -> forall f, fits 8 f ->
      match textToAceFlags_loop t f with Ok f => fits 8 f | Err _ => True | Panic => False end) as H by (by eapply H).
    clear t. intros n. induction n as [|n IH]; intros [|a [|b t]] Hn f Hf; try done; [cbn [length] in Hn; lia|].
    cbn [textToAceFlags_loop]. destruct (assoc aceFlagByCode [a; b]) as [bit|] eqn:E; [|done].
    apply IH; [cbn [length] in Hn; lia|]. apply fits_lor; [done..|]. apply assoc_in in E.
    unfold aceFlagByCode in E. apply list_elem_of_fmap in E as (e & [= _ ->] & E).
    assert (In e.1 ace_flags) as Hin.
    { apply list_elem_of_In in E. unfold aceFlagText in E. simpl in E.
      unfold ace_flags. simpl. naive_solver. }
    by apply (masks_ok_fits 8 ace_flags); [apply ace_flags_ok|]. }
  unfold textToAceFlags. destruct (negb _); [done|]. apply H. by cbv.
Qed.

Lemma parseGUIDField_sound n f : 0 <= f.2 <= n -> sound n Ace.guid_ok (parseGUIDField f).
Proof.
  intros Hf. unfold parseGUIDField. case_bool_decide; [done|].
  eapply (sound_bind n (fun g => zlen g = 16)); [|done]. apply sound_at_offset; [done|].
  pose proof (Guid.parseGUID_safe f.1) as Hs. destruct (Guid.parseGUID f.1) eqn:E; [|done..].
  by apply Guid.parseGUID_inv in E as [? _].
Qed.

Lemma parseGUIDFields_sound n f g : 0 <= f.2 <= n -> 0 <= g.2 <= n ->
  sound n (fun x => Ace.guid_ok x.1 /\ Ace.guid_ok x.2) (parseGUIDFields f g).
Proof.
  intros Hf Hg. unfold parseGUIDFields. eapply sound_bind; [by apply parseGUIDField_sound|]. intros o Ho.
  eapply sound_bind; [by apply parseGUIDField_sound|]. done.
Qed.
End aces.
Section ace_sound.
Context {U : Uapi} `{!AceLaws U, !SddlLaws U} (opt : options) (Hopt : options_ok opt).

(** The offsets of fields, all within the text. *)
Definition offsets_ok (n : Z) (fields : list (bytes * Z)) : Prop := Forall (fun f => 0 <= f.2 <= n) fields.

Lemma supported_code t : aceTypeSupported t = true -> fits 8 t.
Proof.
  intros H. apply (codes_ok_fits 8 ace_types); [apply ace_types_ok|]. unfold aceTypeSupported in H.
  apply existsb_exists in H as (y & Hy & ->%Z.eqb_eq). unfold ace_types. cbn [In] in *. tauto.
Qed.

Lemma parseStructuredACE_sound n t fields off0 : aceTypeSupported t = true -> isCallbackType t = false ->
  offsets_ok n fields -> 0 <= off0 <= n -> sound n Ace.ok (parseStructuredACE opt t fields off0).
Proof.
  intros Hsup Hcb Hf H0. unfold parseStructuredACE.
  destruct fields as [|f0 [|f1 [|f2 [|f3 [|f4 [|f5 [|]]]]]]]; try (by apply sound_Err). unfold offsets_ok in Hf.
  rewrite !Forall_cons in Hf. destruct Hf as (_ & H1 & H2 & H3 & H4 & H5 & _).
  eapply sound_bind; [apply sound_at_offset; [done|apply textToAceFlags_ok]|]. intros flags Hflags.
  eapply sound_bind; [apply sound_at_offset; [done|apply parseMask_ok]|]. intros mask Hmask.
  destruct (_ && negb (isObjectType t)) eqn:Eg; [by apply sound_Err|].
  eapply (sound_bind n (fun x : option bytes * option bytes => Ace.guid_ok x.1 /\ Ace.guid_ok x.2
    /\ (isObjectType t = false -> x.1 = None /\ x.2 = None))).
  { destruct (isObjectType t).
    - eapply sound_weaken; [by apply parseGUIDFields_sound|]. intros x [? ?]. by split_and!.
    - rewrite andb_true_r in Eg. apply orb_false_iff in Eg as [E3%negb_false_iff E4%negb_false_iff].
      unfold parseGUIDFields, parseGUIDField. rewrite E3, bind_Ok, E4. done. }
  intros [o i] (Ho & Hi & Hno). cbn [fst snd] in *. destruct (bool_decide (f5.1 = [])); [by apply sound_Err|].
  eapply (sound_bind n SID.valid); [apply sound_at_offset; [done|by apply parseSIDText_ok]|].
  intros sid Hsid. cbn [sound]. split; [by apply supported_code|split; [done|]]. cbn [Ace.ace_Type].
  assert (Ace.structured (Ace.mkACE t flags mask sid o i None)) as Hst by (by split_and!).
  change (isObjectType t) with (Ace.isObject t) in Hno.
  destruct (Ace.isSimpleMaskSID t) eqn:Es; [split; [done|by apply Hno, Ace.simple_not_object]|].
  destruct (supported_shape t Hsup Hcb) as [?|Hobj]; [congruence|].
  change (isObjectType t) with (Ace.isObject t) in Hobj. by rewrite Hobj.
Qed.

(** The callback types are of neither structured shape. *)
Lemma callback_raw_type t : isCallbackType t = true -> Ace.isSimpleMaskSID t = false /\ Ace.isObject t = false.
Proof.
  unfold isCallbackType. rewrite existsb_exists. intros (x & Hin & ->%Z.eqb_eq).
  assert (exists i, In i [9; 10; 13; 11]%nat /\ ace_types !! i = Some x) as (i & Hi & Ei).
  { simpl in Hin. destruct Hin as [<-|[<-|[<-|[<-|[]]]]];
      [exists 9%nat|exists 10%nat|exists 13%nat|exists 11%nat]; simpl; tauto. }
  split; apply not_true_is_false; [intros (j & Hj & Ej)%Ace.simple_index|intros (j & Hj & Ej)%Ace.object_index];
    pose proof (NoDup_lookup _ _ _ _ (codes_ok_NoDup _ _ ace_types_ok) Ei Ej) as ->; simpl in *; lia.
Qed.

Lemma callbackACE_ok t sid mask o i c f : aceTypeSupported t = true -> isCallbackType t = true -> fits 8 f ->
  Ace.ok (Ace.set_Flags (callbackACE t sid mask o i (Cond.compile c)) f).
Proof.
  intros Hsup Hcb Hf. rewrite callbackACE_raw by done. destruct (callback_raw_type t Hcb) as [H1 H2].
  split; [by apply supported_code|split; [done|]]. cbn [Ace.ace_Type Ace.set_Flags Ace.rawOnly]. rewrite H1, H2.
  split; [by split_and!|]. eexists. split; [reflexivity|]. unfold callback_raw.
  intros E%(f_equal zlen). rewrite !zlen_app, zlen_nil in E.
  pose proof (zlen_nonneg (SID.Bytes sid)). pose proof (zlen_nonneg (Cond.Encode (Cond.compile c))).
  destruct (t =? _); len.
Qed.

Lemma parseCallbackACE_sound n t fields off0 : aceTypeSupported t = true -> isCallbackType t = true ->
  offsets_ok n fields -> 0 <= off0 <= n -> sound n Ace.ok (parseCallbackACE opt t fields off0).
Proof.
  intros Hsup Hcb Hf H0. unfold parseCallbackACE.
  destruct fields as [|f0 [|f1 [|f2 [|f3 [|f4 [|f5 [|f6 [|]]]]]]]]; try (by apply sound_Err). unfold offsets_ok in Hf.
  rewrite !Forall_cons in Hf. destruct Hf as (_ & H1 & H2 & H3 & H4 & H5 & H6 & _).
  eapply sound_bind; [apply sound_at_offset; [done|apply textToAceFlags_ok]|]. intros flags Hflags.
  eapply sound_bind; [apply sound_at_offset; [done|apply parseMask_ok]|]. intros mask Hmask.
  eapply sound_bind; [by apply parseGUIDFields_sound|]. intros [o i] _.
  destruct (_ && negb _); [by apply sound_Err|]. destruct (bool_decide (f5.1 = [])); [by apply sound_Err|].
  eapply (sound_bind n SID.valid); [apply sound_at_offset; [done|by apply parseSIDText_ok]|]. intros sid Hsid.
  eapply sound_bind; [apply sound_at_offset; [done|by apply CondText.parseConditionText_steps]|].
  intros b (c & -> & _). by apply callbackACE_ok.
Qed.

Lemma parseACEBody_sound n body off : 0 <= off -> off + zlen body <= n -> sound n Ace.ok (parseACEBody opt body off).
Proof.
  intros H0 Hn. pose proof (zlen_nonneg body). unfold parseACEBody. cbv zeta.
  pose proof (splitFields_offsets body off) as Hf. set (fields := splitFields body off) in *.
  assert (offsets_ok n fields) as Hok by (eapply Forall_impl; [exact Hf|]; intros f; cbn beta; lia).
  destruct (Z.ltb_spec (zlen fields) 6); [apply sound_Err; lia|].
  destruct fields as [|[tag o0] fields]; [len|]. change (index ((tag, o0) :: fields) 0) with (Ok (tag, o0)). rewrite bind_Ok.
  assert (0 <= o0 <= n) as Ho by (by apply Forall_cons in Hok as [? _]).
  destruct (assoc aceTypeTags tag) as [t|]; [|by apply sound_Err].
  destruct (aceTypeSupported t) eqn:Hs; cbn [negb]; [|by apply sound_Err].
  destruct (isCallbackType t) eqn:Hc; [by apply parseCallbackACE_sound|by apply parseStructuredACE_sound].
Qed.

Lemma find_close_bound d i s e : find_close d i s = Some e -> i <= e < i + zlen s.
Proof.
  revert d i. induction s as [|c s IH]; intros d i; [done|]. cbn [find_close]. pose proof (zlen_nonneg s). rewrite zlen_cons.
  repeat match goal with |- (if ?b then _ else _) = _ -> _ => destruct b end; try (intros H'%IH; lia). intros [= <-]. lia.
Qed.

Lemma scanACE_sound n p : within n p -> CondText.next_is x28 (rest p) = true ->
  sound n (fun x => Ace.ok x.1 /\ further n p 1 x) (scanACE opt p).
Proof.
  intros Hp Hc. unfold scanACE. destruct (find_close 0 0 (rest p)) as [e|] eqn:E; [|by apply sound_Err, within_bounds].
  assert (1 <= e < zlen (rest p)) as He.
  { destruct (rest p) as [|c s]; [done|]. apply bool_decide_eq_true in Hc as ->. cbn [find_close] in E.
    rewrite bool_decide_eq_true_2 in E by done. apply find_close_bound in E. len. }
  destruct Hp as [Hp0 Hpn]. rewrite slice_ok, bind_Ok by lia.
  eapply sound_bind; [apply (advance_sound n p (e + 1)); [by split|lia]|]. intros q (Hq & Hl & _).
  eapply sound_bind; [apply (parseACEBody_sound n)|]; [lia|rewrite zlen_zseg; lia|].
  intros a Ha. split; [done|]. split; [done|cbn [snd]; lia].
Qed.

Lemma scan_aces_sound n fuel entries p : within n p -> (length (rest p) < fuel)%nat -> Forall Ace.ok entries ->
  sound n (fun x => Forall Ace.ok x.1 /\ further n p 0 x) (scan_aces opt fuel entries p).
Proof.
  revert entries p. induction fuel as [|fuel IH]; intros entries p Hp Hf He; [lia|]. cbn [scan_aces].
  destruct (CondText.next_is x28 (rest p)) eqn:Hc; [|split; [done|split; [done|cbn [snd]; lia]]].
  eapply sound_bind; [by apply scanACE_sound|]. intros [a q] (Ha & Hq & Hl). cbn [fst snd] in *.
  eapply sound_weaken; [apply IH; [done|unfold zlen in *; lia|by apply Forall_app_2; [|apply Forall_singleton]]|].
  intros x (Hx & Hw & Hl'). split; [done|]. split; [done|lia].
Qed.
End ace_sound.
(** ** ACLs *)

Lemma parseACLFlags_loop_ok fuel s f : (length s < fuel)%nat ->
  match parseACLFlags_loop fuel s f with Panic => False | _ => True end.
Proof.
  revert s f. induction fuel as [|fuel IH]; intros s f Hf; [lia|]. cbn [parseACLFlags_loop].
  destruct s as [|c s]; [done|]. cbn [length] in Hf.
  assert (forall k g, 1 <= k <= zlen (c :: s) ->
    match (s ← slice_from (c :: s) k; parseACLFlags_loop fuel s g) with Panic => False | _ => True end) as H.
  { intros k g Hk. rewrite slice_from_ok, bind_Ok by lia. apply IH. rewrite length_drop. cbn [length]. lia. }
  repeat match goal with |- match (if ?b then _ else _) with _ => _ end => destruct b eqn:? end; try exact I.
  all: apply H.
  all: try match goal with E : has_prefix _ _ = true |- _ => apply has_prefix_zlen in E end.
  - change (zlen NO_ACCESS_CONTROL) with 17 in *. lia.
  - pose proof (zlen_nonneg s). len.
  - change (zlen (str "AI")) with 2 in *. lia.
  - change (zlen (str "AR")) with 2 in *. lia.
Qed.

Lemma scan_flags_sound n i s : 0 <= i -> i + zlen s = n ->
  sound n (fun x : bytes * cursor => within n x.2 /\ zlen (rest x.2) <= zlen s) (scan_flags i s).
Proof.
  revert i. induction s as [|c s IH]; intros i H0 Hn; cbn [scan_flags]; [done|]. pose proof (zlen_nonneg s).
  rewrite zlen_cons in *.
  repeat match goal with |- sound _ _ (if ?b then _ else _) => destruct b end.
  1-2: split; [split; cbn [snd Parse.rest at_]; len|cbn [snd Parse.rest]; len].
  - apply sound_Err. lia.
  - eapply sound_bind; [apply IH; lia|]. intros [l p] [Hp Hl]. cbn [snd] in *. split; [done|cbn [snd]; lia].
Qed.

Section acl_sound.
Context {U : Uapi} `{!AceLaws U, !SddlLaws U} (opt : options) (Hopt : options_ok opt).

(** The control bits of an ACL component: separate bits of a 16-bit word. *)
Lemma acl_masks_laws isSACL other a p i r : acl_masks isSACL = [a; p; i; r] ->
  let m := present_mask other in
  fits 16 a /\ fits 16 p /\ fits 16 i /\ fits 16 r
  /\ has_bit p m = false /\ has_bit i m = false /\ has_bit r m = false /\ has_bit a m = eqb isSACL other.
Proof.
  pose proof sd_controls_req as H. set (l := _ :: _) in H. intros E m.
  assert (forall x, In x l -> fits 16 x /\ x <> 0) as Hf by (intros x; by apply masks_ok_fits).
  assert (forall j k x y, l !! j = Some x -> l !! k = Some y -> j <> k -> has_bit x y = false) as Hd.
  { intros. eapply has_bit_disjoint, (masks_ok_disjoint 16 l); done. }
  unfold m, acl_masks, present_mask in *. destruct isSACL; injection E as <- <- <- <-.
  all: do 4 (split; [apply Hf; unfold l, sd_controls; simpl; tauto|]).
  all: destruct other; cbn [eqb]; split_and!.
  all: try (apply has_bit_self, Hf; unfold l, sd_controls; simpl; tauto).
  all: first [by apply (Hd 0%nat 4%nat)|by apply (Hd 8%nat 4%nat)|by apply (Hd 10%nat 4%nat)|by apply (Hd 6%nat 4%nat)
    |by apply (Hd 1%nat 4%nat)|by apply (Hd 9%nat 4%nat)|by apply (Hd 11%nat 4%nat)
    |by apply (Hd 0%nat 6%nat)|by apply (Hd 8%nat 6%nat)|by apply (Hd 10%nat 6%nat)|by apply (Hd 4%nat 6%nat)
    |by apply (Hd 1%nat 6%nat)|by apply (Hd 9%nat 6%nat)|by apply (Hd 11%nat 6%nat)].
Qed.

(** What a component's control bits say: no bits but the ACL's, its presence bit exact, the other ACL's clear. *)
Definition control_of (isSACL : bool) (acl : option Acl.ACL) (c : Z) : Prop :=
  fits 16 c /\ bic c (acl_bits isSACL) = 0
  /\ has_bit c (present_mask isSACL) = bool_decide (is_Some acl) /\ has_bit c (present_mask (negb isSACL)) = false.

Lemma has_bit_if (b : bool) x m : has_bit (if b then x else 0) m = b && has_bit x m.
Proof. by destruct b. Qed.

Lemma acl_control_of isSACL f acl a p i r : acl_masks isSACL = [a; p; i; r] -> nullACL f = negb (bool_decide (is_Some acl)) ->
  control_of isSACL acl (acl_control f a p i r).
Proof.
  intros E Hn. destruct (acl_masks_laws isSACL isSACL a p i r E) as (Fa & Fp & Fi & Fr & P1 & P2 & P3 & P4).
  destruct (acl_masks_laws isSACL (negb isSACL) a p i r E) as (_ & _ & _ & _ & Q1 & Q2 & Q3 & Q4).
  assert (forall (b : bool) x, fits 16 x -> fits 16 (if b then x else 0)) as Hif by (intros [] ? ?; [done|by cbv]).
  assert (forall (b : bool) x, fits 16 x -> fits 16 (if b then 0 else x)) as Hif' by (intros [] ? ?; [by cbv|done]).
  unfold control_of, acl_control. split_and!.
  - repeat apply fits_lor; auto; done.
  - unfold acl_bits. rewrite E. cbn [lor_all foldr].
    destruct (nullACL f), (protected f), (autoInherited f), (autoInheritReq f); bits.
  - rewrite !has_bit_lor, !has_bit_if, P1, P2, P3, !andb_false_r, !orb_false_r, Hn.
    destruct (bool_decide (is_Some acl)); cbn [negb]; [by rewrite P4; destruct isSACL|done].
  - rewrite !has_bit_lor, !has_bit_if, Q1, Q2, Q3, !andb_false_r, !orb_false_r.
    destruct (nullACL f); [done|]. by rewrite Q4; destruct isSACL.
Qed.

Lemma scanACL_sound n d isSACL p : within n p ->
  sound n (fun x => further n p 0 x /\ exists acl c, x.1 = set_acl isSACL acl c d /\ control_of isSACL acl c
    /\ forall l, acl = Some l -> Acl.ok l) (scanACL opt d isSACL p).
Proof.
  intros Hp. unfold scanACL. destruct Hp as [Hp0 Hpn].
  eapply sound_bind; [by apply (scan_flags_sound n)|]. intros [l q] [Hq Hl]. cbn [fst snd] in *.
  eapply (sound_bind n (fun _ => True)).
  { apply sound_at_offset; [pose proof (zlen_nonneg (rest p)); lia|].
    pose proof (parseACLFlags_loop_ok (S (length (to_upper l))) (to_upper l) (mkFlags false false false false) ltac:(lia)) as H.
    by destruct (parseACLFlags (to_upper l)) eqn:E; unfold parseACLFlags in E; rewrite E in H. }
  intros f _. destruct (nullACL f && _); [by apply sound_Err, within_bounds|].
  eapply sound_bind; [apply (scan_aces_sound opt Hopt n); [done|lia|by apply Forall_nil_2]|].
  intros [entries q'] (He & Hq' & Hl'). cbn [fst snd] in *.
  assert (further n p 0 (d, q')) as Hfur by (split; [done|cbn [snd] in *; lia]).
  assert (forall l : Acl.ACL, (if nullACL f then None else Some (Acl.mkACL entries)) = Some l -> Acl.ok l) as Hok.
  { destruct (nullACL f); [done|]. by intros ? [= <-]. }
  assert (nullACL f = negb (bool_decide (is_Some (if nullACL f then None else Some (Acl.mkACL entries))))) as Hn
    by (by destruct (nullACL f)).
  destruct isSACL; (split; [exact Hfur|]); do 2 eexists; (split; [reflexivity|]); (split; [|exact Hok]);
    (apply acl_control_of; [reflexivity|exact Hn]).
Qed.
End acl_sound.
(** ** The descriptor *)

Section descriptor_sound.
Context {U : Uapi} `{!AceLaws U, !SddlLaws U} (opt : options) (Hopt : options_ok opt).

(** The control word says which ACLs are present and holds no bits but those of the ACLs. *)
Definition control_consistent (d : SD.Descriptor) : Prop :=
  bic (SD.Control d) (Z.lor (acl_bits false) (acl_bits true)) = 0
  /\ forall isSACL, has_bit (SD.Control d) (present_mask isSACL) = bool_decide (is_Some (get_acl isSACL d)).

(** The state of the loop: a well-formed descriptor, without the ACLs whose components are still to come. *)
Definition loop_inv (seen : list byte) (d : SD.Descriptor) : Prop :=
  SD.ok d /\ control_consistent d /\ forall isSACL, acl_tag isSACL ∉ seen -> get_acl isSACL d = None.

Lemma loop_inv_start : loop_inv [] zeroSD.
Proof.
  split; [split; [by cbv|split; [by left|split; [by left|done]]]|]. split; [|by intros []].
  split; [apply Z.ldiff_0_l|by intros []].
Qed.

Lemma loop_inv_sid seen tag s d : loop_inv seen d -> SID.valid s -> loop_inv (tag :: seen) (set_owner s d) /\ loop_inv (tag :: seen) (set_group s d).
Proof.
  intros ((? & ? & ? & ? & ?) & Hc & Hs) [Hw _].
  split; (split; [by split_and!|]); (split; [exact Hc|]); intros isSACL Hn; apply (Hs isSACL); set_solver.
Qed.

Lemma loop_inv_acl seen isSACL acl c d : loop_inv seen d -> acl_tag isSACL ∉ seen -> control_of isSACL acl c ->
  (forall l, acl = Some l -> Acl.ok l) -> loop_inv (acl_tag isSACL :: seen) (set_acl isSACL acl c d).
Proof.
  intros ((Hf & Ho & Hg & Hda & Hsa) & [Hb Hp] & Hs) Hseen (Cf & Cb & Cp & Cn) Hok.
  assert (fits 16 (Z.lor (SD.Control d) c)) as Hf' by (by apply fits_lor).
  assert (bic (Z.lor (SD.Control d) c) (Z.lor (acl_bits false) (acl_bits true)) = 0) as Hb'.
  { assert (bic c (Z.lor (acl_bits false) (acl_bits true)) = 0) as Hc.
    { unfold bic in *. apply Z.bits_inj'. intros i _. apply (f_equal (fun z => Z.testbit z i)) in Cb.
      rewrite !Z.ldiff_spec, Z.bits_0 in *. rewrite Z.lor_spec.
      destruct isSACL, (Z.testbit c i), (Z.testbit (acl_bits false) i), (Z.testbit (acl_bits true) i); done. }
    unfold bic in *. apply Z.bits_inj'. intros i _. apply (f_equal (fun z => Z.testbit z i)) in Hb, Hc.
    rewrite !Z.ldiff_spec, Z.bits_0 in *. rewrite Z.lor_spec.
    destruct (Z.testbit (SD.Control d) i), (Z.testbit c i), (Z.testbit (Z.lor (acl_bits false) (acl_bits true)) i); done. }
  pose proof (Hp isSACL) as Hpi. rewrite (Hs isSACL Hseen) in Hpi. pose proof (Hp (negb isSACL)) as Hpn.
  pose proof (Hs (negb isSACL)) as Hsn.
  unfold loop_inv, control_consistent, SD.ok. destruct isSACL; cbn [set_acl get_acl present_mask negb SD.Control SD.Owner
    SD.Group SD.DACL SD.SACL acl_tag] in *; split_and!; try done.
  all: intros []; cbn [get_acl present_mask SD.DACL SD.SACL acl_tag] in *.
  all: try (rewrite has_bit_lor; by rewrite ?Hpi, ?Hpn, ?Cp, ?Cn, ?orb_false_r).
  all: intros Hn; set_solver.
Qed.

Lemma component_sound n tag seen d p : within n p -> isComponentTag tag = true -> tag ∉ seen -> loop_inv seen d ->
  sound n (fun x => loop_inv (tag :: seen) x.1 /\ further n p 0 x) (component opt tag d p).
Proof.
  intros Hp Htag Hseen Hinv. unfold isComponentTag in Htag. apply existsb_exists in Htag as (x & Hin & <-%bool_decide_eq_true).
  assert (forall isSACL, x = acl_tag isSACL ->
    sound n (fun x0 : SD.Descriptor * cursor => loop_inv (x :: seen) x0.1 /\ further n p 0 x0) (scanACL opt d isSACL p)) as Hacl.
  { intros isSACL ->. eapply sound_weaken; [by apply scanACL_sound|].
    intros [d' q] (Hf & acl & c & -> & Hc & Hok). split; [|done]. cbn [fst]. by apply loop_inv_acl. }
  simpl in Hin. destruct Hin as [<-|[<-|[<-|[<-|[]]]]]; unfold component.
  - rewrite bool_decide_eq_true_2 by done. eapply sound_bind; [by apply scanSID_sound|]. intros [s q] [Hs Hq].
    split; [by apply (loop_inv_sid _ _ s d)|done].
  - rewrite bool_decide_eq_false_2, bool_decide_eq_true_2 by done.
    eapply sound_bind; [by apply scanSID_sound|]. intros [s q] [Hs Hq]. split; [by apply (loop_inv_sid _ _ s d)|done].
  - by apply (Hacl false).
  - by apply (Hacl true).
Qed.

Lemma parse_loop_sound n fuel d seen p : within n p -> (length (rest p) < fuel)%nat -> loop_inv seen d ->
  sound n (fun d => SD.ok d /\ control_consistent d) (parse_loop opt fuel d seen p).
Proof.
  revert d seen p. induction fuel as [|fuel IH]; intros d seen p Hp Hf Hinv; [lia|]. cbn [parse_loop].
  destruct (rest p) as [|tag s] eqn:E; [by destruct Hinv as (? & ? & _)|].
  destruct (CondText.next_is x3a s) eqn:Hc; cbn [negb]; [|by apply sound_Err, within_bounds]. apply next_is_zlen in Hc.
  destruct (isComponentTag tag) eqn:Htag; cbn [negb]; [|by apply sound_Err, within_bounds].
  case_bool_decide as Hseen; [by apply sound_Err, within_bounds|].
  eapply sound_bind; [apply (advance_sound n p 2); [done|rewrite E; len]|]. intros q (Hq & Hl & _).
  eapply sound_bind; [by apply component_sound|]. intros [d' q'] (Hd' & Hq' & Hl'). cbn [fst snd] in *.
  apply (IH d' (tag :: seen) q'); [done| |done]. rewrite E in Hl. unfold zlen in *. cbn [length] in *. lia.
Qed.

Lemma Parse_steps s : sound (zlen (trim_space s)) (fun d => SD.ok d /\ control_consistent d) (Parse opt s).
Proof. unfold Parse. cbv zeta. apply (parse_loop_sound _ _ _ []); [by split|cbn [Parse.rest]; lia|apply loop_inv_start]. Qed.

(** C13: the parser is total on untrusted text and returns only descriptors the rest of the library
    takes.  Whatever bytes it is given, [Parse] neither panics nor diverges: it reports a syntax error
    whose offset lies inside the (trimmed) text, or returns a descriptor whose SIDs are valid or absent,
    whose ACEs are well formed - so that the binary codec writes it and reads it back - and whose
    control word says which ACLs are present and holds no other bits than those of its ACLs. *)
Theorem Parse_sound (s : bytes) :
  match Parse opt s with
  | Ok d => SD.ok d /\ control_consistent d
  | Err e => exists off msg, e = Syntax off msg /\ 0 <= off <= zlen (trim_space s)
  | Panic => False
  end.
Proof. exact (Parse_steps s). Qed.
End descriptor_sound.

Lemma Parse_sound_witness :
  is_ok (@Parse pkm noOptions (str " O:BAD:P(A;OICI;GA;;;BA)(XA;;FR;;;WD;(!(@User.a == 0x10) && Exists b))S:AI ")) = true
  /\ match @Parse pkm noOptions (str "D:(A;;GA;;;BA)(A;;ZZ;;;BA)") with
     | Ok d => @SD.ok pkm d /\ @control_consistent pkm d
     | Err e => exists off msg, e = Syntax off msg /\ 0 <= off <= 26
     | Panic => False
     end.
Proof.
  split; [vm_compute; reflexivity|].
  exact (@Parse_sound pkm _ _ noOptions CondText.noOptions_ok (str "D:(A;;GA;;;BA)(A;;ZZ;;;BA)")).
Defined.
End Sound.
