(* ===== verification/Compose.v ===== *)
(** * Compose: the text form and the binary form agree (sddl/sddl.go over sd/descriptor.go)

    A program reads a descriptor from SDDL text, hands its bytes to the kernel, gets
    bytes back and shows them as text.  The codecs are proved one by one elsewhere;
    here they are composed.  The binary form changes one thing, the self-relative
    bit of the control word, which the text form does not show. *)

From S2P Require Import Prelude Outcome Uapi GoStd GoText Sid WellKnown Condition Ace Acl Descriptor.
From S2P Require Import SddlTables SddlDecompile SddlCondition SddlParse SddlFormat SddlRoundTrip SddlSound.

Module Compose.
Import Tab RoundTrip Sound.

Section compose.
Context {U : Uapi} `{!AceLaws U, !SdLaws U, !SddlLaws U}.

(** The descriptor as the binary form gives it back. *)
Definition self_relative (d : SD.Descriptor) : SD.Descriptor :=
  SD.set_Control d (Z.lor (SD.Control d) KACS_SD_SELF_RELATIVE).

(** Text to binary, and what the binary form holds back to text. *)
Definition text_to_wire (opt : options) (t : bytes) : outcome bytes := d ← Parse.Parse opt t; SD.Marshal d.
Definition wire_to_text (opt : options) (w : bytes) : outcome bytes := d ← SD.ParseDescriptor w; Format.Format opt d.

(** The bits that the text shows. *)
Definition shown : list Z := acl_masks false ++ acl_masks true.

Lemma self_relative_hidden m : In m shown -> has_bit KACS_SD_SELF_RELATIVE m = false.
Proof.
  intros Hm. assert (forall i x, (0x0100 :: 0x0200 :: sd_controls) !! i = Some x -> i <> 12%nat ->
    Z.land KACS_SD_SELF_RELATIVE x = 0) as H.
  { intros i x Hi Hne. by eapply (masks_ok_disjoint 16 _ 12 i); [apply sd_controls_req| |exact Hi|]. }
  unfold has_bit. apply negb_false_iff, Z.eqb_eq. unfold shown, acl_masks in Hm. simpl in Hm.
  destruct Hm as [<-|[<-|[<-|[<-|[<-|[<-|[<-|[<-|[]]]]]]]]];
    [apply (H 4%nat)|apply (H 10%nat)|apply (H 8%nat)|apply (H 0%nat)
    |apply (H 6%nat)|apply (H 11%nat)|apply (H 9%nat)|apply (H 1%nat)]; done.
Qed.

Lemma self_relative_shown d m : In m shown -> has_bit (SD.Control (self_relative d)) m = has_bit (SD.Control d) m.
Proof. intros Hm. cbn [self_relative SD.Control SD.set_Control]. by rewrite has_bit_lor, self_relative_hidden, orb_false_r. Qed.

(** The text does not show the bit. *)
Lemma Format_self_relative opt d : Format.Format opt (self_relative d) = Format.Format opt d.
Proof.
  assert (forall isSACL, Format.formatACLFlags (SD.Control (self_relative d)) isSACL
    = Format.formatACLFlags (SD.Control d) isSACL) as HF.
  { intros []; unfold Format.formatACLFlags; by rewrite !self_relative_shown by (unfold shown, acl_masks; simpl; tauto). }
  unfold Format.Format. rewrite !HF, !self_relative_shown by (unfold shown, acl_masks; simpl; tauto). reflexivity.
Qed.

(** The presence bits of a descriptor that was read from text say which ACLs it has, so the binary form adds
    nothing to its control word but the self-relative bit. *)
Lemma stored_self_relative d : control_consistent d -> SD.set_Control d (SD.stored_control d) = self_relative d.
Proof.
  intros [_ Hp]. unfold self_relative. f_equal. unfold SD.stored_control.
  assert (forall isSACL, is_Some (get_acl isSACL d) ->
    Z.lor (SD.Control d) (present_mask isSACL) = SD.Control d) as HA.
  { intros isSACL Hs. specialize (Hp isSACL). rewrite (bool_decide_eq_true_2 _ Hs) in Hp.
    pose proof (land_is_bit (SD.Control d) (present_mask isSACL)) as E. rewrite Hp in E.
    rewrite <- E; [bits|]. pose proof (acl_masks_bits isSACL) as Hb. by destruct isSACL; apply andb_true_iff in Hb as [? _]. }
  pose proof (HA true) as HS. pose proof (HA false) as HD. cbn [get_acl present_mask] in *.
  destruct (SD.SACL d); destruct (SD.DACL d).
  - rewrite <- (HS ltac:(done)) at 2. rewrite <- (HD ltac:(done)) at 2. bits.
  - rewrite <- (HS ltac:(done)) at 2. bits.
  - rewrite <- (HD ltac:(done)) at 2. bits.
  - done.
Qed.

Lemma Marshal_back d w : SD.ok d -> control_consistent d -> SD.Marshal d = Ok w ->
  SD.ParseDescriptor w = Ok (self_relative d).
Proof.
  intros Hd Hc Hw. rewrite <- stored_self_relative by done. pose proof Hd as (_ & Ho & Hg & _).
  rewrite SD.Marshal_layout in Hw by done. apply bind_Ok_inv in Hw as (sb & Hsb & (db & Hdb & <-%Ok_inj)%bind_Ok_inv).
  rewrite <- (app_nil_r (SD.layout _ _ _)). by apply SD.ParseDescriptor_layout.
Qed.

Lemma Marshal_fails d e : SD.ok d -> SD.Marshal d = Err e ->
  exists l, (SD.SACL d = Some l \/ SD.DACL d = Some l) /\ 0xFFFF < 8 + Acl.aces_size (Acl.Entries l).
Proof.
  intros (_ & Ho & Hg & Hd & Hs). rewrite SD.Marshal_layout by done.
  assert (forall acl e, (forall l, acl = Some l -> Acl.ok l) -> SD.acl_bytes acl = Err e ->
    exists l, acl = Some l /\ 0xFFFF < 8 + Acl.aces_size (Acl.Entries l)) as HA.
  { intros [l|] e' H E; [|done]. cbn in E. pose proof (Acl.Marshal_size l (H _ eq_refl)) as Hz. rewrite E in Hz. eauto. }
  destruct (SD.acl_bytes (SD.SACL d)) eqn:Es; [|destruct (HA _ _ Hs Es) as (l & ? & ?); eauto|done].
  destruct (SD.acl_bytes (SD.DACL d)) eqn:Ed; [done|destruct (HA _ _ Hd Ed) as (l & ? & ?); eauto|done].
Qed.

(** What a descriptor with a text form goes through. *)
Lemma wire_text_wire opt (Hopt : options_ok opt) d w : sddl_ok d -> SD.Marshal d = Ok w ->
  exists s, wire_to_text opt w = Ok s /\ Parse.Parse opt s = Ok d /\ text_to_wire opt s = Ok w.
Proof.
  intros Hd Hw. destruct (format_parse opt d Hd) as (s & Hf & Hp). exists s.
  pose proof (Parse_steps opt Hopt s) as H. rewrite Hp in H. destruct H as [Hok Hc].
  unfold wire_to_text, text_to_wire. rewrite Hp, (Marshal_back _ _ Hok Hc Hw), !bind_Ok, Format_self_relative. by split_and!.
Qed.

(** C3: the two forms of a descriptor agree.  Text that parses marshals, unless an ACL does not fit its 65535
    bytes; the bytes read as the descriptor that was parsed, self-relative, and show the text that the
    descriptor would have shown.  If the descriptor has a text form ([sddl_ok]) then the text that the bytes show
    parses to it and marshals to the same bytes: for such a descriptor going through text loses nothing of the bytes, and
    its text is brought to a normal form by one trip.  Without a text form the shown text need not parse: the parser
    accepts SIDs that the formatter writes in a form the parser has no token for. *)
Theorem text_and_wire (opt : options) (t : bytes) (Hopt : options_ok opt) :
  match text_to_wire opt t with
  | Ok w => exists d, Parse.Parse opt t = Ok d /\ SD.ParseDescriptor w = Ok (self_relative d)
      /\ wire_to_text opt w = Format.Format opt d
      /\ (sddl_ok d -> exists s, wire_to_text opt w = Ok s /\ Parse.Parse opt s = Ok d /\ text_to_wire opt s = Ok w)
  | Err e => (exists off msg, e = Syntax off msg /\ 0 <= off <= zlen (trim_space t))
      \/ exists d l, Parse.Parse opt t = Ok d /\ (SD.SACL d = Some l \/ SD.DACL d = Some l)
           /\ 0xFFFF < 8 + Acl.aces_size (Acl.Entries l)
  | Panic => False
  end.
Proof.
  pose proof (Parse_steps opt Hopt t) as H. unfold text_to_wire at 1.
  destruct (Parse.Parse opt t) as [d|e|] eqn:Hp; [|by left|done]. destruct H as [Hd Hc]. rewrite bind_Ok.
  destruct (SD.Marshal d) as [w|e|] eqn:Hw.
  - exists d. split; [done|]. pose proof (Marshal_back _ _ Hd Hc Hw) as Hb. split; [done|]. split.
    + unfold wire_to_text. by rewrite Hb, bind_Ok, Format_self_relative.
    + intros Hs. by apply wire_text_wire.
  - right. destruct (Marshal_fails _ _ Hd Hw) as (l & ? & ?). by exists d, l.
  - pose proof Hd as (_ & Ho & Hg & _). by apply SD.SD_Marshal_safe in Hw.
Qed.
End compose.

(** The sample descriptor, written loosely: lower case, fields out of order, symbolic rights. *)
Definition loose_text : bytes :=
  str " D:p(A;OICI;0x10000000;;;S-1-5-32-544)(OA;;0x10;07070707-0707-0707-0707-070707070707;;WD)"
  ++ str "(XA;;CC;;;WD;(@User.dept == " ++ Decompile.quoted (str "PM") ++ str " && Member_of {SID(BA), SID(WD)}))S:PNO_ACCESS_CONTROLO:BA ".

Lemma text_and_wire_witness :
  exists w s, @text_to_wire pkm noOptions loose_text = Ok w /\ @wire_to_text pkm noOptions w = Ok s
    /\ @text_to_wire pkm noOptions s = Ok w /\ @Format.Format pkm noOptions Sample.descriptor = Ok s.
Proof.
  pose proof (@text_and_wire pkm _ _ _ noOptions loose_text CondText.noOptions_ok) as H.
  assert (@Parse.Parse pkm noOptions loose_text = Ok Sample.descriptor) as Hp by (vm_compute; reflexivity).
  destruct (@text_to_wire pkm noOptions loose_text) as [w| |] eqn:E; [|vm_compute in E; discriminate E..].
  destruct H as (d & Hd & _ & Hf & Hs). rewrite Hp in Hd. apply Ok_inj in Hd as <-.
  destruct (Hs Sample.descriptor_ok) as (s & Hw & _ & Hback). exists w, s. split; [done|]. split; [done|].
  split; [done|]. by rewrite <- Hf.
Defined.
End Compose.
