(* ===== verification/Msgpack.v ===== *)
(** * Msgpack: the MessagePack writer and reader (sd/auditcontext.go)

    The encoders [mpMap] ... [mpInt], the cursor [mpCursor] with its readers, and the
    two iterative checkers [skipValue] and [mpWellFormed].  [header] is the
    MessagePack format family by family, and [values d n b] the grammar of [n]
    complete values of nesting at most [d]; the theorems show that the cursor decides
    that grammar.  The loops of the source have no bound of their own; the fuel given
    here is proved to be enough. *)

From S2P Require Import Prelude Outcome Codec GoStd.

Module Mp.

(** ** Encoding *)

Definition mpMap (out : bytes) (n : Z) : bytes :=
  if n <=? 15 then out ++ [z2b (Z.lor 0x80 n)]
  else if n <=? 65535 then out ++ [xde] ++ be_enc 2 n
  else out ++ [xdf] ++ be_enc 4 n.

Definition mpStr (out s : bytes) : bytes :=
  let n := zlen s in
  (if n <=? 31 then out ++ [z2b (Z.lor 0xa0 n)]
   else if n <=? 255 then out ++ [xd9; z2b n]
   else if n <=? 65535 then out ++ [xda] ++ be_enc 2 n
   else out ++ [xdb] ++ be_enc 4 n) ++ s.

Definition mpBin (out b : bytes) : bytes :=
  let n := zlen b in
  (if n <=? 255 then out ++ [xc4; z2b n]
   else if n <=? 65535 then out ++ [xc5] ++ be_enc 2 n
   else out ++ [xc6] ++ be_enc 4 n) ++ b.

Definition mpUint (out : bytes) (v : Z) : bytes :=
  if v <? 0x80 then out ++ [z2b v]
  else if v <=? 255 then out ++ [xcc; z2b v]
  else if v <=? 65535 then out ++ [xcd] ++ be_enc 2 v
  else if v <=? 2 ^ 32 - 1 then out ++ [xce] ++ be_enc 4 v
  else out ++ [xcf] ++ be_enc 8 v.

(** [v] ranges over int64; [byte(v)] and [uint64(v)] are two's complement. *)
Definition mpInt (out : bytes) (v : Z) : bytes :=
  if 0 <=? v then mpUint out v
  else if -32 <=? v then out ++ [z2b v]
  else if -128 <=? v then out ++ [xd0; z2b v]
  else if -32768 <=? v then out ++ [xd1] ++ be_enc 2 v
  else if - 2 ^ 31 <=? v then out ++ [xd2] ++ be_enc 4 v
  else out ++ [xd3] ++ be_enc 8 v.

(** ** The cursor *)

Record mpCursor := mkCursor { cb : bytes; pos : Z }.

(** [len(c.b)-c.pos] *)
Definition left (c : mpCursor) : Z := zlen (cb c) - pos c.

Definition take (c : mpCursor) (n : Z) : option (bytes * mpCursor) :=
  if (n <? 0) || (left c <? n) then None else
  Some (zseg (pos c) (pos c + n) (cb c), mkCursor (cb c) (pos c + n)).

Definition be (c : mpCursor) (width : Z) : option (Z * mpCursor) :=
  '(raw, c) ← take c width;
  let v := foldl (fun v x => Z.lor (Z.shiftl v 8) (b2z x)) 0 raw in
  if 2 ^ 31 - 1 <? v then None else Some (v, c).

(** [tag, ok := c.take(1)], and [tag[0]]. *)
Definition tag (c : mpCursor) : option (Z * mpCursor) :=
  '(t, c) ← take c 1;
  match t with b :: _ => Some (b2z b, c) | [] => None end.

Definition within (lo t hi : Z) : bool := (lo <=? t) && (t <=? hi).

Definition mapLen (c : mpCursor) : option (Z * mpCursor) :=
  '(t, c) ← tag c;
  if within 0x80 t 0x8f then Some (Z.land t 0x0f, c)
  else if t =? 0xde then be c 2
  else if t =? 0xdf then be c 4
  else None.

Definition read_str (c : mpCursor) : option (bytes * mpCursor) :=
  '(t, c) ← tag c;
  '(n, c) ← (if within 0xa0 t 0xbf then Some (Z.land t 0x1f, c)
             else if t =? 0xd9 then be c 1
             else if t =? 0xda then be c 2
             else if t =? 0xdb then be c 4
             else None);
  '(s, c) ← take c n;
  if utf8_valid s then Some (s, c) else None.

(** The switch of [step]: the children and the payload length that the tag and the
    length field announce. *)
Definition announce (t : Z) (c : mpCursor) : option (Z * Z * mpCursor) :=
  let skip (w extra : Z) := '(n, c) ← be c w; Some (0, n + extra, c) in
  let kids (w k : Z) := '(n, c) ← be c w; Some (n * k, 0, c) in
  if (t <=? 0x7f) || (0xe0 <=? t) || (t =? 0xc0) || (t =? 0xc2) || (t =? 0xc3) then Some (0, 0, c)
  else if within 0x80 t 0x8f then Some (Z.land t 0x0f * 2, 0, c)
  else if within 0x90 t 0x9f then Some (Z.land t 0x0f, 0, c)
  else if within 0xa0 t 0xbf then Some (0, Z.land t 0x1f, c)
  else if (t =? 0xc4) || (t =? 0xd9) then skip 1 0
  else if (t =? 0xc5) || (t =? 0xda) then skip 2 0
  else if (t =? 0xc6) || (t =? 0xdb) then skip 4 0
  else if t =? 0xc7 then skip 1 1
  else if t =? 0xc8 then skip 2 1
  else if t =? 0xc9 then skip 4 1
  else if t =? 0xca then Some (0, 4, c)
  else if t =? 0xcb then Some (0, 8, c)
  else if (t =? 0xcc) || (t =? 0xd0) then Some (0, 1, c)
  else if (t =? 0xcd) || (t =? 0xd1) then Some (0, 2, c)
  else if (t =? 0xce) || (t =? 0xd2) then Some (0, 4, c)
  else if (t =? 0xcf) || (t =? 0xd3) then Some (0, 8, c)
  else if t =? 0xd4 then Some (0, 2, c)
  else if t =? 0xd5 then Some (0, 3, c)
  else if t =? 0xd6 then Some (0, 5, c)
  else if t =? 0xd7 then Some (0, 9, c)
  else if t =? 0xd8 then Some (0, 17, c)
  else if t =? 0xdc then kids 2 1
  else if t =? 0xdd then kids 4 1
  else if t =? 0xde then kids 2 2
  else if t =? 0xdf then kids 4 2
  else None.

Definition is_str_tag (t : Z) : bool :=
  (t =? 0xd9) || (t =? 0xda) || (t =? 0xdb) || within 0xa0 t 0xbf.

Definition step (c : mpCursor) : option (Z * mpCursor) :=
  '(t, c) ← tag c;
  '(children, skip, c) ← announce t c;
  if is_str_tag t then
    '(s, c) ← take c skip;
    if utf8_valid s then Some (0, c) else None
  else
    '(_, c) ← take c skip;
    if left c <? children then None else Some (children, c).

(** The loop of [skipValue]; [None] for out of fuel, [Some None] for false. *)
Fixpoint skip_loop (fuel : nat) (pending : Z) (c : mpCursor) : option (option mpCursor) :=
  match fuel with
  | O => None
  | S fuel =>
      if pending <=? 0 then Some (Some c) else
      match step c with
      | None => Some None
      | Some (children, c) =>
          let pending := pending - 1 + children in
          if left c <? pending then Some None else skip_loop fuel pending c
      end
  end.

(** Each round consumes a byte. *)
Definition skipValue (c : mpCursor) : option mpCursor :=
  default None (skip_loop (2 + Z.to_nat (left c)) 1 c).

(** The loop of [mpWellFormed], the top of the stack first. *)
Fixpoint wf_loop (fuel : nat) (maxDepth : Z) (stack : list Z) (c : mpCursor) : option bool :=
  match fuel with
  | O => None
  | S fuel =>
      match stack with
      | [] => Some (pos c =? zlen (cb c))
      | n :: st =>
          if n =? 0 then wf_loop fuel maxDepth st c else
          match step c with
          | None => Some false
          | Some (children, c) =>
              if 0 <? children then
                if maxDepth <=? zlen stack then Some false
                else wf_loop fuel maxDepth (children :: (n - 1) :: st) c
              else wf_loop fuel maxDepth ((n - 1) :: st) c
          end
      end
  end.

(** Each round pops the stack or consumes a byte, and a byte pushes at most once. *)
Definition mpWellFormed (b : bytes) (maxDepth : Z) : bool :=
  default false (wf_loop (2 * length b + 3) maxDepth [1] (mkCursor b 0)).

(** ** The format *)

(** A big-endian length field of [w] bytes; lengths over MaxInt32 are refused. *)
Definition lenfield (w : nat) (n : Z) (h : bytes) : Prop :=
  h = be_enc w n /\ 0 <= n < 256 ^ Z.of_nat w /\ n <= 2 ^ 31 - 1.

(** Tags followed by a length field of the given width, and by a fixed payload. *)
Definition bin_tags : list (Z * nat) := [(0xc4, 1%nat); (0xc5, 2%nat); (0xc6, 4%nat)].
Definition str_tags : list (Z * nat) := [(0xd9, 1%nat); (0xda, 2%nat); (0xdb, 4%nat)].
Definition ext_tags : list (Z * nat) := [(0xc7, 1%nat); (0xc8, 2%nat); (0xc9, 4%nat)].
Definition arr_tags : list (Z * nat) := [(0xdc, 2%nat); (0xdd, 4%nat)].
Definition map_tags : list (Z * nat) := [(0xde, 2%nat); (0xdf, 4%nat)].
Definition fixed_tags : list (Z * Z) :=
  [(0xca, 4); (0xcb, 8); (0xcc, 1); (0xcd, 2); (0xce, 4); (0xcf, 8); (0xd0, 1); (0xd1, 2);
   (0xd2, 4); (0xd3, 8); (0xd4, 2); (0xd5, 3); (0xd6, 5); (0xd7, 9); (0xd8, 17)].

(** The header of a string, and of a map, with the length it announces. *)
Inductive str_header : bytes -> Z -> Prop :=
  | str_fix n : 0 <= n <= 31 -> str_header [z2b (0xa0 + n)] n
  | str_len t w n h : (t, w) ∈ str_tags -> lenfield w n h -> str_header (z2b t :: h) n.

Inductive map_header : bytes -> Z -> Prop :=
  | map_fix n : 0 <= n <= 15 -> map_header [z2b (0x80 + n)] n
  | map_len t w n h : (t, w) ∈ map_tags -> lenfield w n h -> map_header (z2b t :: h) n.

(** A value without its children: its bytes and how many values follow as children. *)
Inductive header : bytes -> Z -> Prop :=
  | h_scalar t : 0 <= t <= 0x7f \/ 0xe0 <= t <= 0xff \/ t ∈ [0xc0; 0xc2; 0xc3] -> header [z2b t] 0
  | h_fixed t n data : (t, n) ∈ fixed_tags -> zlen data = n -> header (z2b t :: data) 0
  | h_str h s : str_header h (zlen s) -> utf8_valid s = true -> header (h ++ s) 0
  | h_bin t w h data : (t, w) ∈ bin_tags -> lenfield w (zlen data) h -> header (z2b t :: h ++ data) 0
  | h_ext t w h ty data : (t, w) ∈ ext_tags -> lenfield w (zlen data) h ->
      header (z2b t :: h ++ ty :: data) 0
  | h_fixarr n : 0 <= n <= 15 -> header [z2b (0x90 + n)] n
  | h_arr t w n h : (t, w) ∈ arr_tags -> lenfield w n h -> header (z2b t :: h) n
  | h_map h n : map_header h n -> header h (2 * n).

(** [n] complete values, containers nested at most [d] deep. *)
Inductive values : nat -> Z -> bytes -> Prop :=
  | values_nil d : values d 0 []
  | values_leaf d n h rest :
      header h 0 -> 0 <= n -> values (S d) n rest -> values (S d) (n + 1) (h ++ rest)
  | values_node d n m h body rest :
      header h m -> 0 < m -> 0 <= n -> values d m body -> values (S d) n rest ->
      values (S d) (n + 1) (h ++ body ++ rest).

(** ** The cursor *)

(** The cursor over [p ++ r] that has consumed [p]. *)
Definition at_ (p r : bytes) : mpCursor := mkCursor (p ++ r) (zlen p).

Lemma at_app p q r : mkCursor (p ++ q ++ r) (zlen p + zlen q) = at_ (p ++ q) r.
Proof. unfold at_. by rewrite zlen_app, app_assoc. Qed.

Lemma at_start b : mkCursor b 0 = at_ [] b.
Proof. done. Qed.

Lemma left_at p r : left (at_ p r) = zlen r.
Proof. unfold left, at_. cbn. rewrite zlen_app. lia. Qed.

Lemma take_at p q r n : n = zlen q -> take (at_ p (q ++ r)) n = Some (q, at_ (p ++ q) r).
Proof.
  intros ->. unfold take. rewrite left_at, zlen_app. pose proof (zlen_nonneg q). pose proof (zlen_nonneg r).
  destruct (Z.ltb_spec (zlen q) 0), (Z.ltb_spec (zlen q + zlen r) (zlen q)); try lia. cbn [orb].
  unfold at_ at 1 2 3 4. cbn [cb pos]. rewrite zseg_app_mid by done. by rewrite at_app.
Qed.

Lemma take_inv p r n q c : take (at_ p r) n = Some (q, c) ->
  exists r', r = q ++ r' /\ zlen q = n /\ c = at_ (p ++ q) r'.
Proof.
  unfold take. rewrite left_at. destruct (Z.ltb_spec n 0), (Z.ltb_spec (zlen r) n); try done. cbn [orb].
  unfold at_ at 1 2 3 4. cbn [cb pos]. intros [= <- <-].
  destruct (zseg_split 0 n r) as (p' & s & E & Hp & Hs); [lia..|]. apply zlen_0_inv in Hp as ->.
  cbn [app] in E. exists s. assert (zseg (zlen p) (zlen p + n) (p ++ r) = zseg 0 n r) as ->.
  { rewrite E at 1. apply zseg_app_mid; [done|]. rewrite zlen_zseg; lia. }
  assert (zlen (zseg 0 n r) = n) as Hn by (rewrite zlen_zseg; lia).
  split; [done|]. split; [done|]. rewrite <- at_app, Hn, <- E. done.
Qed.

Lemma be_at p h r w n : lenfield w n h -> be (at_ p (h ++ r)) (Z.of_nat w) = Some (n, at_ (p ++ h) r).
Proof.
  intros (->&Hn&Hm). unfold be. rewrite take_at by len. cbn [mbind option_bind].
  rewrite foldl_be_dec, be_dec_enc_small by done. cbv zeta. by destruct (Z.ltb_spec (2 ^ 31 - 1) n); [lia|].
Qed.

Lemma be_inv p r w n c : be (at_ p r) (Z.of_nat w) = Some (n, c) ->
  exists h r', r = h ++ r' /\ lenfield w n h /\ c = at_ (p ++ h) r'.
Proof.
  unfold be. destruct (take _ _) as [[q c']|] eqn:E; [|done]. cbn [mbind option_bind].
  apply take_inv in E as (r' & -> & Hq & ->). rewrite foldl_be_dec. cbv zeta.
  destruct (Z.ltb_spec (2 ^ 31 - 1) (be_dec q)); [done|]. intros [= <- <-].
  exists q, r'. split; [done|]. split; [|done]. pose proof (be_dec_bound q) as Hb. rewrite Hq in Hb.
  split; [|done]. symmetry. apply be_enc_dec_len. unfold zlen in Hq. lia.
Qed.

Lemma tag_at p t r : 0 <= t < 256 -> tag (at_ p (z2b t :: r)) = Some (t, at_ (p ++ [z2b t]) r).
Proof.
  intros Ht. unfold tag. change (z2b t :: r) with ([z2b t] ++ r). rewrite (take_at p [z2b t] r 1) by done. cbn [mbind option_bind].
  by rewrite b2z_z2b_small.
Qed.

Lemma tag_inv p r t c : tag (at_ p r) = Some (t, c) ->
  exists r', r = z2b t :: r' /\ 0 <= t < 256 /\ c = at_ (p ++ [z2b t]) r'.
Proof.
  unfold tag. destruct (take _ _) as [[q c']|] eqn:E; [|done]. cbn [mbind option_bind].
  apply take_inv in E as (r' & -> & Hq & ->). destruct q as [|b [|? q]]; [done| |rewrite !zlen_cons in Hq; pose proof (zlen_nonneg q); lia].
  intros [= <- <-]. exists r'. rewrite z2b_b2z. split; [done|]. split; [apply b2z_bound|done].
Qed.

(** ** What a tag announces *)

(** [form t l k s]: after tag [t] and its length bytes [l] come [s] payload bytes and
    [k] children. *)
Inductive form : Z -> bytes -> Z -> Z -> Prop :=
  | f_scalar t : 0 <= t <= 0x7f \/ 0xe0 <= t <= 0xff \/ t ∈ [0xc0; 0xc2; 0xc3] -> form t [] 0 0
  | f_fixed t n : (t, n) ∈ fixed_tags -> form t [] 0 n
  | f_fixstr n : 0 <= n <= 31 -> form (0xa0 + n) [] 0 n
  | f_str t w n l : (t, w) ∈ str_tags -> lenfield w n l -> form t l 0 n
  | f_bin t w n l : (t, w) ∈ bin_tags -> lenfield w n l -> form t l 0 n
  | f_ext t w n l : (t, w) ∈ ext_tags -> lenfield w n l -> form t l 0 (n + 1)
  | f_fixarr n : 0 <= n <= 15 -> form (0x90 + n) [] n 0
  | f_arr t w n l : (t, w) ∈ arr_tags -> lenfield w n l -> form t l n 0
  | f_fixmap n : 0 <= n <= 15 -> form (0x80 + n) [] (2 * n) 0
  | f_map t w n l : (t, w) ∈ map_tags -> lenfield w n l -> form t l (2 * n) 0.

Ltac mem := apply (bool_decide_eq_true_1 _); vm_compute; reflexivity.
Ltac zcases := repeat (bool_case; try lia; cbn [orb andb]).
Ltac in_tags H := repeat (apply elem_of_cons in H as [H|H]; [injection H as -> ->|]); [..|by apply elem_of_nil in H].

Lemma land_ones_sub t k n : 0 <= k -> t mod 2 ^ k = n -> Z.land t (Z.ones k) = n.
Proof. intros ? <-. by apply Z.land_ones. Qed.

Lemma land_0f t n : t mod 16 = n -> Z.land t 0x0f = n.
Proof. apply (land_ones_sub t 4 n). lia. Qed.
Lemma land_1f t n : t mod 32 = n -> Z.land t 0x1f = n.
Proof. apply (land_ones_sub t 5 n). lia. Qed.

Lemma mod_offset a n m : a mod m = 0 -> 0 <= n < m -> (a + n) mod m = n.
Proof. intros Ha Hn. rewrite <- Zplus_mod_idemp_l, Ha. by apply Z.mod_small. Qed.

Lemma announce_at p t l k s r : form t l k s -> announce t (at_ p (l ++ r)) = Some (k, s, at_ (p ++ l) r).
Proof.
  intros F. destruct F as [t H|t n H|n H|t w n l H Hl|t w n l H Hl|t w n l H Hl|n H|t w n l H Hl|n H|t w n l H Hl].
  - cbn [app]. rewrite app_nil_r. unfold announce, within.
    destruct H as [H|[H|H]]; [zcases; done..|].
    repeat (apply elem_of_cons in H as [->|H]; [done|]). by apply elem_of_nil in H.
  - cbn [app]. rewrite app_nil_r. in_tags H; reflexivity.
  - cbn [app]. rewrite app_nil_r. unfold announce, within. zcases. by rewrite (land_1f _ n) by (apply mod_offset; [done|lia]).
  - in_tags H; unfold announce; cbn -[be]; rewrite (be_at _ _ _ _ _ Hl); cbn; by rewrite Z.add_0_r.
  - in_tags H; unfold announce; cbn -[be]; rewrite (be_at _ _ _ _ _ Hl); cbn; by rewrite Z.add_0_r.
  - in_tags H; unfold announce; cbn -[be]; by rewrite (be_at _ _ _ _ _ Hl).
  - cbn [app]. rewrite app_nil_r. unfold announce, within. zcases. by rewrite (land_0f _ n) by (apply mod_offset; [done|lia]).
  - in_tags H; unfold announce; cbn -[be]; rewrite (be_at _ _ _ _ _ Hl); cbn; by rewrite Z.mul_1_r.
  - cbn [app]. rewrite app_nil_r. unfold announce, within. zcases. rewrite (land_0f _ n) by (apply mod_offset; [done|lia]).
    by rewrite Z.mul_comm.
  - in_tags H; unfold announce; cbn -[be]; rewrite (be_at _ _ _ _ _ Hl); cbn; by rewrite Z.mul_comm.
Qed.


Lemma skip_inv p r w extra k s c :
  ('(n, c) ← be (at_ p r) (Z.of_nat w); Some (0, n + extra, c)) = Some (k, s, c) ->
  exists n l r', r = l ++ r' /\ lenfield w n l /\ c = at_ (p ++ l) r' /\ k = 0 /\ s = n + extra.
Proof.
  destruct (be _ _) as [[n c']|] eqn:E; [|done]. cbn [mbind option_bind]. intros [= <- <- ->].
  apply be_inv in E as (l & r' & -> & Hl & ->). eauto 10.
Qed.
Lemma kids_inv p r w f k s c :
  ('(n, c) ← be (at_ p r) (Z.of_nat w); Some (n * f, 0, c)) = Some (k, s, c) ->
  exists n l r', r = l ++ r' /\ lenfield w n l /\ c = at_ (p ++ l) r' /\ k = n * f /\ s = 0.
Proof.
  destruct (be _ _) as [[n c']|] eqn:E; [|done]. cbn [mbind option_bind]. intros [= <- <- ->].
  apply be_inv in E as (l & r' & -> & Hl & ->). eauto 10.
Qed.

Lemma announce_inv p t r k s c : 0 <= t < 256 -> announce t (at_ p r) = Some (k, s, c) ->
  exists l r', r = l ++ r' /\ c = at_ (p ++ l) r' /\ form t l k s.
Proof.
  intros Ht. unfold announce, within.
  assert (forall k s, form t [] k s -> exists l r', r = l ++ r' /\ at_ p r = at_ (p ++ l) r' /\ form t l k s) as Hnil.
  { intros k' s' F. exists [], r. by rewrite app_nil_r. }
  assert (forall w extra, ('(n, c) ← be (at_ p r) (Z.of_nat w); Some (0, n + extra, c)) = Some (k, s, c) ->
    (forall n l, lenfield w n l -> form t l 0 (n + extra)) ->
    exists l r', r = l ++ r' /\ c = at_ (p ++ l) r' /\ form t l k s) as Hskip.
  { intros w e E F. apply skip_inv in E as (n & l & r' & -> & Hl & -> & -> & ->). exists l, r'. split_and!; auto. }
  assert (forall w f, ('(n, c) ← be (at_ p r) (Z.of_nat w); Some (n * f, 0, c)) = Some (k, s, c) ->
    (forall n l, lenfield w n l -> form t l (n * f) 0) ->
    exists l r', r = l ++ r' /\ c = at_ (p ++ l) r' /\ form t l k s) as Hkids.
  { intros w f E F. apply kids_inv in E as (n & l & r' & -> & Hl & -> & -> & ->). exists l, r'. split_and!; auto. }
  repeat match goal with
  | |- (if ?b then _ else _) = _ -> _ => let E := fresh "E" in destruct b eqn:E
  end; rewrite ?orb_true_iff, ?andb_true_iff, ?Z.leb_le, ?Z.eqb_eq in *; [..|done].
  - intros [= <- <- <-]. apply Hnil. apply f_scalar.
    destruct E as [[[[E|E]|E]|E]|E]; [left; lia|right; left; lia|subst; right; right; mem..].
  - intros [= <- <- <-]. apply Hnil. replace t with (0x80 + (t - 0x80)) by lia.
    rewrite (land_0f _ (t - 0x80)) by (apply mod_offset; [done|lia]). rewrite Z.mul_comm. apply f_fixmap. lia.
  - intros [= <- <- <-]. apply Hnil. replace t with (0x90 + (t - 0x90)) by lia.
    rewrite (land_0f _ (t - 0x90)) by (apply mod_offset; [done|lia]). apply f_fixarr. lia.
  - intros [= <- <- <-]. apply Hnil. replace t with (0xa0 + (t - 0xa0)) by lia.
    rewrite (land_1f _ (t - 0xa0)) by (apply mod_offset; [done|lia]). apply f_fixstr. lia.
  - intros H. apply (Hskip 1%nat 0 H). intros n l Hl. rewrite Z.add_0_r.
    destruct E3 as [-> | ->]; [apply (f_bin _ 1%nat); [mem|done]|apply (f_str _ 1%nat); [mem|done]].
  - intros H. apply (Hskip 2%nat 0 H). intros n l Hl. rewrite Z.add_0_r.
    destruct E4 as [-> | ->]; [apply (f_bin _ 2%nat); [mem|done]|apply (f_str _ 2%nat); [mem|done]].
  - intros H. apply (Hskip 4%nat 0 H). intros n l Hl. rewrite Z.add_0_r.
    destruct E5 as [-> | ->]; [apply (f_bin _ 4%nat); [mem|done]|apply (f_str _ 4%nat); [mem|done]].
  - intros H. apply (Hskip 1%nat 1 H). intros n l Hl. subst t. apply (f_ext _ 1%nat); [mem|done].
  - intros H. apply (Hskip 2%nat 1 H). intros n l Hl. subst t. apply (f_ext _ 2%nat); [mem|done].
  - intros H. apply (Hskip 4%nat 1 H). intros n l Hl. subst t. apply (f_ext _ 4%nat); [mem|done].
  - intros [= <- <- <-]. apply Hnil, f_fixed. subst t. mem.
  - intros [= <- <- <-]. apply Hnil, f_fixed. subst t. mem.
  - intros [= <- <- <-]. apply Hnil, f_fixed. destruct E11 as [-> | ->]; mem.
  - intros [= <- <- <-]. apply Hnil, f_fixed. destruct E12 as [-> | ->]; mem.
  - intros [= <- <- <-]. apply Hnil, f_fixed. destruct E13 as [-> | ->]; mem.
  - intros [= <- <- <-]. apply Hnil, f_fixed. destruct E14 as [-> | ->]; mem.
  - intros [= <- <- <-]. apply Hnil, f_fixed. subst t. mem.
  - intros [= <- <- <-]. apply Hnil, f_fixed. subst t. mem.
  - intros [= <- <- <-]. apply Hnil, f_fixed. subst t. mem.
  - intros [= <- <- <-]. apply Hnil, f_fixed. subst t. mem.
  - intros [= <- <- <-]. apply Hnil, f_fixed. subst t. mem.
  - intros H. apply (Hkids 2%nat 1 H). intros n l Hl. rewrite Z.mul_1_r. subst t. apply (f_arr _ 2%nat); [mem|done].
  - intros H. apply (Hkids 4%nat 1 H). intros n l Hl. rewrite Z.mul_1_r. subst t. apply (f_arr _ 4%nat); [mem|done].
  - intros H. apply (Hkids 2%nat 2 H). intros n l Hl. rewrite Z.mul_comm. subst t. apply (f_map _ 2%nat); [mem|done].
  - intros H. apply (Hkids 4%nat 2 H). intros n l Hl. rewrite Z.mul_comm. subst t. apply (f_map _ 4%nat); [mem|done].
Qed.

(** ** One step reads one header *)

Lemma form_tag t l k s : form t l k s -> 0 <= t < 256 /\ 0 <= k /\ 0 <= s.
Proof.
  intros F. destruct F as [t H|t n H|n H|t w n l H Hl|t w n l H Hl|t w n l H Hl|n H|t w n l H Hl|n H|t w n l H Hl];
    try lia; try (in_tags H; try destruct Hl as (_&?&_); lia).
  destruct H as [H|[H|H]]; [lia..|]. repeat (apply elem_of_cons in H as [->|H]; [lia|]). by apply elem_of_nil in H.
Qed.

(** The header a form and its payload make. *)
Lemma form_header t l k s pl : form t l k s -> zlen pl = s ->
  (is_str_tag t = true -> utf8_valid pl = true) -> header (z2b t :: l ++ pl) k.
Proof.
  intros F Hs Hu. destruct F as [t H|t n H|n H|t w n l H Hl|t w n l H Hl|t w n l H Hl|n H|t w n l H Hl|n H|t w n l H Hl].
  - apply zlen_0_inv in Hs as ->. by apply h_scalar.
  - by eapply h_fixed.
  - apply (h_str [z2b (0xa0 + n)] pl); [rewrite Hs; by apply str_fix|]. apply Hu.
    unfold is_str_tag, within. zcases; by rewrite ?orb_true_r.
  - apply (h_str (z2b t :: l) pl); [rewrite Hs; by eapply str_len|]. apply Hu. by in_tags H.
  - eapply h_bin; [done|]. by rewrite Hs.
  - destruct pl as [|ty pl]; [destruct Hl as (_&?&_); rewrite zlen_nil in Hs; lia|].
    eapply h_ext; [done|]. rewrite zlen_cons in Hs. by replace (zlen pl) with n by lia.
  - apply zlen_0_inv in Hs as ->. by apply h_fixarr.
  - apply zlen_0_inv in Hs as ->. rewrite app_nil_r. by eapply h_arr.
  - apply zlen_0_inv in Hs as ->. by apply h_map, map_fix.
  - apply zlen_0_inv in Hs as ->. rewrite app_nil_r. by eapply h_map, map_len.
Qed.

Lemma header_form h k : header h k -> exists t l pl s, h = z2b t :: l ++ pl /\ form t l k s /\ zlen pl = s
  /\ (is_str_tag t = true -> utf8_valid pl = true).
Proof.
  destruct 1 as [t H|t n data H Hd|h s Hh Hu|t w h data H Hl|t w h ty data H Hl|n H|t w n h H Hl|h n Hh].
  - exists t, [], [], 0. split_and!; [done|by apply f_scalar|done|done].
  - exists t, [], data, n. split_and!; [done|by apply f_fixed|done|by in_tags H].
  - inversion Hh as [n Hn E1 E2|t w n l H Hl E1 E2]; subst.
    + exists (0xa0 + zlen s), [], s. eexists. split_and!; [done|by apply f_fixstr|done|done].
    + exists t, l, s. eexists. split_and!; [done|by eapply f_str|done|done].
  - exists t, h, data. eexists. split_and!; [done|by eapply f_bin|done|by in_tags H].
  - exists t, h, (ty :: data). eexists. split_and!; [done|by eapply f_ext|rewrite zlen_cons; lia|by in_tags H].
  - exists (0x90 + n), [], [], 0. split_and!; [done|by apply f_fixarr|done|done].
  - exists t, h, [], 0. rewrite app_nil_r. split_and!; [done|by eapply f_arr|done|done].
  - inversion Hh as [n' Hn E1 E2|t w n' l H Hl E1 E2]; subst.
    + exists (0x80 + n), [], [], 0. split_and!; [done|by apply f_fixmap|done|done].
    + exists t, l, [], 0. rewrite app_nil_r. split_and!; [done|by eapply f_map|done|done].
Qed.

(** The string tags are those whose payload is checked. *)
Lemma form_str t l k s : form t l k s -> is_str_tag t = true -> k = 0.
Proof.
  intros F. destruct F as [t H|t n H|n H|t w n l H Hl|t w n l H Hl|t w n l H Hl|n H|t w n l H Hl|n H|t w n l H Hl];
    try done; try (by in_tags H); unfold is_str_tag, within; zcases; done.
Qed.

Lemma step_at p h k r : header h k -> k <= zlen r -> step (at_ p (h ++ r)) = Some (k, at_ (p ++ h) r).
Proof.
  intros (t & l & pl & s & -> & F & Hs & Hu)%header_form Hk. pose proof (form_tag _ _ _ _ F) as (Ht&_&_).
  unfold step. cbn [app]. rewrite tag_at by done. cbn [mbind option_bind].
  rewrite <- app_assoc, (announce_at _ _ _ _ _ _ F). cbn [mbind option_bind].
  rewrite take_at by done. cbn [mbind option_bind].
  assert (((p ++ [z2b t]) ++ l) ++ pl = p ++ z2b t :: l ++ pl) as -> by app_eq.
  destruct (is_str_tag t) eqn:Es.
  - rewrite Hu by done. by rewrite (form_str _ _ _ _ F Es).
  - rewrite left_at. by destruct (Z.ltb_spec (zlen r) k); [lia|].
Qed.

Lemma step_inv p r k c : step (at_ p r) = Some (k, c) ->
  exists h r', r = h ++ r' /\ header h k /\ 0 <= k <= zlen r' /\ c = at_ (p ++ h) r'.
Proof.
  unfold step. destruct (tag _) as [[t c1]|] eqn:Et; [|done]. cbn [mbind option_bind].
  apply tag_inv in Et as (r1 & -> & Ht & ->).
  destruct (announce _ _) as [[[k' s] c2]|] eqn:Ea; [|done]. cbn [mbind option_bind].
  apply announce_inv in Ea as (l & r2 & -> & -> & F); [|done].
  destruct (take _ _) as [[pl c3]|] eqn:Ep; [|by destruct (is_str_tag t)]. cbn [mbind option_bind].
  apply take_inv in Ep as (r3 & -> & Hs & ->).
  assert (((p ++ [z2b t]) ++ l) ++ pl = p ++ z2b t :: l ++ pl) as -> by app_eq.
  destruct (form_tag _ _ _ _ F) as (_&Hk&_). pose proof (zlen_nonneg r3).
  destruct (is_str_tag t) eqn:Es.
  - destruct (utf8_valid pl) eqn:Hu; [|done]. intros [= <- <-]. exists (z2b t :: l ++ pl), r3.
    split_and!; [app_eq| |lia|lia|done]. rewrite <- (form_str _ _ _ _ F Es). by eapply form_header.
  - rewrite left_at. destruct (Z.ltb_spec (zlen r3) k'); [done|]. intros [= <- <-].
    exists (z2b t :: l ++ pl), r3. split_and!; [app_eq| |done|done|done]. eapply form_header; [done|done|congruence].
Qed.

Lemma header_pos h k : header h k -> 1 <= zlen h.
Proof. intros (t & l & pl & s & -> & _)%header_form. len. Qed.

(** ** The grammar of values *)

Lemma header_nonneg h k : header h k -> 0 <= k.
Proof. intros (t & l & pl & s & -> & F & _)%header_form. by apply form_tag in F as (_&?&_). Qed.

(** A header is read in one way only. *)
Lemma header_fun h k r h' k' r' : header h k -> header h' k' -> h ++ r = h' ++ r' ->
  k <= zlen r -> k' <= zlen r' -> h = h' /\ k = k' /\ r = r'.
Proof.
  intros H H' E Hk Hk'. pose proof (step_at [] _ _ _ H Hk) as S. rewrite E, (step_at [] _ _ _ H' Hk') in S.
  injection S as -> _ El. cbn [app] in El.
  assert (length h = length h') as Hl by (unfold zlen in El; lia).
  apply app_inj_1 in E as [-> ->]; auto.
Qed.

Lemma values_bound d n b : values d n b -> 0 <= n <= zlen b.
Proof.
  induction 1 as [|d n h rest H _ _ IH|d n m h body rest H _ _ _ IH1 _ IH2]; [unfold zlen; simpl; lia|..];
    pose proof (header_pos _ _ H); len.
Qed.

Lemma values_0 d v : values d 0 v -> v = [].
Proof. inversion 1; try lia. done. Qed.

Lemma values_cons d h k body m rest : header h k -> values d k body -> 0 <= m -> values (S d) m rest ->
  values (S d) (m + 1) (h ++ body ++ rest).
Proof.
  intros Hh Hb Hm Hr. pose proof (header_nonneg _ _ Hh). destruct (decide (k = 0)) as [->|].
  - apply values_0 in Hb as ->. by apply values_leaf.
  - apply (values_node _ _ k); done || lia.
Qed.

Lemma values_uncons d n v : values d n v -> 0 < n ->
  exists d' h k body rest, d = S d' /\ v = h ++ body ++ rest /\ header h k /\ values d' k body
    /\ values (S d') (n - 1) rest.
Proof.
  destruct 1 as [|d n h rest Hh Hn Hr|d n m h body rest Hh Hm Hn Hb Hr]; intros; [lia|..].
  - exists d, h, 0, [], rest. split_and!; [done|done|done|constructor|]. by replace (n + 1 - 1) with n by lia.
  - exists d, h, m, body, rest. split_and!; [done..|]. by replace (n + 1 - 1) with n by lia.
Qed.

Lemma values_mono d d' n v : values d n v -> (d <= d')%nat -> values d' n v.
Proof.
  intros H. revert d'. induction H as [|d n h rest Hh Hn _ IH|d n m h body rest Hh Hm Hn _ IH1 _ IH2];
    intros d' Hd; [constructor|..]; destruct d' as [|d']; try lia.
  - apply values_leaf; [done|done|apply IH; lia].
  - apply (values_node _ _ m); [done..|apply IH1; lia|apply IH2; lia].
Qed.

Lemma values_app d n v m w : values d n v -> values d m w -> values d (n + m) (v ++ w).
Proof.
  intros H Hw. induction H as [|d n h rest Hh Hn _ IH|d n k h body rest Hh Hm Hn Hb _ _ IH2].
  - by rewrite Z.add_0_l.
  - rewrite <- app_assoc. replace (n + 1 + m) with (n + m + 1) by lia.
    apply values_bound in Hw as ?. apply values_leaf; [done|lia|auto].
  - rewrite <- !app_assoc. replace (n + 1 + m) with (n + m + 1) by lia.
    apply values_bound in Hw as ?. apply (values_node _ _ k); [done|done|lia|done|auto].
Qed.

Lemma values_split d k m v : 0 <= k -> 0 <= m -> values d (k + m) v ->
  exists v1 v2, v = v1 ++ v2 /\ values d k v1 /\ values d m v2.
Proof.
  intros Hk Hm. replace k with (Z.of_nat (Z.to_nat k)) by lia. generalize (Z.to_nat k) as n.
  intros n. revert v. induction n as [|n IH]; intros v.
  - rewrite Z.add_0_l. exists [], v. split_and!; [done|constructor|done].
  - intros (d' & h & k' & body & rest & -> & -> & Hh & Hb & Hr)%values_uncons; [|lia].
    replace (Z.of_nat (S n) + m - 1) with (Z.of_nat n + m) in Hr by lia.
    destruct (IH _ Hr) as (v1 & v2 & -> & H1 & H2). exists (h ++ body ++ v1), v2.
    split_and!; [app_eq| |done]. replace (Z.of_nat (S n)) with (Z.of_nat n + 1) by lia.
    eapply values_cons; [done|done|lia|done].
Qed.

(** ** [skipValue] skips exactly one value *)

Lemma skip_loop_spec fuel n p r : 0 <= n -> zlen r < Z.of_nat fuel ->
  exists res, skip_loop fuel n (at_ p r) = Some res
  /\ forall c, res = Some c <-> exists d v r', r = v ++ r' /\ values d n v /\ c = at_ (p ++ v) r'.
Proof.
  revert n p r. induction fuel as [|fuel IH]; intros n p r Hn Hf; [pose proof (zlen_nonneg r); lia|].
  cbn [skip_loop]. destruct (Z.leb_spec n 0) as [Hn0|Hn0].
  { eexists. split; [done|]. intros c. assert (n = 0) as -> by lia. split.
    - intros [= <-]. exists 0%nat, [], r. rewrite app_nil_r. split_and!; [done|constructor|done].
    - intros (d & v & r' & -> & Hv & ->). apply values_0 in Hv as ->. by rewrite app_nil_r. }
  assert (forall d v r', r = v ++ r' -> values d n v -> exists d' h k v1, v = h ++ v1 /\ header h k
    /\ d = S d' /\ values d (n - 1 + k) v1 /\ step (at_ p r) = Some (k, at_ (p ++ h) (v1 ++ r'))) as Hstep.
  { intros d v r' -> Hv. apply values_uncons in Hv as (d' & h & k & body & rest & -> & -> & Hh & Hb & Hr); [|lia].
    exists d', h, k, (body ++ rest). split_and!; [done|done|done| |].
    - rewrite Z.add_comm. apply values_app; [|done]. eapply values_mono; [done|lia].
    - rewrite <- !app_assoc. apply step_at; [done|]. apply values_bound in Hb. len. }
  destruct (step (at_ p r)) as [[k c']|] eqn:Es.
  2: { eexists. split; [done|]. intros c. split; [done|]. intros (d & v & r' & Er & Hv & _).
       by destruct (Hstep _ _ _ Er Hv) as (?&?&?&?&_&_&_&_&?). }
  apply step_inv in Es as (h & r1 & -> & Hh & Hk & ->). rewrite left_at.
  pose proof (header_pos _ _ Hh).
  assert (forall c, (exists d v r', h ++ r1 = v ++ r' /\ values d n v /\ c = at_ (p ++ v) r')
    <-> (exists d v r', r1 = v ++ r' /\ values d (n - 1 + k) v /\ c = at_ ((p ++ h) ++ v) r')) as Heq.
  { intros c. split.
    - intros (d & v & r' & Er & Hv & ->). destruct (Hstep _ _ _ Er Hv) as (d' & h' & k' & v1 & -> & Hh' & -> & Hv1 & E).
      assert (header h' k') as _ by done. rewrite <- app_assoc in Er.
      destruct (header_fun _ _ _ _ _ _ Hh Hh' Er) as (<- & <- & ->); [lia|apply values_bound in Hv1; len|].
      exists (S d'), v1, r'. rewrite !app_assoc. done.
    - intros (d & v & r' & -> & Hv & ->). apply Z.lt_le_pred in Hn0 as Hn1.
      replace (n - 1 + k) with (k + (n - 1)) in Hv by lia.
      apply values_split in Hv as (v1 & v2 & -> & H1 & H2); [|lia..].
      exists (S d), (h ++ v1 ++ v2), r'. split_and!; [app_eq| |app_eq].
      replace n with (n - 1 + 1) by lia. eapply values_cons; [done|done|lia|]. eapply values_mono; [done|lia]. }
  destruct (Z.ltb_spec (zlen r1) (n - 1 + k)) as [Hlt|Hge].
  - eexists. split; [done|]. intros c. rewrite Heq. split; [done|]. intros (d & v & r' & -> & Hv & _).
    apply values_bound in Hv. len.
  - destruct (IH (n - 1 + k) (p ++ h) r1) as (res & E & Hres); [lia|len|].
    exists res. split; [done|]. intros c. rewrite Heq. apply Hres.
Qed.

Lemma skipValue_spec p r c : skipValue (at_ p r) = Some c <->
  exists d v r', r = v ++ r' /\ values d 1 v /\ c = at_ (p ++ v) r'.
Proof.
  unfold skipValue. rewrite left_at.
  destruct (skip_loop_spec (2 + Z.to_nat (zlen r)) 1 p r) as (res & -> & H); [lia|pose proof (zlen_nonneg r); lia|].
  apply H.
Qed.

(** ** [mpWellFormed] is the grammar with bounded nesting *)

(** What a stack of counts still expects: the top at the deepest level. *)
Fixpoint forest (D : nat) (stack : list Z) (r : bytes) : Prop :=
  match stack with
  | [] => r = []
  | n :: st => exists v r', r = v ++ r' /\ values (D - length st) n v /\ forest D st r'
  end.

Lemma wf_loop_spec fuel D stack p r : (1 <= D)%nat -> (length stack <= D)%nat -> Forall (fun n => 0 <= n) stack ->
  2 * zlen r + zlen stack < Z.of_nat fuel ->
  exists res, wf_loop fuel (Z.of_nat D) stack (at_ p r) = Some res /\ (res = true <-> forest D stack r).
Proof.
  intros HD. revert stack p r. induction fuel as [|fuel IH]; intros stack p r Hst Hpos Hf.
  { pose proof (zlen_nonneg r). pose proof (zlen_nonneg stack). lia. }
  cbn [wf_loop]. destruct stack as [|n st].
  { eexists. split; [done|]. cbn. rewrite Z.eqb_eq, zlen_app. split.
    - intros. apply zlen_0_inv. lia.
    - intros ->. unfold zlen; simpl; lia. }
  apply Forall_cons in Hpos as [Hn Hpos]. rewrite zlen_cons in Hf. cbn [length] in Hst.
  destruct (Z.eqb_spec n 0) as [->|Hn0].
  { destruct (IH st p r) as (res & E & H); [lia|done|lia|]. exists res. split; [done|]. rewrite H. cbn. split.
    - intros Hfo. exists [], r. split_and!; [done|constructor|done].
    - intros (v & r' & -> & Hv & Hfo). by apply values_0 in Hv as ->. }
  set (lvl := (D - length st - 1)%nat). assert (D - length st = S lvl)%nat as Hlvl by lia.
  assert (forall v r', r = v ++ r' -> values (S lvl) n v -> exists h k v1 v2, v = h ++ v1 ++ v2 /\ header h k
    /\ values lvl k v1 /\ values (S lvl) (n - 1) v2 /\ k <= zlen (v1 ++ v2 ++ r')) as Hun.
  { intros v r' -> Hv. apply values_uncons in Hv as (d' & h & k & v1 & v2 & [= <-] & -> & Hh & H1 & H2); [|lia].
    exists h, k, v1, v2. split_and!; [done..|]. apply values_bound in H1. len. }
  destruct (step (at_ p r)) as [[k c]|] eqn:Es.
  2: { eexists. split; [done|]. split; [done|]. cbn [forest]. rewrite Hlvl. intros (v & r' & Er & Hv & _).
       destruct (Hun _ _ Er Hv) as (h & k & v1 & v2 & -> & Hh & _ & _ & Hk). subst r.
       rewrite <- !app_assoc, (step_at _ _ _ _ Hh Hk) in Es. done. }
  apply step_inv in Es as (h & r1 & -> & Hh & Hk & ->). pose proof (header_pos _ _ Hh). rewrite zlen_app in Hf.
  assert (forest D (n :: st) (h ++ r1) <->
    exists v1 v2 r', r1 = v1 ++ v2 ++ r' /\ values lvl k v1 /\ values (S lvl) (n - 1) v2 /\ forest D st r') as Heq.
  { cbn [forest]. rewrite Hlvl. split.
    - intros (v & r' & Er & Hv & Hfo). destruct (Hun _ _ Er Hv) as (h' & k' & v1 & v2 & -> & Hh' & H1 & H2 & Hk').
      rewrite <- !app_assoc in Er. destruct (header_fun _ _ _ _ _ _ Hh Hh' Er) as (<- & <- & ->); [lia|done|]. eauto 10.
    - intros (v1 & v2 & r' & -> & H1 & H2 & Hfo). exists (h ++ v1 ++ v2), r'. split_and!; [app_eq| |done].
      replace n with (n - 1 + 1) by lia. eapply values_cons; [done|done|lia|done]. }
  destruct (Z.ltb_spec 0 k) as [Hk0|Hk0].
  - rewrite zlen_cons. destruct (Z.leb_spec (Z.of_nat D) (1 + zlen st)) as [Hle|Hgt].
    + eexists. split; [done|]. rewrite Heq. split; [done|]. intros (v1 & _ & _ & _ & H1 & _).
      assert (lvl = 0)%nat as E0 by (unfold zlen in Hle; lia). rewrite E0 in H1. inversion H1; lia.
    + destruct (IH (k :: (n - 1) :: st) (p ++ h) r1) as (res & E & H').
      { cbn [length]. unfold zlen in Hgt. lia. } { by repeat constructor; try lia. } { rewrite !zlen_cons. lia. }
      exists res. split; [done|]. rewrite H', Heq. cbn [forest length]. rewrite Hlvl.
      replace (D - S (length st))%nat with lvl by lia. split.
      * intros (v1 & ? & -> & H1 & v2 & r' & -> & H2 & Hfo). eauto 10.
      * intros (v1 & v2 & r' & -> & H1 & H2 & Hfo). eauto 10.
  - assert (k = 0) as -> by lia. destruct (IH ((n - 1) :: st) (p ++ h) r1) as (res & E & H').
    { cbn [length]. lia. } { constructor; [lia|done]. } { rewrite zlen_cons. lia. }
    exists res. split; [done|]. rewrite H', Heq. cbn [forest]. rewrite Hlvl. split.
    + intros (v2 & r' & -> & H2 & Hfo). exists [], v2, r'. split_and!; [done|constructor|done|done].
    + intros (v1 & v2 & r' & -> & H1 & H2 & Hfo). apply values_0 in H1 as ->. cbn [app]. eauto 10.
Qed.

Lemma mpWellFormed_values b D : (1 <= D)%nat -> mpWellFormed b (Z.of_nat D) = true <-> values D 1 b.
Proof.
  intros HD. unfold mpWellFormed. rewrite at_start.
  destruct (wf_loop_spec (2 * length b + 3) D [1] [] b) as (res & -> & H).
  { done. } { simpl. lia. } { by repeat constructor. } { unfold zlen. simpl. lia. }
  cbn [default]. rewrite H. cbn [forest length]. rewrite Nat.sub_0_r. split.
  - intros (v & r' & -> & Hv & ->). by rewrite app_nil_r.
  - intros Hv. exists b, []. by rewrite app_nil_r.
Qed.

(** ** Strings and map headers *)

Lemma read_str_at p h s r : str_header h (zlen s) -> utf8_valid s = true ->
  read_str (at_ p (h ++ s ++ r)) = Some (s, at_ (p ++ h ++ s) r).
Proof.
  intros H Hu. unfold read_str. inversion H as [n Hn E1 E2|t w n l Ht Hl E1 E2]; subst.
  - cbn [app]. rewrite tag_at by lia. cbn [mbind option_bind]. unfold within. zcases.
    rewrite (land_1f _ (zlen s)) by (apply mod_offset; [done|lia]). cbn [mbind option_bind].
    rewrite take_at by done. cbn [mbind option_bind]. rewrite Hu. do 2 f_equal. f_equal. app_eq.
  - cbn [app]. assert (0 <= t < 256) as Hr by (in_tags Ht; lia). rewrite tag_at by done. cbn [mbind option_bind].
    in_tags Ht; cbn -[be take at_]; rewrite (be_at _ _ _ _ _ Hl); cbn [mbind option_bind];
      rewrite take_at by done; cbn [mbind option_bind]; rewrite Hu; do 2 f_equal; f_equal; app_eq.
Qed.

Lemma read_str_inv p r s c : read_str (at_ p r) = Some (s, c) ->
  exists h r', r = h ++ s ++ r' /\ str_header h (zlen s) /\ utf8_valid s = true /\ c = at_ (p ++ h ++ s) r'.
Proof.
  unfold read_str. destruct (tag _) as [[t c1]|] eqn:Et; [|done]. cbn [mbind option_bind].
  apply tag_inv in Et as (r1 & -> & Ht & ->).
  assert (forall n c2, (if within 0xa0 t 0xbf then Some (Z.land t 0x1f, at_ (p ++ [z2b t]) r1)
             else if t =? 0xd9 then be (at_ (p ++ [z2b t]) r1) 1
             else if t =? 0xda then be (at_ (p ++ [z2b t]) r1) 2
             else if t =? 0xdb then be (at_ (p ++ [z2b t]) r1) 4 else None) = Some (n, c2) ->
    exists l r2, r1 = l ++ r2 /\ str_header (z2b t :: l) n /\ c2 = at_ ((p ++ [z2b t]) ++ l) r2) as Hn.
  { intros n c2. unfold within. destruct (Z.leb_spec 0xa0 t), (Z.leb_spec t 0xbf); cbn [andb].
    1: { intros [= <- <-]. exists [], r1. rewrite app_nil_r. split_and!; [done| |done].
         rewrite (land_1f _ (t - 0xa0)) by (replace t with (0xa0 + (t - 0xa0)) at 1 by lia; apply mod_offset; [done|lia]).
         replace (z2b t) with (z2b (0xa0 + (t - 0xa0))) by (f_equal; lia). apply str_fix. lia. }
    all: destruct (Z.eqb_spec t 0xd9) as [->|];
      [intros (l & r2 & -> & Hl & ->)%(be_inv _ _ 1); exists l, r2; split_and!; [done|apply (str_len _ 1%nat); [mem|done]|done]|].
    all: destruct (Z.eqb_spec t 0xda) as [->|];
      [intros (l & r2 & -> & Hl & ->)%(be_inv _ _ 2); exists l, r2; split_and!; [done|apply (str_len _ 2%nat); [mem|done]|done]|].
    all: destruct (Z.eqb_spec t 0xdb) as [->|];
      [intros (l & r2 & -> & Hl & ->)%(be_inv _ _ 4); exists l, r2; split_and!; [done|apply (str_len _ 4%nat); [mem|done]|done]|done]. }
  destruct (if within 0xa0 t 0xbf then _ else _) as [[n c2]|] eqn:E; [|done]. cbn [mbind option_bind].
  destruct (Hn _ _ eq_refl) as (l & r2 & -> & Hh & ->). clear Hn E.
  destruct (take _ _) as [[q c3]|] eqn:Eq; [|done]. cbn [mbind option_bind].
  apply take_inv in Eq as (r3 & -> & Hq & ->). destruct (utf8_valid q) eqn:Hu; [|done].
  intros [= <- <-]. exists (z2b t :: l), r3. rewrite Hq. split_and!; [app_eq|done|done|f_equal; app_eq].
Qed.

Lemma mapLen_at p h n r : map_header h n -> mapLen (at_ p (h ++ r)) = Some (n, at_ (p ++ h) r).
Proof.
  intros H. unfold mapLen. inversion H as [n' Hn E1 E2|t w n' l Ht Hl E1 E2]; subst.
  - cbn [app]. rewrite tag_at by lia. cbn [mbind option_bind]. unfold within. zcases.
    by rewrite (land_0f _ n) by (apply mod_offset; [done|lia]).
  - cbn [app]. assert (0 <= t < 256) as Hr by (in_tags Ht; lia). rewrite tag_at by done. cbn [mbind option_bind].
    in_tags Ht; cbn -[be at_]; rewrite (be_at _ _ _ _ _ Hl); do 2 f_equal; f_equal; app_eq.
Qed.

Lemma mapLen_inv p r n c : mapLen (at_ p r) = Some (n, c) ->
  exists h r', r = h ++ r' /\ map_header h n /\ c = at_ (p ++ h) r'.
Proof.
  unfold mapLen. destruct (tag _) as [[t c1]|] eqn:Et; [|done]. cbn [mbind option_bind].
  apply tag_inv in Et as (r1 & -> & Ht & ->). unfold within.
  destruct (Z.leb_spec 0x80 t), (Z.leb_spec t 0x8f); cbn [andb].
  1: { intros [= <- <-]. exists [z2b t], r1. split_and!; [done| |done].
       rewrite (land_0f _ (t - 0x80)) by (replace t with (0x80 + (t - 0x80)) at 1 by lia; apply mod_offset; [done|lia]).
       replace (z2b t) with (z2b (0x80 + (t - 0x80))) by (f_equal; lia). apply map_fix. lia. }
  all: destruct (Z.eqb_spec t 0xde) as [->|];
    [intros (l & r2 & -> & Hl & ->)%(be_inv _ _ 2); exists (z2b 0xde :: l), r2; split_and!;
       [done|apply (map_len _ 2%nat); [mem|done]|f_equal; app_eq]|].
  all: destruct (Z.eqb_spec t 0xdf) as [->|];
    [intros (l & r2 & -> & Hl & ->)%(be_inv _ _ 4); exists (z2b 0xdf :: l), r2; split_and!;
       [done|apply (map_len _ 4%nat); [mem|done]|f_equal; app_eq]|done].
Qed.

(** ** The encoders write headers of the grammar *)

Lemma lor_offset a n k : 0 <= k -> a mod 2 ^ k = 0 -> 0 <= n < 2 ^ k -> Z.lor a n = a + n.
Proof.
  intros Hk Ha Hn. rewrite Z.lor_comm. pose proof (Z.div_mod a (2 ^ k) ltac:(lia)) as E.
  rewrite Ha, Z.add_0_r in E. rewrite E at 1. rewrite Z.mul_comm, <- Z.shiftl_mul_pow2 by done.
  rewrite lor_shiftl_add by done. lia.
Qed.

Lemma lenfield_1 n : 0 <= n <= 255 -> lenfield 1 n [z2b n].
Proof. intros. split; [done|]. lia. Qed.

Lemma mpStr_spec out s : zlen s <= 2 ^ 31 - 1 ->
  exists h, mpStr out s = out ++ h ++ s /\ str_header h (zlen s).
Proof.
  intros Hs. pose proof (zlen_nonneg s). unfold mpStr. cbv zeta.
  destruct (Z.leb_spec (zlen s) 31); [|destruct (Z.leb_spec (zlen s) 255); [|destruct (Z.leb_spec (zlen s) 65535)]].
  - rewrite (lor_offset _ _ 5) by (done || lia). exists [z2b (0xa0 + zlen s)]. split; [app_eq|]. apply (str_fix (zlen s)). lia.
  - exists [xd9; z2b (zlen s)]. split; [app_eq|]. apply (str_len 0xd9 1%nat); [mem|]. apply lenfield_1. lia.
  - exists ([xda] ++ be_enc 2 (zlen s)). split; [app_eq|]. apply (str_len 0xda 2%nat); [mem|]. split; [done|]. lia.
  - exists ([xdb] ++ be_enc 4 (zlen s)). split; [app_eq|]. apply (str_len 0xdb 4%nat); [mem|]. split; [done|]. lia.
Qed.

Lemma mpMap_spec out n : 0 <= n <= 2 ^ 31 - 1 -> exists h, mpMap out n = out ++ h /\ map_header h n.
Proof.
  intros Hn. unfold mpMap. destruct (Z.leb_spec n 15); [|destruct (Z.leb_spec n 65535)].
  - rewrite (lor_offset _ _ 4) by (done || lia). exists [z2b (0x80 + n)]. split; [app_eq|]. apply (map_fix n). lia.
  - exists ([xde] ++ be_enc 2 n). split; [app_eq|]. apply (map_len 0xde 2%nat); [mem|]. split; [done|]. lia.
  - exists ([xdf] ++ be_enc 4 n). split; [app_eq|]. apply (map_len 0xdf 4%nat); [mem|]. split; [done|]. lia.
Qed.

Lemma mpBin_spec out b : zlen b <= 2 ^ 31 - 1 -> exists v, mpBin out b = out ++ v /\ header v 0 /\ zlen b <= zlen v.
Proof.
  intros Hs. pose proof (zlen_nonneg b). unfold mpBin. cbv zeta.
  destruct (Z.leb_spec (zlen b) 255); [|destruct (Z.leb_spec (zlen b) 65535)].
  - exists (z2b 0xc4 :: [z2b (zlen b)] ++ b). split_and!; [app_eq| |len].
    apply (h_bin 0xc4 1%nat); [mem|]. apply lenfield_1. lia.
  - exists (z2b 0xc5 :: be_enc 2 (zlen b) ++ b). split_and!; [app_eq| |len]. apply (h_bin 0xc5 2%nat); [mem|]. split; [done|]. lia.
  - exists (z2b 0xc6 :: be_enc 4 (zlen b) ++ b). split_and!; [app_eq| |len]. apply (h_bin 0xc6 4%nat); [mem|]. split; [done|]. lia.
Qed.

Lemma mpUint_spec out v : 0 <= v < 2 ^ 64 -> exists e, mpUint out v = out ++ e /\ header e 0.
Proof.
  intros Hv. unfold mpUint. destruct (Z.ltb_spec v 0x80).
  { exists [z2b v]. split; [done|]. apply h_scalar. lia. }
  destruct (Z.leb_spec v 255); [exists (z2b 0xcc :: [z2b v]); split; [done|]; apply (h_fixed 0xcc 1); [mem|done]|].
  destruct (Z.leb_spec v 65535); [exists (z2b 0xcd :: be_enc 2 v); split; [done|]; apply (h_fixed 0xcd 2); [mem|len]|].
  destruct (Z.leb_spec v (2 ^ 32 - 1)); [exists (z2b 0xce :: be_enc 4 v); split; [done|]; apply (h_fixed 0xce 4); [mem|len]|].
  exists (z2b 0xcf :: be_enc 8 v). split; [done|]. apply (h_fixed 0xcf 8); [mem|len].
Qed.

Lemma mpInt_spec out v : - 2 ^ 63 <= v < 2 ^ 63 -> exists e, mpInt out v = out ++ e /\ header e 0.
Proof.
  intros Hv. unfold mpInt. destruct (Z.leb_spec 0 v); [apply mpUint_spec; lia|].
  destruct (Z.leb_spec (-32) v).
  { exists [z2b (v + 256)]. split; [|apply h_scalar; lia]. f_equal. f_equal.
    rewrite <- (z2b_mod v), <- (z2b_mod (v + 256)). f_equal. rewrite <- Zplus_mod_idemp_r. by rewrite Z.add_0_r. }
  destruct (Z.leb_spec (-128) v); [exists (z2b 0xd0 :: [z2b v]); split; [done|]; apply (h_fixed 0xd0 1); [mem|done]|].
  destruct (Z.leb_spec (-32768) v); [exists (z2b 0xd1 :: be_enc 2 v); split; [done|]; apply (h_fixed 0xd1 2); [mem|len]|].
  destruct (Z.leb_spec (- 2 ^ 31) v); [exists (z2b 0xd2 :: be_enc 4 v); split; [done|]; apply (h_fixed 0xd2 4); [mem|len]|].
  exists (z2b 0xd3 :: be_enc 8 v). split; [done|]. apply (h_fixed 0xd3 8); [mem|len].
Qed.

End Mp.
