(* ===== verification/AuditContext.v ===== *)
(** * AuditContext: naming the audited object (sd/auditcontext.go)

    The encoder [EncodeAuditContext], the validator [ValidateAuditContext] and the
    shape check they share, over the MessagePack reader of Msgpack.v.  [context_shape]
    states the documented shape as a grammar; the validator is shown to decide it, and
    the encoder to fail only on the conditions it documents (and for the kind "kind"
    with fields, which the map form cannot express). *)

From S2P Require Import Prelude Outcome Codec Uapi GoStd Sid Msgpack.

Module Audit.
Import Mp.

(** ** Fields *)

Inductive auditKind := auditStr | auditUint | auditInt | auditBool | auditBin.

Record AuditField := mkField {
  key : bytes;
  fkind : auditKind;
  u64 : Z;
  i64 : Z;
  fb : bool;
  data : bytes
}.

Definition AuditString (k v : bytes) : AuditField := mkField k auditStr 0 0 false v.
Definition AuditUint (k : bytes) (v : Z) : AuditField := mkField k auditUint v 0 false [].
Definition AuditInt (k : bytes) (v : Z) : AuditField := mkField k auditInt 0 v false [].
Definition AuditBool (k : bytes) (v : bool) : AuditField := mkField k auditBool 0 0 v [].
Definition AuditBytes (k v : bytes) : AuditField := mkField k auditBin 0 0 false v.
Definition AuditSID (k : bytes) (sid : SID.t) : AuditField := mkField k auditBin 0 0 false (SID.Bytes sid).

(** ** Segments *)

Definition lower (c : byte) : bool := within 97 (b2z c) 122.
Definition digit (c : byte) : bool := within 48 (b2z c) 57.

(** The loop over [s[1:]]: [None] for the early [return false], else the last [prev]. *)
Fixpoint segment_loop (prev : byte) (s : bytes) : option byte :=
  match s with
  | [] => Some prev
  | c :: s =>
      if lower c || digit c || (bool_decide (c = x2d) && negb (bool_decide (prev = x2d)))
      then segment_loop c s else None
  end.

Definition isEventSegment (s : bytes) : bool :=
  match s with
  | [] => false
  | c :: s =>
      if negb (lower c) then false else
      match segment_loop c s with
      | None => false
      | Some prev => negb (bool_decide (prev = x2d))
      end
  end.

(** ** The shape check *)

(** The entries of the outer map: the kind and the other entry found so far. *)
Fixpoint shape_entries (entries : nat) (c : mpCursor) (kind : option bytes)
    (other : option (bytes * bytes)) : option (mpCursor * option bytes * option (bytes * bytes)) :=
  match entries with
  | O => Some (c, kind, other)
  | S entries =>
      '(k, c1) ← read_str c;
      let start := pos c1 in
      c2 ← skipValue c1;
      let value := zseg start (pos c2) (cb c2) in
      if bool_decide (k = str "kind") then
        if kind is Some _ then None else
        '(kd, vc) ← read_str (mkCursor value 0);
        if negb (pos vc =? zlen value) || negb (isEventSegment kd) then None
        else shape_entries entries c2 (Some kd) other
      else shape_entries entries c2 kind (Some (k, value))
  end.

Fixpoint shape_fields (n : nat) (c : mpCursor) : option mpCursor :=
  match n with
  | O => Some c
  | S n =>
      '(k, c) ← read_str c;
      if negb (isEventSegment k) then None else
      c ← skipValue c;
      shape_fields n c
  end.

Definition auditContextShape (b : bytes) : bool :=
  match mapLen (mkCursor b 0) with
  | None => false
  | Some (entries, c) =>
      if (entries =? 0) || (2 <? entries) then false else
      match shape_entries (Z.to_nat entries) c None None with
      | None => false
      | Some (c, kind, other) =>
          match kind with
          | None => false
          | Some kd =>
              if negb (pos c =? zlen b) then false else
              match other with
              | None => true
              | Some (otherKey, otherValue) =>
                  if negb (bool_decide (otherKey = kd)) then false else
                  match mapLen (mkCursor otherValue 0) with
                  | None => false
                  | Some (n, body) =>
                      if n =? 0 then false else
                      match shape_fields (Z.to_nat n) body with
                      | None => false
                      | Some body => pos body =? zlen otherValue
                      end
                  end
              end
          end
      end
  end.

Section audit.
Context {U : Uapi}.

Definition auditContextMaxDepth : Z := KMES_CONFIG_MAX_NESTING_DEPTH_DEFAULT - 1.

Definition ValidateAuditContext (b : bytes) : outcome unit :=
  if (zlen b =? 0) || (KACS_ACCESS_CHECK_MAX_AUDIT_CONTEXT_LEN <? zlen b) then Err ErrBadAuditContext else
  if negb (auditContextShape b) || negb (mpWellFormed b auditContextMaxDepth)
  then Err ErrBadAuditContext else Ok tt.

(** ** Encoding *)

(** The checking loop over the fields, with the set of keys seen. *)
Fixpoint check_fields (fields : list AuditField) (seen : list bytes) : outcome unit :=
  match fields with
  | [] => Ok tt
  | f :: fields =>
      if negb (isEventSegment (key f)) then Err (Wrapf "audit field is not a segment" ErrBadAuditContext) else
      if bool_decide (key f ∈ seen) then Err (Wrapf "audit field given twice" ErrBadAuditContext) else
      if (match fkind f with auditStr => true | _ => false end) && negb (utf8_valid (data f))
      then Err (Wrapf "audit field is not UTF-8" ErrBadAuditContext) else
      check_fields fields (key f :: seen)
  end.

Definition put_field (out : bytes) (f : AuditField) : bytes :=
  let out := mpStr out (key f) in
  match fkind f with
  | auditStr => mpStr out (data f)
  | auditUint => mpUint out (u64 f)
  | auditInt => mpInt out (i64 f)
  | auditBool => out ++ [if fb f then xc3 else xc2]
  | auditBin => mpBin out (data f)
  end.

(** The bytes that EncodeAuditContext writes before it checks them. *)
Definition context_bytes (kind : bytes) (fields : list AuditField) : bytes :=
  let out := if zlen fields =? 0 then mpMap [] 1 else mpMap [] 2 in
  let out := mpStr out (str "kind") in
  let out := mpStr out kind in
  if 0 <? zlen fields then
    let out := mpStr out kind in
    let out := mpMap out (zlen fields) in
    foldl put_field out fields
  else out.

Definition EncodeAuditContext (kind : bytes) (fields : list AuditField) : outcome bytes :=
  if negb (isEventSegment kind) then Err (Wrapf "audit context kind is not a segment" ErrBadAuditContext) else
  _ ← check_fields fields [];
  let out := context_bytes kind fields in
  if KACS_ACCESS_CHECK_MAX_AUDIT_CONTEXT_LEN <? zlen out
  then Err (Wrapf "audit context is too long" ErrBadAuditContext) else
  _ ← ValidateAuditContext out;
  Ok out.
End audit.

(** ** The documented shape *)

(** PGSS 6.3's segment grammar, [a-z][a-z0-9]*(-[a-z0-9]+)*: words joined by dashes. *)
Definition word (w : bytes) : Prop := w <> [] /\ Forall (fun c => lower c || digit c = true) w.
Definition segment (s : bytes) : Prop :=
  exists w ws, s = join_with x2d (w :: ws) /\ Forall word (w :: ws)
  /\ exists c w', w = c :: w' /\ lower c = true.

(** The entries of a map: string keys and complete values. *)
Inductive entries : list (bytes * bytes) -> bytes -> Prop :=
  | entries_nil : entries [] []
  | entries_cons h k v d kvs r :
      str_header h (zlen k) -> utf8_valid k = true -> values d 1 v -> entries kvs r ->
      entries ((k, v) :: kvs) (h ++ k ++ v ++ r).

Definition is_map (b : bytes) (kvs : list (bytes * bytes)) : Prop :=
  exists h r, b = h ++ r /\ map_header h (zlen kvs) /\ entries kvs r.

(** The value of the "kind" entry: a string that is a segment. *)
Definition kind_value (v kind : bytes) : Prop :=
  exists h, v = h ++ kind /\ str_header h (zlen kind) /\ utf8_valid kind = true /\ segment kind.

(** [{kind: K}], or [{kind: K, K: {...}}] in either order, the inner map being
    non-empty with segment keys. *)
Definition context_shape (b kind : bytes) (fields : list (bytes * bytes)) : Prop :=
  exists v kvs, is_map b kvs /\ kind_value v kind /\
  ((kvs = [(str "kind", v)] /\ fields = [])
   \/ exists body, (kvs = [(str "kind", v); (kind, body)] \/ kvs = [(kind, body); (str "kind", v)])
      /\ kind <> str "kind" /\ is_map body fields /\ fields <> []
      /\ Forall (fun f => segment f.1) fields).

(** ** Segments: the loop is the grammar *)

Definition alnum (c : byte) : bool := lower c || digit c.
Lemma alnum_not_dash c : alnum c = true -> c <> x2d.
Proof. by intros H ->. Qed.

Lemma segment_loop_spec prev s :
  (exists last, segment_loop prev s = Some last /\ last <> x2d) <->
  exists w ws, split_on x2d s = w :: ws /\ Forall (fun c => alnum c = true) w /\ Forall word ws
    /\ (prev = x2d -> w <> []).
Proof.
  revert prev. induction s as [|c s IH]; intros prev; cbn [segment_loop split_on].
  - split.
    + intros (l & [= <-] & Hl). exists [], []. by split_and!.
    + intros (w & ws & [= <- <-] & _ & _ & Hp). exists prev. split; [done|]. naive_solver.
  - fold (alnum c). destruct (alnum c) eqn:Ea; cbn [orb].
    + rewrite (bool_decide_eq_false_2 (c = x2d)) by (by apply alnum_not_dash). rewrite IH.
      pose proof (split_on_nil x2d s). destruct (split_on x2d s) as [|w ws]; [done|]. split.
      * intros (w' & ws' & [= <- <-] & Hw & Hws & _). exists (c :: w), ws. split_and!; [done|by constructor|done|done].
      * intros (w' & ws' & [= <- <-] & [_ Hw]%Forall_cons & Hws & _). exists w, ws. split_and!; [done|done|done|].
        intros ->. done.
    + case_bool_decide as Ec; cbn [andb].
      * case_bool_decide as Ep; cbn [negb].
        { split; [by intros (?&?&_)|]. intros (w & ws & [= <- <-] & _ & _ & Hp). by destruct (Hp Ep). }
        subst c. rewrite IH. split.
        { intros (w & ws & -> & Hw & Hws & Hne). exists [], (w :: ws). split_and!; [done|constructor| |done].
          constructor; [|done]. split; [by apply Hne|done]. }
        { intros (w & ws & [= <- Es] & _ & Hws & _). pose proof (split_on_nil x2d s).
          destruct (split_on x2d s) as [|w' ws']; [done|]. subst ws. apply Forall_cons in Hws as [[Hne Hw] Hws].
          by exists w', ws'. }
      * split; [by intros (?&?&_)|]. pose proof (split_on_nil x2d s). destruct (split_on x2d s) as [|w ws]; [done|].
        intros (w' & ws' & [= <- <-] & [Hc _]%Forall_cons & _). congruence.
Qed.

Lemma word_no_dash w : word w -> x2d ∉ w.
Proof. intros [_ Hw] Hin. rewrite Forall_forall in Hw. by apply Hw in Hin. Qed.

Lemma isEventSegment_segment s : isEventSegment s = true <-> segment s.
Proof.
  destruct s as [|c s]; cbn [isEventSegment].
  { split; [done|]. intros (w & ws & E & _ & c & w' & -> & _). rewrite join_with_concat in E. done. }
  transitivity (lower c = true /\ exists last, segment_loop c s = Some last /\ last <> x2d).
  { destruct (lower c); cbn [negb]; [|split; [done|by intros [? _]]].
    destruct (segment_loop c s) as [l|]; [|split; [done|by intros (_ & ? & ? & _)]].
    rewrite negb_true_iff, bool_decide_eq_false. split; [eauto|by intros (_ & ? & [= <-] & ?)]. }
  rewrite segment_loop_spec. split.
  - intros (Hc & w & ws & Es & Hw & Hws & _). exists (c :: w), ws. split_and!.
    + rewrite <- (join_split x2d s), Es, !join_with_concat. done.
    + constructor; [|done]. split; [done|]. constructor; [by rewrite Hc|done].
    + by exists c, w.
  - intros (w & ws & E & Hf & c' & w' & -> & Hc). rewrite join_with_concat in E. injection E as <- E.
    split; [done|]. apply Forall_cons in Hf as [[_ Hw] Hws]. apply Forall_cons in Hw as [_ Hw].
    exists w', ws. split_and!; [|done|done|]; [|by intros ->].
    rewrite E, <- join_with_concat. apply split_join; [done|]. constructor.
    + intros Hin. rewrite Forall_forall in Hw. by apply Hw in Hin.
    + eapply Forall_impl; [done|]. apply word_no_dash.
Qed.

(** ** The shape check is the grammar *)

Definition kind_of (v : bytes) : option bytes :=
  '(kd, vc) ← read_str (mkCursor v 0);
  if negb (pos vc =? zlen v) || negb (isEventSegment kd) then None else Some kd.

Lemma pos_end p r : (pos (at_ p r) =? zlen (p ++ r)) = bool_decide (r = []).
Proof.
  cbn [pos at_]. rewrite zlen_app. case_bool_decide as E; [subst; apply Z.eqb_eq; unfold zlen; simpl; lia|].
  apply Z.eqb_neq. intros Hl. apply E, zlen_0_inv. lia.
Qed.

Lemma kind_of_spec v kd : kind_of v = Some kd <-> kind_value v kd.
Proof.
  unfold kind_of, kind_value. rewrite at_start. split.
  - destruct (read_str _) as [[k c]|] eqn:E; [|done]. cbn [mbind option_bind].
    apply read_str_inv in E as (h & r & -> & Hh & Hu & ->). cbn [app].
    pose proof (pos_end (h ++ k) r) as Hp. rewrite <- app_assoc in Hp. rewrite Hp.
    case_bool_decide as Er; [|done]. cbn [negb orb]. destruct (isEventSegment k) eqn:Ek; [|done].
    intros [= <-]. subst r. exists h. rewrite app_nil_r. split_and!; [done..|by apply isEventSegment_segment].
  - intros (h & -> & Hh & Hu & Hk%isEventSegment_segment). rewrite <- (app_nil_r kd) at 1. rewrite read_str_at by done.
    cbn [mbind option_bind app]. pose proof (pos_end (h ++ kd) []) as Hp. rewrite app_nil_r in Hp. rewrite Hp.
    by rewrite Hk.
Qed.

(** What the outer loop computes from the entries. *)
Fixpoint gather (kvs : list (bytes * bytes)) (kind : option bytes) (other : option (bytes * bytes))
    : option (option bytes * option (bytes * bytes)) :=
  match kvs with
  | [] => Some (kind, other)
  | (k, v) :: kvs =>
      if bool_decide (k = str "kind") then
        if kind is Some _ then None else kd ← kind_of v; gather kvs (Some kd) other
      else gather kvs kind (Some (k, v))
  end.

(** Reading one entry, in both directions. *)
Lemma entry_at p h k d v r : str_header h (zlen k) -> utf8_valid k = true -> values d 1 v ->
  read_str (at_ p (h ++ k ++ v ++ r)) = Some (k, at_ (p ++ h ++ k) (v ++ r))
  /\ skipValue (at_ (p ++ h ++ k) (v ++ r)) = Some (at_ (p ++ h ++ k ++ v) r).
Proof.
  intros Hh Hu Hv. split; [by apply read_str_at|]. apply skipValue_spec. exists d, v, r.
  split_and!; [done|done|f_equal; app_eq].
Qed.

Lemma entry_inv p r k c1 c2 : read_str (at_ p r) = Some (k, c1) -> skipValue c1 = Some c2 ->
  exists h d v r', r = h ++ k ++ v ++ r' /\ str_header h (zlen k) /\ utf8_valid k = true /\ values d 1 v
    /\ c1 = at_ (p ++ h ++ k) (v ++ r') /\ c2 = at_ (p ++ h ++ k ++ v) r'.
Proof.
  intros (h & r1 & -> & Hh & Hu & ->)%read_str_inv (d & v & r' & -> & Hv & ->)%skipValue_spec.
  exists h, d, v, r'. split_and!; [done..|f_equal; app_eq].
Qed.

Lemma zseg_mid_at p h k v r :
  zseg (pos (at_ (p ++ h ++ k) (v ++ r))) (pos (at_ (p ++ h ++ k ++ v) r)) (cb (at_ (p ++ h ++ k ++ v) r)) = v.
Proof.
  cbn [pos cb at_]. replace ((p ++ h ++ k ++ v) ++ r) with ((p ++ h ++ k) ++ v ++ r) by app_eq.
  apply zseg_app_mid; [done|len].
Qed.

Lemma shape_entries_spec n p r kind other c kind' other' :
  shape_entries n (at_ p r) kind other = Some (c, kind', other') <->
  exists kvs b r', r = b ++ r' /\ entries kvs b /\ length kvs = n /\ c = at_ (p ++ b) r'
    /\ gather kvs kind other = Some (kind', other').
Proof.
  revert p r kind other. induction n as [|n IH]; intros p r kind other; cbn [shape_entries]; split.
  - intros [= <- <- <-]. exists [], [], r. rewrite app_nil_r. split_and!; (done || constructor).
  - intros ([|[]] & b & r' & -> & He & Hl & -> & Hg); [|done]. inversion He; subst. injection Hg as <- <-.
    by rewrite app_nil_r.
  - destruct (read_str (at_ p r)) as [[k c1]|] eqn:Er; cbn [mbind option_bind]; [|done].
    destruct (skipValue c1) as [c2|] eqn:Es; cbn [mbind option_bind]; [|done].
    destruct (entry_inv _ _ _ _ _ Er Es) as (h & d & v & r1 & -> & Hh & Hu & Hv & -> & ->).
    rewrite zseg_mid_at.
    assert (forall kd ot, shape_entries n (at_ (p ++ h ++ k ++ v) r1) kd ot = Some (c, kind', other') ->
      exists kvs b r', h ++ k ++ v ++ r1 = b ++ r' /\ entries ((k, v) :: kvs) b /\ length kvs = n
        /\ c = at_ (p ++ b) r' /\ gather kvs kd ot = Some (kind', other')) as Hin.
    { intros kd ot (kvs & b & r' & -> & He & Hl & -> & Hg)%IH. exists kvs, (h ++ k ++ v ++ b), r'.
      split_and!; [app_eq|by eapply entries_cons|done|f_equal; app_eq|done]. }
    intros Hs. enough (exists kvs b r', h ++ k ++ v ++ r1 = b ++ r' /\ entries ((k, v) :: kvs) b /\ length kvs = n
        /\ c = at_ (p ++ b) r' /\ gather ((k, v) :: kvs) kind other = Some (kind', other'))
      as (kvs & b & r' & E & He & Hl & Hc & Hg).
    { exists ((k, v) :: kvs), b, r'. cbn [length]. split_and!; auto. }
    cbn [gather]. fold (kind_of v) in Hs. revert Hs. case_bool_decide as Ek; [|by intros ?%Hin].
    destruct kind; [done|]. unfold kind_of. destruct (read_str (mkCursor v 0)) as [[kd vc]|]; [|done].
    cbn [mbind option_bind]. destruct (_ || _); [done|]. apply Hin.
  - intros ([|[k v] kvs] & b & r' & -> & He & Hl & -> & Hg); [done|]. injection Hl as Hl.
    inversion He as [|h ? ? d ? rest Hh Hu Hv He' E1 E2]; subst. rewrite <- !app_assoc.
    destruct (entry_at p h k d v (rest ++ r') Hh Hu Hv) as [-> E]. cbn [mbind option_bind].
    rewrite E. cbn [mbind option_bind]. rewrite zseg_mid_at.
    cbn [gather] in Hg. revert Hg. case_bool_decide as Ek.
    + destruct kind; [done|]. unfold kind_of. destruct (read_str (mkCursor v 0)) as [[kd vc]|]; [|done].
      cbn [mbind option_bind]. destruct (_ || _); [done|]. cbn [mbind option_bind].
      intros Hg. apply IH. exists kvs, rest, r'. split_and!; [done..|f_equal; app_eq|done].
    + intros Hg. apply IH. exists kvs, rest, r'. split_and!; [done..|f_equal; app_eq|done].
Qed.

Lemma shape_fields_spec n p r c : shape_fields n (at_ p r) = Some c <->
  exists kvs b r', r = b ++ r' /\ entries kvs b /\ length kvs = n /\ c = at_ (p ++ b) r'
    /\ Forall (fun f => isEventSegment f.1 = true) kvs.
Proof.
  revert p r. induction n as [|n IH]; intros p r; cbn [shape_fields]; split.
  - intros [= <-]. exists [], [], r. rewrite app_nil_r. split_and!; (done || constructor).
  - intros ([|[]] & b & r' & -> & He & Hl & -> & Hg); [|done]. inversion He; subst. by rewrite app_nil_r.
  - destruct (read_str (at_ p r)) as [[k c1]|] eqn:Er; cbn [mbind option_bind]; [|done].
    destruct (isEventSegment k) eqn:Ek; cbn [negb]; [|done].
    destruct (skipValue c1) as [c2|] eqn:Es; cbn [mbind option_bind]; [|done].
    destruct (entry_inv _ _ _ _ _ Er Es) as (h & d & v & r1 & -> & Hh & Hu & Hv & -> & ->).
    intros (kvs & b & r' & -> & He & Hl & -> & Hg)%IH. exists ((k, v) :: kvs), (h ++ k ++ v ++ b), r'.
    split_and!; [app_eq|by eapply entries_cons|by rewrite <- Hl|f_equal; app_eq|by constructor].
  - intros ([|[k v] kvs] & b & r' & -> & He & Hl & -> & Hf); [done|].
    apply Forall_cons in Hf as [Hk Hg]. injection Hl as Hl.
    inversion He as [|h ? ? d ? rest Hh Hu Hv He' E1 E2]; subst. rewrite <- !app_assoc.
    destruct (entry_at p h k d v (rest ++ r') Hh Hu Hv) as [-> E]. cbn [mbind option_bind].
    cbn [fst] in Hk. rewrite Hk. cbn [negb]. rewrite E. cbn [mbind option_bind]. apply IH.
    exists kvs, rest, r'. split_and!; [done|done|done|f_equal; app_eq|done].
Qed.

Lemma map_header_nonneg h n : map_header h n -> 0 <= n.
Proof. destruct 1 as [n Hn|t w n l Ht (_&?&_)]; lia. Qed.

Lemma entries_zlen (kvs : list (bytes * bytes)) n : zlen kvs = n -> length kvs = Z.to_nat n.
Proof. unfold zlen. lia. Qed.

(** Both loops, run on a whole buffer that starts with a map header. *)
Lemma map_fields_spec b : (exists n c c', mapLen (mkCursor b 0) = Some (n, c) /\ n <> 0
    /\ shape_fields (Z.to_nat n) c = Some c' /\ pos c' = zlen b) <->
  exists fs, is_map b fs /\ fs <> [] /\ Forall (fun f => isEventSegment f.1 = true) fs.
Proof.
  rewrite at_start. split.
  - intros (n & c & c' & (h & r & -> & Hh & ->)%mapLen_inv & Hn & (kvs & e & r' & -> & He & Hl & -> & Hs)%shape_fields_spec & Hp).
    cbn [app] in *. pose proof (pos_end (h ++ e) r') as Hb. rewrite <- app_assoc in Hb.
    rewrite (proj2 (Z.eqb_eq _ _) Hp) in Hb. symmetry in Hb. apply bool_decide_eq_true in Hb as ->.
    pose proof (map_header_nonneg _ _ Hh). exists kvs. split_and!; [|intros ->; simpl in Hl; lia|done].
    exists h, e. rewrite app_nil_r. split_and!; [done| |done]. unfold zlen. by rewrite Hl, Z2Nat.id.
  - intros (fs & (h & r & -> & Hh & He) & Hne & Hs). exists (zlen fs), (at_ h r), (at_ (h ++ r) []).
    split_and!; [by apply (mapLen_at [])|by intros ?%zlen_0_inv| |done].
    apply shape_fields_spec. exists fs, r, []. rewrite app_nil_r. split_and!; [done|done| |done|done].
    by apply entries_zlen.
Qed.


(** The outer map, whole. *)
Lemma map_entries_spec b n c c' kind other :
  mapLen (mkCursor b 0) = Some (n, c) -> shape_entries (Z.to_nat n) c None None = Some (c', kind, other) ->
  pos c' = zlen b -> exists kvs, is_map b kvs /\ zlen kvs = n /\ gather kvs None None = Some (kind, other).
Proof.
  rewrite at_start. intros (h & r & -> & Hh & ->)%mapLen_inv (kvs & e & r' & -> & He & Hl & -> & Hg)%shape_entries_spec Hp.
  cbn [app] in *. pose proof (pos_end (h ++ e) r') as Hb. rewrite <- app_assoc in Hb.
  rewrite (proj2 (Z.eqb_eq _ _) Hp) in Hb. symmetry in Hb. apply bool_decide_eq_true in Hb as ->.
  pose proof (map_header_nonneg _ _ Hh).
  assert (zlen kvs = n) as Hz by (unfold zlen; rewrite Hl; lia).
  exists kvs. split; [|done]. exists h, e. by rewrite app_nil_r, Hz.
Qed.

Lemma map_entries_at b kvs kind other : is_map b kvs -> gather kvs None None = Some (kind, other) ->
  exists c c', mapLen (mkCursor b 0) = Some (zlen kvs, c)
    /\ shape_entries (Z.to_nat (zlen kvs)) c None None = Some (c', kind, other) /\ pos c' = zlen b.
Proof.
  intros (h & r & -> & Hh & He) Hg. exists (at_ h r), (at_ (h ++ r) []). split_and!; [by apply (mapLen_at [])| |done].
  apply shape_entries_spec. exists kvs, r, []. rewrite app_nil_r. split_and!; [done|done|by apply entries_zlen|done|done].
Qed.

Definition inner_ok (kd : bytes) (other : option (bytes * bytes)) (fields : list (bytes * bytes)) : Prop :=
  match other with
  | None => fields = []
  | Some (k, v) => k = kd /\ is_map v fields /\ fields <> []
      /\ Forall (fun f => isEventSegment f.1 = true) fields
  end.

Lemma shape_iff b : auditContextShape b = true <->
  exists kvs kd other fields, is_map b kvs /\ (zlen kvs = 1 \/ zlen kvs = 2)
    /\ gather kvs None None = Some (Some kd, other) /\ inner_ok kd other fields.
Proof.
  unfold auditContextShape. split.
  - destruct (mapLen (mkCursor b 0)) as [[n c]|] eqn:Em; [|done].
    destruct (Z.eqb_spec n 0) as [|Hn0]; [done|]. cbn [orb]. destruct (Z.ltb_spec 2 n) as [|Hn2]; [done|].
    destruct (shape_entries _ _ _ _) as [[[c' [kd|]] other]|] eqn:Es; [|done..].
    destruct (Z.eqb_spec (pos c') (zlen b)) as [Hp|]; cbn [negb]; [|done]. intros Hother.
    destruct (map_entries_spec _ _ _ _ _ _ Em Es Hp) as (kvs & Hm & Hz & Hg).
    assert (exists fields, inner_ok kd other fields) as [fields Hf].
    { destruct other as [[k v]|]; [|by exists []]. case_bool_decide as Ek; [|done]. cbn [negb] in Hother.
      destruct (mapLen (mkCursor v 0)) as [[m body]|] eqn:Ev; [|done].
      destruct (Z.eqb_spec m 0); [done|]. destruct (shape_fields _ _) as [body'|] eqn:Ef; [|done].
      apply Z.eqb_eq in Hother. destruct (proj1 (map_fields_spec v)) as (fs & ? & ? & ?); [eauto 10|]. by exists fs. }
    exists kvs, kd, other, fields. split_and!; [done| |done|done]. pose proof (zlen_nonneg kvs). lia.
  - intros (kvs & kd & other & fields & Hm & Hz & Hg & Hf).
    destruct (map_entries_at _ _ _ _ Hm Hg) as (c & c' & -> & Es & Hp). rewrite Es.
    destruct (Z.eqb_spec (zlen kvs) 0); [lia|]. destruct (Z.ltb_spec 2 (zlen kvs)); [lia|]. cbn [orb].
    rewrite (proj2 (Z.eqb_eq _ _) Hp). cbn [negb]. destruct other as [[k v]|]; [|done].
    destruct Hf as (-> & Hv & Hne & Hs). rewrite bool_decide_eq_true_2 by done. cbn [negb].
    destruct (proj2 (map_fields_spec v)) as (m & c2 & c3 & -> & Hm0 & -> & Hp'); [eauto|].
    apply Z.eqb_neq in Hm0 as ->. by apply Z.eqb_eq.
Qed.

Lemma gather_iff kvs kd other : (zlen kvs = 1 \/ zlen kvs = 2) ->
  gather kvs None None = Some (Some kd, other) <->
  exists v, kind_value v kd /\ ((kvs = [(str "kind", v)] /\ other = None)
    \/ exists k body, k <> str "kind" /\ other = Some (k, body)
       /\ (kvs = [(str "kind", v); (k, body)] \/ kvs = [(k, body); (str "kind", v)])).
Proof.
  intros Hz. split.
  - destruct kvs as [|[k1 v1] [|[k2 v2] [|? ?]]]; cbn [gather].
    + by destruct Hz.
    + case_bool_decide as E1; [|done]. destruct (kind_of v1) as [kd1|] eqn:Ek; [|done]. cbn.
      intros [= -> <-]. apply kind_of_spec in Ek. exists v1. subst. auto.
    + case_bool_decide as E1.
      * destruct (kind_of v1) as [kd1|] eqn:Ek; [|done]. cbn [mbind option_bind gather].
        case_bool_decide as E2; [done|]. intros [= -> <-]. apply kind_of_spec in Ek. exists v1. subst. eauto 10.
      * case_bool_decide as E2; [|done]. destruct (kind_of v2) as [kd2|] eqn:Ek; [|done]. cbn [mbind option_bind gather].
        intros [= -> <-]. apply kind_of_spec in Ek. exists v2. subst. eauto 10.
    + rewrite !zlen_cons in Hz. match goal with H : context [zlen ?l] |- _ => pose proof (zlen_nonneg l) end. lia.
  - intros (v & Hk%kind_of_spec & [[-> ->]|(k & body & Hne & -> & [-> | ->])]); cbn [gather].
    + rewrite bool_decide_eq_true_2, Hk by done. done.
    + rewrite bool_decide_eq_true_2, Hk by done. cbn [mbind option_bind gather]. by rewrite bool_decide_eq_false_2.
    + rewrite bool_decide_eq_false_2 by done. cbn [gather]. rewrite bool_decide_eq_true_2, Hk by done. done.
Qed.

Lemma segment_keys (fields : list (bytes * bytes)) :
  Forall (fun f => isEventSegment f.1 = true) fields <-> Forall (fun f => segment f.1) fields.
Proof. apply Forall_iff. intros f. apply isEventSegment_segment. Qed.

Lemma auditContextShape_spec b : auditContextShape b = true <-> exists kind fields, context_shape b kind fields.
Proof.
  rewrite shape_iff. unfold context_shape. split.
  - intros (kvs & kd & other & fields & Hm & Hz & Hg & Hf). exists kd, fields.
    apply gather_iff in Hg as (v & Hv & [[-> ->]|(k & body & Hne & -> & Hkvs)]); [..|done].
    + exists v, [(str "kind", v)]. split_and!; [done|done|left]. split; done.
    + destruct Hf as (-> & Hb & Hfn & Hs%segment_keys). exists v, kvs. split_and!; [done|done|right]. eauto 10.
  - intros (kd & fields & v & kvs & Hm & Hv & [[-> ->]|(body & Hkvs & Hne & Hb & Hfn & Hs%segment_keys)]).
    + exists [(str "kind", v)], kd, None, []. split_and!; [done|by left| |done].
      apply gather_iff; [by left|]. exists v. auto.
    + exists kvs, kd, (Some (kd, body)), fields.
      assert (zlen kvs = 2) as Hz by (by destruct Hkvs as [-> | ->]).
      split_and!; [done|by right| |done]. apply gather_iff; [by right|]. exists v. split; [done|]. right. eauto 10.
Qed.

(** C17: [ValidateAuditContext] decides the documented format.  It accepts a buffer
    exactly when it is at most the kernel's limit in bytes, is one complete
    MessagePack value nested no deeper than the emit limit less one, and is a map
    {kind: K} or {kind: K, K: {...}}, in either order, whose K is a segment and whose
    inner map is non-empty with segment keys; otherwise it returns
    [ErrBadAuditContext].  In particular the iterative readers terminate on every
    buffer and do not panic. *)
Theorem ValidateAuditContext_spec {U : Uapi} {L : AuditLaws U} (b : bytes) :
  (ValidateAuditContext b = Ok tt
   /\ zlen b <= KACS_ACCESS_CHECK_MAX_AUDIT_CONTEXT_LEN
   /\ values (Z.to_nat auditContextMaxDepth) 1 b
   /\ exists kind fields, context_shape b kind fields)
  \/ (ValidateAuditContext b = Err ErrBadAuditContext
      /\ ~ (zlen b <= KACS_ACCESS_CHECK_MAX_AUDIT_CONTEXT_LEN
            /\ values (Z.to_nat auditContextMaxDepth) 1 b
            /\ exists kind fields, context_shape b kind fields)).
Proof.
  pose proof audit_depth_ok as Hd. unfold ValidateAuditContext.
  destruct (Z.eqb_spec (zlen b) 0) as [E|Hne]; cbn [orb].
  { right. split; [done|]. intros (_&Hv&_). apply values_bound in Hv. lia. }
  destruct (Z.ltb_spec KACS_ACCESS_CHECK_MAX_AUDIT_CONTEXT_LEN (zlen b)) as [|Hl].
  { right. split; [done|]. intros (?&_). lia. }
  assert (mpWellFormed b auditContextMaxDepth = true <-> values (Z.to_nat auditContextMaxDepth) 1 b) as Hw.
  { rewrite <- mpWellFormed_values by (unfold auditContextMaxDepth; lia). rewrite Z2Nat.id by (unfold auditContextMaxDepth; lia). done. }
  pose proof (auditContextShape_spec b) as Hs.
  destruct (auditContextShape b), (mpWellFormed b auditContextMaxDepth); cbn [negb orb]; [left|right..].
  - split_and!; [done|done|by apply Hw|by apply Hs].
  - split; [done|]. intros (_&Hv%Hw&_). done.
  - split; [done|]. intros (_&_&Hv%Hs). done.
  - split; [done|]. intros (_&_&Hv%Hs). done.
Qed.

(** {kind: "service", service: {name: "jellyfin"}} *)
Definition sample_context : bytes :=
  [x82; xa4] ++ str "kind" ++ [xa7] ++ str "service" ++ [xa7] ++ str "service"
  ++ [x81; xa4] ++ str "name" ++ [xa8] ++ str "jellyfin".

Lemma ValidateAuditContext_spec_witness :
  @ValidateAuditContext pkm sample_context = Ok tt
  /\ exists kind fields, context_shape sample_context kind fields.
Proof.
  destruct (@ValidateAuditContext_spec pkm pkm_AuditLaws sample_context) as [(H1&_&_&H2)|[H _]].
  - split; [exact H1|exact H2].
  - exfalso. vm_compute in H. discriminate H.
Defined.


(** ** The encoder *)

(** A field as the encoder writes it after the key. *)
Definition value_bytes (f : AuditField) : bytes :=
  match fkind f with
  | auditStr => mpStr [] (data f)
  | auditUint => mpUint [] (u64 f)
  | auditInt => mpInt [] (i64 f)
  | auditBool => [if fb f then xc3 else xc2]
  | auditBin => mpBin [] (data f)
  end.

Lemma mpStr_app out s : mpStr out s = out ++ mpStr [] s.
Proof. unfold mpStr. cbv zeta. repeat case_match; app_eq. Qed.
Lemma mpMap_app out n : mpMap out n = out ++ mpMap [] n.
Proof. unfold mpMap. repeat case_match; app_eq. Qed.
Lemma mpBin_app out s : mpBin out s = out ++ mpBin [] s.
Proof. unfold mpBin. cbv zeta. repeat case_match; app_eq. Qed.
Lemma mpUint_app out v : mpUint out v = out ++ mpUint [] v.
Proof. unfold mpUint. repeat case_match; app_eq. Qed.
Lemma mpInt_app out v : mpInt out v = out ++ mpInt [] v.
Proof. unfold mpInt. repeat case_match; try app_eq. apply mpUint_app. Qed.

Lemma put_field_app out f : put_field out f = out ++ mpStr [] (key f) ++ value_bytes f.
Proof.
  unfold put_field, value_bytes. cbv zeta. destruct (fkind f).
  - by rewrite mpStr_app, (mpStr_app out), <- app_assoc.
  - by rewrite mpUint_app, (mpStr_app out), <- app_assoc.
  - by rewrite mpInt_app, (mpStr_app out), <- app_assoc.
  - by rewrite (mpStr_app out), <- app_assoc.
  - by rewrite mpBin_app, (mpStr_app out), <- app_assoc.
Qed.

Definition fields_bytes (fields : list AuditField) : bytes :=
  concat ((fun f => mpStr [] (key f) ++ value_bytes f) <$> fields).

Lemma foldl_put_field fields out : foldl put_field out fields = out ++ fields_bytes fields.
Proof.
  revert out. induction fields as [|f fields IH]; intros out; cbn [foldl]; [by rewrite app_nil_r|].
  rewrite IH, put_field_app, <- app_assoc. done.
Qed.

Lemma context_bytes_eq kind fields : context_bytes kind fields =
  mpMap [] (if zlen fields =? 0 then 1 else 2) ++ mpStr [] (str "kind") ++ mpStr [] kind
  ++ (if 0 <? zlen fields then mpStr [] kind ++ mpMap [] (zlen fields) ++ fields_bytes fields else []).
Proof.
  unfold context_bytes. cbv zeta. destruct (zlen fields =? 0), (0 <? zlen fields).
  all: rewrite ?foldl_put_field, ?(mpMap_app (mpStr _ _)), ?(mpStr_app (mpStr _ _)), ?(mpStr_app (mpMap _ _)).
  all: rewrite ?app_nil_r, ?(mpStr_app (_ ++ _)), <- ?app_assoc; reflexivity.
Qed.

Lemma zlen_mpStr s : zlen s <= zlen (mpStr [] s).
Proof. unfold mpStr. cbv zeta. rewrite zlen_app. pose proof (zlen_nonneg s). repeat case_match; len. Qed.
Lemma zlen_mpBin s : zlen s <= zlen (mpBin [] s).
Proof. unfold mpBin. cbv zeta. rewrite zlen_app. pose proof (zlen_nonneg s). repeat case_match; len. Qed.

Definition field_ok (f : AuditField) : Prop := 0 <= u64 f < 2 ^ 64 /\ - 2 ^ 63 <= i64 f < 2 ^ 63.
Definition utf8_field (f : AuditField) : Prop := fkind f = auditStr -> utf8_valid (data f) = true.

Lemma leaf h d : header h 0 -> values (S d) 1 h.
Proof. intros H. rewrite <- (app_nil_r h). apply (values_leaf _ 0); [done|lia|constructor]. Qed.

Lemma value_bytes_value f : field_ok f -> utf8_field f -> zlen (value_bytes f) <= 2 ^ 31 - 1 ->
  values 1 1 (value_bytes f).
Proof.
  intros [Hu Hi] Hutf Hl. apply leaf. unfold value_bytes, utf8_field in *.
  destruct (fkind f).
  - pose proof (zlen_mpStr (data f)). destruct (mpStr_spec [] (data f)) as (h & -> & Hh); [lia|]. cbn [app].
    apply h_str; [done|by apply Hutf].
  - by destruct (mpUint_spec [] (u64 f) Hu) as (e & -> & He).
  - by destruct (mpInt_spec [] (i64 f) Hi) as (e & -> & He).
  - destruct (fb f); [apply (h_scalar 0xc3)|apply (h_scalar 0xc2)]; right; right; (apply (bool_decide_eq_true_1 _); done).
  - pose proof (zlen_mpBin (data f)). destruct (mpBin_spec [] (data f)) as (e & -> & He & _); [lia|done].
Qed.

Lemma ascii_utf8 s : Forall (fun c => b2z c < 128) s -> utf8_valid s = true.
Proof.
  unfold utf8_valid. induction 1 as [|c s Hc Hs IH]; [done|]. cbn [decode_runes].
  destruct (Z.ltb_spec (b2z c) 128); [|lia]. done.
Qed.

Lemma alnum_ascii c : alnum c = true -> b2z c < 128.
Proof. unfold alnum, lower, digit, within. rewrite orb_true_iff, !andb_true_iff, !Z.leb_le. lia. Qed.

Lemma segment_utf8 s : segment s -> utf8_valid s = true.
Proof.
  intros (w & ws & -> & Hf & _). apply ascii_utf8. rewrite join_with_concat.
  apply Forall_cons in Hf as [Hw Hws].
  assert (forall w, word w -> Forall (fun c => b2z c < 128) w) as Hword.
  { intros w' [_ H]. eapply Forall_impl; [done|]. apply alnum_ascii. }
  apply Forall_app_2; [auto|]. induction Hws as [|w' ws Hw' _ IH]; [constructor|].
  cbn. constructor; [done|]. apply Forall_app_2; auto.
Qed.

(** One written entry. *)
Lemma entry_values d k v : segment k -> zlen k <= 2 ^ 31 - 1 -> values (S d) 1 v ->
  values (S d) 2 (mpStr [] k ++ v) /\ exists h, mpStr [] k ++ v = h ++ k ++ v /\ str_header h (zlen k).
Proof.
  intros Hk Hl Hv. destruct (mpStr_spec [] k Hl) as (h & -> & Hh). cbn [app]. split.
  - apply (values_app _ 1 _ 1); [|done]. apply leaf. by apply h_str, segment_utf8.
  - exists h. split; [app_eq|done].
Qed.

Lemma fields_bytes_values fields : Forall field_ok fields -> Forall utf8_field fields ->
  Forall (fun f => segment (key f)) fields -> zlen (fields_bytes fields) <= 2 ^ 31 - 1 ->
  values 1 (2 * zlen fields) (fields_bytes fields)
  /\ entries ((fun f => (key f, value_bytes f)) <$> fields) (fields_bytes fields).
Proof.
  induction fields as [|f fields IH]; intros Hok Hu Hs Hl; [split; constructor|].
  apply Forall_cons in Hok as [Hok1 Hok], Hu as [Hu1 Hu], Hs as [Hs1 Hs].
  change (fields_bytes (f :: fields)) with ((mpStr [] (key f) ++ value_bytes f) ++ fields_bytes fields) in *.
  rewrite !zlen_app in Hl. pose proof (zlen_mpStr (key f)). pose proof (zlen_nonneg (key f)).
  pose proof (zlen_nonneg (value_bytes f)). pose proof (zlen_nonneg (fields_bytes fields)).
  destruct (IH Hok Hu Hs) as [Hv He]; [lia|].
  destruct (entry_values 0 (key f) (value_bytes f)) as (Hv1 & h & E & Hh); [done|lia|apply value_bytes_value; done || lia|].
  split.
  - rewrite zlen_cons. replace (2 * (1 + zlen fields)) with (2 + 2 * zlen fields) by lia. by apply values_app.
  - cbn [fmap list_fmap]. rewrite E, <- !app_assoc. apply (entries_cons h _ _ 1); [done|by apply segment_utf8| |done].
    apply value_bytes_value; done || lia.
Qed.

Definition checked (fields : list AuditField) (seen : list bytes) : Prop :=
  Forall (fun f => segment (key f)) fields /\ Forall utf8_field fields
  /\ NoDup (key <$> fields) /\ Forall (fun f => key f ∉ seen) fields.

Lemma checked_cons f fields seen : checked (f :: fields) seen <->
  segment (key f) /\ utf8_field f /\ (key f ∉ seen) /\ checked fields (key f :: seen).
Proof.
  unfold checked. rewrite fmap_cons, !Forall_cons, NoDup_cons.
  assert (Forall (fun g => key g ∉ key f :: seen) fields <->
    (key f ∉ key <$> fields) /\ Forall (fun g => key g ∉ seen) fields) as ->; [|tauto].
  rewrite !Forall_forall, list_elem_of_fmap. setoid_rewrite not_elem_of_cons. split.
  - intros H. split; [|intros g Hg; by apply H]. intros (g & E & Hg). by destruct (H g Hg) as [? _].
  - intros [H1 H2] g Hg. split; [|by apply H2]. intros E. apply H1. eauto.
Qed.

Lemma check_fields_spec fields seen :
  (check_fields fields seen = Ok tt /\ checked fields seen)
  \/ (exists e, check_fields fields seen = Err e /\ errors_is e ErrBadAuditContext = true /\ ~ checked fields seen).
Proof.
  revert seen. induction fields as [|f fields IH]; intros seen; cbn [check_fields].
  { left. split; [done|]. split_and!; constructor. }
  setoid_rewrite checked_cons. pose proof (isEventSegment_segment (key f)) as Hs.
  destruct (isEventSegment (key f)); cbn [negb].
  2: { right. eexists. split_and!; [done|done|]. intros ([=]%Hs&_). }
  case_bool_decide as Hin; [right; eexists; split_and!; [done|done|tauto]|].
  assert (utf8_field f <-> (match fkind f with auditStr => true | _ => false end) && negb (utf8_valid (data f)) = false) as Hu.
  { unfold utf8_field. destruct (fkind f), (utf8_valid (data f)); cbn; split; intros; try done. by discriminate H. }
  destruct (_ && _); [right; eexists; split_and!; [done|done|]; intros (_&[=]%Hu&_)|].
  destruct (IH (key f :: seen)) as [[-> Hc]|(e & -> & He & Hc)]; [left|right].
  - split; [done|]. split_and!; [by apply Hs|by apply Hu|done|done].
  - exists e. split_and!; [done|done|tauto].
Qed.

(** ** The encoder's output *)

Section encode.
Context {U : Uapi} {L : AuditLaws U}.

(** What EncodeAuditContext documents, and the kind it cannot express. *)
Definition encodable (kind : bytes) (fields : list AuditField) : Prop :=
  segment kind /\ checked fields [] /\ (kind = str "kind" -> fields = [])
  /\ zlen (context_bytes kind fields) <= KACS_ACCESS_CHECK_MAX_AUDIT_CONTEXT_LEN.

Definition field_entries (fields : list AuditField) : list (bytes * bytes) :=
  (fun f => (key f, value_bytes f)) <$> fields.

Lemma kind_segment : segment (str "kind").
Proof. apply isEventSegment_segment. reflexivity. Qed.

Lemma context_bytes_map kind fields : segment kind -> checked fields [] -> Forall field_ok fields ->
  zlen (context_bytes kind fields) <= 2 ^ 31 - 1 ->
  values 3 1 (context_bytes kind fields)
  /\ exists v body, kind_value v kind
     /\ (fields = [] -> is_map (context_bytes kind fields) [(str "kind", v)])
     /\ (fields <> [] -> is_map (context_bytes kind fields) [(str "kind", v); (kind, body)]
                        /\ is_map body (field_entries fields)).
Proof.
  intros Hk (Hs&Hu&_&_) Hok Hl. rewrite context_bytes_eq in *. rewrite !zlen_app in Hl.
  pose proof (zlen_mpStr kind). pose proof (zlen_nonneg fields). pose proof (zlen_nonneg (mpStr [] (str "kind"))).
  set (m := if zlen fields =? 0 then 1 else 2) in *. pose proof (zlen_nonneg (mpMap [] m)).
  set (inner := if 0 <? zlen fields then _ else _) in *. pose proof (zlen_nonneg inner).
  destruct (mpMap_spec [] m) as (hm & E & Hm); [unfold m; case_match; lia|]. rewrite E in *. clear E. cbn [app] in *.
  destruct (mpStr_spec [] kind) as (hk & Ek & Hhk); [lia|]. cbn [app] in Ek.
  assert (kind_value (mpStr [] kind) kind) as Hkv by (exists hk; split_and!; [done|done|by apply segment_utf8|done]).
  assert (forall d, values (S d) 1 (mpStr [] kind)) as Hkd.
  { intros d. rewrite Ek. apply leaf. by apply h_str, segment_utf8. }
  destruct (entry_values 1 (str "kind") (mpStr [] kind) kind_segment) as (Hv1 & h1 & E1 & Hh1); [by vm_compute|done|].
  destruct fields as [|f fields].
  - assert (inner = []) as -> by done. rewrite app_nil_r. split.
    + apply (values_node 2 0 2 hm (mpStr [] (str "kind") ++ mpStr [] kind) []) in Hv1; [|exact (h_map hm 1 Hm)|lia|lia|constructor].
      by rewrite app_nil_r in Hv1.
    + exists (mpStr [] kind), []. split; [done|]. split; [|done]. intros _.
      exists hm, (mpStr [] (str "kind") ++ mpStr [] kind). split_and!; [done|done|].
      rewrite E1.
      pose proof (entries_cons h1 _ _ 1 [] [] Hh1 eq_refl (Hkd 0%nat) entries_nil) as He. by rewrite app_nil_r in He.
  - assert (m = 2) as Em by (unfold m; by destruct (Z.eqb_spec (zlen (f :: fields)) 0); [len|]).
    assert (inner = mpStr [] kind ++ mpMap [] (zlen (f :: fields)) ++ fields_bytes (f :: fields)) as Ei
      by (unfold inner; destruct (Z.ltb_spec 0 (zlen (f :: fields))); [done|len]).
    rewrite Em in *. rewrite Ei in *. clear Em Ei inner m. set (fs := f :: fields) in *.
    rewrite !zlen_app in Hl. pose proof (zlen_nonneg (mpMap [] (zlen fs))). pose proof (zlen_nonneg (fields_bytes fs)).
    pose proof (zlen_nonneg (mpStr [] kind)). pose proof (zlen_nonneg hm).
    destruct (fields_bytes_values fs Hok Hu Hs) as [Hvf Hef]; [lia|].
    assert (zlen fs <= 2 ^ 31 - 1) as Hn by (apply values_bound in Hvf; lia).
    destruct (mpMap_spec [] (zlen fs)) as (hf & Ef & Hf); [lia|]. cbn [app] in Ef. rewrite Ef in *.
    set (body := hf ++ fields_bytes fs).
    assert (0 < zlen fs) as Hpos by (unfold fs; len).
    assert (values 2 1 body) as Hvb.
    { unfold body. rewrite <- (app_nil_r (fields_bytes fs)).
      apply (values_node 1 0 (2 * zlen fs)); [by apply h_map|lia|lia|done|constructor]. }
    destruct (entry_values 1 kind body Hk) as (Hv2 & h2 & E2 & Hh2); [lia|done|].
    split.
    + pose proof (values_app _ _ _ _ _ Hv1 Hv2) as Hv.
      apply (values_node 2 0 (2 + 2) hm _ []) in Hv; [|exact (h_map hm 2 Hm)|lia|lia|constructor].
      rewrite app_nil_r, <- !app_assoc in Hv. exact Hv.
    + exists (mpStr [] kind), body. split; [done|]. split; [done|]. intros _. split.
      * exists hm, ((mpStr [] (str "kind") ++ mpStr [] kind) ++ mpStr [] kind ++ body). split_and!; [app_eq|done|].
        pose proof (entries_cons h2 _ _ 2 [] [] Hh2 (segment_utf8 _ Hk) Hvb entries_nil) as He. rewrite app_nil_r, <- E2 in He.
        rewrite E1, <- !app_assoc. exact (entries_cons h1 _ _ 1 _ _ Hh1 eq_refl (Hkd 0%nat) He).
      * exists hf, (fields_bytes fs). split_and!; [done| |done]. unfold field_entries, zlen. by rewrite length_fmap.
Qed.
End encode.

(** With the kind "kind" the two entries of the outer map clash. *)
Lemma kind_clash {U : Uapi} {L : AuditLaws U} fields : fields <> [] -> checked fields [] -> Forall field_ok fields ->
  zlen (context_bytes (str "kind") fields) <= 2 ^ 31 - 1 ->
  auditContextShape (context_bytes (str "kind") fields) = false.
Proof.
  intros Hne Hc Hok Hl. apply not_true_is_false. intros (kvs & kd & other & fs & Hm & Hz & Hg & _)%shape_iff.
  destruct (context_bytes_map _ _ kind_segment Hc Hok Hl) as (_ & v & body & Hkv & _ & Hmap).
  destruct (Hmap Hne) as [Hm2 _]. apply kind_of_spec in Hkv.
  destruct (map_entries_at _ _ _ _ Hm Hg) as (c & c' & E1 & E2 & _).
  destruct Hm2 as (h & r & Eb & Hh & He). rewrite Eb, at_start, (mapLen_at [] _ _ _ Hh) in E1.
  injection E1 as Ez <-. rewrite <- Ez in E2. rewrite <- (app_nil_r r) in E2. cbn [app] in E2.
  inversion He as [|h1 k1 v1 d1 r1 w1 Hh1 Hu1 Hv1 He1 E3 E4]; subst.
  inversion He1 as [|h2 k2 v2 d2 r2 w2 Hh2 Hu2 Hv2 He2 E3 E4]; subst. clear He He1.
  change (Z.to_nat (zlen [(str "kind", v); (str "kind", body)])) with 2%nat in E2. cbn [shape_entries] in E2.
  rewrite <- !app_assoc in E2.
  destruct (entry_at h h1 (str "kind") d1 v (h2 ++ str "kind" ++ body ++ w2 ++ []) Hh1 Hu1 Hv1) as [R1 S1].
  rewrite R1 in E2. cbn [mbind option_bind] in E2. rewrite S1 in E2. cbn [mbind option_bind] in E2.
  rewrite zseg_mid_at in E2. unfold kind_of in Hkv.
  destruct (read_str (mkCursor v 0)) as [[kd1 vc]|]; [|done]. cbn [mbind option_bind] in *.
  destruct (_ || _); [done|].
  destruct (entry_at (h ++ h1 ++ str "kind" ++ v) h2 (str "kind") d2 body (w2 ++ []) Hh2 Hu2 Hv2) as [R2 S2].
  rewrite R2 in E2. cbn [mbind option_bind] in E2. rewrite S2 in E2. done.
Qed.

(** C18: the encoder produces what the validator accepts, and refuses only what its
    comment names.  [EncodeAuditContext] succeeds exactly when kind and keys are
    segments, keys are distinct, string values are UTF-8 and the encoding is within
    the limit, and the kind is not "kind" when there are fields; its result is then the
    documented map with the fields in order, and [ValidateAuditContext] accepts it.
    Otherwise the error is [ErrBadAuditContext].  ([field_ok] is the range of the Go
    integer types.) *)
Theorem EncodeAuditContext_spec {U : Uapi} {L : AuditLaws U} (kind : bytes) (fields : list AuditField)
    (Hok : Forall field_ok fields) :
  (encodable kind fields
   /\ EncodeAuditContext kind fields = Ok (context_bytes kind fields)
   /\ ValidateAuditContext (context_bytes kind fields) = Ok tt
   /\ context_shape (context_bytes kind fields) kind (field_entries fields))
  \/ (~ encodable kind fields
      /\ exists e, EncodeAuditContext kind fields = Err e /\ errors_is e ErrBadAuditContext = true).
Proof.
  pose proof audit_len_ok as Hmax. pose proof audit_depth_ok as Hdepth. unfold EncodeAuditContext, encodable.
  pose proof (isEventSegment_segment kind) as Hk. destruct (isEventSegment kind); cbn [negb].
  2: { right. split; [intros ([=]%Hk&_)|eauto]. }
  destruct (check_fields_spec fields []) as [[-> Hc]|(e & -> & He & Hc)]; [|right; split; [tauto|]; cbn; eauto].
  rewrite bind_Ok. cbv zeta.
  destruct (Z.ltb_spec KACS_ACCESS_CHECK_MAX_AUDIT_CONTEXT_LEN (zlen (context_bytes kind fields))).
  { right. split; [intros (_&_&_&?); lia|eauto]. }
  destruct (context_bytes_map kind fields) as (Hv & v & body & Hkv & Hm1 & Hm2); [by apply Hk|done|done|lia|].
  destruct (decide (kind = str "kind" /\ fields <> [])) as [[-> Hne]|Hnot].
  { right. split; [intros (_&_&?&_); auto|]. unfold ValidateAuditContext.
    rewrite kind_clash by (done || lia). cbn [negb orb].
    by destruct (_ || _); eexists. }
  assert (kind = str "kind" -> fields = []) as Himp.
  { intros ->. destruct fields; [done|]. exfalso. by apply Hnot. }
  assert (context_shape (context_bytes kind fields) kind (field_entries fields)) as Hshape.
  { destruct Hc as (Hs&_). destruct fields as [|f fields].
    - exists v, [(str "kind", v)]. split_and!; [auto|done|by left].
    - destruct (Hm2 ltac:(done)) as [Hm Hb]. exists v, [(str "kind", v); (kind, body)]. split_and!; [done|done|right].
      exists body. split_and!; [by left| |done|done|].
      + intros E. by specialize (Himp E).
      + unfold field_entries. apply Forall_fmap. eapply Forall_impl; [exact Hs|]. done. }
  assert (ValidateAuditContext (context_bytes kind fields) = Ok tt) as Hval.
  { unfold ValidateAuditContext. apply values_bound in Hv as Hb.
    destruct (Z.eqb_spec (zlen (context_bytes kind fields)) 0); [lia|].
    destruct (Z.ltb_spec KACS_ACCESS_CHECK_MAX_AUDIT_CONTEXT_LEN (zlen (context_bytes kind fields))); [lia|]. cbn [orb].
    rewrite (proj2 (auditContextShape_spec _)) by eauto. cbn [negb orb].
    replace auditContextMaxDepth with (Z.of_nat (Z.to_nat auditContextMaxDepth)) by (unfold auditContextMaxDepth; lia).
    assert (3 <= Z.to_nat auditContextMaxDepth)%nat as H3 by (unfold auditContextMaxDepth; lia).
    rewrite (proj2 (mpWellFormed_values _ (Z.to_nat auditContextMaxDepth) ltac:(lia))); [done|]. by eapply values_mono. }
  left. split_and!; [by apply Hk|apply Hc..|done|lia| |done|done].
  by rewrite Hval.
Qed.

Lemma EncodeAuditContext_spec_witness :
  @EncodeAuditContext pkm (str "service") [AuditString (str "name") (str "jellyfin")] = Ok sample_context
  /\ @ValidateAuditContext pkm sample_context = Ok tt.
Proof.
  destruct (@EncodeAuditContext_spec pkm pkm_AuditLaws (str "service") [AuditString (str "name") (str "jellyfin")])
    as [(_&He&Hv&_)|(_&e&He&_)].
  - constructor; [|constructor]. split; split; vm_compute; congruence.
  - split; [exact He|exact Hv].
  - exfalso. vm_compute in He. discriminate He.
Defined.

(** The kind "kind" satisfies the documented grammar and is refused with fields. *)
Example kind_kind_refused :
  segment (str "kind") /\ is_ok (@EncodeAuditContext pkm (str "kind") [AuditBool (str "x") true]) = false.
Proof. split; [apply kind_segment|vm_compute; reflexivity]. Qed.

End Audit.
