(* ===== verification/Kernel.v ===== *)
(** * Kernel: functions that make system calls

    The packages above the codecs drive the kernel through system calls.  The
    kernel is not under src/: it is an instance of the class [Kernel], a function
    from a request and a kernel state to an answer, an errno and the next state.
    A Go function that makes system calls is a computation of the monad [M]: it
    runs in a [world], which holds the kernel's state and the trace of the
    requests that completed, and gives an [outcome] (a value, an error, a
    panic).  [Retry] is the loop of internal/sys/sys.go; it has no bound in the
    source, so it runs on the kernel's [patience] and [None] is "still
    retrying".  [total] is the statement that a computation finishes, with what
    it then establishes; [Settles] is the hypothesis that no request is
    interrupted for ever.  [emits] bounds the requests a computation makes, for
    any kernel and any ending. *)

From S2P Require Import Prelude Outcome.

(** ** The kernel, the world and the monad *)

(** [E A] is the type of the requests answered by an [A]; the errno is 0 when the
    request succeeded. *)
Class Kernel (E : Type -> Type) (K : Type) := {
  answer : forall {A}, E A -> K -> (A * Z) * K;
  patience : nat
}.

Record event (E : Type -> Type) := Ev { ev_type : Type; ev_call : E ev_type; ev_errno : Z }.
Arguments Ev {E ev_type}.
Arguments ev_type {E}.
Arguments ev_call {E}.
Arguments ev_errno {E}.

Record world (E : Type -> Type) (K : Type) := World { kst : K; trace : list (event E) }.
Arguments World {E K}.
Arguments kst {E K}.
Arguments trace {E K}.

Definition M (E : Type -> Type) (K A : Type) : Type := world E K -> option (outcome A * world E K).

#[export] Instance M_ret E K : MRet (M E K) := fun A a w => Some (Ok a, w).
#[export] Instance M_bind E K : MBind (M E K) := fun A B f m w =>
  match m w with
  | Some (Ok a, w) => f a w
  | Some (Err e, w) => Some (Err e, w)
  | Some (Panic, w) => Some (Panic, w)
  | None => None
  end.

Section monad.
Context {E : Type -> Type} {K : Type}.

(** A computation without system calls. *)
Definition lift {A} (o : outcome A) : M E K A := fun w => Some (o, w).
Definition throw {A} (e : err) : M E K A := lift (Err e).

(** A result and an error returned together, as [v, err := f()] binds them. *)
Definition try_ {A} (m : M E K A) : M E K (A + err) := fun w =>
  match m w with
  | Some (Ok a, w) => Some (Ok (inl a), w)
  | Some (Err e, w) => Some (Ok (inr e), w)
  | Some (Panic, w) => Some (Panic, w)
  | None => None
  end.

(** [defer cleanup()] before [m]: the cleanup runs whatever [m] does, a panic
    included, and what it returns is discarded. *)
Definition deferred {B A} (cleanup : M E K B) (m : M E K A) : M E K A := fun w =>
  match m w with
  | Some (o, w) =>
      match cleanup w with
      | Some (Panic, w) => Some (Panic, w)
      | Some (_, w) => Some (o, w)
      | None => None
      end
  | None => None
  end.

(** [fmt.Errorf("...: %w", err)] around a failed call. *)
Definition wrapping {A} (msg : string) (m : M E K A) : M E K A := fun w =>
  match m w with
  | Some (o, w) => Some (wrap_err msg o, w)
  | None => None
  end.

(** [for range n { ...; continue | return }], then [return exhausted]: the body
    gives the buffers of the next round, or the result. *)
Fixpoint probe {B A} (n : nat) (body : B -> M E K (B + A)) (exhausted : err) (b : B) : M E K A :=
  match n with
  | O => throw exhausted
  | S n =>
      r ← body b;
      match r with
      | inl b => probe n body exhausted b
      | inr a => mret a
      end
  end.
End monad.

(** ** internal/sys *)

Module Sys.
Section sys.
Context {E : Type -> Type} {K : Type} {H : Kernel E K}.

(** [Retry]: an errno other than EINTR ends the loop; it is the error returned
    beside the answer. *)
Fixpoint Retry {A S : Type} (fuel : nat) (call : S -> (A * Z) * S) (s : S) : option (A * Z * S) :=
  match fuel with
  | O => None
  | S fuel =>
      let '((r, e), s) := call s in
      if e =? 0 then Some (r, 0, s)
      else if e =? Errno.EINTR then Retry fuel call s
      else Some (r, e, s)
  end.

(** One request through [Retry]: what the kernel wrote back, and the error.  The
    arguments the kernel writes to keep what it wrote when it fails. *)
Definition call {A} (c : E A) : M E K (A * option err) := fun w =>
  match Retry patience (answer c) (kst w) with
  | Some (r, e, k) =>
      Some (Ok (r, if e =? 0 then None else Some (Errno e)), World k (trace w ++ [Ev c e]))
  | None => None
  end.

(** A request made without [Retry]. *)
Definition call_once {A} (c : E A) : M E K (A * option err) := fun w =>
  let '((r, e), k) := answer c (kst w) in
  Some (Ok (r, if e =? 0 then None else Some (Errno e)), World k (trace w ++ [Ev c e])).

(** [if err != nil { return ..., fmt.Errorf(msg, err) }] after a request. *)
Definition checked {A} (msg : string) (c : E A) : M E K A :=
  '(r, e) ← call c;
  match e with
  | Some e => throw (Wrapf msg e)
  | None => mret r
  end.
End sys.
End Sys.

(** ** Total correctness *)

Section total.
Context {E : Type -> Type} {K : Type}.

(** [m] finishes from [w], and does so with an outcome and a world in [Q]. *)
Definition total {A} (m : M E K A) (w : world E K) (Q : outcome A -> world E K -> Prop) : Prop :=
  exists o w', m w = Some (o, w') /\ Q o w'.

Lemma total_mono {A} (m : M E K A) w (Q Q' : outcome A -> world E K -> Prop) :
  total m w Q -> (forall o w', Q o w' -> Q' o w') -> total m w Q'.
Proof. intros (o & w' & ? & ?) HQ. exists o, w'. auto. Qed.

Lemma total_lift {A} (o : outcome A) w Q : Q o w -> total (lift o) w Q.
Proof. intros. by exists o, w. Qed.
Lemma total_ret {A} (a : A) w Q : Q (Ok a) w -> total (mret a) w Q.
Proof. intros. by exists (Ok a), w. Qed.
Lemma total_throw {A} e w (Q : outcome A -> world E K -> Prop) : Q (Err e) w -> total (throw e) w Q.
Proof. apply total_lift. Qed.

Lemma total_bind {A B} (m : M E K A) (f : A -> M E K B) w Q :
  total m w (fun o w' =>
    match o with Ok a => total (f a) w' Q | Err e => Q (Err e) w' | Panic => Q Panic w' end) ->
  total (m ≫= f) w Q.
Proof.
  intros (o & w' & Hm & HQ). unfold total. unfold mbind, M_bind. rewrite Hm.
  destruct o; [exact HQ|by eexists _, _..].
Qed.

Lemma total_try {A} (m : M E K A) w (Q : outcome (A + err) -> world E K -> Prop) :
  total m w (fun o w' => match o with Ok a => Q (Ok (inl a)) w' | Err e => Q (Ok (inr e)) w' | Panic => Q Panic w' end) ->
  total (try_ m) w Q.
Proof.
  intros (o & w' & Hm & HQ). unfold total, try_. rewrite Hm. destruct o; by eexists _, _.
Qed.

Lemma total_wrapping {A} msg (m : M E K A) w Q :
  total m w (fun o w' => Q (wrap_err msg o) w') -> total (wrapping msg m) w Q.
Proof. intros (o & w' & Hm & HQ). unfold total, wrapping. rewrite Hm. by eexists _, _. Qed.

Lemma total_deferred {A B} (c : M E K B) (m : M E K A) w Q :
  total m w (fun o w' => total c w' (fun oc w'' =>
    match oc with Panic => Q Panic w'' | _ => Q o w'' end)) ->
  total (deferred c m) w Q.
Proof.
  intros (o & w' & Hm & oc & w'' & Hc & HQ). unfold total, deferred. rewrite Hm, Hc.
  destruct oc; by eexists _, _.
Qed.

Lemma total_fun {A} (m : M E K A) w Q o w' : total m w Q -> m w = Some (o, w') -> Q o w'.
Proof. intros (o' & w'' & Hm & HQ) Hm'. rewrite Hm' in Hm. by simplify_eq. Qed.

(** A loop of probes: the invariant [I] holds of the buffers at every round left. *)
Lemma total_probe {A B} (I : nat -> B -> world E K -> Prop) (body : B -> M E K (B + A)) exh n b w Q :
  I n b w ->
  (forall b w, I O b w -> Q (Err exh) w) ->
  (forall n b w, I (S n) b w ->
     total (body b) w (fun o w' =>
       match o with
       | Ok (inl b') => I n b' w'
       | Ok (inr a) => Q (Ok a) w'
       | Err e => Q (Err e) w'
       | Panic => Q Panic w'
       end)) ->
  total (probe n body exh b) w Q.
Proof.
  intros HI H0 HS. revert b w HI. induction n as [|n IH]; intros b w HI; cbn [probe].
  { by apply total_throw, (H0 b). }
  apply total_bind. eapply total_mono; [by apply HS|]. intros [[b'|a]|e|] w' HQ; auto.
  by apply total_ret.
Qed.
End total.

(** ** The requests a computation can make *)

(** The functions whose effects are known. *)
Create HintDb emits.

Section emits.
Context {E : Type -> Type} {K : Type}.
Implicit Types P Q : event E -> Prop.

(** However [m] ends, every request it made satisfies [P]: a bound on its effects, for any kernel. *)
Definition emits P {A} (m : M E K A) : Prop := forall w o w', m w = Some (o, w') ->
  exists es, trace w' = trace w ++ es /\ Forall P es.

Lemma emits_mono P Q {A} (m : M E K A) : (forall ev, P ev -> Q ev) -> emits P m -> emits Q m.
Proof. intros HPQ Hm w o w' E'. destruct (Hm w o w' E') as (es & ? & ?). exists es. eauto using Forall_impl. Qed.

Lemma emits_silent P {A} (m : M E K A) : (forall w o w', m w = Some (o, w') -> w' = w) -> emits P m.
Proof. intros Hm w o w' E'. exists []. rewrite (Hm w o w' E'). by rewrite app_nil_r. Qed.
Lemma emits_lift P {A} (o : outcome A) : emits P (lift o).
Proof. apply emits_silent. intros w o' w'. by intros [= _ <-]. Qed.
Lemma emits_ret P {A} (a : A) : emits P (mret a).
Proof. apply emits_lift. Qed.
Lemma emits_throw P {A} e : emits P (throw (A := A) e).
Proof. apply emits_lift. Qed.
Lemma emits_none P {A} : emits P (fun _ => @None (outcome A * world E K)).
Proof. by intros w o w'. Qed.

Lemma emits_app P {A B} (m : M E K A) (f : M E K B) w o1 w1 o2 w2 : emits P m -> emits P f ->
  m w = Some (o1, w1) -> f w1 = Some (o2, w2) -> exists es, trace w2 = trace w ++ es /\ Forall P es.
Proof.
  intros Hm Hf E1 E2. destruct (Hm _ _ _ E1) as (es1 & T1 & F1), (Hf _ _ _ E2) as (es2 & T2 & F2).
  exists (es1 ++ es2). rewrite T2, T1, app_assoc. split; [done|by apply Forall_app].
Qed.

Lemma emits_bind P {A B} (m : M E K A) (f : A -> M E K B) :
  emits P m -> (forall a, emits P (f a)) -> emits P (m ≫= f).
Proof.
  intros Hm Hf w o w'. unfold mbind, M_bind. destruct (m w) as [[[a|e|] w1]|] eqn:E1; [|intros [= _ <-]; by eapply Hm..|done].
  intros E2. by eapply (emits_app P m (f a)).
Qed.
Lemma emits_try P {A} (m : M E K A) : emits P m -> emits P (try_ m).
Proof.
  intros Hm w o w'. unfold try_. destruct (m w) as [[[a|e|] w1]|] eqn:E1; [intros [= _ <-]; by eapply Hm..|done].
Qed.
Lemma emits_wrapping P {A} msg (m : M E K A) : emits P m -> emits P (wrapping msg m).
Proof. intros Hm w o w'. unfold wrapping. destruct (m w) as [[o1 w1]|] eqn:E1; [intros [= _ <-]; by eapply Hm|done]. Qed.
Lemma emits_deferred P {A B} (c : M E K B) (m : M E K A) : emits P c -> emits P m -> emits P (deferred c m).
Proof.
  intros Hc Hm w o w'. unfold deferred. destruct (m w) as [[o1 w1]|] eqn:E1; [|done].
  destruct (c w1) as [[oc w2]|] eqn:E2; [|done]. intros E3. assert (w' = w2) as -> by (destruct oc; congruence).
  by eapply (emits_app P m c).
Qed.
Lemma emits_probe P {A B} n (body : B -> M E K (B + A)) exh b : (forall b, emits P (body b)) -> emits P (probe n body exh b).
Proof.
  intros Hb. revert b. induction n as [|n IH]; intros b; cbn [probe]; [apply emits_throw|].
  apply emits_bind; [done|]. intros [b'|a]; [done|apply emits_ret].
Qed.

Context {H : Kernel E K}.
Lemma emits_call P {A} (c : E A) : (forall n, P (Ev c n)) -> emits P (Sys.call c).
Proof.
  intros Hc w o w'. unfold Sys.call. destruct (Sys.Retry _ _ _) as [[[r e] k]|]; [|done].
  intros [= _ <-]. exists [Ev c e]. split; [done|]. by repeat constructor.
Qed.
Lemma emits_call_once P {A} (c : E A) : (forall n, P (Ev c n)) -> emits P (Sys.call_once c).
Proof.
  intros Hc w o w'. unfold Sys.call_once. destruct (answer c (kst w)) as [[r e] k].
  intros [= _ <-]. exists [Ev c e]. split; [done|]. by repeat constructor.
Qed.
Lemma emits_checked P {A} msg (c : E A) : (forall n, P (Ev c n)) -> emits P (Sys.checked msg c).
Proof. intros Hc. apply emits_bind; [by apply emits_call|]. intros [r [e|]]; [apply emits_throw|apply emits_ret]. Qed.
End emits.

(** Goals [emits P m] by the structure of [m]; [unfold] the functions first, what remains is [P] of single requests. *)
Ltac emitting :=
  repeat first
    [ progress intros
    | apply emits_lift | apply emits_ret | apply emits_throw | apply emits_none
    | solve [eauto 2 with emits nocore]
    | apply emits_deferred | apply emits_bind | apply emits_try | apply emits_wrapping | apply emits_probe
    | apply emits_checked | apply emits_call_once | apply emits_call
    | case_match ].

(** ** Requests that settle *)

Section settles.
Context {E : Type -> Type} {K : Type} {H : Kernel E K}.

(** The rule of a request made once, for a post-condition on the answer. *)
Lemma total_once {A} (c : E A) w (Q : outcome (A * option err) -> world E K -> Prop) :
  (let '((r, e), k) := answer c (kst w) in Q (Ok (r, if e =? 0 then None else Some (Errno e))) (World k (trace w ++ [Ev c e]))) ->
  total (Sys.call_once c) w Q.
Proof. unfold total, Sys.call_once. destruct (answer c (kst w)) as [[r e] k]. intros HQ. by eexists _, _. Qed.

Lemma total_call_once {A} (c : E A) w Q :
  (forall r e k, Q (Ok (r, if e =? 0 then None else Some (Errno e))) (World k (trace w ++ [Ev c e]))) ->
  total (Sys.call_once c) w Q.
Proof.
  intros HQ. apply total_once. destruct (answer c (kst w)) as [[r e] k]. apply HQ.
Qed.

(** No request is interrupted [patience] times in a row. *)
Class Settles : Prop := settles : forall A (c : E A) k, Sys.Retry patience (answer c) k <> None.

(** A kernel that never interrupts. *)
Lemma settles_never n : patience = S n -> (forall A (c : E A) k, (answer c k).1.2 <> Errno.EINTR) -> Settles.
Proof.
  intros Hp He A c k. rewrite Hp. cbn [Sys.Retry]. specialize (He A c k). destruct (answer c k) as [[r e] k'].
  cbn in He. apply Z.eqb_neq in He as ->. by destruct (e =? 0).
Qed.

(** [Inv] is kept by every answer to [c], and an answer that is not an
    interruption satisfies [P]. *)
Definition promises {A} (c : E A) (Inv : K -> Prop) (P : A -> Z -> K -> Prop) : Prop :=
  forall k, Inv k -> let '((r, e), k') := answer c k in Inv k' /\ (e <> Errno.EINTR -> P r e k').

Lemma Retry_promises {A} (c : E A) Inv P fuel k r e k' : promises c Inv P -> Inv k ->
  Sys.Retry fuel (answer c) k = Some (r, e, k') -> Inv k' /\ P r e k' /\ e <> Errno.EINTR.
Proof.
  intros Hc. revert k. induction fuel as [|fuel IH]; intros k Hk; cbn [Sys.Retry]; [done|].
  specialize (Hc k Hk). destruct (answer c k) as [[r0 e0] k0]. destruct Hc as [Hi HP].
  destruct (Z.eqb_spec e0 0) as [->|He0]; [intros [= <- <- <-]; split_and!; auto; by apply HP|].
  destruct (Z.eqb_spec e0 Errno.EINTR) as [->|He]; [by apply IH|].
  intros [= <- <- <-]. split_and!; auto.
Qed.

Lemma promises_any {A} (c : E A) : promises c (fun _ => True) (fun _ _ _ => True).
Proof. intros k _. by destruct (answer c k) as [[??]?]. Qed.

(** From a state in [I], an interruption of [c] leaves the state in [I] and any other answer satisfies [P]. *)
Definition transits {A} (c : E A) (I : K -> Prop) (P : A -> Z -> K -> Prop) : Prop :=
  forall k, I k -> let '((r, e), k') := answer c k in if e =? Errno.EINTR then I k' else P r e k'.

Context {HS : Settles}.

Lemma total_transit {A} (c : E A) I P w Q : transits c I P -> I (kst w) ->
  (forall r e k, P r e k -> Q (Ok (r, if e =? 0 then None else Some (Errno e))) (World k (trace w ++ [Ev c e]))) ->
  total (Sys.call c) w Q.
Proof.
  intros Hc Hi HQ. unfold total, Sys.call.
  destruct (Sys.Retry patience (answer c) (kst w)) as [[[r e] k]|] eqn:Er; [|by apply settles in Er].
  assert (HP : P r e k).
  { revert Hi Er. generalize (kst w), patience. clear HQ. intros k0 fuel. revert k0.
    induction fuel as [|fuel IH]; intros k0 Hi; cbn [Sys.Retry]; [done|].
    specialize (Hc k0 Hi). destruct (answer c k0) as [[r0 e0] k1].
    destruct (Z.eqb_spec e0 0) as [->|He0]; [by intros [= <- <- <-]|].
    destruct (Z.eqb_spec e0 Errno.EINTR) as [->|He]; [by apply IH|]. by intros [= <- <- <-]. }
  by eexists _, _; split; [|apply HQ].
Qed.

Lemma total_call {A} (c : E A) Inv P w Q : promises c Inv P -> Inv (kst w) ->
  (forall r e k, Inv k -> P r e k -> e <> Errno.EINTR ->
     Q (Ok (r, if e =? 0 then None else Some (Errno e))) (World k (trace w ++ [Ev c e]))) ->
  total (Sys.call c) w Q.
Proof.
  intros Hc Hi HQ. unfold total, Sys.call.
  destruct (Sys.Retry patience (answer c) (kst w)) as [[[r e] k]|] eqn:Er; [|by apply settles in Er].
  pose proof (Retry_promises _ _ _ _ _ _ _ _ Hc Hi Er) as (?&?&?). by eexists _, _; split; [|apply HQ].
Qed.

Lemma total_call_any {A} (c : E A) w Q :
  (forall r e k, e <> Errno.EINTR ->
     Q (Ok (r, if e =? 0 then None else Some (Errno e))) (World k (trace w ++ [Ev c e]))) ->
  total (Sys.call c) w Q.
Proof. intros HQ. eapply total_call; [apply promises_any|done|auto]. Qed.

(** The request [c] was the only one made, with the answer [r] and the errno [n]. *)
Definition asked {A} (c : E A) (w w' : world E K) (r : A) (n : Z) : Prop :=
  trace w' = trace w ++ [Ev c n] /\ n <> Errno.EINTR /\ exists k, answer c k = ((r, n), kst w').

Lemma total_call_asked {A} (c : E A) w (Q : outcome (A * option err) -> world E K -> Prop) :
  (forall r n w', asked c w w' r n -> Q (Ok (r, if n =? 0 then None else Some (Errno n))) w') ->
  total (Sys.call c) w Q.
Proof.
  intros HQ. eapply (total_call c (fun _ => True) (fun r e k' => exists k, answer c k = ((r, e), k'))); [|done|].
  - intros k _. destruct (answer c k) as [[r e] k'] eqn:Ea. eauto.
  - intros r e k _ Hk Hne. apply HQ. by split_and!.
Qed.

Lemma total_checked {A} msg (c : E A) w Q :
  (forall r k, Q (Ok r) (World k (trace w ++ [Ev c 0]))) ->
  (forall e k, e <> 0 -> e <> Errno.EINTR -> Q (Err (Wrapf msg (Errno e))) (World k (trace w ++ [Ev c e]))) ->
  total (Sys.checked msg c) w Q.
Proof.
  intros H0 He. apply total_bind, total_call_any. intros r e k Hi.
  destruct (Z.eqb_spec e 0) as [->|]; [apply total_ret, H0|apply total_throw; auto].
Qed.
End settles.
Arguments Settles E K {H}.

(** ** Two-pass reads *)

(** A read whose size the caller does not know is a [probe]: a request that is too
    small reports the size to use next.  [cur] is what the kernel holds, an errno or
    a value, and may change from one request to the next; [b] can hold a value when
    [room b v]; [res] is the result the caller makes of what the kernel holds. *)
Section two_pass.
Context {E : Type -> Type} {K V A B : Type}.
Context (Inv : K -> Prop) (cur : K -> Z + V) (room : B -> V -> bool) (grow : V -> B) (res : Z + V -> outcome A).
Context (body : B -> M E K (B + A)).

(** One round on buffers [b]. *)
Definition reads : Prop := forall b w, Inv (kst w) -> total (body b) w (fun o w' =>
  Inv (kst w') /\ length (trace w') = S (length (trace w)) /\
  match cur (kst w') with
  | inl e => o = inr <$> res (inl e)
  | inr v => if room b v then o = inr <$> res (inr v) else o = Ok (inl (grow v))
  end).
Hypothesis body_reads : reads.

(** The round that ends the loop, after [m] requests. *)
Ltac finish Ho m :=
  subst; match goal with |- context [inr <$> ?x] => destruct x eqn:? end;
  [apply total_ret|..]; exists m; split_and!; try lia; try assumption; try congruence; try (left; congruence).

(** Each round reads what the kernel holds at its end; the loop gives up after [n] rounds that all
    found the buffers too small. *)
Lemma total_two_pass n exh b w : Inv (kst w) ->
  total (probe n body exh b) w (fun o w' => exists m, (m <= n)%nat /\ Inv (kst w')
    /\ length (trace w') = (length (trace w) + m)%nat
    /\ (o = res (cur (kst w')) \/ m = n /\ o = Err exh)).
Proof.
  revert b w. induction n as [|n IH]; intros b w Hi; cbn [probe].
  { apply total_throw. exists O. split_and!; [done|done|lia|by right]. }
  apply total_bind. eapply total_mono; [by apply body_reads|]. intros o w' (Hi'&Hl&Ho).
  destruct (cur (kst w')) as [e|v] eqn:Ec; [|destruct (room b v)].
  - finish Ho 1%nat.
  - finish Ho 1%nat.
  - subst o. eapply total_mono; [by apply IH|]. intros o w'' (m&Hm&Hi''&Hl'&Ho). exists (S m).
    split_and!; [lia|done|lia|]. destruct Ho as [|[-> ?]]; [by left|by right].
Qed.

(** When what the kernel holds does not change, two rounds are enough. *)
Lemma total_two_pass_stable c n exh b w : Inv (kst w) -> (forall k, Inv k -> cur k = c) ->
  (forall v, c = inr v -> room (grow v) v = true) -> (2 <= n)%nat ->
  total (probe n body exh b) w (fun o w' => exists m, (m <= 2)%nat /\ Inv (kst w')
    /\ length (trace w') = (length (trace w) + m)%nat /\ o = res c).
Proof.
  intros Hi Hc Hg Hn. destruct n as [|[|n]]; [lia..|]. cbn [probe].
  apply total_bind. eapply total_mono; [by apply body_reads|]. intros o w' (Hi'&Hl&Ho). rewrite Hc in Ho by done.
  destruct c as [e|v] eqn:Ec; [|destruct (room b v)].
  - finish Ho 1%nat.
  - finish Ho 1%nat.
  - subst o. apply total_bind. eapply total_mono; [by apply body_reads|]. intros o w'' (Hi''&Hl'&Ho).
    rewrite Hc, Hg in Ho by done. finish Ho 2%nat.
Qed.
End two_pass.

(** ** Arguments of requests *)

(** [make([]byte, n)] *)
Definition make_bytes (n : Z) : bytes := replicate (Z.to_nat n) x00.
(** [int32(fd)] *)
Definition int32 (z : Z) : Z := wrap 32 (z + 2 ^ 31) - 2 ^ 31.

(** [syscall.BytePtrFromString]: a string with a NUL is EINVAL. *)
Definition BytePtrFromString (s : bytes) : outcome bytes :=
  if bool_decide (x00 ∈ s) then Err (Errno Errno.EINVAL) else Ok s.

(** [errors.Is(err, errno)] on an error that may be nil. *)
Definition is_errno (err : option err) (n : Z) : bool :=
  match err with Some e => errors_is e (Errno n) | None => false end.

Lemma zlen_make_bytes n : 0 <= n -> zlen (make_bytes n) = n.
Proof. intros. unfold make_bytes. rewrite zlen_replicate. lia. Qed.

(** Reading back what the kernel wrote at the start of a buffer that could hold it. *)
Lemma slice_copied (buf d : bytes) : zlen d <= zlen buf -> slice (go_copy buf d) 0 (zlen d) = Ok d.
Proof.
  intros Hl. unfold go_copy. rewrite take_ge by (unfold zlen in Hl; lia). by apply slice_prefix.
Qed.

Lemma int32_fits z : 0 <= z < 2 ^ 31 -> int32 z = z.
Proof. intros. unfold int32, wrap. rewrite Z.mod_small; lia. Qed.

Lemma wrap_le w z : 0 <= z -> wrap w z <= z.
Proof. intros. unfold wrap. destruct (Z.lt_ge_cases 0 (2 ^ w)); [apply Z.mod_le; lia|].
  pose proof (Z.pow_nonneg 2 w). replace (2 ^ w) with 0 by lia. by rewrite Z.mod_0_r. Qed.

Lemma is_errno_Errno n m : is_errno (Some (Errno n)) m = (n =? m).
Proof.
  cbn. rewrite orb_false_r. destruct (Z.eqb_spec n m) as [->|]; [by apply bool_decide_eq_true_2|].
  apply bool_decide_eq_false_2. congruence.
Qed.
