(* ===== verification/RegValue.v ===== *)
(** * RegValue: typed registry values

    [Value] models registry/value.go: the typed value, its constructors and
    accessors, the encoding of each type to the bytes the kernel stores, and the
    decoding of what the kernel returns. *)

From S2P Require Import Prelude Outcome GoStd Uapi.

Module RegValue.
Section with_uapi.
Context {U : Uapi}.

(** ** Types and values *)

Definition TypeNone : Z := REG_NONE.
Definition TypeSZ : Z := REG_SZ.
Definition TypeExpandSZ : Z := REG_EXPAND_SZ.
Definition TypeBinary : Z := REG_BINARY.
Definition TypeDWORD : Z := REG_DWORD.
Definition TypeDWORDBigEndian : Z := REG_DWORD_BIG_ENDIAN.
Definition TypeLink : Z := REG_LINK.
Definition TypeMultiSZ : Z := REG_MULTI_SZ.
Definition TypeQWORD : Z := REG_QWORD.
Definition typeTombstone : Z := REG_TOMBSTONE.

(** [Type.String] *)
Definition Type_String (t : Z) : bytes :=
  if t =? TypeNone then str "REG_NONE"
  else if t =? TypeSZ then str "REG_SZ"
  else if t =? TypeExpandSZ then str "REG_EXPAND_SZ"
  else if t =? TypeBinary then str "REG_BINARY"
  else if t =? TypeDWORD then str "REG_DWORD"
  else if t =? TypeDWORDBigEndian then str "REG_DWORD_BIG_ENDIAN"
  else if t =? TypeLink then str "REG_LINK"
  else if t =? TypeMultiSZ then str "REG_MULTI_SZ"
  else if t =? TypeQWORD then str "REG_QWORD"
  else str "REG_type(" ++ format_uint 10 t ++ str ")".

(** A nil slice and an empty one are the same here: no operation tells them apart. *)
Record Value := mkValue {
  typ : Z;
  s : bytes;
  list_ : list bytes;
  num : Z;
  b : bytes
}.

#[global] Instance Value_eq_dec : EqDecision Value.
Proof. solve_decision. Defined.

Definition None_ : Value := mkValue TypeNone [] [] 0 [].
Definition SZ (s : bytes) : Value := mkValue TypeSZ s [] 0 [].
Definition ExpandSZ (s : bytes) : Value := mkValue TypeExpandSZ s [] 0 [].
Definition Link (s : bytes) : Value := mkValue TypeLink s [] 0 [].
Definition MultiSZ (l : list bytes) : Value := mkValue TypeMultiSZ [] l 0 [].
Definition Binary (b : bytes) : Value := mkValue TypeBinary [] [] 0 b.
Definition DWORD (n : Z) : Value := mkValue TypeDWORD [] [] n [].
Definition DWORDBigEndian (n : Z) : Value := mkValue TypeDWORDBigEndian [] [] n [].
Definition QWORD (n : Z) : Value := mkValue TypeQWORD [] [] n [].
Definition Other (t : Z) (data : bytes) : Value := mkValue t [] [] 0 data.

Definition Kind (v : Value) : Z := typ v.

Definition isKnown (t : Z) : bool :=
  bool_decide (t ∈ [TypeNone; TypeSZ; TypeExpandSZ; TypeLink; TypeBinary;
                    TypeDWORD; TypeDWORDBigEndian; TypeMultiSZ; TypeQWORD]).

(** The accessors give the payload and whether the value has that type. *)
Definition Str (v : Value) : bytes * bool :=
  if (typ v =? TypeSZ) || (typ v =? TypeExpandSZ) || (typ v =? TypeLink)
  then (s v, true) else ([], false).
Definition Uint32 (v : Value) : Z * bool :=
  if (typ v =? TypeDWORD) || (typ v =? TypeDWORDBigEndian)
  then (wrap 32 (num v), true) else (0, false).
Definition Uint64 (v : Value) : Z * bool :=
  if typ v =? TypeQWORD then (num v, true) else (0, false).
Definition List_ (v : Value) : list bytes * bool :=
  if typ v =? TypeMultiSZ then (list_ v, true) else ([], false).
Definition Bytes (v : Value) : bytes * bool :=
  if typ v =? TypeBinary then (b v, true)
  else if isKnown (typ v) then ([], false) else (b v, true).

(** ** Encoding *)

Definition encodeSZ (s : bytes) : bytes := s ++ [x00].

Fixpoint encodeMultiSZ_loop (l : list bytes) (b : bytes) : bytes :=
  match l with
  | [] => b
  | s :: l => encodeMultiSZ_loop l ((b ++ s) ++ [x00])
  end.
Definition encodeMultiSZ (l : list bytes) : bytes := encodeMultiSZ_loop l [] ++ [x00].

Definition Encode (v : Value) : Z * bytes :=
  let t := typ v in
  if t =? TypeNone then (TypeNone, [])
  else if (t =? TypeSZ) || (t =? TypeExpandSZ) || (t =? TypeLink) then (t, encodeSZ (s v))
  else if t =? TypeBinary then (TypeBinary, b v)
  else if t =? TypeDWORD then (TypeDWORD, le_enc 4 (wrap 32 (num v)))
  else if t =? TypeDWORDBigEndian then (TypeDWORDBigEndian, be_enc 4 (wrap 32 (num v)))
  else if t =? TypeMultiSZ then (TypeMultiSZ, encodeMultiSZ (list_ v))
  else if t =? TypeQWORD then (TypeQWORD, le_enc 8 (num v))
  else (t, b v).

(** ** Decoding *)

(** [malformed]: the message names the type and the detail. *)
Definition malformed : err := Wrapf "malformed" ErrMalformedValue.

Definition decodeSZ (data : bytes) : outcome bytes :=
  let n := zlen data in
  data ← (if 0 <? n then
            c ← index data (n - 1);
            if bool_decide (c = x00) then slice data 0 (n - 1) else Ok data
          else Ok data);
  if negb (utf8_valid data) then Err malformed else Ok data.

(** The loop of [splitNUL] over the bytes [l] left at index [i]. *)
Fixpoint splitNUL_loop (b l : bytes) (i start : Z) (out : list bytes) : outcome (list bytes) :=
  match l with
  | [] => seg ← slice_from b start; Ok (out ++ [seg])
  | c :: l =>
      if bool_decide (c = x00) then
        seg ← slice b start i;
        splitNUL_loop b l (i + 1) (i + 1) (out ++ [seg])
      else splitNUL_loop b l (i + 1) start out
  end.
Definition splitNUL (b : bytes) : outcome (list bytes) := splitNUL_loop b b 0 0 [].

Fixpoint decodeMultiSZ_loop (segs out : list bytes) : outcome (list bytes) :=
  match segs with
  | [] => Ok out
  | seg :: segs =>
      if zlen seg =? 0 then decodeMultiSZ_loop segs out
      else if negb (utf8_valid seg) then Err malformed
      else decodeMultiSZ_loop segs (out ++ [seg])
  end.
Definition decodeMultiSZ (data : bytes) : outcome (list bytes) :=
  segs ← splitNUL data; decodeMultiSZ_loop segs [].

Definition Decode (t : Z) (data : bytes) : outcome Value :=
  if t =? TypeNone then Ok None_
  else if t =? TypeSZ then s ← decodeSZ data; Ok (mkValue t s [] 0 [])
  else if t =? TypeExpandSZ then s ← decodeSZ data; Ok (mkValue t s [] 0 [])
  else if t =? TypeLink then s ← decodeSZ data; Ok (mkValue t s [] 0 [])
  else if t =? TypeBinary then Ok (Binary data)
  else if t =? TypeDWORD then
    if negb (zlen data =? 4) then Err malformed else n ← get_le 4 data; Ok (DWORD n)
  else if t =? TypeDWORDBigEndian then
    if negb (zlen data =? 4) then Err malformed else n ← get_be 4 data; Ok (DWORDBigEndian n)
  else if t =? TypeMultiSZ then l ← decodeMultiSZ data; Ok (mkValue t [] l 0 [])
  else if t =? TypeQWORD then
    if negb (zlen data =? 8) then Err malformed else n ← get_le 8 data; Ok (QWORD n)
  else Ok (Other t data).

(** ** Splitting on NUL *)

Lemma split_on_sep_app sep (p q : bytes) : split_on sep (p ++ sep :: q) = split_on sep p ++ split_on sep q.
Proof.
  induction p as [|c p IH]; cbn [app split_on]; [by rewrite bool_decide_eq_true_2|].
  case_bool_decide; [by rewrite IH|]. rewrite IH.
  destruct (split_on sep p) eqn:E; [by apply split_on_nil in E|done].
Qed.

Lemma splitNUL_loop_spec p seg l (out : list bytes) : x00 ∉ seg ->
  splitNUL_loop (p ++ seg ++ l) l (zlen p + zlen seg) (zlen p) out = Ok (out ++ split_on x00 (seg ++ l)).
Proof.
  revert p seg out. induction l as [|c l IH]; intros p seg out Hs; cbn [splitNUL_loop].
  { rewrite app_nil_r, slice_from_app by done. by rewrite bind_Ok, split_on_no_sep. }
  case_bool_decide as Hc.
  - subst c. rewrite slice_mid by done. rewrite bind_Ok, split_on_app by done.
    replace (p ++ seg ++ x00 :: l) with ((p ++ seg ++ [x00]) ++ [] ++ l) by app_eq.
    replace (zlen p + zlen seg + 1) with (zlen (p ++ seg ++ [x00])) by len.
    rewrite <- (Z.add_0_r (zlen (p ++ seg ++ [x00]))) at 1.
    rewrite (IH _ []) by apply not_elem_of_nil. by rewrite <- app_assoc.
  - replace (seg ++ c :: l) with ((seg ++ [c]) ++ l) by app_eq.
    rewrite <- (IH p (seg ++ [c])).
    + f_equal. len.
    + rewrite elem_of_app, list_elem_of_singleton. naive_solver.
Qed.

Lemma splitNUL_spec b : splitNUL b = Ok (split_on x00 b).
Proof. apply (splitNUL_loop_spec [] [] b []). apply not_elem_of_nil. Qed.

(** The non-empty NUL-delimited strings of [data]. *)
Definition pieces (data : bytes) : list bytes := filter (fun p => p <> []) (split_on x00 data).

Lemma decodeMultiSZ_loop_spec segs out :
  decodeMultiSZ_loop segs out =
    if forallb utf8_valid (filter (fun p : bytes => p <> []) segs)
    then Ok (out ++ filter (fun p : bytes => p <> []) segs) else Err malformed.
Proof.
  revert out. induction segs as [|seg segs IH]; intros out; cbn [decodeMultiSZ_loop]; [by rewrite app_nil_r|].
  destruct (Z.eqb_spec (zlen seg) 0) as [E|E].
  - apply zlen_0_inv in E as ->. rewrite filter_cons_False by naive_solver. apply IH.
  - rewrite filter_cons_True by (intros ->; by apply E). cbn [forallb].
    destruct (utf8_valid seg); [|done]. cbn [negb andb]. rewrite IH.
    by rewrite <- app_assoc.
Qed.

Lemma decodeMultiSZ_spec data :
  decodeMultiSZ data = if forallb utf8_valid (pieces data) then Ok (pieces data) else Err malformed.
Proof. unfold decodeMultiSZ. rewrite splitNUL_spec, bind_Ok. apply decodeMultiSZ_loop_spec. Qed.

Lemma encodeMultiSZ_concat (l : list bytes) : encodeMultiSZ l = concat ((fun s => s ++ [x00]) <$> l) ++ [x00].
Proof.
  unfold encodeMultiSZ. f_equal.
  enough (forall out, encodeMultiSZ_loop l out = out ++ concat ((fun s => s ++ [x00]) <$> l)) as H by apply H.
  induction l as [|s l IH]; intros out; cbn [encodeMultiSZ_loop fmap list_fmap concat]; [by rewrite app_nil_r|].
  rewrite IH. app_eq.
Qed.

Lemma pieces_encode (l : list bytes) : pieces (encodeMultiSZ l) = concat (pieces <$> l).
Proof.
  rewrite encodeMultiSZ_concat. induction l as [|s l IH]; [done|].
  cbn [fmap list_fmap concat]. rewrite <- IH. unfold pieces.
  replace ((s ++ [x00]) ++ concat ((fun s => s ++ [x00]) <$> l)) with (s ++ x00 :: concat ((fun s => s ++ [x00]) <$> l)) by app_eq.
  rewrite <- app_assoc. cbn [app]. by rewrite split_on_sep_app, filter_app.
Qed.

Lemma pieces_plain (s : bytes) : s <> [] -> x00 ∉ s -> pieces s = [s].
Proof. intros. unfold pieces. rewrite split_on_no_sep by done. by rewrite filter_cons_True. Qed.

Lemma pieces_plain_list (l : list bytes) : Forall (fun s => s <> [] /\ x00 ∉ s) l -> concat (pieces <$> l) = l.
Proof.
  induction 1 as [|s l [] ? IH]; [done|]. cbn [fmap list_fmap concat].
  rewrite pieces_plain by done. by f_equal.
Qed.

Lemma split_no_sep sep (data : bytes) : Forall (fun p => sep ∉ p) (split_on sep data).
Proof.
  induction data as [|c data IH]; cbn [split_on]; [constructor; [apply not_elem_of_nil|done]|].
  case_bool_decide; [constructor; [apply not_elem_of_nil|done]|].
  destruct (split_on sep data) as [|p ps]; [by repeat constructor; rewrite list_elem_of_singleton|].
  apply Forall_cons in IH as [? ?]. constructor; [|done]. rewrite not_elem_of_cons. naive_solver.
Qed.

Lemma pieces_are_plain data : Forall (fun s => s <> [] /\ x00 ∉ s) (pieces data).
Proof.
  unfold pieces. apply Forall_forall. intros s [Hs Hin]%list_elem_of_filter. split; [done|].
  pose proof (split_no_sep x00 data) as H. rewrite Forall_forall in H. by apply H.
Qed.

Lemma pieces_idem data : concat (pieces <$> pieces data) = pieces data.
Proof. apply pieces_plain_list, pieces_are_plain. Qed.

(** ** Strings *)

(** [data] without its terminator, if it has one. *)
Definition unterminated (data : bytes) : bytes :=
  if bool_decide (last data = Some x00) then take (length data - 1) data else data.

Lemma unterminated_encodeSZ s : unterminated (encodeSZ s) = s.
Proof.
  unfold unterminated, encodeSZ. rewrite last_snoc, bool_decide_eq_true_2 by done.
  rewrite length_app, take_app_length'; simpl; [done|lia].
Qed.

Lemma decodeSZ_spec data :
  decodeSZ data = if utf8_valid (unterminated data) then Ok (unterminated data) else Err malformed.
Proof.
  unfold decodeSZ, unterminated. destruct (decide (data = [])) as [->|(data'&c&->)%exists_last]; [done|].
  rewrite last_snoc, length_app. cbv zeta. rewrite zlen_app. change (zlen [c]) with 1.
  destruct (Z.ltb_spec 0 (zlen data' + 1)); [|len].
  rewrite (index_is _ data' c []) by (done || lia). rewrite bind_Ok.
  rewrite (bool_decide_ext (Some c = Some x00) (c = x00)) by naive_solver. case_bool_decide.
  - rewrite slice_prefix by lia. rewrite bind_Ok, take_app_length' by (simpl; lia). by destruct (utf8_valid data').
  - rewrite bind_Ok. by destruct (utf8_valid (data' ++ [c])).
Qed.

(** ** Case analysis on type tags *)

(** The laws make the tags distinct: a comparison of two of them is false. *)
Context {L : RegLaws U}.

Lemma reg_neq i j x y : reg_types !! i = Some x -> reg_types !! j = Some y -> i <> j -> (x =? y) = false.
Proof.
  intros Hi Hj Hij. apply Z.eqb_neq. intros <-. apply Hij.
  eapply NoDup_lookup; [eapply codes_ok_NoDup, reg_types_ok|done|done].
Qed.

Lemma reg_fits x : In x reg_types -> fits 32 x.
Proof. apply codes_ok_fits, reg_types_ok. Qed.

End with_uapi.

Ltac reg_index x :=
  lazymatch x with
  | REG_NONE => constr:(0%nat) | REG_SZ => constr:(1%nat) | REG_EXPAND_SZ => constr:(2%nat)
  | REG_BINARY => constr:(3%nat) | REG_DWORD => constr:(4%nat) | REG_DWORD_BIG_ENDIAN => constr:(5%nat)
  | REG_LINK => constr:(6%nat) | REG_MULTI_SZ => constr:(7%nat) | REG_QWORD => constr:(8%nat)
  | REG_TOMBSTONE => constr:(9%nat)
  end.
Ltac reg_tags :=
  unfold TypeNone, TypeSZ, TypeExpandSZ, TypeBinary, TypeDWORD, TypeDWORDBigEndian, TypeLink, TypeMultiSZ, TypeQWORD in *;
  repeat match goal with
  | |- context [?x =? ?x] => rewrite Z.eqb_refl
  | |- context [?x =? ?y] =>
      let i := reg_index x in let j := reg_index y in
      rewrite (reg_neq i j x y eq_refl eq_refl) by (vm_compute; discriminate)
  end; cbn [orb andb negb].

Section spec.
Context {U : Uapi} {L : RegLaws U}.

(** ** The round trip *)

(** The values the constructors make; strings must be UTF-8, integers of their width, and [Other]
    is for a tag without a constructor of its own. *)
Inductive made : Value -> Prop :=
  | made_None : made None_
  | made_SZ s : utf8_valid s = true -> made (SZ s)
  | made_ExpandSZ s : utf8_valid s = true -> made (ExpandSZ s)
  | made_Link s : utf8_valid s = true -> made (Link s)
  | made_MultiSZ l : Forall (fun p => utf8_valid p = true) (concat (pieces <$> l)) -> made (MultiSZ l)
  | made_Binary b : made (Binary b)
  | made_DWORD n : fits 32 n -> made (DWORD n)
  | made_DWORDBigEndian n : fits 32 n -> made (DWORDBigEndian n)
  | made_QWORD n : fits 64 n -> made (QWORD n)
  | made_Other t data : isKnown t = false -> made (Other t data).

(** What a value reads as once stored: a list loses its empty strings and is cut at
    embedded NULs, everything else is unchanged. *)
Definition stored (v : Value) : Value := mkValue (typ v) (s v) (concat (pieces <$> list_ v)) (num v) (b v).

Lemma unknown_tag t : isKnown t = false ->
  (t =? REG_NONE) = false /\ (t =? REG_SZ) = false /\ (t =? REG_EXPAND_SZ) = false
  /\ (t =? REG_LINK) = false /\ (t =? REG_BINARY) = false /\ (t =? REG_DWORD) = false
  /\ (t =? REG_DWORD_BIG_ENDIAN) = false /\ (t =? REG_MULTI_SZ) = false /\ (t =? REG_QWORD) = false.
Proof.
  unfold isKnown. rewrite bool_decide_eq_false, !not_elem_of_cons, !Z.eqb_neq. tauto.
Qed.

Lemma pieces_concat_valid data : forallb utf8_valid (pieces data) = true ->
  Forall (fun p => utf8_valid p = true) (concat (pieces <$> pieces data)).
Proof. rewrite pieces_idem, forallb_forall, List.Forall_forall. done. Qed.

Lemma stored_plain v : Forall (fun s => s <> [] /\ x00 ∉ s) (list_ v) -> stored v = v.
Proof. intros H. unfold stored. rewrite pieces_plain_list by done. by destruct v. Qed.

Lemma Decode_made v : made v -> Decode (Encode v).1 (Encode v).2 = Ok (stored v).
Proof.
  intros Hv.
  destruct Hv as [|x Hs|x Hs|x Hs|l Hl|d|n Hn|n Hn|n Hn|t d (?&?&?&?&?&?&?&?&?)%unknown_tag];
    unfold Encode, Decode, stored, None_, SZ, ExpandSZ, Link, MultiSZ, Binary, DWORD, DWORDBigEndian, QWORD, Other;
    cbn [typ s list_ num b]; reg_tags; cbn [fst snd]; reg_tags.
  - done.
  - by rewrite decodeSZ_spec, unterminated_encodeSZ, Hs.
  - by rewrite decodeSZ_spec, unterminated_encodeSZ, Hs.
  - by rewrite decodeSZ_spec, unterminated_encodeSZ, Hs.
  - rewrite decodeMultiSZ_spec, pieces_encode. rewrite (proj2 (forallb_forall _ _)); [done|].
    by apply List.Forall_forall.
  - done.
  - rewrite zlen_le_enc. cbn [Z.eqb Pos.eqb Z.of_nat Pos.of_succ_nat Pos.succ negb].
    rewrite <- (app_nil_r (le_enc 4 _)), get_le_app. unfold wrap. by rewrite Z.mod_mod, Z.mod_small.
  - unfold get_be. rewrite zlen_be_enc. cbn [Z.eqb Z.ltb Z.compare Pos.compare Pos.compare_cont Pos.eqb Z.of_nat Pos.of_succ_nat Pos.succ negb].
    rewrite take_ge by (unfold be_enc; by rewrite length_rev, length_le_enc). rewrite be_dec_enc.
    unfold wrap. by rewrite Z.mod_mod, Z.mod_small.
  - rewrite zlen_le_enc. cbn [Z.eqb Pos.eqb Z.of_nat Pos.of_succ_nat Pos.succ negb].
    rewrite <- (app_nil_r (le_enc 8 _)), get_le_app. by rewrite Z.mod_small.
  - by repeat (cbn [orb fst snd]; match goal with H : (t =? _) = false |- context [t =? _] => rewrite !H end).
Qed.

(** What a constructor made comes back from the kernel's bytes: the same type and payload,
    except that a REG_MULTI_SZ list loses its empty strings and is cut at embedded NULs, so a list
    of non-empty strings without NULs comes back unchanged. *)
Theorem Decode_Encode v : made v ->
  Decode (Encode v).1 (Encode v).2 = Ok (stored v)
  /\ (Forall (fun s => s <> [] /\ x00 ∉ s) (list_ v) -> stored v = v).
Proof.
  intros Hv. split; [by apply Decode_made|apply stored_plain].
Qed.

(** ** Decoding what any producer stored *)

(** [data] is an encoding of type [t]. *)
Definition decodable (t : Z) (data : bytes) : bool :=
  if (t =? TypeSZ) || (t =? TypeExpandSZ) || (t =? TypeLink) then utf8_valid (unterminated data)
  else if (t =? TypeDWORD) || (t =? TypeDWORDBigEndian) then zlen data =? 4
  else if t =? TypeQWORD then zlen data =? 8
  else if t =? TypeMultiSZ then forallb utf8_valid (pieces data)
  else true.

(** The bytes the library itself writes for the value [data] stands for. *)
Definition canonical (t : Z) (data : bytes) : bytes :=
  if t =? TypeNone then []
  else if (t =? TypeSZ) || (t =? TypeExpandSZ) || (t =? TypeLink) then unterminated data ++ [x00]
  else if t =? TypeMultiSZ then encodeMultiSZ (pieces data)
  else data.

Lemma string_case t data : (utf8_valid (unterminated data) = true -> made (mkValue t (unterminated data) [] 0 [])) ->
  (t =? TypeSZ) || (t =? TypeExpandSZ) || (t =? TypeLink) = true ->
  match (s ← decodeSZ data; Ok (mkValue t s [] 0 [])) with
  | Ok v => utf8_valid (unterminated data) = true /\ Kind v = t /\ made v /\ stored v = v
            /\ Encode v = (t, unterminated data ++ [x00])
  | Err e => utf8_valid (unterminated data) = false /\ errors_is e ErrMalformedValue = true
  | Panic => False
  end.
Proof.
  intros Hm Ht. rewrite decodeSZ_spec. destruct (utf8_valid (unterminated data)); [|done]. rewrite bind_Ok.
  split_and!; [done|done|auto|done|]. unfold Encode. cbn [typ RegValue.s]. rewrite Ht.
  destruct (Z.eqb_spec t TypeNone) as [->|]; [|done]. revert Ht. by reg_tags.
Qed.

Lemma fixed_le n data : zlen data = Z.of_nat n ->
  get_le n data = Ok (le_dec data) /\ fits (8 * Z.of_nat n) (le_dec data)
  /\ le_enc n (wrap (8 * Z.of_nat n) (le_dec data)) = data.
Proof.
  intros Hl. assert (Hn : length data = n) by (unfold zlen in Hl; lia).
  rewrite get_le_ok, take_ge by lia. pose proof (le_dec_bound data) as Hb. rewrite Hl, pow256_2 in Hb by lia.
  split_and!; [done|apply Hb|]. unfold wrap. rewrite Z.mod_small by done. by apply le_enc_dec_len.
Qed.

Lemma fixed_be n data : zlen data = Z.of_nat n ->
  get_be n data = Ok (be_dec data) /\ fits (8 * Z.of_nat n) (be_dec data)
  /\ be_enc n (wrap (8 * Z.of_nat n) (be_dec data)) = data.
Proof.
  intros Hl. assert (Hn : length data = n) by (unfold zlen in Hl; lia).
  unfold get_be. destruct (Z.ltb_spec (zlen data) (Z.of_nat n)); [lia|]. rewrite take_ge by lia.
  pose proof (be_dec_bound data) as Hb. rewrite Hl, pow256_2 in Hb by lia.
  split_and!; [done|apply Hb|]. unfold wrap. rewrite Z.mod_small by done. by apply be_enc_dec_len.
Qed.

(** A REG_DWORD is four bytes, little endian. *)
Lemma Decode_DWORD data : match Decode REG_DWORD data with
  | Ok v => exists n, v = DWORD n /\ fits 32 n /\ data = le_enc 4 n
  | Err _ => zlen data <> 4
  | Panic => False
  end.
Proof.
  unfold Decode. reg_tags. destruct (Z.eqb_spec (zlen data) 4); [|done]. cbn [negb].
  destruct (fixed_le 4 data) as (->&Hf&He); [lia|]. rewrite bind_Ok. exists (le_dec data).
  split_and!; [done|exact Hf|]. by rewrite le_enc_dec_len by (unfold zlen in *; lia).
Qed.

Lemma Decode_exact t data :
  match Decode t data with
  | Ok v => decodable t data = true /\ Kind v = t /\ made v /\ stored v = v /\ Encode v = (t, canonical t data)
  | Err e => decodable t data = false /\ errors_is e ErrMalformedValue = true
  | Panic => False
  end.
Proof.
  unfold Decode, decodable, canonical.
  destruct (Z.eqb_spec t TypeNone) as [->|N0].
  { cbn [None_ typ]. reg_tags. split_and!; [done..|constructor|done|]. unfold Encode. cbn [None_ typ]. by reg_tags. }
  destruct (Z.eqb_spec t TypeSZ) as [->|N1].
  { cbn [orb]. apply string_case; [by constructor|by reg_tags]. }
  destruct (Z.eqb_spec t TypeExpandSZ) as [->|N2].
  { cbn [orb]. apply string_case; [by constructor|by reg_tags]. }
  destruct (Z.eqb_spec t TypeLink) as [->|N3].
  { cbn [orb]. apply string_case; [by constructor|by reg_tags]. }
  cbn [orb]. destruct (Z.eqb_spec t TypeBinary) as [->|N4].
  { reg_tags. split_and!; [done|done|constructor|done|]. unfold Encode. cbn [Binary typ]. by reg_tags. }
  destruct (Z.eqb_spec t TypeDWORD) as [->|N5].
  { reg_tags. destruct (Z.eqb_spec (zlen data) 4); [|done]. cbn [negb].
    destruct (fixed_le 4 data) as (->&?&?); [lia|]. rewrite bind_Ok.
    split_and!; [done|done|by constructor|done|]. unfold Encode. cbn [DWORD typ num]. reg_tags. by f_equal. }
  destruct (Z.eqb_spec t TypeDWORDBigEndian) as [->|N6].
  { reg_tags. destruct (Z.eqb_spec (zlen data) 4); [|done]. cbn [negb].
    destruct (fixed_be 4 data) as (->&?&?); [lia|]. rewrite bind_Ok.
    split_and!; [done|done|by constructor|done|]. unfold Encode. cbn [DWORDBigEndian typ num]. reg_tags. by f_equal. }
  cbn [orb]. destruct (Z.eqb_spec t TypeMultiSZ) as [->|N7].
  { reg_tags. rewrite decodeMultiSZ_spec. destruct (forallb utf8_valid (pieces data)) eqn:Ev; [|done].
    rewrite bind_Ok. split_and!; [done|done|by constructor; apply pieces_concat_valid| |].
    - apply stored_plain, pieces_are_plain.
    - unfold Encode. cbn [typ list_]. by reg_tags. }
  destruct (Z.eqb_spec t TypeQWORD) as [->|N8].
  { reg_tags. destruct (Z.eqb_spec (zlen data) 8); [|done]. cbn [negb].
    destruct (fixed_le 8 data) as (->&?&?); [lia|]. rewrite bind_Ok.
    split_and!; [done|done|by constructor|done|]. unfold Encode. cbn [QWORD typ num]. reg_tags.
    f_equal. rewrite <- (Z.mod_small (le_dec data) (2 ^ 64)) at 1; done. }
  assert (Hk : isKnown t = false).
  { unfold isKnown. rewrite bool_decide_eq_false, !not_elem_of_cons. split_and!; auto. apply not_elem_of_nil. }
  split_and!; [done|done|by constructor|done|]. apply unknown_tag in Hk as (?&?&?&?&?&?&?&?&?).
  unfold Encode. cbn [Other typ b]. reg_tags.
  by repeat (cbn [orb fst snd]; match goal with H : (t =? _) = false |- context [t =? _] => rewrite !H end).
Qed.

(** [C25] Decoding never panics; it fails, with ErrMalformedValue, exactly on bytes that do not fit a
    known type: a fixed-width type of another width, a string that is not UTF-8.  Otherwise it gives
    a value of the given type, well made, that encodes to the same bytes but for the terminators of
    strings, the empty strings of a list, and the payload of a REG_NONE; an unknown type keeps its
    bytes verbatim.  And what a constructor made comes back from its encoding: the same type and payload,
    but for the empty strings and the parts behind embedded NULs of a string list. *)
Theorem Decode_spec :
  (forall t data, match Decode t data with
   | Ok v => decodable t data = true /\ Kind v = t /\ made v /\ stored v = v /\ Encode v = (t, canonical t data)
   | Err e => decodable t data = false /\ errors_is e ErrMalformedValue = true
   | Panic => False
   end)
  /\ (forall v, made v -> Decode (Encode v).1 (Encode v).2 = Ok (stored v)
        /\ (Forall (fun s => s <> [] /\ x00 ∉ s) (list_ v) -> stored v = v)).
Proof. split; [apply Decode_exact|]. intros v Hv. split; [by apply Decode_made|apply stored_plain]. Qed.
End spec.

Lemma Decode_Encode_witness :
  let v := @MultiSZ pkm [str "one"; []; str "two"] in
  @made pkm v /\ @Decode pkm (@Encode pkm v).1 (@Encode pkm v).2 = Ok (stored v)
  /\ stored v = @MultiSZ pkm [str "one"; str "two"].
Proof.
  cbv zeta. assert (Hm : @made pkm (@MultiSZ pkm [str "one"; []; str "two"])).
  { constructor. apply (bool_decide_unpack _). vm_compute. exact I. }
  split; [exact Hm|]. split; [exact (proj1 (@Decode_Encode pkm pkm_RegLaws _ Hm))|reflexivity].
Defined.

Lemma Decode_spec_witness :
  @Decode pkm 4 [x01; x00; x00] = Err malformed
  /\ match @Decode pkm 4 [x01; x00; x00] with
     | Ok v => @decodable pkm 4 [x01; x00; x00] = true /\ Kind v = 4 /\ @made pkm v /\ stored v = v
               /\ @Encode pkm v = (4, @canonical pkm 4 [x01; x00; x00])
     | Err e => @decodable pkm 4 [x01; x00; x00] = false /\ errors_is e ErrMalformedValue = true
     | Panic => False
     end
  /\ let v := @MultiSZ pkm [str "one"; []; str "two"] in @Decode pkm (@Encode pkm v).1 (@Encode pkm v).2 = Ok (stored v).
Proof.
  split; [reflexivity|]. split; [exact (proj1 (@Decode_spec pkm pkm_RegLaws) 4 [x01; x00; x00])|].
  refine (proj1 (proj2 (@Decode_spec pkm pkm_RegLaws) (@MultiSZ pkm [str "one"; []; str "two"]) _)).
  constructor. apply (bool_decide_unpack _). vm_compute. exact I.
Defined.
End RegValue.
