(* ===== verification/RegWire.v ===== *)
(** * RegWire: what the registry reads back in one buffer

    The two packed buffers the kernel fills: the values of a key (parseBatch of
    registry/read.go) and the change events of a watch (parseEvents of
    registry/watch.go). *)

From S2P Require Import Prelude Outcome Codec Uapi RegValue.

Module RegWire.
Section defs.
Context {U : Uapi}.

(** ** A key's values in one batch *)

Record NamedValue := mkNamedValue { Name : bytes; Value : RegValue.Value }.

Fixpoint parseBatch_loop (count : nat) (buf : bytes) (off : Z) (out : list NamedValue)
    : outcome (list NamedValue) :=
  match count with
  | O => Ok out
  | S count =>
      if zlen buf <? off + 4 then Ok out else
      nameLen ← get_le_at 4 buf off;
      let off := off + 4 in
      if zlen buf <? off + nameLen then Ok out else
      name ← slice buf off (off + nameLen);
      let off := off + nameLen in
      if zlen buf <? off + 8 then Ok out else
      t ← get_le_at 4 buf off;
      dataLen ← get_le_at 4 buf (off + 4);
      let off := off + 8 in
      if zlen buf <? off + dataLen then Ok out else
      data ← slice buf off (off + dataLen);
      v ← RegValue.Decode t data;
      parseBatch_loop count buf (off + dataLen) (out ++ [mkNamedValue name v])
  end.

(** [make([]NamedValue, 0, count)] panics on a negative count; [range count] counts up. *)
Definition parseBatch (buf : bytes) (count : Z) : outcome (list NamedValue) :=
  if count <? 0 then Panic else parseBatch_loop (Z.to_nat count) buf 0 [].

(** ** Change events *)

Record WatchEvent := mkEvent { Type_ : Z; EName : bytes; Path : list bytes }.

Definition EventValueSet : Z := REG_WATCH_VALUE_SET.
Definition EventValueDeleted : Z := REG_WATCH_VALUE_DELETED.
Definition EventSubkeyCreated : Z := REG_WATCH_SUBKEY_CREATED.
Definition EventSubkeyDeleted : Z := REG_WATCH_SUBKEY_DELETED.
Definition EventSDChanged : Z := REG_WATCH_SD_CHANGED.
Definition EventKeyDeleted : Z := REG_WATCH_KEY_DELETED.
Definition EventOverflow : Z := REG_WATCH_OVERFLOW.

(** [for range depth] over the components at [p], with its two breaks. *)
Fixpoint read_path (depth : nat) (rec : bytes) (p : Z) (path : list bytes) : outcome (list bytes) :=
  match depth with
  | O => Ok path
  | S depth =>
      if zlen rec <? p + REG_WATCH_PATH_COMPONENT_LEN_SIZE then Ok path else
      clen ← get_le_at 2 rec p;
      let p := p + REG_WATCH_PATH_COMPONENT_LEN_SIZE in
      if zlen rec <? p + clen then Ok path else
      c ← slice rec p (p + clen);
      read_path depth rec (p + clen) (path ++ [c])
  end.

(** One record: the body of the loop of [parseEvents]. *)
Definition parse_record (rec : bytes) : outcome WatchEvent :=
  type ← get_le_at 2 rec REG_WATCH_EVENT_TYPE_OFFSET;
  nameLen ← get_le_at 2 rec REG_WATCH_EVENT_NAME_LEN_OFFSET;
  let p := REG_WATCH_EVENT_NAME_OFFSET in
  '(name, p) ← (if p + nameLen <=? zlen rec
                then name ← slice rec p (p + nameLen); Ok (name, p + nameLen)
                else Ok ([], p));
  path ← (if p + REG_WATCH_SUBTREE_PATH_DEPTH_SIZE <=? zlen rec
          then depth ← get_le_at 2 rec p;
               read_path (Z.to_nat depth) rec (p + REG_WATCH_SUBTREE_PATH_DEPTH_SIZE) []
          else Ok []);
  Ok (mkEvent type name path).

(** The loop has no counter: [fuel] bounds the records, and running out of it, which
    [parseEvents_total] excludes, would be a [Panic]. *)
Fixpoint parseEvents_loop (fuel : nat) (buf : bytes) (off : Z) (out : list WatchEvent)
    : outcome (list WatchEvent) :=
  if zlen buf <? off + REG_WATCH_EVENT_MIN_SIZE then Ok out else
  match fuel with
  | O => Panic
  | S fuel =>
      totalLen ← get_le_at 4 buf (off + REG_WATCH_EVENT_TOTAL_LEN_OFFSET);
      if (totalLen <? REG_WATCH_EVENT_MIN_SIZE) || (zlen buf <? off + totalLen) then Ok out else
      rec ← slice buf off (off + totalLen);
      ev ← parse_record rec;
      parseEvents_loop fuel buf (off + totalLen) (out ++ [ev])
  end.
Definition parseEvents (buf : bytes) : outcome (list WatchEvent) :=
  parseEvents_loop (length buf) buf 0 [].

(** ** The formats the parsers are documented to read *)

(** [[name_len u32][name][type u32][data_len u32][data]] *)
Definition pack_value (e : bytes * (Z * bytes)) : bytes :=
  let '(name, (t, data)) := e in
  le_enc 4 (zlen name) ++ name ++ le_enc 4 t ++ le_enc 4 (zlen data) ++ data.
Definition packable (e : bytes * (Z * bytes)) : Prop :=
  let '(name, (t, data)) := e in fits 32 (zlen name) /\ fits 32 t /\ fits 32 (zlen data).
Definition unpack_value (e : bytes * (Z * bytes)) : outcome NamedValue :=
  v ← RegValue.Decode e.2.1 e.2.2; Ok (mkNamedValue e.1 v).
Fixpoint unpack_values (es : list (bytes * (Z * bytes))) : outcome (list NamedValue) :=
  match es with
  | [] => Ok []
  | e :: es => nv ← unpack_value e; nvs ← unpack_values es; Ok (nv :: nvs)
  end.

(** A record of a watch: its type, its name, and the path of a subtree event. *)
Record record_ := mkRecord { r_type : Z; r_name : bytes; r_path : option (list bytes) }.

Definition pack_component (c : bytes) : bytes := le_enc 2 (zlen c) ++ c.
Definition pack_path (p : option (list bytes)) : bytes :=
  match p with
  | None => []
  | Some cs => le_enc 2 (zlen cs) ++ concat (pack_component <$> cs)
  end.
Definition record_body (r : record_) : bytes :=
  le_enc 2 (r_type r) ++ le_enc 2 (zlen (r_name r)) ++ r_name r ++ pack_path (r_path r).
Definition pack_record (r : record_) : bytes := le_enc 4 (4 + zlen (record_body r)) ++ record_body r.
Definition record_ok (r : record_) : Prop :=
  fits 16 (r_type r) /\ fits 16 (zlen (r_name r)) /\ fits 32 (4 + zlen (record_body r))
  /\ match r_path r with
     | None => True
     | Some cs => fits 16 (zlen cs) /\ Forall (fun c : bytes => fits 16 (zlen c)) cs
     end.
Definition event_of (r : record_) : WatchEvent := mkEvent (r_type r) (r_name r) (default [] (r_path r)).
End defs.

(** Where a field of a buffer lies: an append up to associativity, or a length. *)
#[local] Ltac side := first [done | by len | repeat match goal with b := _ |- _ => subst b end; app_eq].

Section proofs.
Context {U : Uapi}.

(** ** Batches *)

Lemma parseBatch_loop_step p name t data rest count (out : list NamedValue) :
  packable (name, (t, data)) ->
  parseBatch_loop (S count) (p ++ pack_value (name, (t, data)) ++ rest) (zlen p) out =
    (v ← RegValue.Decode t data;
     parseBatch_loop count ((p ++ pack_value (name, (t, data))) ++ rest)
       (zlen (p ++ pack_value (name, (t, data)))) (out ++ [mkNamedValue name v])).
Proof.
  intros (Hn & Ht & Hd). cbn [parseBatch_loop pack_value]. cbv zeta.
  set (buf := p ++ _ ++ rest).
  assert (Hl : zlen buf = zlen p + 4 + zlen name + 8 + zlen data + zlen rest) by (unfold buf; len).
  pose proof (zlen_nonneg name). pose proof (zlen_nonneg data). pose proof (zlen_nonneg rest).
  destruct (Z.ltb_spec (zlen buf) (zlen p + 4)); [lia|].
  rewrite (get_le_at_is 4 buf p (zlen name) (name ++ le_enc 4 t ++ le_enc 4 (zlen data) ++ data ++ rest))
    by side.
  rewrite bind_Ok. destruct (Z.ltb_spec (zlen buf) (zlen p + 4 + zlen name)); [lia|].
  rewrite (slice_is buf (p ++ le_enc 4 (zlen name)) name (le_enc 4 t ++ le_enc 4 (zlen data) ++ data ++ rest))
    by side.
  rewrite bind_Ok. destruct (Z.ltb_spec (zlen buf) (zlen p + 4 + zlen name + 8)); [lia|].
  rewrite (get_le_at_is 4 buf (p ++ le_enc 4 (zlen name) ++ name) t (le_enc 4 (zlen data) ++ data ++ rest) (zlen p + 4 + zlen name))
    by side.
  rewrite bind_Ok.
  rewrite (get_le_at_is 4 buf (p ++ le_enc 4 (zlen name) ++ name ++ le_enc 4 t) (zlen data) (data ++ rest))
    by side.
  rewrite bind_Ok. destruct (Z.ltb_spec (zlen buf) (zlen p + 4 + zlen name + 8 + zlen data)); [lia|].
  rewrite (slice_is buf (p ++ le_enc 4 (zlen name) ++ name ++ le_enc 4 t ++ le_enc 4 (zlen data)) data rest)
    by side.
  rewrite bind_Ok. destruct (RegValue.Decode t data); [|done|done]. rewrite !bind_Ok. f_equal; [unfold buf; app_eq|len].
Qed.

Lemma parseBatch_loop_spec es p rest (out : list NamedValue) : Forall packable es ->
  parseBatch_loop (length es) (p ++ concat (pack_value <$> es) ++ rest) (zlen p) out
  = app out <$> unpack_values es.
Proof.
  revert p out. induction es as [|[name [t data]] es IH]; intros p out Hes.
  { cbn [length parseBatch_loop unpack_values fmap outcome_fmap]. by rewrite app_nil_r. }
  apply Forall_cons in Hes as [He Hes]. cbn [length fmap list_fmap concat].
  rewrite <- app_assoc, parseBatch_loop_step by done.
  cbn [unpack_values]. unfold unpack_value. cbn [fst snd].
  destruct (RegValue.Decode t data) as [v|e|]; [|done|done]. rewrite !bind_Ok, IH by done.
  destruct (unpack_values es); [|done|done]. unfold fmap. cbn. by rewrite <- app_assoc.
Qed.

Lemma parseBatch_all es rest : Forall packable es ->
  parseBatch (concat (pack_value <$> es) ++ rest) (zlen es) = unpack_values es.
Proof.
  intros Hes. unfold parseBatch. pose proof (zlen_nonneg es). destruct (Z.ltb_spec (zlen es) 0); [lia|].
  unfold zlen. rewrite Nat2Z.id, (parseBatch_loop_spec es [] rest) by done.
  by destruct (unpack_values es).
Qed.

(** A batch of packed values reads back value by value, in order: each is decoded from its own
    type and bytes, whatever follows in the buffer, and the first malformed one fails the batch. *)
Theorem parseBatch_packed es rest : Forall packable es ->
  parseBatch (concat (pack_value <$> es) ++ rest) (zlen es) = unpack_values es.
Proof. apply parseBatch_all. Qed.

(** ** Events *)
Context {L : WatchLaws U}.

(** A record of a read is cut short: fewer bytes than it has, or than it claims. *)
Definition truncated (rest : bytes) : Prop := exists r n, record_ok r /\ rest = take n (pack_record r) /\ (n < length (pack_record r))%nat.

Lemma read_path_packed cs p path : Forall (fun c : bytes => fits 16 (zlen c)) cs ->
  read_path (length cs) (p ++ concat (pack_component <$> cs)) (zlen p) path = Ok (path ++ cs).
Proof.
  revert p path. induction cs as [|c cs IH]; intros p path Hcs.
  { cbn [length read_path]. by rewrite app_nil_r. }
  apply Forall_cons in Hcs as [Hc Hcs]. cbn [length read_path fmap list_fmap concat].
  rewrite watch_clen. change (pack_component c) with (le_enc 2 (zlen c) ++ c). set (buf := p ++ _).
  assert (Hl : zlen buf = zlen p + 2 + zlen c + zlen (concat (pack_component <$> cs))) by (unfold buf; len).
  pose proof (zlen_nonneg c). pose proof (zlen_nonneg (concat (pack_component <$> cs))).
  destruct (Z.ltb_spec (zlen buf) (zlen p + 2)); [lia|].
  rewrite (get_le_at_is 2 buf p (zlen c) (c ++ concat (pack_component <$> cs))) by side.
  rewrite bind_Ok. cbv zeta. destruct (Z.ltb_spec (zlen buf) (zlen p + 2 + zlen c)); [lia|].
  rewrite (slice_is buf (p ++ le_enc 2 (zlen c)) c (concat (pack_component <$> cs))) by side.
  rewrite bind_Ok. replace (path ++ c :: cs) with ((path ++ [c]) ++ cs) by app_eq.
  rewrite <- (IH (p ++ le_enc 2 (zlen c) ++ c)) by done. f_equal; [unfold buf; app_eq|len].
Qed.

Lemma parse_record_packed r : record_ok r -> parse_record (pack_record r) = Ok (event_of r).
Proof.
  intros (Ht & Hn & Hb & Hp). unfold parse_record. rewrite watch_type, watch_name_len, watch_name, watch_depth.
  set (buf := pack_record r). unfold pack_record, record_body in buf.
  set (h := le_enc 4 _) in buf. assert (Hh : zlen h = 4) by (unfold h; len).
  assert (Hl : zlen buf = 8 + zlen (r_name r) + zlen (pack_path (r_path r))) by (unfold buf; len).
  pose proof (zlen_nonneg (r_name r)). pose proof (zlen_nonneg (pack_path (r_path r))).
  rewrite (get_le_at_is 2 buf h (r_type r) (le_enc 2 (zlen (r_name r)) ++ r_name r ++ pack_path (r_path r)) 4) by side.
  rewrite bind_Ok.
  rewrite (get_le_at_is 2 buf (h ++ le_enc 2 (r_type r)) (zlen (r_name r)) (r_name r ++ pack_path (r_path r)) 6) by side.
  rewrite bind_Ok. cbv zeta. destruct (Z.leb_spec (8 + zlen (r_name r)) (zlen buf)); [|lia].
  rewrite (slice_is buf (h ++ le_enc 2 (r_type r) ++ le_enc 2 (zlen (r_name r))) (r_name r) (pack_path (r_path r))) by side.
  rewrite !bind_Ok. destruct (r_path r) as [cs|] eqn:Er; cbn [pack_path] in *; unfold event_of; rewrite Er.
  - destruct Hp as [Hc Hcs]. destruct (Z.leb_spec (8 + zlen (r_name r) + 2) (zlen buf)); [|len].
    set (pre := h ++ le_enc 2 (r_type r) ++ le_enc 2 (zlen (r_name r)) ++ r_name r).
    assert (Hpre : zlen pre = 8 + zlen (r_name r)) by (unfold pre; len).
    rewrite (get_le_at_is 2 buf pre (zlen cs) (concat (pack_component <$> cs))) by first [by len|unfold buf, pre; app_eq|apply Hc].
    rewrite bind_Ok. unfold zlen at 1. rewrite Nat2Z.id.
    replace buf with ((pre ++ le_enc 2 (zlen cs)) ++ concat (pack_component <$> cs)) by (unfold buf, pre; app_eq).
    replace (8 + zlen (r_name r) + 2) with (zlen (pre ++ le_enc 2 (zlen cs))) by len.
    by rewrite read_path_packed.
  - destruct (Z.leb_spec (8 + zlen (r_name r) + 2) (zlen buf)); [unfold zlen in *; simpl in *; lia|done].
Qed.

Lemma record_length r : record_ok r -> 8 <= zlen (pack_record r).
Proof. intros _. unfold pack_record, record_body. len. Qed.

(** The prefix of a record that was cut short holds its length word, or less than a header. *)
Lemma truncated_stops rest : truncated rest ->
  zlen rest < 8 \/ exists v s, rest = le_enc 4 v ++ s /\ fits 32 v /\ zlen rest < v.
Proof.
  intros (r & n & Hr & -> & Hn). destruct (decide (n < 8)%nat) as [|Hn8]; [left; len|right].
  pose proof (proj1 (proj2 (proj2 Hr))) as Hf. exists (4 + zlen (record_body r)), (take (n - 4) (record_body r)).
  unfold pack_record in *. rewrite length_app, length_le_enc in Hn. rewrite take_app, length_le_enc, take_ge by (rewrite length_le_enc; lia).
  destruct Hr as (?&?&?&?). split_and!; [done|apply Hf|]. len. unfold zlen in *. lia.
Qed.

Lemma parseEvents_loop_stop fuel p rest (out : list WatchEvent) : truncated rest -> (length rest <= fuel)%nat ->
  parseEvents_loop fuel (p ++ rest) (zlen p) out = Ok out.
Proof.
  intros Ht Hf. destruct fuel as [|fuel]; cbn [parseEvents_loop]; rewrite watch_min_size, ?watch_total_len, ?Z.add_0_r;
    (destruct (Z.ltb_spec (zlen (p ++ rest)) (zlen p + 8)); [done|]); [len; unfold zlen in *; lia|].
  apply truncated_stops in Ht as [Hl|(v & s & -> & Hv & Hl)]; [len|].
  rewrite get_le_at_app by done. rewrite bind_Ok.
  destruct (Z.ltb_spec (zlen (p ++ le_enc 4 v ++ s)) (zlen p + v)); [by rewrite orb_true_r|len].
Qed.

Lemma parseEvents_loop_packed rs p rest fuel (out : list WatchEvent) :
  Forall record_ok rs -> truncated rest -> (8 * length rs + length rest <= fuel)%nat ->
  parseEvents_loop fuel (p ++ concat (pack_record <$> rs) ++ rest) (zlen p) out = Ok (out ++ (event_of <$> rs)).
Proof.
  intros Hrs Ht. revert p out fuel. induction rs as [|r rs IH]; intros p out fuel Hf.
  { cbn [fmap list_fmap concat app]. rewrite app_nil_r. by apply parseEvents_loop_stop; [|simpl in *; lia]. }
  apply Forall_cons in Hrs as [Hr Hrs]. specialize (IH Hrs). cbn [fmap list_fmap concat]. simpl length in Hf.
  destruct fuel as [|fuel]; [lia|]. cbn [parseEvents_loop]. rewrite watch_min_size, watch_total_len, Z.add_0_r.
  set (buf := p ++ _). set (tail_ := concat (pack_record <$> rs) ++ rest).
  assert (Hb : buf = p ++ pack_record r ++ tail_) by (unfold buf, tail_; app_eq).
  assert (Hl : zlen buf = zlen p + zlen (pack_record r) + zlen tail_) by (rewrite Hb; len).
  pose proof (record_length r Hr). pose proof (zlen_nonneg tail_).
  destruct (Z.ltb_spec (zlen buf) (zlen p + 8)); [lia|].
  assert (Hz : zlen (pack_record r) = 4 + zlen (record_body r)) by (unfold pack_record; len).
  rewrite (get_le_at_is 4 buf p (zlen (pack_record r)) (record_body r ++ tail_)).
  2: { rewrite Hb, Hz. unfold pack_record. app_eq. } 2: done. 2: { rewrite Hz. apply Hr. }
  rewrite bind_Ok. destruct (Z.ltb_spec (zlen (pack_record r)) 8); [lia|].
  destruct (Z.ltb_spec (zlen buf) (zlen p + zlen (pack_record r))); [lia|]. cbn [orb].
  rewrite (slice_is buf p (pack_record r) tail_) by done. rewrite bind_Ok, parse_record_packed, bind_Ok by done.
  replace buf with ((p ++ pack_record r) ++ concat (pack_record <$> rs) ++ rest) by (rewrite Hb; unfold tail_; app_eq).
  rewrite <- zlen_app, IH by lia. by rewrite <- app_assoc.
Qed.

(** Whatever is in the buffer, the loop finishes with what it appends to [out]. *)
Lemma read_path_total depth rec p path : 0 <= p -> exists cs, read_path depth rec p path = Ok cs.
Proof.
  revert p path. induction depth as [|d IH]; intros p path Hp; cbn [read_path]; [eauto|]. rewrite watch_clen.
  destruct (Z.ltb_spec (zlen rec) (p + 2)); [eauto|].
  destruct (get_le_at 2 rec p) as [c|e|] eqn:Ec; try by rewrite get_le_at_ok in Ec by lia.
  apply get_le_at_Ok_inv in Ec as (_&_&Hc&_). rewrite bind_Ok. cbv zeta.
  destruct (Z.ltb_spec (zlen rec) (p + 2 + c)); [eauto|]. rewrite slice_ok by lia. rewrite bind_Ok. apply IH. lia.
Qed.

Lemma parse_record_total rec : 8 <= zlen rec -> exists ev, parse_record rec = Ok ev.
Proof.
  intros Hl. unfold parse_record. rewrite watch_type, watch_name_len, watch_name, watch_depth.
  rewrite (get_le_at_ok 2 rec 4), bind_Ok by lia. destruct (get_le_at 2 rec 6) as [n|e|] eqn:En; try by rewrite get_le_at_ok in En by lia.
  apply get_le_at_Ok_inv in En as (_&_&Hn&_). rewrite bind_Ok. cbv zeta.
  assert (exists nm p, (if 8 + n <=? zlen rec then name ← slice rec 8 (8 + n); Ok (name, 8 + n) else Ok ([], 8)) = Ok (nm, p) /\ 0 <= p)
    as (nm & p & -> & Hp).
  { destruct (Z.leb_spec (8 + n) (zlen rec)); [rewrite slice_ok by lia|]; eexists _, _; split; try reflexivity; lia. }
  rewrite bind_Ok. destruct (Z.leb_spec (p + 2) (zlen rec)); [|eauto].
  rewrite get_le_at_ok, bind_Ok by lia. edestruct read_path_total as [cs ->]; [|rewrite bind_Ok; eauto]. lia.
Qed.

Lemma parseEvents_loop_total fuel buf off (out : list WatchEvent) : 0 <= off -> zlen buf - off < 8 + Z.of_nat fuel ->
  exists evs, parseEvents_loop fuel buf off out = Ok (out ++ evs) /\ 8 * zlen evs <= Z.max 0 (zlen buf - off).
Proof.
  revert off out. induction fuel as [|fuel IH]; intros off out Ho Hf; cbn [parseEvents_loop];
    rewrite watch_min_size; (destruct (Z.ltb_spec (zlen buf) (off + 8)); [exists []; rewrite app_nil_r; split; [done|len]|]); [lia|].
  rewrite watch_total_len, Z.add_0_r.
  destruct (get_le_at 4 buf off) as [n|e|] eqn:En; try by rewrite get_le_at_ok in En by lia.
  rewrite bind_Ok. destruct (Z.ltb_spec n 8); [exists []; rewrite app_nil_r; split; [done|len]|].
  destruct (Z.ltb_spec (zlen buf) (off + n)); [exists []; rewrite app_nil_r; split; [done|len]|]. cbn [orb].
  rewrite slice_ok, bind_Ok by lia. destruct (parse_record_total (zseg off (off + n) buf)) as [ev ->]; [rewrite zlen_zseg; lia|].
  rewrite bind_Ok. destruct (IH (off + n) (out ++ [ev])) as (evs & -> & Hz); [lia|lia|].
  exists (ev :: evs). split; [by rewrite <- app_assoc|len].
Qed.

Lemma truncated_nil rest : truncated rest -> truncated [].
Proof. intros (r & n & Hr & _ & Hn). exists r, O. split_and!; [done|done|lia]. Qed.

(** [C26] Reading change events never panics and finishes on any buffer, with at most one event per
    eight bytes.  Records packed as documented read back as their events, in order: direct events
    with an empty path, subtree events with theirs; a record cut short at the end is dropped. *)
Theorem parseEvents_packed buf rs rest :
  Forall record_ok rs -> truncated rest ->
  (exists evs, parseEvents buf = Ok evs /\ 8 * zlen evs <= zlen buf)
  /\ parseEvents (concat (pack_record <$> rs) ++ rest) = Ok (event_of <$> rs)
  /\ parseEvents (concat (pack_record <$> rs)) = Ok (event_of <$> rs).
Proof.
  intros Hrs Ht. assert (Hlen : 8 * zlen rs <= zlen (concat (pack_record <$> rs))).
  { clear Ht. induction Hrs as [|r rs Hr Hrs IH]; [by vm_compute|]. cbn [fmap list_fmap concat].
    pose proof (record_length r Hr). len. }
  split_and!.
  - destruct (parseEvents_loop_total (length buf) buf 0 []) as (evs & He & Hz); [lia|unfold zlen; lia|].
    exists evs. split; [done|len].
  - apply (parseEvents_loop_packed rs []); [done..|]. rewrite length_app. unfold zlen in *. lia.
  - unfold parseEvents. rewrite <- (app_nil_r (concat _)) at 2.
    apply (parseEvents_loop_packed rs []); [done| |unfold zlen in *; simpl; lia].
    by apply (truncated_nil rest).
Qed.
End proofs.

Lemma parseBatch_packed_witness :
  let es := [(str "Mode", (4, [x01; x00; x00; x00])); (str "Path", (1, str "C:"))] in
  Forall packable es
  /\ @parseBatch pkm (concat (pack_value <$> es) ++ [x00]) 2
     = Ok [mkNamedValue (str "Mode") (@RegValue.DWORD pkm 1); mkNamedValue (str "Path") (@RegValue.SZ pkm (str "C:"))].
Proof.
  intros es. assert (H : Forall packable es) by (repeat constructor; vm_compute; congruence).
  split; [exact H|]. exact (@parseBatch_packed pkm es [x00] H).
Defined.

Lemma parseEvents_packed_witness :
  let rs := [mkRecord 1 (str "Mode") None; mkRecord 2 (str "k") (Some [str "a"; str "b"])] in
  let rest := take 9 (pack_record (mkRecord 1 (str "Mode") None)) in
  Forall record_ok rs /\ truncated rest
  /\ @parseEvents pkm (concat (pack_record <$> rs) ++ rest)
     = Ok [mkEvent 1 (str "Mode") []; mkEvent 2 (str "k") [str "a"; str "b"]].
Proof.
  intros rs rest.
  assert (H : Forall record_ok rs).
  { repeat constructor; vm_compute; congruence. }
  assert (Ht : truncated rest).
  { exists (mkRecord 1 (str "Mode") None), 9%nat. split; [repeat constructor; vm_compute; congruence|].
    split; [reflexivity|apply Nat.ltb_lt; reflexivity]. }
  split; [exact H|split; [exact Ht|]].
  exact (proj1 (proj2 (@parseEvents_packed pkm pkm_WatchLaws [] rs rest H Ht))).
Defined.

End RegWire.
