(* ===== verification/RegKey.v ===== *)
(** * RegKey: keys, reads, writes and creates of the registry

    The requests the registry makes of the kernel and the operations over them:
    opening and creating keys (registry/registry.go, registry/create.go), the
    two-pass reads (registry/read.go), layered writes (registry/write.go) and
    watches (registry/watch.go).  A handle is its file descriptor; an operation
    that changes one (Close) returns the new one. *)

From S2P Require Import Prelude Outcome Uapi Kernel RegValue RegWire.

(** ** Requests *)

(** What the kernel writes into the argument structs and buffers of a read: the
    fields of the uapi structs that the code reads back, and the bytes written at
    the start of each buffer. *)
Record query_args := mkQuery {
  q_Type : Z; q_Data_len : Z; q_Layer_len : Z; q_Sequence : Z; q_data : bytes; q_layer : bytes
}.
Record batch_args := mkBatch { b_Buf_len : Z; b_Count : Z; b_buf : bytes }.
Record enum_args := mkEnum {
  e_Name_len : Z; e_Last_write_time : Z; e_Subkey_count : Z; e_Value_count : Z; e_name : bytes
}.
Record info_args := mkInfoArgs {
  i_Name_len : Z; i_Last_write_time : Z; i_Subkey_count : Z; i_Value_count : Z;
  i_Max_subkey_name_len : Z; i_Max_value_name_len : Z; i_Max_value_data_size : Z; i_Sd_size : Z;
  i_Volatile_key : Z; i_Symlink : Z; i_Hive_generation : Z; i_name : bytes
}.

(** A request carries what the kernel reads from the argument struct; its answer is the
    result register or what the kernel wrote back. *)
Inductive rcall : Type -> Type :=
  | OpenKey (parentFD : Z) (path : bytes) (access flags : Z) : rcall Z
  | CreateKey (parentFD : Z) (path : bytes) (access flags : Z) (layer : option bytes) (txnFD : Z) : rcall (Z * Z)
  | CloseFD (fd : Z) : rcall unit
  | QueryValue_ (fd : Z) (name : bytes) (txnFD data_len layer_len : Z) : rcall query_args
  | QueryValuesBatch (fd txnFD buf_len : Z) : rcall batch_args
  | EnumSubkeys (fd index txnFD name_len : Z) : rcall enum_args
  | QueryKeyInfo (fd name_len : Z) : rcall info_args
  | GetSecurity (fd secinfo sd_len : Z) : rcall (Z * bytes)
  | SetSecurity (fd secinfo : Z) (sd : bytes) (txnFD : Z) : rcall unit
  | Flush_ (fd : Z) : rcall unit
  | Backup_ (fd output_fd : Z) : rcall unit
  | Restore_ (fd input_fd : Z) : rcall unit
  | SetValue_ (fd : Z) (name : bytes) (type : Z) (data layer : bytes) (txnFD expected_seq : Z) : rcall unit
  | DeleteValue_ (fd : Z) (name layer : bytes) (txnFD : Z) : rcall unit
  | BlanketTombstone_ (fd : Z) (layer : bytes) (set txnFD : Z) : rcall unit
  | DeleteKey_ (fd : Z) (layer : bytes) (txnFD : Z) : rcall unit
  | HideKey_ (fd : Z) (layer : bytes) (txnFD : Z) : rcall unit
  | Notify_ (fd filter subtree : Z) : rcall unit
  | ReadFD (fd len : Z) : rcall (Z * bytes)
  | BeginTransaction : rcall Z
  | CommitTxn (fd : Z) : rcall unit
  | TxnStatus (fd : Z) : rcall Z
  (** the requests of the event package beside its registry reads *)
  | SetNonblock (fd : Z) : rcall unit
  | Now : rcall Z
  | KmesEmit (type payload : bytes) : rcall unit
  | KmesEmitBatch (entries : list (bytes * bytes)) : rcall Z.

Module RegKey.
Section defs.
Context {U : Uapi} {K : Type} {H : Kernel rcall K}.
Abbreviation R := (M rcall K).

(** ** Arguments *)

Definition parentNone : Z := -1.
Definition noTxn : Z := -1.
Definition dataCapHint : Z := 256.
Definition nameCapHint : Z := 64.
Definition sdCapHint : Z := 1024.
Definition maxProbeRetries : nat := 4.
Definition watchReadBuf : Z := 64 * 1024.

(** What the kernel reads through a [(uint32(len(b)), ptr)] pair. *)
Definition ptr_len (b : bytes) : bytes := take (Z.to_nat (wrap 32 (zlen b))) b.
Definition layerBytes (layer : bytes) : bytes := layer.
Definition boolU8 (b : bool) : Z := if b then 1 else 0.

(** ** Opening and closing *)

Definition openAt (parentFD : Z) (path : bytes) (access flags : Z) : R Z :=
  cpath ← lift (wrap_err "open: invalid path" (BytePtrFromString path));
  Sys.checked "open" (OpenKey parentFD cpath access flags).
Definition Open (path : bytes) (access : Z) : R Z := openAt parentNone path access 0.
Definition OpenSubkey (fd : Z) (path : bytes) (access : Z) : R Z := openAt fd path access 0.

(** [Key.Close]: the error, and the descriptor left in the handle. *)
Definition Close (fd : Z) : R (option err * Z) :=
  if fd <? 0 then mret (None, fd) else
  '(_, e) ← Sys.call_once (CloseFD fd);
  mret (Wrapf "close" <$> e, -1).

(** ** Creating *)

Record CreateOptions := mkCreate {
  c_parentFD : Z; c_path : bytes; c_access : Z; c_layer : bytes; c_flags : Z; c_txnFD : Z
}.
Definition createAt (parentFD : Z) (path : bytes) : CreateOptions :=
  mkCreate parentFD path KACS_ACCESS_MAXIMUM_ALLOWED [] 0 noTxn.
Definition Create (path : bytes) : CreateOptions := createAt parentNone path.
Definition CreateSubkey (fd : Z) (path : bytes) : CreateOptions := createAt fd path.
Definition Access (access : Z) (c : CreateOptions) : CreateOptions :=
  mkCreate (c_parentFD c) (c_path c) access (c_layer c) (c_flags c) (c_txnFD c).
Definition Layer (name : bytes) (c : CreateOptions) : CreateOptions :=
  mkCreate (c_parentFD c) (c_path c) (c_access c) name (c_flags c) (c_txnFD c).
Definition Volatile (c : CreateOptions) : CreateOptions :=
  mkCreate (c_parentFD c) (c_path c) (c_access c) (c_layer c) (Z.lor (c_flags c) REG_OPTION_VOLATILE) (c_txnFD c).
Definition CreateLink (c : CreateOptions) : CreateOptions :=
  mkCreate (c_parentFD c) (c_path c) (c_access c) (c_layer c) (Z.lor (c_flags c) REG_OPTION_CREATE_LINK) (c_txnFD c).
Definition withTxn (txnFD : Z) (c : CreateOptions) : CreateOptions :=
  mkCreate (c_parentFD c) (c_path c) (c_access c) (c_layer c) (c_flags c) txnFD.

(** [CreateOptions.Call]: the key and the disposition. *)
Definition Call (c : CreateOptions) : R (Z * Z) :=
  cpath ← lift (wrap_err "create: invalid path" (BytePtrFromString (c_path c)));
  clayer ← (if bool_decide (c_layer c = []) then mret None
            else cl ← lift (wrap_err "create: invalid layer" (BytePtrFromString (c_layer c))); mret (Some cl));
  Sys.checked "create"
    (CreateKey (int32 (c_parentFD c)) cpath (c_access c) (c_flags c) clayer (int32 (c_txnFD c))).

(** ** Reads *)

Record ValueHit := mkHit { Value : RegValue.Value; HLayer : bytes; Sequence : Z }.
Record Subkey := mkSubkey { SName : bytes; LastWriteTime : Z; SubkeyCount : Z; ValueCount : Z }.
Record KeyInfo := mkInfo {
  KName : bytes; KLastWriteTime : Z; KSubkeyCount : Z; KValueCount : Z; MaxSubkeyNameLen : Z;
  MaxValueNameLen : Z; MaxValueDataSize : Z; SDSize : Z; KVolatile : bool; KSymlink : bool; HiveGeneration : Z
}.

(** The rounds of the probe loops: the buffers of the next round, or the result. *)
Definition queryValue_round (fd : Z) (name : bytes) (txnFD : Z) (bufs : bytes * bytes)
    : R ((bytes * bytes) + ValueHit) :=
  let '(data, layer) := bufs in
  '(args, err) ← Sys.call (QueryValue_ fd (ptr_len name) (int32 txnFD) (wrap 32 (zlen data)) (wrap 32 (zlen layer)));
  if is_errno err Errno.ERANGE then mret (inl (make_bytes (q_Data_len args), make_bytes (q_Layer_len args))) else
  match err with
  | Some e => throw (Wrapf "query value" e)
  | None =>
      d ← lift (slice (go_copy data (q_data args)) 0 (q_Data_len args));
      v ← lift (RegValue.Decode (q_Type args) d);
      l ← lift (slice (go_copy layer (q_layer args)) 0 (q_Layer_len args));
      mret (inr (mkHit v l (q_Sequence args)))
  end.
Definition queryValueIn (fd : Z) (name : bytes) (txnFD : Z) : R ValueHit :=
  probe maxProbeRetries (queryValue_round fd name txnFD)
    (Wrapf "query value" (Errno Errno.ERANGE)) (make_bytes dataCapHint, make_bytes nameCapHint).

Definition QueryValue (fd : Z) (name : bytes) : R RegValue.Value :=
  h ← queryValueIn fd name noTxn; mret (Value h).
Definition QueryValueFull (fd : Z) (name : bytes) : R ValueHit := queryValueIn fd name noTxn.
(** A missing value is [None], with no error. *)
Definition tryQueryValueIn (fd : Z) (name : bytes) (txnFD : Z) : R (option RegValue.Value) :=
  r ← try_ (queryValueIn fd name txnFD);
  match r with
  | inr e => if errors_is e (Errno Errno.ENOENT) then mret None else throw e
  | inl h => mret (Some (Value h))
  end.
Definition TryQueryValue (fd : Z) (name : bytes) : R (option RegValue.Value) := tryQueryValueIn fd name noTxn.

Definition values_round (fd txnFD : Z) (buf : bytes) : R (bytes + list RegWire.NamedValue) :=
  '(args, err) ← Sys.call (QueryValuesBatch fd (int32 txnFD) (wrap 32 (zlen buf)));
  if is_errno err Errno.ERANGE then mret (inl (make_bytes (b_Buf_len args))) else
  match err with
  | Some e => throw (Wrapf "query values" e)
  | None =>
      d ← lift (slice (go_copy buf (b_buf args)) 0 (b_Buf_len args));
      vs ← lift (RegWire.parseBatch d (b_Count args));
      mret (inr vs)
  end.
Definition valuesIn (fd txnFD : Z) : R (list RegWire.NamedValue) :=
  probe maxProbeRetries (values_round fd txnFD)
    (Wrapf "query values" (Errno Errno.ERANGE)) (make_bytes (dataCapHint * 4)).
Definition Values (fd : Z) : R (list RegWire.NamedValue) := valuesIn fd noTxn.

(** Past the last subkey the result is [None]. *)
Definition enumSubkey_round (fd index txnFD : Z) (name : bytes) : R (bytes + option Subkey) :=
  '(args, err) ← Sys.call (EnumSubkeys fd index (int32 txnFD) (wrap 32 (zlen name)));
  if is_errno err Errno.ENOENT then mret (inr None)
  else if is_errno err Errno.ERANGE then mret (inl (make_bytes (e_Name_len args)))
  else match err with
  | Some e => throw (Wrapf "enum subkey" e)
  | None =>
      nm ← lift (slice (go_copy name (e_name args)) 0 (e_Name_len args));
      mret (inr (Some (mkSubkey nm (e_Last_write_time args) (e_Subkey_count args) (e_Value_count args))))
  end.
Definition enumSubkeyAt (fd index txnFD : Z) : R (option Subkey) :=
  probe maxProbeRetries (enumSubkey_round fd index txnFD)
    (Wrapf "enum subkey" (Errno Errno.ERANGE)) (make_bytes nameCapHint).

(** [for index := uint32(0); ; index++]: the source's loop has no bound, the model's runs on
    [fuel] and is [None], still running, when it has none left. *)
Fixpoint subkeys_loop (fuel : nat) (fd txnFD index : Z) (out : list Subkey) : R (list Subkey) :=
  match fuel with
  | O => fun _ => None
  | S fuel =>
      r ← enumSubkeyAt fd index txnFD;
      match r with
      | None => mret out
      | Some sk => subkeys_loop fuel fd txnFD (wrap 32 (index + 1)) (out ++ [sk])
      end
  end.
Definition subkeysIn (fuel : nat) (fd txnFD : Z) : R (list Subkey) := subkeys_loop fuel fd txnFD 0 [].
Definition Subkeys (fuel : nat) (fd : Z) : R (list Subkey) := subkeysIn fuel fd noTxn.

Definition info_round (fd : Z) (name : bytes) : R (bytes + KeyInfo) :=
  '(args, err) ← Sys.call (QueryKeyInfo fd (wrap 32 (zlen name)));
  if is_errno err Errno.ERANGE then mret (inl (make_bytes (i_Name_len args))) else
  match err with
  | Some e => throw (Wrapf "key info" e)
  | None =>
      nm ← lift (slice (go_copy name (i_name args)) 0 (i_Name_len args));
      mret (inr (mkInfo nm (i_Last_write_time args) (i_Subkey_count args) (i_Value_count args)
        (i_Max_subkey_name_len args) (i_Max_value_name_len args) (i_Max_value_data_size args) (i_Sd_size args)
        (negb (i_Volatile_key args =? 0)) (negb (i_Symlink args =? 0)) (i_Hive_generation args)))
  end.
Definition Info (fd : Z) : R KeyInfo :=
  probe maxProbeRetries (info_round fd) (Wrapf "key info" (Errno Errno.ERANGE)) (make_bytes nameCapHint).

Definition security_round (fd secinfo : Z) (buf : bytes) : R (bytes + bytes) :=
  '(args, err) ← Sys.call (GetSecurity fd secinfo (wrap 32 (zlen buf)));
  if is_errno err Errno.ERANGE then mret (inl (make_bytes args.1)) else
  match err with
  | Some e => throw (Wrapf "get security" e)
  | None => d ← lift (slice (go_copy buf args.2) 0 args.1); mret (inr d)
  end.
Definition Security (fd secinfo : Z) : R bytes :=
  probe maxProbeRetries (security_round fd secinfo) (Wrapf "get security" (Errno Errno.ERANGE)) (make_bytes sdCapHint).

Definition setSecurityIn (fd secinfo : Z) (sd : bytes) (txnFD : Z) : R unit :=
  Sys.checked "set security" (SetSecurity fd secinfo (ptr_len sd) (int32 txnFD)).
Definition KeySetSecurity (fd secinfo : Z) (sd : bytes) : R unit := setSecurityIn fd secinfo sd noTxn.
Definition Flush (fd : Z) : R unit := Sys.checked "flush" (Flush_ fd).
Definition Backup (fd outputFD : Z) : R unit := Sys.checked "backup" (Backup_ fd (int32 outputFD)).
Definition Restore_key (fd inputFD : Z) : R unit := Sys.checked "restore" (Restore_ fd (int32 inputFD)).

(** ** Writes through a layer view *)

Record LayerWrite := mkWrite { w_key : Z; w_layer : bytes; w_txnFD : Z }.
Definition newLayerWrite (fd : Z) (layer : bytes) (txnFD : Z) : LayerWrite := mkWrite fd layer txnFD.
Definition Base (fd : Z) : LayerWrite := newLayerWrite fd [] noTxn.
Definition KeyLayer (fd : Z) (name : bytes) : LayerWrite := newLayerWrite fd name noTxn.

Definition writeValue (w : LayerWrite) (name : bytes) (t : Z) (data : bytes) (expectedSeq : Z) : R unit :=
  Sys.checked "set value"
    (SetValue_ (w_key w) (ptr_len name) t (ptr_len data) (ptr_len (layerBytes (w_layer w))) (int32 (w_txnFD w)) expectedSeq).
Definition SetValue (w : LayerWrite) (name : bytes) (value : RegValue.Value) : R unit :=
  let '(t, data) := RegValue.Encode value in writeValue w name t data 0.
Definition SetValueIf (w : LayerWrite) (name : bytes) (value : RegValue.Value) (expectedSeq : Z) : R unit :=
  let '(t, data) := RegValue.Encode value in writeValue w name t data expectedSeq.
Definition TombstoneValue (w : LayerWrite) (name : bytes) : R unit :=
  writeValue w name RegValue.typeTombstone [] 0.
Definition DeleteValue (w : LayerWrite) (name : bytes) : R unit :=
  Sys.checked "delete value"
    (DeleteValue_ (w_key w) (ptr_len name) (ptr_len (layerBytes (w_layer w))) (int32 (w_txnFD w))).
Definition BlanketTombstone (w : LayerWrite) (set : bool) : R unit :=
  Sys.checked "blanket tombstone"
    (BlanketTombstone_ (w_key w) (ptr_len (layerBytes (w_layer w))) (boolU8 set) (int32 (w_txnFD w))).
Definition DeleteKey (w : LayerWrite) : R unit :=
  Sys.checked "delete key" (DeleteKey_ (w_key w) (ptr_len (layerBytes (w_layer w))) (int32 (w_txnFD w))).
Definition HideKey (w : LayerWrite) : R unit :=
  Sys.checked "hide key" (HideKey_ (w_key w) (ptr_len (layerBytes (w_layer w))) (int32 (w_txnFD w))).

(** ** Watches *)

Definition WatchValue : Z := REG_NOTIFY_VALUE.
Definition WatchSubkey : Z := REG_NOTIFY_SUBKEY.
Definition WatchSD : Z := REG_NOTIFY_SD.
Definition WatchAll : Z := REG_NOTIFY_ALL.
Definition Watch (fd filter : Z) (subtree : bool) : R unit :=
  Sys.checked "watch" (Notify_ fd filter (boolU8 subtree)).
Definition Disarm (fd : Z) : R unit := Watch fd 0 false.
(** The wait is not retried on EINTR. *)
Definition ReadEvents (fd : Z) : R (list RegWire.WatchEvent) :=
  let buf := make_bytes watchReadBuf in
  '((r, written), err) ← Sys.call_once (ReadFD fd (zlen buf));
  match err with
  | Some e => throw (Wrapf "read events" e)
  | None => d ← lift (slice (go_copy buf written) 0 r); lift (RegWire.parseEvents d)
  end.

(** [Access.Contains] *)
Definition Contains (a other : Z) : bool := Z.land a other =? other.
End defs.

Lemma ptr_len_short (b : bytes) : zlen b < 2 ^ 32 -> ptr_len b = b.
Proof.
  intros Hb. unfold ptr_len, wrap. pose proof (zlen_nonneg b). rewrite Z.mod_small by lia.
  apply take_ge. unfold zlen. lia.
Qed.

Section proofs.
Context {U : Uapi} {K : Type} {H : Kernel rcall K} {S : Settles rcall K}.

(** [errno] ends a request with an error other than the ones the loops look for. *)
Definition terminal (n : Z) : Prop := n <> 0 /\ n <> Errno.ERANGE.

(** ** The value of a name *)

(** What resolution gives for a name: its type, bytes, winning layer and sequence number. *)
Record held := mkHeld { h_type : Z; h_data : bytes; h_layer : bytes; h_seq : Z }.

(** The two-pass contract of REG_IOC_QUERY_VALUE: in the state [k'] the request leaves, the name
    either has no value, an errno, or has one; if both buffers can hold it the kernel writes it and its
    sizes, otherwise it fails with ERANGE and writes the sizes alone. *)
Definition serves_value (Inv : K -> Prop) (cur : K -> Z + held) (fd : Z) (name : bytes) (txnFD : Z) : Prop :=
  (forall k v, Inv k -> cur k = inr v -> fits 32 (zlen (h_data v)) /\ fits 32 (zlen (h_layer v))) /\
  forall dl ll, promises (QueryValue_ fd (ptr_len name) (int32 txnFD) dl ll) Inv (fun o e k' =>
    match cur k' with
    | inl n => e = n /\ terminal n
    | inr v =>
        if (zlen (h_data v) <=? dl) && (zlen (h_layer v) <=? ll)
        then e = 0 /\ o = mkQuery (h_type v) (zlen (h_data v)) (zlen (h_layer v)) (h_seq v) (h_data v) (h_layer v)
        else e = Errno.ERANGE /\ q_Data_len o = zlen (h_data v) /\ q_Layer_len o = zlen (h_layer v)
    end).

Definition hit_of (x : Z + held) : outcome ValueHit :=
  match x with
  | inl n => Err (Wrapf "query value" (Errno n))
  | inr v => d ← RegValue.Decode (h_type v) (h_data v); Ok (mkHit d (h_layer v) (h_seq v))
  end.

Definition value_room (b : bytes * bytes) (v : held) : bool :=
  (zlen (h_data v) <=? wrap 32 (zlen b.1)) && (zlen (h_layer v) <=? wrap 32 (zlen b.2)).
Definition value_grow (v : held) : bytes * bytes := (make_bytes (zlen (h_data v)), make_bytes (zlen (h_layer v))).

(** The end of a round, once the outcome is known. *)
Ltac landed :=
  cbn [kst trace]; repeat match goal with E : _ = _ |- context [match ?x with _ => _ end] => rewrite E end;
  split_and!; [done|rewrite length_app; simpl; lia|try done].

Lemma queryValue_reads Inv cur fd name txnFD : serves_value Inv cur fd name txnFD ->
  reads Inv cur value_room value_grow hit_of (queryValue_round fd name txnFD).
Proof.
  intros [_ Hs] [data layer] w Hi. unfold queryValue_round. apply total_bind.
  eapply total_call; [apply Hs|done|]. intros o e k Hk HP Hne. cbv beta in HP. unfold value_room. cbn [fst snd].
  destruct (cur k) as [n|v] eqn:Ec.
  - destruct HP as [-> [H0 Hr]]. apply Z.eqb_neq in H0 as ->. rewrite is_errno_Errno. apply Z.eqb_neq in Hr as ->.
    apply total_throw. landed.
  - destruct (_ && _) eqn:Eb; destruct HP as [-> HP].
    + subst o. cbn [Z.eqb is_errno]. apply andb_true_iff in Eb as Eb'. destruct Eb' as [E1%Z.leb_le E2%Z.leb_le].
      pose proof (wrap_le 32 (zlen data) (zlen_nonneg _)). pose proof (wrap_le 32 (zlen layer) (zlen_nonneg _)).
      cbn [q_Data_len q_data q_Type q_Layer_len q_layer q_Sequence].
      rewrite !slice_copied by lia. apply total_bind, total_lift, total_bind, total_lift.
      unfold hit_of. destruct (RegValue.Decode _ _) as [d|e|] eqn:Edec; [|landed|landed].
      apply total_bind, total_lift, total_ret. landed.
    + change (Errno.ERANGE =? 0) with false. cbv iota. rewrite is_errno_Errno, Z.eqb_refl.
      destruct HP as [-> ->]. apply total_ret. landed.
Qed.

Lemma value_grow_room v : fits 32 (zlen (h_data v)) -> fits 32 (zlen (h_layer v)) -> value_room (value_grow v) v = true.
Proof.
  intros. unfold value_room, value_grow, wrap. cbn [fst snd].
  rewrite !zlen_make_bytes by apply zlen_nonneg. rewrite !Z.mod_small by done. by rewrite !Z.leb_refl.
Qed.

(** Against a kernel that keeps the two-pass contract, reading a value finishes after at most four
    requests, however the value changes meanwhile: it gives what the kernel holds when the last request
    returns, decoded, with its layer and sequence, or the kernel's error, or ERANGE when the value outgrew
    the buffers four times.  If the value does not change, it is read with at most two requests. *)
Lemma queryValueIn_two_pass Inv cur fd name txnFD w : serves_value Inv cur fd name txnFD -> Inv (kst w) ->
  total (queryValueIn fd name txnFD) w (fun o w' => exists m, (m <= 4)%nat /\ Inv (kst w')
    /\ length (trace w') = (length (trace w) + m)%nat
    /\ (o = hit_of (cur (kst w')) \/ m = 4%nat /\ o = Err (Wrapf "query value" (Errno Errno.ERANGE))))
  /\ (forall c, (forall k, Inv k -> cur k = c) ->
      total (queryValueIn fd name txnFD) w (fun o w' => exists m, (m <= 2)%nat /\ Inv (kst w')
        /\ length (trace w') = (length (trace w) + m)%nat /\ o = hit_of c)).
Proof.
  intros Hs Hi. pose proof (queryValue_reads _ _ _ _ _ Hs) as Hr. split; [by eapply total_two_pass|].
  intros c Hc. eapply total_two_pass_stable; [done|done|done| |unfold maxProbeRetries; lia].
  intros v ->. apply value_grow_room; by eapply Hs, Hc.
Qed.

(** ** Subkeys *)

(** The contract of REG_IOC_ENUM_SUBKEYS on a key with the children [subs]: an index past the last one
    is ENOENT, a name that does not fit is ERANGE with its size. *)
Definition serves_subkeys (Inv : K -> Prop) (fd txnFD : Z) (subs : list Subkey) : Prop :=
  Forall (fun s => fits 32 (zlen (SName s))) subs /\
  forall index nl, promises (EnumSubkeys fd index (int32 txnFD) nl) Inv (fun o e _ =>
    match subs !! Z.to_nat index with
    | None => e = Errno.ENOENT
    | Some s =>
        if zlen (SName s) <=? nl
        then e = 0 /\ o = mkEnum (zlen (SName s)) (LastWriteTime s) (SubkeyCount s) (ValueCount s) (SName s)
        else e = Errno.ERANGE /\ e_Name_len o = zlen (SName s)
    end).

Lemma enumSubkeyAt_serves Inv fd txnFD subs index w : serves_subkeys Inv fd txnFD subs -> Inv (kst w) ->
  total (enumSubkeyAt fd index txnFD) w (fun o w' => exists m, (m <= 2)%nat /\ Inv (kst w')
    /\ length (trace w') = (length (trace w) + m)%nat /\ o = Ok (subs !! Z.to_nat index)).
Proof.
  intros [Hf Hs] Hi.
  set (c := match subs !! Z.to_nat index with None => inl Errno.ENOENT | Some s => inr s end).
  set (res := fun x : Z + Subkey => match x with inl _ => Ok None | inr s => Ok (Some s) end).
  eapply total_mono.
  - eapply (total_two_pass_stable Inv (fun _ => c) (fun b s => zlen (SName s) <=? wrap 32 (zlen b))
              (fun s => make_bytes (zlen (SName s))) res); [|done|done| |unfold maxProbeRetries; lia].
    + intros name w0 Hi0. unfold enumSubkey_round. apply total_bind. eapply total_call; [apply Hs|done|].
      intros o e k Hk HP Hne. cbv beta in HP. unfold c. destruct (subs !! Z.to_nat index) as [s|].
      * destruct (Z.leb_spec (zlen (SName s)) (wrap 32 (zlen name))); destruct HP as [-> HP].
        -- subst o. cbn [Z.eqb is_errno]. pose proof (wrap_le 32 (zlen name) (zlen_nonneg _)).
           cbn [e_Name_len e_name e_Last_write_time e_Subkey_count e_Value_count].
           rewrite slice_copied by lia. apply total_bind, total_lift, total_ret. destruct s. landed.
        -- change (Errno.ERANGE =? 0) with false. cbv iota. rewrite !is_errno_Errno. rewrite HP.
           apply total_ret. landed.
      * subst e. change (Errno.ENOENT =? 0) with false. cbv iota. rewrite is_errno_Errno, Z.eqb_refl.
        apply total_ret. landed.
    + intros s Hc. rewrite zlen_make_bytes by apply zlen_nonneg. unfold c in Hc.
      destruct (subs !! Z.to_nat index) as [s'|] eqn:E; [|done]. injection Hc as ->.
      rewrite Forall_forall in Hf. apply list_elem_of_lookup_2, Hf in E. unfold wrap. by rewrite Z.mod_small, Z.leb_refl.
  - intros o w' (m&?&?&?&->). exists m. split_and!; [done..|]. unfold c. by destruct (subs !! Z.to_nat index).
Qed.

Lemma subkeys_loop_serves Inv fd txnFD subs fuel n out w : serves_subkeys Inv fd txnFD subs -> Inv (kst w) ->
  Z.of_nat (length subs) < 2 ^ 32 -> (n <= length subs)%nat -> (length subs - n < fuel)%nat ->
  total (subkeys_loop fuel fd txnFD (Z.of_nat n) out) w (fun o w' => Inv (kst w')
    /\ (length (trace w') <= length (trace w) + 2 * (length subs - n) + 2)%nat
    /\ o = Ok (out ++ drop n subs)).
Proof.
  intros Hs. revert n out w. induction fuel as [|fuel IH]; intros n out w Hi Hl Hn Hf; [lia|].
  cbn [subkeys_loop]. apply total_bind. eapply total_mono; [by eapply enumSubkeyAt_serves|].
  intros o w' (m&Hm&Hi'&Ht&->). rewrite Nat2Z.id. destruct (subs !! n) as [s|] eqn:E.
  - pose proof (lookup_lt_Some _ _ _ E). unfold wrap. rewrite Z.mod_small by lia.
    replace (Z.of_nat n + 1) with (Z.of_nat (n + 1)) by lia.
    eapply total_mono; [apply IH; auto; lia|]. intros o w'' (?&?&->). split_and!; [done|lia|].
    rewrite (drop_S _ _ _ E), <- app_assoc. cbn [app]. by replace (n + 1)%nat with (Datatypes.S n) by lia.
  - apply total_ret. apply lookup_ge_None in E. rewrite drop_ge, app_nil_r by lia. split_and!; [done|lia|done].
Qed.

(** [C28] Enumerating the children of a key whose children do not change finishes and gives each of them
    once, in index order, with at most two requests per child and two for the end, whatever the lengths
    of their names. *)
Theorem subkeysIn_all Inv fd txnFD subs fuel w : serves_subkeys Inv fd txnFD subs -> Inv (kst w) ->
  Z.of_nat (length subs) < 2 ^ 32 -> (length subs < fuel)%nat ->
  total (subkeysIn fuel fd txnFD) w (fun o w' => Inv (kst w')
    /\ (length (trace w') <= length (trace w) + 2 * length subs + 2)%nat /\ o = Ok subs).
Proof.
  intros Hs Hi Hl Hf. eapply total_mono; [apply (subkeys_loop_serves Inv fd txnFD subs fuel 0 [] w Hs); auto; lia|].
  intros o w' (?&?&->). split_and!; [done|lia|done].
Qed.

(** ** Storing a value *)

(** The registry "stores the type tag and returns it on read but never interprets the payload": once the
    request that sets a name has succeeded, in [Inv'], that name resolves to the type and bytes it carried. *)
Definition stores_value (Inv Inv' : K -> Prop) (cur : K -> Z + held) (w : LayerWrite) (name : bytes) (t : Z) (data : bytes) : Prop :=
  promises (SetValue_ (w_key w) (ptr_len name) t (ptr_len data) (ptr_len (layerBytes (w_layer w))) (int32 (w_txnFD w)) 0)
    Inv (fun _ e k => e = 0 -> Inv' k)
  /\ forall k, Inv' k -> exists layer seq, cur k = inr (mkHeld t data layer seq).

End proofs.

(** ** A concrete registry *)

(** One key with one value and two children, used by the witnesses only. *)
Module Sample.

Definition children : list Subkey := [mkSubkey (str "Acme") 7 0 1; mkSubkey (replicate 70 x61) 8 2 0].

Definition query (dl ll : Z) (v : held) : query_args * Z :=
  if (zlen (h_data v) <=? dl) && (zlen (h_layer v) <=? ll)
  then (mkQuery (h_type v) (zlen (h_data v)) (zlen (h_layer v)) (h_seq v) (h_data v) (h_layer v), 0)
  else (mkQuery 0 (zlen (h_data v)) (zlen (h_layer v)) 0 [] [], Errno.ERANGE).

Definition enum (index nl : Z) : enum_args * Z :=
  match children !! Z.to_nat index with
  | None => (mkEnum 0 0 0 0 [], Errno.ENOENT)
  | Some s =>
      if zlen (SName s) <=? nl
      then (mkEnum (zlen (SName s)) (LastWriteTime s) (SubkeyCount s) (ValueCount s) (SName s), 0)
      else (mkEnum (zlen (SName s)) 0 0 0 [], Errno.ERANGE)
  end.

Definition respond {A} (c : rcall A) (k : held) : (A * Z) * held :=
  match c in rcall A return (A * Z) * held with
  | OpenKey _ _ _ _ => (3, 0, k)
  | CreateKey _ _ _ _ _ _ => ((4, 1), 0, k)
  | CloseFD _ => (tt, 0, k)
  | QueryValue_ _ _ _ dl ll => (query dl ll k, k)
  | QueryValuesBatch _ _ _ => (mkBatch 0 0 [], 0, k)
  | EnumSubkeys _ index _ nl => (enum index nl, k)
  | QueryKeyInfo _ _ => (mkInfoArgs 0 0 0 0 0 0 0 0 0 0 0 [], 0, k)
  | GetSecurity _ _ _ => ((0, []), 0, k)
  | SetValue_ _ _ t data _ _ _ => (tt, 0, mkHeld t data (str "base") (h_seq k + 1))
  | ReadFD _ _ => ((0, []), 0, k)
  | BeginTransaction => (5, 0, k)
  | CommitTxn _ => (tt, 0, k)
  | TxnStatus _ => (2, 0, k)
  | Now | KmesEmitBatch _ => (0, 0, k)
  | SetSecurity _ _ _ _ | Flush_ _ | Backup_ _ _ | Restore_ _ _ | DeleteValue_ _ _ _ _
  | BlanketTombstone_ _ _ _ _ | DeleteKey_ _ _ _ | HideKey_ _ _ _ | Notify_ _ _ _ | SetNonblock _ | KmesEmit _ _ => (tt, 0, k)
  end.

#[global] Instance kernel : Kernel rcall held := {| answer A c k := respond c k; patience := 1 |}.
#[global] Instance settled : Settles rcall held.
Proof.
  intros A [] k; try discriminate; cbn; unfold query, enum.
  - by destruct (_ && _).
  - destruct (children !! _) as [s|]; [by destruct (_ <=? _)|done].
Qed.

Definition start : held := mkHeld 4 [x01; x00; x00; x00] (str "base") 1.

(** A value that needs more than the first buffers. *)
Definition big : held := mkHeld 3 (replicate 300 x07) (str "role-x") 9.

Lemma serves c fd name txnFD : fits 32 (zlen (h_data c)) -> fits 32 (zlen (h_layer c)) ->
  serves_value (fun k => k = c) inr fd name txnFD.
Proof.
  intros Hd Hl. split; [intros k v -> Hv; injection Hv as <-; done|]. intros dl ll k ->. cbn. unfold query.
  by destruct (_ && _).
Qed.

End Sample.

Lemma subkeysIn_all_witness : let w := World Sample.start [] in
  serves_subkeys (K := held) (fun _ => True) 3 noTxn Sample.children
  /\ total (subkeysIn 5 (H := Sample.kernel) 3 noTxn) w (fun o w' =>
       True /\ (length (trace w') <= length (trace w) + 2 * 2 + 2)%nat /\ o = Ok Sample.children).
Proof.
  intros w. assert (Hs : serves_subkeys (K := held) (fun _ => True) 3 noTxn Sample.children).
  { split; [repeat constructor; vm_compute; congruence|]. intros index nl k _. cbn. unfold Sample.enum.
    destruct (Sample.children !! _) as [s|]; [|done]. by destruct (_ <=? _). }
  split; [exact Hs|].
  apply (subkeysIn_all (fun _ => True) 3 noTxn Sample.children 5 w Hs I); [reflexivity|apply Nat.ltb_lt; reflexivity].
Defined.


End RegKey.
