(* ===== verification/RegReads.v ===== *)
(** * RegReads: every two-pass read of a key ends (registry/read.go)

    Values, the values of a key, its metadata and its security descriptor are read
    with one protocol: a request on a buffer that is too small fails with ERANGE and
    reports the size; the next round uses that size; there are four rounds.  The
    contract of such a request is stated once ([serves_read]), for whatever the kernel
    may hold, and the four reads are instances of it. *)

From S2P Require Import Prelude Outcome Uapi Kernel RegValue RegWire RegKey.

Module RegReads.
Import RegKey.

Section contract.
Context {U : Uapi} {K : Type} {H : Kernel rcall K} {S : Settles rcall K}.

(** The request [req n] on a buffer of [n] bytes.  In the state it leaves, [cur] is what the kernel holds: an
    errno other than ERANGE, or a value that takes [size] bytes; [full] is the answer that carries it and [needed]
    the size that an answer reports. *)
Definition serves_read {A V} (Inv : K -> Prop) (cur : K -> Z + V) (req : Z -> rcall A) (size : V -> Z) (full : V -> A)
    (needed : A -> Z) : Prop :=
  (forall k v, Inv k -> cur k = inr v -> fits 32 (size v)) /\
  forall n, promises (req n) Inv (fun a e k' =>
    match cur k' with
    | inl m => e = m /\ terminal m
    | inr v => if size v <=? n then e = 0 /\ a = full v else e = Errno.ERANGE /\ needed a = size v
    end).

(** What a read with this contract does: it finishes within four requests, however often the value changes in
    between, with what the kernel holds when the last one returns, or with ERANGE when the value outgrew the
    buffer four times; within two when it does not change. *)
Definition two_pass {V A} (Inv : K -> Prop) (cur : K -> Z + V) (res : Z + V -> outcome A) (exhausted : err)
    (read : M rcall K A) : Prop := forall w, Inv (kst w) ->
  total read w (fun o w' => exists m, (m <= 4)%nat /\ Inv (kst w') /\ length (trace w') = (length (trace w) + m)%nat
    /\ (o = res (cur (kst w')) \/ m = 4%nat /\ o = Err exhausted))
  /\ forall c, (forall k, Inv k -> cur k = c) ->
     total read w (fun o w' => exists m, (m <= 2)%nat /\ Inv (kst w') /\ length (trace w') = (length (trace w) + m)%nat
       /\ o = res c).

(** The round that the three single-buffer reads share. *)
Definition round {A B} (req : Z -> rcall A) (needed : A -> Z) (msg : string) (decode : A -> bytes -> outcome B) (buf : bytes)
    : M rcall K (bytes + B) :=
  '(args, err) ← Sys.call (req (wrap 32 (zlen buf)));
  if is_errno err Errno.ERANGE then mret (inl (make_bytes (needed args))) else
  match err with
  | Some e => throw (Wrapf msg e)
  | None => r ← lift (decode args buf); mret (inr r)
  end.

Section read.
Context {A V B : Type} (Inv : K -> Prop) (cur : K -> Z + V) (req : Z -> rcall A).
Context (size : V -> Z) (full : V -> A) (needed : A -> Z) (msg : string) (decode : A -> bytes -> outcome B).
Context (value : V -> outcome B).
Hypothesis served : serves_read Inv cur req size full needed.
Hypothesis decoded : forall k v buf, Inv k -> cur k = inr v -> size v <= zlen buf -> decode (full v) buf = value v.

Definition read_result (x : Z + V) : outcome B :=
  match x with inl n => Err (Wrapf msg (Errno n)) | inr v => value v end.

Lemma round_reads : reads Inv cur (fun b v => size v <=? wrap 32 (zlen b)) (fun v => make_bytes (size v)) read_result
  (round req needed msg decode).
Proof.
  destruct served as [_ Hs]. intros buf w Hi. unfold round. apply total_bind.
  eapply total_call; [apply Hs|done|]. intros a e k Hk HP Hne. cbv beta in HP. cbn [kst trace].
  assert (Hl : length (trace w ++ [Ev (req (wrap 32 (zlen buf))) e]) = Datatypes.S (length (trace w)))
    by (rewrite length_app; simpl; lia).
  destruct (cur k) as [n|v] eqn:Ec.
  - destruct HP as [-> [H0 Hr]]. apply Z.eqb_neq in H0 as ->. rewrite is_errno_Errno. apply Z.eqb_neq in Hr as ->.
    apply total_throw. cbn [kst trace]. by rewrite Ec.
  - destruct (Z.leb_spec (size v) (wrap 32 (zlen buf))); destruct HP as [-> HP].
    + subst a. cbn [Z.eqb is_errno]. pose proof (wrap_le 32 (zlen buf) (zlen_nonneg _)). rewrite (decoded k v) by (done || lia).
      apply total_bind, total_lift. cbn [read_result].
      destruct (value v) eqn:Ev; [apply total_ret|..]; cbn [kst trace]; rewrite Ec; cbn [read_result]; rewrite Ev;
        (split_and!; [done|done|]); (destruct (Z.leb_spec (size v) (wrap 32 (zlen buf))); [done|lia]).
    + change (Errno.ERANGE =? 0) with false. cbv iota. rewrite is_errno_Errno, Z.eqb_refl, HP.
      apply total_ret. cbn [kst trace]. rewrite Ec. split_and!; [done|done|].
      destruct (Z.leb_spec (size v) (wrap 32 (zlen buf))); [lia|done].
Qed.

Lemma round_two_pass (body : bytes -> M rcall K (bytes + B)) exh b :
  (forall buf w, body buf w = round req needed msg decode buf w) ->
  two_pass Inv cur read_result exh (probe maxProbeRetries body exh b).
Proof.
  intros He w Hi. assert (Hr : reads Inv cur (fun b v => size v <=? wrap 32 (zlen b)) (fun v => make_bytes (size v)) read_result body).
  { intros buf w0 Hi0. unfold total. rewrite He. by apply round_reads. }
  split; [by eapply total_two_pass|]. intros c Hc. eapply total_two_pass_stable; [exact Hr|done|done| |unfold maxProbeRetries; lia].
  intros v ->. pose proof (proj1 served (kst w) v Hi (Hc _ Hi)) as Hf. rewrite zlen_make_bytes by apply Hf.
  unfold wrap. by rewrite Z.mod_small, Z.leb_refl.
Qed.
End read.

(** ** The four reads *)

(** The packed values of a key, as the batch request writes them. *)
Definition packed (es : list (bytes * (Z * bytes))) : bytes := concat (RegWire.pack_value <$> es).

Definition serves_batch (Inv : K -> Prop) (cur : K -> Z + list (bytes * (Z * bytes))) (fd txnFD : Z) : Prop :=
  (forall k es, Inv k -> cur k = inr es -> Forall RegWire.packable es) /\
  serves_read Inv cur (QueryValuesBatch fd (int32 txnFD)) (fun es => zlen (packed es))
    (fun es => mkBatch (zlen (packed es)) (zlen es) (packed es)) b_Buf_len.

Definition info_answer (i : KeyInfo) (volatile symlink : Z) : info_args :=
  mkInfoArgs (zlen (KName i)) (KLastWriteTime i) (KSubkeyCount i) (KValueCount i) (MaxSubkeyNameLen i) (MaxValueNameLen i)
    (MaxValueDataSize i) (SDSize i) volatile symlink (HiveGeneration i) (KName i).
(** A flag of the answer is a byte: any but zero is set. *)
Definition info_full (i : KeyInfo) : info_args := info_answer i (boolU8 (KVolatile i)) (boolU8 (KSymlink i)).
Definition serves_info (Inv : K -> Prop) (cur : K -> Z + KeyInfo) (fd : Z) : Prop :=
  serves_read Inv cur (QueryKeyInfo fd) (fun i => zlen (KName i)) info_full i_Name_len.

Definition serves_security (Inv : K -> Prop) (cur : K -> Z + bytes) (fd info : Z) : Prop :=
  serves_read Inv cur (GetSecurity fd info) zlen (fun sd => (zlen sd, sd)) fst.

(** What the caller gets for what the kernel holds. *)
Definition values_of (x : Z + list (bytes * (Z * bytes))) : outcome (list RegWire.NamedValue) :=
  match x with inl n => Err (Wrapf "query values" (Errno n)) | inr es => RegWire.unpack_values es end.
Definition info_of (x : Z + KeyInfo) : outcome KeyInfo :=
  match x with inl n => Err (Wrapf "key info" (Errno n)) | inr i => Ok i end.
Definition security_of (x : Z + bytes) : outcome bytes :=
  match x with inl n => Err (Wrapf "get security" (Errno n)) | inr sd => Ok sd end.

Ltac same_round := intros buf w; unfold round, values_round, info_round, security_round; unfold mbind, M_bind, lift;
  repeat (case_match; simplify_eq; try done).

(** C27: every two-pass read ends with what the kernel holds.  A value (with its layer and sequence), all the
    values of a key, its metadata and its security descriptor are each read within four requests, however often
    they change in between: the result is what the kernel holds when the last request returns, decoded - a
    malformed value is reported - or the kernel's errno, or ERANGE when the buffer was outgrown four times;
    and within two requests when what the kernel holds does not change. *)
Theorem reads_two_pass (fd txnFD : Z) :
  (forall Inv cur name, serves_value Inv cur fd name txnFD ->
     two_pass Inv cur hit_of (Wrapf "query value" (Errno Errno.ERANGE)) (queryValueIn fd name txnFD))
  /\ (forall Inv cur, serves_batch Inv cur fd txnFD ->
     two_pass Inv cur values_of (Wrapf "query values" (Errno Errno.ERANGE)) (valuesIn fd txnFD))
  /\ (forall Inv cur, serves_info Inv cur fd -> two_pass Inv cur info_of (Wrapf "key info" (Errno Errno.ERANGE)) (Info fd))
  /\ (forall Inv cur info, serves_security Inv cur fd info ->
     two_pass Inv cur security_of (Wrapf "get security" (Errno Errno.ERANGE)) (Security fd info)).
Proof.
  split_and!.
  - intros Inv cur name Hs w Hi. by apply queryValueIn_two_pass.
  - intros Inv cur [Hp Hs].
    apply (round_two_pass Inv cur _ _ _ _ "query values"
      (fun args buf => d ← slice (go_copy buf (b_buf args)) 0 (b_Buf_len args); RegWire.parseBatch d (b_Count args))
      RegWire.unpack_values Hs); [|same_round].
    intros k es buf Hi Hc Hl. cbn [b_buf b_Buf_len b_Count]. rewrite slice_copied, bind_Ok by done.
    pose proof (RegWire.parseBatch_all es [] (Hp _ _ Hi Hc)) as E. by rewrite app_nil_r in E.
  - intros Inv cur Hs.
    apply (round_two_pass Inv cur _ _ _ _ "key info" (fun args buf => nm ← slice (go_copy buf (i_name args)) 0 (i_Name_len args);
        Ok (mkInfo nm (i_Last_write_time args) (i_Subkey_count args) (i_Value_count args)
          (i_Max_subkey_name_len args) (i_Max_value_name_len args) (i_Max_value_data_size args) (i_Sd_size args)
          (negb (i_Volatile_key args =? 0)) (negb (i_Symlink args =? 0)) (i_Hive_generation args))) Ok Hs); [|same_round].
    intros k i buf _ _ Hl. cbn -[boolU8]. rewrite slice_copied, bind_Ok by done. by destruct i as [? ? ? ? ? ? ? ? [] [] ?].
  - intros Inv cur info Hs.
    apply (round_two_pass Inv cur _ _ _ _ "get security" (fun args buf => slice (go_copy buf args.2) 0 args.1) Ok Hs); [|same_round].
    intros k sd buf _ _ Hl. by apply slice_copied.
Qed.
End contract.

(** ** A concrete key *)

(** A key that nobody changes, every part of which needs more than the first buffer.  Used by the witness only. *)
Module Sample.
#[local] Existing Instance pkm.

Definition values : list (bytes * (Z * bytes)) := [(str "Mode", (4, [x01; x00; x00; x00])); (str "Blob", (3, replicate 1500 x07))].
Definition info : KeyInfo := mkInfo (replicate 80 x61) 17 2 2 4 4 1500 1200 false true 3.
Definition sd : bytes := replicate 1200 x01.

Definition sized {A} (size n : Z) (full short : A) : A * Z := if size <=? n then (full, 0) else (short, Errno.ERANGE).
Definition respond {A} (c : rcall A) (k : held) : (A * Z) * held :=
  match c in rcall A return (A * Z) * held with
  | QueryValuesBatch _ _ n =>
      let p := packed values in (sized (zlen p) n (mkBatch (zlen p) 2 p) (mkBatch (zlen p) 0 []), k)
  | QueryKeyInfo _ n => (sized 80 n (info_full info) (info_full (mkInfo (replicate 80 x00) 0 0 0 0 0 0 0 false false 0)), k)
  | GetSecurity _ _ n => (sized 1200 n (1200, sd) (1200, []), k)
  | c => RegKey.Sample.respond c k
  end.
#[global] Instance kernel : Kernel rcall held := {| answer A c k := respond c k; patience := 1 |}.

#[global] Instance settled : Settles rcall held.
Proof.
  apply (settles_never 0); [done|]. intros A c k. destruct c; try discriminate; cbn -[packed]; unfold sized.
  - unfold RegKey.Sample.query. by destruct (_ && _).
  - by destruct (_ <=? _).
  - unfold RegKey.Sample.enum. destruct (RegKey.Sample.children !! _); [by destruct (_ <=? _)|done].
  - by destruct (_ <=? _).
  - by destruct (_ <=? _).
Qed.

Definition here (k : held) : Prop := k = RegKey.Sample.big.

Lemma serves_sample : serves_value here (fun k => inr k) 3 (str "Blob") noTxn
  /\ serves_batch here (fun _ => inr values) 3 noTxn /\ serves_info here (fun _ => inr info) 3
  /\ serves_security here (fun _ => inr sd) 3 7.
Proof.
  split_and!.
  - split; [intros k v -> Hv; injection Hv as <-; vm_compute; split; split; congruence|]. intros dl ll k ->. cbn.
    unfold RegKey.Sample.query. by destruct (_ && _).
  - split; [intros k es _ Hes; injection Hes as <-; repeat constructor; vm_compute; congruence|].
    split; [intros k v _ Hv; injection Hv as <-; vm_compute; split; congruence|]. intros n k Hk. cbn -[packed]. unfold sized.
    by destruct (_ <=? n).
  - split; [intros k v _ Hv; injection Hv as <-; vm_compute; split; congruence|]. intros n k Hk. cbn. unfold sized.
    by destruct (_ <=? n).
  - split; [intros k v _ Hv; injection Hv as <-; vm_compute; split; congruence|]. intros n k Hk. cbn. unfold sized.
    by destruct (_ <=? n).
Qed.
End Sample.

(** Each read takes a second request and gives the whole. *)
Lemma reads_two_pass_witness : let w := World RegKey.Sample.big [] in
  total (@valuesIn pkm held Sample.kernel 3 noTxn) w (fun o w' => exists m, (m <= 2)%nat /\ Sample.here (kst w')
    /\ length (trace w') = (0 + m)%nat
    /\ o = Ok [RegWire.mkNamedValue (str "Mode") (@RegValue.DWORD pkm 1);
               RegWire.mkNamedValue (str "Blob") (@RegValue.Binary pkm (replicate 1500 x07))])
  /\ total (@Info held Sample.kernel 3) w (fun o w' => exists m, (m <= 2)%nat /\ Sample.here (kst w')
    /\ length (trace w') = (0 + m)%nat /\ o = Ok Sample.info).
Proof.
  intros w. pose proof (@reads_two_pass pkm held Sample.kernel Sample.settled 3 noTxn) as (_ & Hb & Hi & _).
  pose proof Sample.serves_sample as (_ & Sb & Si & _). split.
  - exact (proj2 (Hb _ _ Sb w eq_refl) (inr Sample.values) (fun _ _ => eq_refl)).
  - exact (proj2 (Hi _ _ Si w eq_refl) (inr Sample.info) (fun _ _ => eq_refl)).
Defined.
End RegReads.
