(* ===== verification/RegCas.v ===== *)
(** * RegCas: changing a value that others change too (registry/read.go, registry/write.go)

    The comment of [LayerWrite.SetValueIf] promises that a conditional write, paired with [QueryValueFull],
    prevents lost updates from concurrent writers in the same layer.  Here the layer has a history of entries for
    the name, which others extend between and during the requests; the theorem is that promise, with the condition that
    the comment leaves out: what was read has to come from the layer that is written. *)

From S2P Require Import Prelude Outcome Uapi Kernel RegValue RegKey.

Module RegCas.
Import RegKey.

(** Read the value, and write [f] of it to the layer if the layer is the one that won. *)
Definition update {U : Uapi} {K} {H : Kernel rcall K} (lw : LayerWrite) (name : bytes) (f : RegValue.Value -> RegValue.Value)
    : M rcall K bool :=
  h ← queryValueIn (w_key lw) name (w_txnFD lw);
  if bool_decide (HLayer h = w_layer lw) then SetValueIf lw name (f (Value h)) (Sequence h);; mret true else mret false.

Section contract.
Context {U : Uapi} {K : Type} {H : Kernel rcall K} (Inv : K -> Prop) (hist : K -> list held) (lw : LayerWrite) (name : bytes).

(** The entries that the layer of [lw] had for [name], one after the other; a request may find that others have
    added some.  No sequence number is used twice, and none is zero.  A query answers with the entry that wins during
    the request, of whatever layer.  A set that names a sequence number succeeds on the entry that has it, and puts the new
    entry right after it. *)
Class Sequenced : Prop := {
  q_once k : Inv k -> NoDup (h_seq <$> hist k) /\ Forall (fun x => h_seq x <> 0) (hist k);
  q_query h0 dl ll : promises (QueryValue_ (w_key lw) (ptr_len name) (int32 (w_txnFD lw)) dl ll)
    (fun k => Inv k /\ h0 `prefix_of` hist k) (fun o e k => e = 0 -> exists x,
      o = mkQuery (h_type x) (zlen (h_data x)) (zlen (h_layer x)) (h_seq x) (h_data x) (h_layer x)
      /\ zlen (h_data x) <= dl /\ zlen (h_layer x) <= ll
      /\ (h_layer x = w_layer lw -> exists h, h0 `prefix_of` h ++ [x] /\ h ++ [x] `prefix_of` hist k));
  q_set h0 t data seq : seq <> 0 ->
    promises (SetValue_ (w_key lw) (ptr_len name) t data (ptr_len (layerBytes (w_layer lw))) (int32 (w_txnFD lw)) seq)
    (fun k => Inv k /\ h0 `prefix_of` hist k) (fun _ e k => e = 0 -> exists h x g,
      h0 `prefix_of` h ++ [x] /\ h_seq x = seq /\ h ++ [x; mkHeld t data (w_layer lw) g] `prefix_of` hist k)
}.
End contract.

Section proofs.
Context {U : Uapi} {RL : RegLaws U} {K : Type} {H : Kernel rcall K} {S : Settles rcall K}.
Context (Inv : K -> Prop) (hist : K -> list held) (lw : LayerWrite) (name : bytes) {V : Sequenced Inv hist lw name}.

(** A hit of the layer is one of its entries. *)
Definition hit_from (h0 : list held) (hit : ValueHit) (k : K) : Prop :=
  HLayer hit = w_layer lw -> exists h x, h0 `prefix_of` h ++ [x] /\ h ++ [x] `prefix_of` hist k
    /\ RegValue.Decode (h_type x) (h_data x) = Ok (Value hit) /\ Sequence hit = h_seq x.

Lemma queryValue_round_hit h0 bufs w : Inv (kst w) -> h0 `prefix_of` hist (kst w) ->
  total (queryValue_round (w_key lw) name (w_txnFD lw) bufs) w (fun o w' =>
    (Inv (kst w') /\ h0 `prefix_of` hist (kst w'))
    /\ match o with Ok (inr hit) => hit_from h0 hit (kst w') | Panic => False | _ => True end).
Proof.
  intros Hi Hh. destruct bufs as [data layer]. unfold queryValue_round. apply total_bind.
  eapply total_call; [apply (q_query Inv hist lw name h0)|done|]. intros o e k Hk HP _. cbv beta in HP.
  destruct (Z.eqb_spec e 0) as [->|Hne].
  - destruct HP as (x & -> & Hd & Hl & Hx); [done|]. cbn [is_errno q_Data_len q_data q_Type q_Layer_len q_layer q_Sequence].
    pose proof (wrap_le 32 (zlen data) (zlen_nonneg _)). pose proof (wrap_le 32 (zlen layer) (zlen_nonneg _)).
    rewrite !slice_copied by lia. apply total_bind, total_lift, total_bind, total_lift.
    pose proof (RegValue.Decode_exact (h_type x) (h_data x)) as He.
    destruct (RegValue.Decode _ _) as [v|e|] eqn:Ed; [|done|done].
    apply total_bind, total_lift, total_ret. split; [done|]. intros Hlw. destruct Hx as (h & ? & ?); [done|].
    by exists h, x.
  - rewrite is_errno_Errno. destruct (e =? Errno.ERANGE); [by apply total_ret|by apply total_throw].
Qed.

Lemma queryValueIn_hit w : Inv (kst w) ->
  total (queryValueIn (w_key lw) name (w_txnFD lw)) w (fun o w' => Inv (kst w')
    /\ match o with Ok hit => hit_from (hist (kst w)) hit (kst w') | Panic => False | _ => True end).
Proof.
  intros Hi. unfold queryValueIn.
  eapply (total_probe (fun _ _ w' => Inv (kst w') /\ hist (kst w) `prefix_of` hist (kst w'))); [done|naive_solver|].
  intros _ b w1 [Hi1 Hh1]. eapply total_mono; [by apply queryValue_round_hit|]. intros [[b'|hit]|e|] w2 [Hk Ho]; naive_solver.
Qed.

(** Between [w] and [w'] the value was asked for, and nothing else was requested. *)
Definition only_asked (w w' : world rcall K) : Prop := exists es, trace w' = trace w ++ es
  /\ Forall (fun ev => exists dl ll n, ev = Ev (QueryValue_ (w_key lw) (ptr_len name) (int32 (w_txnFD lw)) dl ll) n) es.

(** The request that sets the value in the layer, on condition of [seq]. *)
Definition set_request (t : Z) (data : bytes) (seq : Z) : rcall unit :=
  SetValue_ (w_key lw) (ptr_len name) t data (ptr_len (w_layer lw)) (int32 (w_txnFD lw)) seq.

Lemma queryValueIn_only_asks w o w' : queryValueIn (w_key lw) name (w_txnFD lw) w = Some (o, w') -> only_asked w w'.
Proof.
  assert (He : emits (K := K) (fun ev => exists dl ll n, ev = Ev (QueryValue_ (w_key lw) (ptr_len name) (int32 (w_txnFD lw)) dl ll) n)
    (queryValueIn (w_key lw) name (w_txnFD lw))) by (unfold queryValueIn, queryValue_round; emitting; eauto).
  apply He.
Qed.

(** [C30] Reading, changing and conditionally writing a value loses no change, and requests no more than it says.
    Whatever others do to the name in the meantime, an update finishes.  When it wrote, its requests are queries of the
    value and then one successful set, and what it installed is the change of the entry that the layer had up to then, made
    on condition of that entry's sequence number, and follows it directly in the layer's history.  When the value read is of
    another layer, it answers so, and it made no request but the queries: nothing is written.  When it fails, the read failed and no write was requested, or the one
    write requested was refused, and the error wraps the errno of that refusal. *)
Theorem conditional_update (f : RegValue.Value -> RegValue.Value)
    (Hf : forall v, zlen (RegValue.Encode (f v)).2 < 2 ^ 32) w : Inv (kst w) ->
  total (update lw name f) w (fun o w' => Inv (kst w') /\
    match o with
    | Ok true => exists h x v g, hist (kst w) `prefix_of` h ++ [x] /\ RegValue.Decode (h_type x) (h_data x) = Ok v
        /\ let '(t, data) := RegValue.Encode (f v) in h ++ [x; mkHeld t data (w_layer lw) g] `prefix_of` hist (kst w')
        /\ exists w1, only_asked w w1 /\ trace w' = trace w1 ++ [Ev (set_request t data (h_seq x)) 0]
    | Ok false => only_asked w w'
        /\ exists hit, queryValueIn (w_key lw) name (w_txnFD lw) w = Some (Ok hit, w') /\ HLayer hit <> w_layer lw
    | Err e =>
        (only_asked w w' /\ queryValueIn (w_key lw) name (w_txnFD lw) w = Some (Err e, w'))
        \/ exists w1 t data seq n, only_asked w w1 /\ trace w' = trace w1 ++ [Ev (set_request t data seq) n]
             /\ n <> 0 /\ e = Wrapf "set value" (Errno n)
    | Panic => False
    end).
Proof.
  intros Hi. apply total_bind. destruct (queryValueIn_hit w Hi) as (o & w1 & Eq & Hi1 & Ho).
  exists o, w1. split; [exact Eq|]. pose proof (queryValueIn_only_asks _ _ _ Eq) as Hask.
  destruct o as [hit|e|]; [|by split; [|left]|done]. case_bool_decide as Hl; [|apply total_ret; eauto].
  destruct (Ho Hl) as (h1 & x1 & H0 & H1 & Hd & Hs). destruct (q_once Inv hist lw name _ Hi1) as [_ Hnz].
  rewrite Forall_lookup in Hnz. specialize (Hnz _ _ (prefix_last _ _ _ H1)). cbn in Hnz.
  unfold SetValueIf. specialize (Hf (Value hit)). destruct (RegValue.Encode (f (Value hit))) as [t data] eqn:Ee. cbn [snd] in Hf.
  unfold writeValue, Sys.checked. apply total_bind, total_bind. rewrite Hs.
  eapply total_call; [by apply (q_set Inv hist lw name (h1 ++ [x1]))|done|]. intros [] e k [Hk _] HP _. cbv beta in HP.
  rewrite (ptr_len_short data) in * by done.
  destruct (Z.eqb_spec e 0) as [->|Hne]; [|by apply total_throw; split; [|right; exists w1, t, data, (h_seq x1), e]].
  apply total_ret, total_ret. split; [done|]. cbn [kst].
  destruct HP as (h3 & x3 & g & H13 & Hs3 & H3); [done|].
  assert (H3' : h3 ++ [x3] `prefix_of` hist k).
  { etrans; [|exact H3]. rewrite (cons_middle x3 h3 [_]), app_assoc. by apply prefix_app_r. }
  assert (E : h1 ++ [x1] = h3 ++ [x3]).
  { apply (same_version h_seq _ _ _ _ (hist k)); [by apply (q_once Inv hist lw name)|by etrans|done|done]. }
  apply app_inj_tail in E as [<- <-]. exists h1, x1, (Value hit), g. rewrite Ee. split_and!; [done..|].
  by exists w1.
Qed.
End proofs.

(** A sequence number of zero makes no condition. *)
Lemma SetValueIf_zero {U : Uapi} {K} {H : Kernel rcall K} (lw : LayerWrite) name v : SetValueIf lw name v 0 = SetValue lw name v.
Proof. reflexivity. Qed.

(** ** A concrete value *)

(** One name of one layer, with its history and what others write to it: one entry after each read.  Used by the
    witness and the example only. *)
Module Sample.
#[local] Existing Instance pkm.

Definition state : Type := list held * list (Z * bytes).
Definition layer : bytes := str "role-x".
Definition lw : LayerWrite := newLayerWrite 3 layer noTxn.
Definition push (h : list held) (x : Z * bytes) : list held := h ++ [mkHeld x.1 x.2 layer (1 + Z.of_nat (length h))].
Definition step (k : state) : state := match k.2 with [] => k | x :: xs => (push k.1 x, xs) end.

Definition respond {A} (c : rcall A) (k : state) : (A * Z) * state :=
  match c in rcall A return (A * Z) -> (A * Z) * state with
  | QueryValue_ _ _ _ dl ll => fun _ =>
      match last k.1 with
      | Some x => (RegKey.Sample.query dl ll x, step k)
      | None => (mkQuery 0 0 0 0 [] [], Errno.ENOENT, k)
      end
  | SetValue_ _ _ t data _ _ seq => fun _ =>
      match last k.1 with
      | Some x => if h_seq x =? seq then (tt, 0, (push k.1 (t, data), k.2)) else (tt, Errno.EAGAIN, k)
      | None => (tt, Errno.EAGAIN, k)
      end
  | _ => fun r => (r, k)
  end (RegKey.Sample.respond c RegKey.Sample.start).1.

#[global] Instance cas_kernel : Kernel rcall state := {| answer A c k := respond c k; patience := 1 |}.

#[global] Instance cas_settles : Settles rcall state.
Proof.
  apply (settles_never 0); [done|]. change Errno.EINTR with 4. intros A c k. destruct c; try done; cbn.
  - destruct (last k.1) as [x|]; [|done]. unfold RegKey.Sample.query. by destruct (_ && _).
  - unfold RegKey.Sample.enum. destruct (_ !! _); [|done]. by destruct (_ <=? _).
  - destruct (last k.1); [|done]. by destruct (_ =? _).
Qed.

Definition Inv (k : state) : Prop := forall i x, k.1 !! i = Some x -> h_seq x = 1 + Z.of_nat i.

Lemma entry_push_inv h xs xs' x : Inv (h, xs) -> Inv (push h x, xs').
Proof.
  intros Hs i y [Hi|[Hi Hp]]%lookup_app_Some; [by apply Hs|]. apply list_lookup_singleton_Some in Hp as [Hi' <-]. cbn in *. lia.
Qed.
Lemma entry_step_inv k : Inv k -> Inv (step k).
Proof. destruct k as [h [|x xs]]; [done|]. apply entry_push_inv. Qed.
Lemma entry_step_prefix k : k.1 `prefix_of` (step k).1.
Proof. destruct k as [h [|x xs]]; [done|]. by apply prefix_app_r. Qed.

#[global] Instance cas_sequenced name : Sequenced Inv fst lw name.
Proof.
  split.
  - intros k Hs. split.
    + apply NoDup_alt. intros i j n. rewrite !list_lookup_fmap.
      intros (p & Hp & ->)%fmap_Some_1 (q & Hq & E)%fmap_Some_1. apply Hs in Hp, Hq. lia.
    + apply Forall_lookup. intros i x Hx%Hs. lia.
  - intros h0 dl ll k [Hi Hh]. cbn. destruct (last k.1) as [x|] eqn:El; [|done]. unfold RegKey.Sample.query.
    assert (Inv (step k) /\ h0 `prefix_of` (step k).1) as Hk by (split; [by apply entry_step_inv|etrans; [done|apply entry_step_prefix]]).
    destruct ((_ <=? _) && _) eqn:Eb; (split; [exact Hk|]); [|done].
    apply andb_true_iff in Eb as [?%Z.leb_le ?%Z.leb_le]. intros _ _. exists x. split_and!; [done..|]. intros _.
    apply last_Some in El as [h El]. exists h. rewrite <- El. split; [done|apply entry_step_prefix].
  - intros h0 t data seq _ k [Hi Hh]. cbn. destruct (last k.1) as [x|] eqn:El; [|done].
    destruct (Z.eqb_spec (h_seq x) seq) as [Hs|]; [|done]. destruct k as [kh kx]. cbn in *.
    split; [split; [by apply (entry_push_inv kh kx kx (t, data))|by apply prefix_app_r]|]. intros _ _.
    apply last_Some in El as [h ->]. exists h, x, (1 + Z.of_nat (length (h ++ [x]))). split_and!; [done|done|].
    unfold push. by rewrite <- app_assoc.
Qed.

Definition start : held := mkHeld 4 [x01; x00; x00; x00] layer 1.
(** Count up. *)
Definition incr (v : RegValue.Value) : RegValue.Value := RegValue.DWORD (1 + (RegValue.Uint32 v).1).
End Sample.

Lemma conditional_update_witness :
  exists w', update (U := pkm) (H := Sample.cas_kernel) Sample.lw (str "Count") Sample.incr (World ([Sample.start], []) []) = Some (Ok true, w')
    /\ exists h x v g, [Sample.start] `prefix_of` h ++ [x] /\ @RegValue.Decode pkm (h_type x) (h_data x) = Ok v
         /\ let '(t, data) := @RegValue.Encode pkm (Sample.incr v) in h ++ [x; mkHeld t data Sample.layer g] `prefix_of` (kst w').1
         /\ exists w1, only_asked Sample.lw (str "Count") (World (([Sample.start], []) : Sample.state) []) w1
              /\ trace w' = trace w1 ++ [Ev (set_request Sample.lw (str "Count") t data (h_seq x)) 0].
Proof.
  assert (Hi : Sample.Inv ([Sample.start], [])).
  { intros i p [-> <-]%list_lookup_singleton_Some. done. }
  destruct (@conditional_update pkm pkm_RegLaws Sample.state Sample.cas_kernel Sample.cas_settles Sample.Inv fst Sample.lw (str "Count")
    (Sample.cas_sequenced (str "Count")) Sample.incr ltac:(intros v; by vm_compute) (World ([Sample.start], []) []) Hi) as (o & w' & E & _ & Ho).
  assert (o = Ok true) as -> by (vm_compute in E; by injection E as <- _).
  exists w'. split; [exact E|exact Ho].
Defined.

(** Somebody writes after the read: the update is refused with EAGAIN. *)
Example update_conflict :
  (fun x => (x.1, (kst x.2).1)) <$> update (U := pkm) (H := Sample.cas_kernel) Sample.lw (str "Count") Sample.incr
    (World ([Sample.start], [(4, [x07; x00; x00; x00])]) [])
  = Some (Err (Wrapf "set value" (Errno Errno.EAGAIN)), [Sample.start; mkHeld 4 [x07; x00; x00; x00] Sample.layer 2]).
Proof. vm_compute. reflexivity. Qed.
(** The value read is of another layer: one query, and nothing else. *)
Example update_other_layer :
  (fun x => (x.1, (kst x.2).1, length (trace x.2))) <$> update (U := pkm) (H := Sample.cas_kernel)
    (newLayerWrite 3 (str "role-y") noTxn) (str "Count") Sample.incr (World ([Sample.start], []) [])
  = Some (Ok false, [Sample.start], 1%nat).
Proof. vm_compute. reflexivity. Qed.
End RegCas.
