(* ===== verification/RegTxn.v ===== *)
(** * RegTxn: transactions and layers of the registry

    [Transact] and the explicit handle (registry/transaction.go), and the layer
    management built on them (registry/layers/layers.go).  A layer is a key under
    [layersRoot] with two values, created in one transaction. *)

From S2P Require Import Prelude Outcome GoStd Uapi Sid Kernel RegValue RegWire RegKey.

Module Txn.
Section defs.
Context {U : Uapi} {K : Type} {H : Kernel rcall K}.
Abbreviation R := (M rcall K).

Definition commitRetries : nat := 8.

Definition Begin : R Z := Sys.checked "begin transaction" BeginTransaction.
Definition Commit (fd : Z) : R unit := Sys.checked "commit" (CommitTxn fd).
Definition Status (fd : Z) : R Z := Sys.checked "transaction status" (TxnStatus fd).

(** [commitWithRetry]: [retries] is [commitRetries - attempt]. *)
Fixpoint commit_loop (fd : Z) (retries : nat) : R unit :=
  '(_, err) ← Sys.call (CommitTxn fd);
  match err with
  | None => mret tt
  | Some e =>
      match retries with
      | S retries =>
          if errors_is e (Errno Errno.EBUSY) || errors_is e (Errno Errno.EIO)
          then commit_loop fd retries else throw (Wrapf "commit" e)
      | O => throw (Wrapf "commit" e)
      end
  end.
Definition commitWithRetry (fd : Z) : R unit := commit_loop fd commitRetries.

(** [Transaction.Close]: the error, and the descriptor left in the handle. *)
Definition Close (fd : Z) : R (option err * Z) :=
  if fd <? 0 then mret (None, fd) else
  '(_, e) ← Sys.call_once (CloseFD fd);
  mret (Wrapf "close transaction" <$> e, -1).
Definition Abort (fd : Z) : R (option err * Z) := Close fd.

(** The body is given the transaction's descriptor, for [At], [Create] and [Open] only. *)
Definition Transact (body : Z -> R unit) : R unit :=
  fd ← Begin;
  deferred (Close fd) (body fd;; commitWithRetry fd).

(** [Txn.Create], [Txn.Open]; [At] pairs a key with the transaction. *)
Definition Create (fd : Z) (path : bytes) : RegKey.CreateOptions := RegKey.withTxn fd (RegKey.Create path).
Definition Open (path : bytes) (access : Z) : R Z := RegKey.Open path access.
Record TxnKey := mkTxnKey { key : Z; txnFD : Z }.
Definition At (fd key : Z) : TxnKey := mkTxnKey key fd.
Definition Base (tk : TxnKey) : RegKey.LayerWrite := RegKey.newLayerWrite (key tk) [] (txnFD tk).
Definition Layer (tk : TxnKey) (name : bytes) : RegKey.LayerWrite := RegKey.newLayerWrite (key tk) name (txnFD tk).
Definition QueryValue (tk : TxnKey) (name : bytes) : R RegValue.Value :=
  h ← RegKey.queryValueIn (key tk) name (txnFD tk); mret (RegKey.Value h).
Definition QueryValueFull (tk : TxnKey) (name : bytes) : R RegKey.ValueHit :=
  RegKey.queryValueIn (key tk) name (txnFD tk).
Definition TryQueryValue (tk : TxnKey) (name : bytes) : R (option RegValue.Value) :=
  RegKey.tryQueryValueIn (key tk) name (txnFD tk).
Definition Values (tk : TxnKey) : R (list RegWire.NamedValue) := RegKey.valuesIn (key tk) (txnFD tk).
Definition Subkeys (fuel : nat) (tk : TxnKey) : R (list RegKey.Subkey) := RegKey.subkeysIn fuel (key tk) (txnFD tk).
Definition TxnSetSecurity (tk : TxnKey) (info : Z) (sd : bytes) : R unit :=
  RegKey.setSecurityIn (key tk) info sd (txnFD tk).
End defs.

Section proofs.
Context {U : Uapi} {K : Type} {H : Kernel rcall K} {S : Settles rcall K}.

(** The commit errors after which the transaction stays open. *)
Definition retryable (e : Z) : Prop := e = Errno.EBUSY \/ e = Errno.EIO.

(** The errnos [es] of successive commits, of which [n] may be repeated, and the outcome. *)
Definition commits (n : nat) (es : list Z) (o : outcome unit) : Prop :=
  exists init e, es = init ++ [e] /\ Forall retryable init /\ (length init <= n)%nat
    /\ (e = 0 /\ o = Ok tt
        \/ e <> 0 /\ o = Err (Wrapf "commit" (Errno e)) /\ (retryable e -> length init = n)).

Lemma commit_loop_commits fd n w :
  total (commit_loop fd n) w (fun o w' => exists es, trace w' = trace w ++ (Ev (CommitTxn fd) <$> es) /\ commits n es o).
Proof.
  revert w. induction n as [|n IH]; intros w; cbn [commit_loop]; apply total_bind, total_call_any; intros r e k Hne;
    (destruct (Z.eqb_spec e 0) as [->|He];
      [apply total_ret; exists [0]; split; [done|]; exists [], 0; split_and!; [done|constructor|simpl; lia|by left]|]).
  { apply total_throw. exists [e]. split; [done|]. exists [], e. split_and!; [done|constructor|simpl; lia|right]. by split_and!. }
  change (errors_is (Errno e) (Errno Errno.EBUSY)) with (is_errno (Some (Errno e)) Errno.EBUSY).
  change (errors_is (Errno e) (Errno Errno.EIO)) with (is_errno (Some (Errno e)) Errno.EIO).
  rewrite !is_errno_Errno.
  destruct (Z.eqb_spec e Errno.EBUSY) as [He1|He1], (Z.eqb_spec e Errno.EIO) as [He2|He2]; cbn [orb].
  1-3: eapply total_mono; [apply IH|]; intros o w' (es & Ht & init & e' & -> & Hi & Hl & Ho);
    exists (e :: init ++ [e']); split; [rewrite Ht; cbn [trace]; by rewrite <- app_assoc|];
    exists (e :: init), e'; split_and!; [done|constructor; [unfold retryable; tauto|done]|simpl; lia|];
    destruct Ho as [|(?&?&Ho)]; [by left|right; split_and!; [done|done|]; intros Hr; simpl; by rewrite Ho].
  apply total_throw. exists [e]. split; [done|]. exists [], e. split_and!; [done|constructor|simpl; lia|right].
  split_and!; [done|done|]. by intros [|].
Qed.

Lemma total_Close fd w Q :
  (forall oe fd' w' ec, trace w' = trace w ++ (if fd <? 0 then [] else [Ev (CloseFD fd) ec]) ->
     Q (Ok (oe, fd')) w') ->
  total (Close fd) w Q.
Proof.
  intros HQ. unfold Close. destruct (fd <? 0).
  - apply total_ret, (HQ _ _ _ 0). by rewrite app_nil_r.
  - apply total_bind, total_call_once. intros [] e k. apply total_ret. by eapply HQ.
Qed.

(** What a transaction with body [body] did from [w]: it did not begin, or it ran the body and closed. *)
Definition transacted (body : Z -> M rcall K unit) (w : world rcall K) (o : outcome unit) (w' : world rcall K) : Prop :=
    (exists e, e <> 0 /\ o = Err (Wrapf "begin transaction" (Errno e)) /\ trace w' = trace w ++ [Ev BeginTransaction e])
    \/ exists fd k ob wb es ec,
         body fd (World k (trace w ++ [Ev BeginTransaction 0])) = Some (ob, wb)
         /\ trace w' = trace wb ++ (Ev (CommitTxn fd) <$> es) ++ (if fd <? 0 then [] else [Ev (CloseFD fd) ec])
         /\ match ob with Ok _ => commits commitRetries es o | _ => es = [] /\ o = ob end.

Lemma Transact_runs body w : (forall fd w, total (body fd) w (fun _ _ => True)) ->
  total (Transact body) w (transacted body w).
Proof.
  intros Hbody. unfold Transact, Begin. apply total_bind, total_checked; [intros fd k|intros e k He _; left; by exists e].
  apply total_deferred. destruct (Hbody fd (World k (trace w ++ [Ev BeginTransaction 0]))) as (ob & wb & Eb & _).
  apply total_bind. exists ob, wb. split; [done|]. destruct ob as [[]|e|].
  - eapply total_mono; [apply commit_loop_commits|]. intros o w' (es & Ht & Hc).
    apply total_Close. intros oe fd' w'' ec Ht'. right. exists fd, k, (Ok tt), wb, es, ec.
    split_and!; [done| |done]. rewrite Ht', Ht. by rewrite <- app_assoc.
  - apply total_Close. intros oe fd' w'' ec Ht'. right. by exists fd, k, (Err e), wb, [], ec.
  - apply total_Close. intros oe fd' w'' ec Ht'. right. by exists fd, k, Panic, wb, [], ec.
Qed.

(** [C31] A transaction run by [Transact] always ends closed: if it begins, the body runs once, and the
    descriptor is closed once, as the last request.  When the body returns nil the transaction is committed,
    at most nine times, every commit but the last having failed with EBUSY or EIO, and the result is the
    last commit's; when the body fails or panics nothing is committed and its error or panic is the result. *)
Theorem Transact_spec body w :
  (forall fd w, total (body fd) w (fun _ _ => True)) ->
  total (Transact body) w (fun o w' =>
    (exists e, e <> 0 /\ o = Err (Wrapf "begin transaction" (Errno e)) /\ trace w' = trace w ++ [Ev BeginTransaction e])
    \/ exists fd k ob wb es ec,
         body fd (World k (trace w ++ [Ev BeginTransaction 0])) = Some (ob, wb)
         /\ trace w' = trace wb ++ (Ev (CommitTxn fd) <$> es) ++ (if fd <? 0 then [] else [Ev (CloseFD fd) ec])
         /\ match ob with Ok _ => commits commitRetries es o | _ => es = [] /\ o = ob end).
Proof. exact (Transact_runs body w). Qed.
End proofs.
End Txn.

Module Layers.
Section defs.
Context {U : Uapi} {K : Type} {H : Kernel rcall K}.
Abbreviation R := (M rcall K).

Definition layersRoot : bytes := str "Machine\System\Registry\Layers".
Definition baseLayer : bytes := str "base".

(** A missing owner is the zero SID. *)
Record Info := mkInfo { Name : bytes; Precedence : Z; Enabled : bool; Owner : SID.t }.

Definition layerPath (name : bytes) : bytes := layersRoot ++ str "\" ++ name.

Definition guardReserved (name : bytes) (verb : string) : outcome unit :=
  if equal_fold name baseLayer then Err (Wrapf verb ErrReservedLayer) else Ok tt.

Record Builder := mkBuilder { b_name : bytes; b_precedence : Z; b_enabled : bool }.
Definition Create (name : bytes) : Builder := mkBuilder name 0 true.
Definition set_Precedence (p : Z) (b : Builder) : Builder := mkBuilder (b_name b) p (b_enabled b).
Definition set_Enabled (e : bool) (b : Builder) : Builder := mkBuilder (b_name b) (b_precedence b) e.
Definition Disabled (b : Builder) : Builder := mkBuilder (b_name b) (b_precedence b) false.

Definition boolUint32 (b : bool) : Z := if b then 1 else 0.

(** The closure that [Call] gives to [Transact]. *)
Definition create_body (b : Builder) (tx : Z) : R unit :=
  '(key, _) ← RegKey.Call (RegKey.Access KEY_ALL_ACCESS (Txn.Create tx (layerPath (b_name b))));
  deferred (RegKey.Close key)
    (let w := Txn.At tx key in
     RegKey.SetValue (Txn.Base w) (str "Precedence") (RegValue.DWORD (b_precedence b));;
     RegKey.SetValue (Txn.Base w) (str "Enabled") (RegValue.DWORD (boolUint32 (b_enabled b)))).

Definition Call (b : Builder) : R Info :=
  lift (guardReserved (b_name b) "created");;
  Txn.Transact (create_body b);;
  mret (mkInfo (b_name b) (b_precedence b) (b_enabled b) SID.zero).

Definition Get (name : bytes) : R Info :=
  key ← RegKey.Open (layerPath name) (Z.lor KEY_QUERY_VALUE KACS_ACCESS_READ_CONTROL);
  deferred (RegKey.Close key)
    (v ← RegKey.TryQueryValue key (str "Precedence");
     let precedence := match v with
       | Some v => let '(n, ok) := RegValue.Uint32 v in if ok : bool then n else 0
       | None => 0
       end in
     v ← RegKey.TryQueryValue key (str "Enabled");
     let enabled := match v with
       | Some v => let '(n, ok) := RegValue.Uint32 v in if ok : bool then negb (n =? 0) else true
       | None => true
       end in
     v ← RegKey.TryQueryValue key (str "Owner");
     let owner := match v with
       | Some v =>
           let '(b, ok) := RegValue.Bytes v in
           if ok : bool then match SID.ParseSID b with Ok sid => sid | _ => SID.zero end else SID.zero
       | None => SID.zero
       end in
     mret (mkInfo name precedence enabled owner)).

Fixpoint list_loop (subs : list RegKey.Subkey) (out : list Info) : R (list Info) :=
  match subs with
  | [] => mret out
  | sub :: subs => info ← Get (RegKey.SName sub); list_loop subs (out ++ [info])
  end.
Definition List_ (fuel : nat) : R (list Info) :=
  root ← RegKey.Open layersRoot KEY_ENUMERATE_SUB_KEYS;
  deferred (RegKey.Close root) (subs ← RegKey.Subkeys fuel root; list_loop subs []).

Definition SetPrecedence (name : bytes) (precedence : Z) : R unit :=
  lift (guardReserved name "re-precedenced");;
  key ← RegKey.Open (layerPath name) KEY_SET_VALUE;
  deferred (RegKey.Close key)
    (RegKey.SetValue (RegKey.Base key) (str "Precedence") (RegValue.DWORD precedence)).

Definition SetEnabled (name : bytes) (enabled : bool) : R unit :=
  lift (guardReserved name "enabled or disabled");;
  key ← RegKey.Open (layerPath name) KEY_SET_VALUE;
  deferred (RegKey.Close key)
    (RegKey.SetValue (RegKey.Base key) (str "Enabled") (RegValue.DWORD (boolUint32 enabled))).

Definition Delete (name : bytes) : R unit :=
  lift (guardReserved name "deleted");;
  key ← RegKey.Open (layerPath name) KACS_ACCESS_DELETE;
  deferred (RegKey.Close key) (RegKey.DeleteKey (RegKey.Base key)).
End defs.

Section proofs.
Context {U : Uapi} {K : Type} {H : Kernel rcall K} {S : Settles rcall K}.

(** Did a transaction go live? *)
Definition committed (ev : event rcall) : bool :=
  match ev_call ev with CommitTxn _ => ev_errno ev =? 0 | _ => false end.

(** The requests of a creation that succeeds, up to the commits: the key is created and both its values
    written inside transaction [tx]; the errno [ec] of closing the key is not looked at. *)
Definition value_written (key tx : Z) (name : bytes) (v : RegValue.Value) : event rcall :=
  Ev (SetValue_ key (RegKey.ptr_len name) (RegValue.Encode v).1 (RegKey.ptr_len (RegValue.Encode v).2) []
        (int32 tx) 0) 0.
Definition layer_written (b : Builder) (tx key ec : Z) : list (event rcall) :=
  [Ev (CreateKey (int32 RegKey.parentNone) (layerPath (b_name b)) KEY_ALL_ACCESS 0 None (int32 tx)) 0;
   value_written key tx (str "Precedence") (RegValue.DWORD (b_precedence b));
   value_written key tx (str "Enabled") (RegValue.DWORD (boolUint32 (b_enabled b)))]
  ++ (if key <? 0 then [] else [Ev (CloseFD key) ec]).

Lemma total_SetValue (lw : RegKey.LayerWrite) name v w Q :
  let c := SetValue_ (RegKey.w_key lw) (RegKey.ptr_len name) (RegValue.Encode v).1
             (RegKey.ptr_len (RegValue.Encode v).2) (RegKey.ptr_len (RegKey.layerBytes (RegKey.w_layer lw)))
             (int32 (RegKey.w_txnFD lw)) 0 in
  (forall k, Q (Ok tt) (World k (trace w ++ [Ev c 0]))) ->
  (forall e k, e <> 0 -> Q (Err (Wrapf "set value" (Errno e))) (World k (trace w ++ [Ev c e]))) ->
  total (RegKey.SetValue lw name v) w Q.
Proof.
  intros c H0 He. unfold RegKey.SetValue, RegKey.writeValue. destruct (RegValue.Encode v) as [t d] eqn:E.
  apply total_checked; [intros []; apply H0|intros e k ? _; by apply He].
Qed.

Lemma total_key_Close fd w Q :
  (forall oe fd' w' ec, trace w' = trace w ++ (if fd <? 0 then [] else [Ev (CloseFD fd) ec]) ->
     Q (Ok (oe, fd')) w') ->
  total (RegKey.Close fd) w Q.
Proof.
  intros HQ. unfold RegKey.Close. destruct (fd <? 0).
  - apply total_ret, (HQ _ _ _ 0). by rewrite app_nil_r.
  - apply total_bind, total_call_once. intros [] e k. apply total_ret. by eapply HQ.
Qed.

Lemma create_body_spec b tx w :
  total (create_body b tx) w (fun o w' => exists es, trace w' = trace w ++ es /\ existsb committed es = false
    /\ match o with Ok _ => exists key ec, es = layer_written b tx key ec | _ => True end).
Proof.
  assert (Hclose : forall fd ec, existsb committed (if fd <? 0 then [] else [Ev (CloseFD fd) ec]) = false).
  { intros fd ec. by destruct (fd <? 0). }
  unfold create_body, RegKey.Call. apply total_bind, total_bind, total_lift.
  cbn [RegKey.c_path RegKey.Access Txn.Create RegKey.withTxn RegKey.Create RegKey.createAt].
  unfold BytePtrFromString. destruct (bool_decide (x00 ∈ _)).
  { exists []. by rewrite app_nil_r. }
  cbn [wrap_err]. apply total_bind. apply total_ret.
  apply total_checked; [intros [key d] k|intros e k He _; eexists; split_and!; reflexivity || done].
  cbn [RegKey.c_parentFD RegKey.c_access RegKey.c_flags RegKey.c_txnFD].
  apply total_deferred, total_bind, total_SetValue.
  - intros k'. apply total_SetValue.
    + intros k''. apply total_key_Close. intros oe fd' w' ec Ht. eexists. split_and!.
      * rewrite Ht. cbn [trace]. by rewrite <- !app_assoc.
      * cbn. apply Hclose.
      * by exists key, ec.
    + intros e k'' He. apply total_key_Close. intros oe fd' w' ec Ht. eexists. split_and!; [|  |done].
      * rewrite Ht. cbn [trace]. by rewrite <- !app_assoc.
      * cbn. apply Hclose.
  - intros e k' He. apply total_key_Close. intros oe fd' w' ec Ht. eexists. split_and!; [|  |done].
    + rewrite Ht. cbn [trace]. by rewrite <- !app_assoc.
    + cbn. apply Hclose.
Qed.

Lemma committed_commits tx es : existsb committed (Ev (CommitTxn tx) <$> es) = existsb (fun e => e =? 0) es.
Proof. induction es as [|e es IH]; [done|]. cbn. by rewrite IH. Qed.

Lemma retryable_not_zero es : Forall Txn.retryable es -> existsb (fun e => e =? 0) es = false.
Proof. induction 1 as [|e es [-> | ->] _ IH]; done. Qed.

(** [C32] Creating a layer is atomic.  A name that folds to the reserved "base" is refused without a request.
    Otherwise the layer goes live, by a successful commit, exactly when [Call] succeeds, and then its key and both its values were
    written, in that order and in the transaction, before the commits; on every failure nothing is
    committed. *)
Theorem Layer_Call_atomic b w :
  total (Call b) w (fun o w' =>
    if equal_fold (b_name b) baseLayer then o = Err (Wrapf "created" ErrReservedLayer) /\ w' = w
    else exists es, trace w' = trace w ++ es /\ existsb committed es = is_ok o
      /\ match o with
         | Ok i => i = mkInfo (b_name b) (b_precedence b) (b_enabled b) SID.zero
             /\ exists tx key ec es' ec', Txn.commits Txn.commitRetries es' (Ok tt)
                  /\ es = Ev BeginTransaction 0 :: layer_written b tx key ec ++ (Ev (CommitTxn tx) <$> es')
                           ++ (if tx <? 0 then [] else [Ev (CloseFD tx) ec'])
         | _ => True
         end).
Proof.
  assert (Hclose : forall fd ec, existsb committed (if fd <? 0 then [] else [Ev (CloseFD fd) ec]) = false).
  { intros fd ec. by destruct (fd <? 0). }
  unfold Call, guardReserved. apply total_bind, total_lift. destruct (equal_fold _ _); [done|].
  apply total_bind. eapply total_mono.
  { apply Txn.Transact_runs. intros fd w0. eapply total_mono; [apply create_body_spec|done]. }
  intros o w' [(e & He & -> & Ht)|(tx & k & ob & wb & es & ec' & Eb & Ht & Ho)].
  { eexists. by split_and!. }
  pose proof (total_fun _ _ _ _ _ (create_body_spec b tx _) Eb) as (eb & Heb & Hcb & Hb). cbn [trace] in Heb.
  assert (Ht' : trace w' = trace w ++ Ev BeginTransaction 0 :: eb ++ (Ev (CommitTxn tx) <$> es) ++ (if tx <? 0 then [] else [Ev (CloseFD tx) ec'])).
  { rewrite Ht, Heb. by rewrite <- !app_assoc. }
  assert (Hc : existsb committed (Ev BeginTransaction 0 :: eb ++ (Ev (CommitTxn tx) <$> es) ++ (if tx <? 0 then [] else [Ev (CloseFD tx) ec']))
               = existsb (fun e => e =? 0) es).
  { cbn [existsb]. rewrite !existsb_app, Hcb, committed_commits, Hclose, orb_false_r. done. }
  destruct ob as [[]|e|]; [|destruct Ho as [-> ->]; eexists; by split_and!..].
  destruct Hb as (key & ec & ->). destruct Ho as (init & e & He & Hi & Hl & Hlast).
  assert (Hes : existsb (fun e => e =? 0) es = (e =? 0)).
  { rewrite He, existsb_app, retryable_not_zero by done. cbn. apply orb_false_r. }
  rewrite Hes in Hc. destruct Hlast as [[-> ->]|(Hne & -> & _)].
  - apply total_ret. eexists. split_and!; [exact Ht'|exact Hc|done|]. exists tx, key, ec, es, ec'. split; [|done].
    exists init, 0. split_and!; auto.
  - eexists. split_and!; [exact Ht'| |done]. rewrite Hc. by apply Z.eqb_neq.
Qed.
End proofs.

Lemma Transact_spec_witness :
  let body fd := RegKey.SetValue (U := pkm) (H := RegKey.Sample.kernel) (Txn.Base (Txn.At fd 3)) (str "Mode") (@RegValue.DWORD pkm 1) in
  let w := World RegKey.Sample.start [] in
  (forall fd w, total (body fd) w (fun _ _ => True))
  /\ total (Txn.Transact body) w (fun o w' =>
    (exists e, e <> 0 /\ o = Err (Wrapf "begin transaction" (Errno e)) /\ trace w' = trace w ++ [Ev BeginTransaction e])
    \/ exists fd k ob wb es ec,
         body fd (World k (trace w ++ [Ev BeginTransaction 0])) = Some (ob, wb)
         /\ trace w' = trace wb ++ (Ev (CommitTxn fd) <$> es) ++ (if fd <? 0 then [] else [Ev (CloseFD fd) ec])
         /\ match ob with Ok _ => Txn.commits Txn.commitRetries es o | _ => es = [] /\ o = ob end).
Proof.
  intros body w. assert (Hb : forall fd w, total (body fd) w (fun _ _ => True)).
  { intros fd w0. by apply total_SetValue. }
  split; [exact Hb|]. exact (Txn.Transact_spec (S := RegKey.Sample.settled) body w Hb).
Defined.

Lemma Layer_Call_atomic_witness :
  let b := Create (str "role-x") in let w := World RegKey.Sample.start [] in
  total (Call (U := pkm) (H := RegKey.Sample.kernel) b) w (fun o w' =>
    exists es, trace w' = trace w ++ es /\ existsb committed es = is_ok o
      /\ match o with
         | Ok i => i = mkInfo (b_name b) (b_precedence b) (b_enabled b) SID.zero
             /\ exists tx key ec es' ec', Txn.commits Txn.commitRetries es' (Ok tt)
                  /\ es = Ev BeginTransaction 0 :: @layer_written pkm b tx key ec ++ (Ev (CommitTxn tx) <$> es')
                           ++ (if tx <? 0 then [] else [Ev (CloseFD tx) ec'])
         | _ => True
         end).
Proof. intros b w. exact (Layer_Call_atomic (U := pkm) (S := RegKey.Sample.settled) b w). Defined.

End Layers.
