(* ===== verification/LayerStore.v ===== *)
(** * LayerStore: layer management as operations on a store of layers (registry/layers/layers.go)

    What the package promises is simple: a finite map from names to layers, with an
    operation to create, change, delete, read and list.  What it does is open keys, run
    transactions, write and read values.  [layers_refine] connects the two, against a
    registry that keeps the documented contract of keys, values and transactions and
    may refuse any request ([LayerKeys]): whatever sequence of operations is run, the
    registry holds the store that the successful ones describe. *)

From S2P Require Import Prelude Outcome GoStd Uapi Sid Kernel RegValue RegWire RegKey RegTxn.

Module LayerStore.
Import Layers.

(** ** The store *)

(** What the registry holds of one layer key: its values, a type and bytes by name. *)
Abbreviation meta := (gmap bytes (Z * bytes)).

Record layer := mkLayer { l_precedence : Z; l_enabled : bool; l_owner : SID.t }.

Section spec.
Context {U : Uapi} (canon : bytes -> bytes).

(** A value of a layer key, when it is there and is of a known form. *)
Definition field (m : meta) (name : bytes) : option RegValue.Value :=
  '(t, d) ← m !! name; match RegValue.Decode t d with Ok v => Some v | _ => None end.
(** Every value the package looks at can be decoded. *)
Definition readable (m : meta) : bool :=
  forallb (fun name => match m !! name with Some (t, d) => is_ok (RegValue.Decode t d) | None => true end)
    [str "Precedence"; str "Enabled"; str "Owner"].

Definition number (v : option RegValue.Value) (default : Z) : Z :=
  match v with Some v => let '(n, ok) := RegValue.Uint32 v in if ok : bool then n else default | None => default end.
(** The layer that a key stands for: what is missing or of another type has its default. *)
Definition describe (m : meta) : layer :=
  mkLayer (number (field m (str "Precedence")) 0) (negb (number (field m (str "Enabled")) 1 =? 0))
    (match field m (str "Owner") with
     | Some v => let '(b, ok) := RegValue.Bytes v in
                 if ok : bool then match SID.ParseSID b with Ok sid => sid | _ => SID.zero end else SID.zero
     | None => SID.zero
     end).
Definition info (name : bytes) (l : layer) : Info := mkInfo name (l_precedence l) (l_enabled l) (l_owner l).

(** The operations that change the store; names are taken up to [canon], the folding of the registry. *)
Inductive op :=
  | OCreate (b : Builder)
  | OSetPrecedence (name : bytes) (precedence : Z)
  | OSetEnabled (name : bytes) (enabled : bool)
  | ODelete (name : bytes).
Definition op_name (o : op) : bytes :=
  match o with OCreate b => b_name b | OSetPrecedence n _ | OSetEnabled n _ | ODelete n => n end.
(** The precedence is a uint32. *)
Definition op_fits (o : op) : Prop :=
  match o with OCreate b => fits 32 (b_precedence b) | OSetPrecedence _ p => fits 32 p | _ => True end.

(** What a successful operation does; a layer that is new has the owner that the kernel records, in [born]. *)
Definition effect (born : layer) (o : op) (A : gmap bytes layer) : gmap bytes layer :=
  let c := canon (op_name o) in
  match o with
  | OCreate b => <[c := mkLayer (b_precedence b) (b_enabled b) (l_owner (default born (A !! c)))]> A
  | OSetPrecedence _ p => alter (fun l => mkLayer p (l_enabled l) (l_owner l)) c A
  | OSetEnabled _ e => alter (fun l => mkLayer (l_precedence l) e (l_owner l)) c A
  | ODelete _ => delete c A
  end.
(** The operations [ops], of which those marked in [oks] succeeded. *)
Fixpoint replay (born : layer) (ops : list op) (oks : list bool) (A : gmap bytes layer) : gmap bytes layer :=
  match ops, oks with
  | o :: ops, ok :: oks => replay born ops oks (if ok : bool then effect born o A else A)
  | _, _ => A
  end.
End spec.

(** ** The operations, run *)

Section run.
Context {U : Uapi} {K : Type} {H : Kernel rcall K}.

Definition exec (o : op) : M rcall K unit :=
  match o with
  | OCreate b => Call b;; mret tt
  | OSetPrecedence n p => SetPrecedence n p
  | OSetEnabled n e => SetEnabled n e
  | ODelete n => Delete n
  end.
(** One after the other, whatever they return. *)
Fixpoint run (ops : list op) : M rcall K (list bool) :=
  match ops with
  | [] => mret []
  | o :: ops =>
      r ← try_ (exec o); oks ← run ops;
      mret (match r with inl _ => true | inr _ => false end :: oks)
  end.
End run.

(** ** The contract of the registry *)

(** What a client can observe of the layer subtree when it alone changes it: the layer keys, the descriptors it
    has open - on the root or on a layer, with the rights asked for - and its transaction: the descriptor and, while
    it is active, the keys as seen inside it. *)
Record view := mkView {
  stored : gmap bytes meta;
  handles : gmap Z (option bytes * Z);
  txn : option (Z * option (gmap bytes meta))
}.

Definition fresh_in (v : view) (fd : Z) : Prop := 0 <= fd < 2 ^ 31 /\ handles v !! fd = None /\ forall T, txn v <> Some (fd, T).
Definition opened (v : view) (fd : Z) (h : option bytes * Z) : view := mkView (stored v) (<[fd := h]> (handles v)) (txn v).
Definition closed (v : view) (fd : Z) : view := mkView (stored v) (delete fd (handles v)) (txn v).
Definition storing (v : view) (T : gmap bytes meta) : view := mkView T (handles v) (txn v).
Definition in_txn (v : view) (x : option (Z * option (gmap bytes meta))) : view := mkView (stored v) (handles v) x.
Definition granted (access right : Z) : Prop := Z.land access right = right.

(** The subkeys of the root name the layers, each one once. *)
Definition lists (canon : bytes -> bytes) (subs : list RegKey.Subkey) (T : gmap bytes meta) : Prop :=
  canon ∘ RegKey.SName <$> subs ≡ₚ (map_to_list T).*1 /\ Z.of_nat (length subs) < 2 ^ 32
  /\ Forall (fun s => x00 ∉ RegKey.SName s) subs.
(** What reading a value gives when it holds [x], in whatever layer and with whatever sequence number. *)
Definition holds (m : meta) (name : bytes) (x : Z + RegKey.held) : Prop :=
  match m !! name with
  | None => x = inl Errno.ENOENT
  | Some (t, d) => exists ly seq, x = inr (RegKey.mkHeld t d ly seq)
  end.

Section contract.
Context {U : Uapi} {K : Type} {H : Kernel rcall K}.
Context (Inv : K -> Prop) (view_of : K -> view) (canon : bytes -> bytes) (born : meta).

Definition at_ (v : view) (k : K) : Prop := Inv k /\ view_of k = v.
(** A request that is granted, with [P] of its answer, or refused, which changes nothing. *)
Definition may {A} (v : view) (c : rcall A) (P : A -> K -> Prop) (refused : Z -> Prop) : Prop :=
  transits c (at_ v) (fun r e k => if e =? 0 then P r k else refused e /\ at_ v k).

Class LayerKeys : Prop := {
  k_canon n : canon n = canon baseLayer -> equal_fold n baseLayer = true;
  k_born : readable born = true;
  k_open v n access : may v (OpenKey RegKey.parentNone (layerPath n) access 0)
    (fun r k => is_Some (stored v !! canon n) /\ fresh_in v r /\ at_ (opened v r (Some (canon n), access)) k)
    (fun e => stored v !! canon n = None <-> e = Errno.ENOENT);
  k_open_root v access : may v (OpenKey RegKey.parentNone layersRoot access 0)
    (fun r k => fresh_in v r /\ at_ (opened v r (None, access)) k) (fun _ => True);
  k_close v fd k : is_Some (handles v !! fd) -> at_ v k -> at_ (closed v fd) (answer (CloseFD fd) k).2;
  k_query v fd c a m name : handles v !! fd = Some (Some c, a) -> granted a KEY_QUERY_VALUE -> stored v !! c = Some m ->
    zlen name < 2 ^ 32 -> exists x, holds m name x /\ RegKey.serves_value (at_ v) (fun _ => x) fd name RegKey.noTxn;
  k_children v fd a k : at_ v k -> handles v !! fd = Some (None, a) -> granted a KEY_ENUMERATE_SUB_KEYS ->
    exists subs, lists canon subs (stored v) /\ RegKey.serves_subkeys (at_ v) fd RegKey.noTxn subs;
  k_set v fd c a m name t d : handles v !! fd = Some (Some c, a) -> stored v !! c = Some m ->
    may v (SetValue_ fd name t d [] (int32 RegKey.noTxn) 0)
      (fun _ => at_ (storing v (<[c := <[name := (t, d)]> m]> (stored v)))) (fun _ => True);
  k_delete v fd c a : handles v !! fd = Some (Some c, a) ->
    may v (DeleteKey_ fd [] (int32 RegKey.noTxn)) (fun _ => at_ (storing v (delete c (stored v)))) (fun _ => True);
  (** a transaction sees its own writes, and they are stored when it is committed *)
  k_begin v : txn v = None ->
    may v BeginTransaction (fun r k => fresh_in v r /\ at_ (in_txn v (Some (r, Some (stored v)))) k) (fun _ => True);
  k_create v tx T n access : txn v = Some (tx, Some T) ->
    may v (CreateKey (int32 RegKey.parentNone) (layerPath n) access 0 None tx)
      (fun r k => fresh_in v r.1 /\
         at_ (in_txn (opened v r.1 (Some (canon n), access)) (Some (tx, Some (<[canon n := default born (T !! canon n)]> T)))) k)
      (fun _ => True);
  k_set_txn v tx T fd c a m name t d : txn v = Some (tx, Some T) -> handles v !! fd = Some (Some c, a) -> T !! c = Some m ->
    may v (SetValue_ fd name t d [] tx 0)
      (fun _ => at_ (in_txn v (Some (tx, Some (<[c := <[name := (t, d)]> m]> T))))) (fun _ => True);
  (** after an error other than EBUSY and EIO the transaction may be over *)
  k_commit v tx T : txn v = Some (tx, Some T) ->
    transits (CommitTxn tx) (at_ v) (fun _ e k =>
      if e =? 0 then at_ (mkView T (handles v) (Some (tx, None))) k
      else at_ v k \/ ~ Txn.retryable e /\ at_ (in_txn v (Some (tx, None))) k);
  k_close_txn v tx x k : txn v = Some (tx, x) -> at_ v k -> at_ (in_txn v None) (answer (CloseFD tx) k).2
}.
End contract.

#[global] Arguments k_canon {_ _ _ _ _ _ _ _}.
#[global] Arguments k_born {_ _ _ _ _ _ _ _}.
#[global] Arguments k_open {_ _ _ _ _ _ _ _}.
#[global] Arguments k_open_root {_ _ _ _ _ _ _ _}.
#[global] Arguments k_close {_ _ _ _ _ _ _ _}.
#[global] Arguments k_query {_ _ _ _ _ _ _ _}.
#[global] Arguments k_children {_ _ _ _ _ _ _ _}.
#[global] Arguments k_set {_ _ _ _ _ _ _ _}.
#[global] Arguments k_delete {_ _ _ _ _ _ _ _}.
#[global] Arguments k_begin {_ _ _ _ _ _ _ _}.
#[global] Arguments k_create {_ _ _ _ _ _ _ _}.
#[global] Arguments k_set_txn {_ _ _ _ _ _ _ _}.
#[global] Arguments k_commit {_ _ _ _ _ _ _ _}.
#[global] Arguments k_close_txn {_ _ _ _ _ _ _ _}.

(** ** Views *)

Lemma granted_self a : granted a a.
Proof. apply Z.land_diag. Qed.
Lemma granted_lor a b : granted (Z.lor a b) a.
Proof. unfold granted. apply Z.bits_inj'. intros n _. rewrite Z.land_spec, Z.lor_spec. by destruct (Z.testbit a n), (Z.testbit b n). Qed.

Lemma opened_handle v fd h : handles (opened v fd h) !! fd = Some h.
Proof. apply lookup_insert_eq. Qed.
Lemma closed_opened v fd h : fresh_in v fd -> closed (opened v fd h) fd = v.
Proof. intros (_ & Hn & _). destruct v. unfold closed, opened. cbn in *. by rewrite delete_insert_id. Qed.
Lemma closed_storing v T fd h : fresh_in v fd -> closed (storing (opened v fd h) T) fd = storing v T.
Proof. intros (_ & Hn & _). destruct v. unfold closed, opened, storing. cbn in *. by rewrite delete_insert_id. Qed.
Section proofs.
Context {U : Uapi} {RL : RegLaws U} {K : Type} {H : Kernel rcall K} {S : Settles rcall K}.
Context (Inv : K -> Prop) (view_of : K -> view) (canon : bytes -> bytes) (born : meta).
Context {LK : LayerKeys Inv view_of canon born}.
Abbreviation at_ := (at_ Inv view_of).
Abbreviation may := (may Inv view_of).
Abbreviation R := (M rcall K).

(** ** Requests *)

Lemma total_may {A} msg v (c : rcall A) P refused w (Q : outcome A -> world rcall K -> Prop) :
  may v c P refused -> at_ v (kst w) ->
  (forall r w', P r (kst w') -> Q (Ok r) w') ->
  (forall e w', e <> 0 -> refused e -> at_ v (kst w') -> Q (Err (Wrapf msg (Errno e))) w') ->
  total (Sys.checked msg c) w Q.
Proof.
  intros Hm Hv HP He. unfold Sys.checked. apply total_bind. eapply total_transit; [exact Hm|done|].
  intros r e k Hr. cbv beta in Hr. destruct (Z.eqb_spec e 0) as [->|Hne].
  - by apply total_ret, HP.
  - destruct Hr. by apply total_throw, He.
Qed.

Lemma close_key v fd h w : handles v !! fd = Some h -> 0 <= fd -> at_ v (kst w) ->
  total (RegKey.Close fd) w (fun o w' => (exists x, o = Ok x) /\ at_ (closed v fd) (kst w')).
Proof.
  intros Hh Hfd Hv. unfold RegKey.Close. destruct (Z.ltb_spec fd 0); [lia|].
  pose proof (k_close v fd (kst w) (mk_is_Some _ _ Hh) Hv) as Hc.
  apply total_bind, total_once. destruct (answer (CloseFD fd) (kst w)) as [[[] e] k]. apply total_ret. eauto.
Qed.

Definition open_failed (n : bytes) (v : view) (e : err) : Prop :=
  x00 ∉ n -> exists m, m <> 0 /\ e = Wrapf "open" (Errno m) /\ (stored v !! canon n = None <-> m = Errno.ENOENT).

Lemma layerPath_plain n : x00 ∉ n -> x00 ∉ layerPath n.
Proof.
  intros Hn. unfold layerPath. rewrite !elem_of_app. intros [Hx|[Hx|Hx]]; [| |done];
    revert Hx; apply (bool_decide_unpack _); vm_compute; exact I.
Qed.

(** Opening a layer key, doing something with it and closing it. *)
Lemma total_with_key {A} (n : bytes) (access : Z) (body : Z -> R A) (v : view) (w : world rcall K)
    (P : outcome A -> gmap bytes meta -> Prop) :
  at_ v (kst w) ->
  (forall r w1, is_Some (stored v !! canon n) -> at_ (opened v r (Some (canon n), access)) (kst w1) ->
     total (body r) w1 (fun o w2 => exists T, at_ (storing (opened v r (Some (canon n), access)) T) (kst w2) /\ P o T)) ->
  total (key ← RegKey.Open (layerPath n) access; deferred (RegKey.Close key) (body key)) w (fun o w' =>
    exists T, at_ (storing v T) (kst w') /\ (P o T \/ T = stored v /\ exists e, o = Err e /\ open_failed n v e)).
Proof.
  intros Hv Hbody. assert (Hs : storing v (stored v) = v) by by destruct v.
  apply total_bind. unfold RegKey.Open, RegKey.openAt. apply total_bind, total_lift. unfold BytePtrFromString.
  case_bool_decide as H0; cbn [wrap_err].
  { exists (stored v). rewrite Hs. split; [done|]. right. split; [done|]. eexists. split; [done|].
    intros Hn. by apply layerPath_plain in Hn. }
  eapply total_may; [apply (k_open v n access)|done| |].
  - intros r w1 (Hsome & Hf & Hv1). apply total_deferred. eapply total_mono; [by apply Hbody|].
    intros o w2 (T & Hv2 & HP). eapply total_mono; [exact (close_key (storing (opened v r _) T) r _ w2 (opened_handle v r _) (proj1 (proj1 Hf)) Hv2)|].
    intros oc w3 [[x ->] Hv3]. rewrite closed_storing in Hv3 by done. eauto.
  - intros e w1 Hne He Hv1. exists (stored v). rewrite Hs. split; [done|]. right. split; [done|]. eexists. split; [done|].
    intros _. by exists e.
Qed.

(** ** Reading *)

Lemma query_field v fd c a m name w : handles v !! fd = Some (Some c, a) -> granted a KEY_QUERY_VALUE ->
  stored v !! c = Some m -> zlen name < 2 ^ 32 -> at_ v (kst w) ->
  total (RegKey.TryQueryValue fd name) w (fun o w' => at_ v (kst w') /\
    match m !! name with
    | None => o = Ok None
    | Some (t, d) => match RegValue.Decode t d with Ok x => o = Ok (Some x) | _ => True end
    end).
Proof.
  intros Hh Ha Hm Hz Hv. destruct (k_query v fd c a m name Hh Ha Hm Hz) as (x & Hx & Hs).
  unfold RegKey.TryQueryValue, RegKey.tryQueryValueIn. apply total_bind, total_try.
  eapply total_mono.
  { apply (proj2 (RegKey.queryValueIn_two_pass (at_ v) (fun _ => x) fd name RegKey.noTxn w Hs Hv) x). done. }
  intros o w' (n & _ & Hv' & _ & ->). unfold holds in Hx. destruct (m !! name) as [[t d]|].
  - destruct Hx as (ly & seq & ->). cbn [RegKey.hit_of RegKey.h_type RegKey.h_data RegKey.h_layer RegKey.h_seq].
    pose proof (RegValue.Decode_exact t d) as Hd. destruct (RegValue.Decode t d) as [y|e|]; [| |done].
    + by apply total_ret.
    + rewrite bind_Err. destruct (errors_is e (Errno Errno.ENOENT)); [by apply total_ret|by apply total_throw].
  - subst x. cbn [RegKey.hit_of]. change (errors_is _ _) with true. by apply total_ret.
Qed.

Lemma readable_field m name : readable m = true -> name ∈ [str "Precedence"; str "Enabled"; str "Owner"] ->
  match m !! name with
  | None => field m name = None
  | Some (t, d) => exists x, RegValue.Decode t d = Ok x /\ field m name = Some x
  end.
Proof.
  unfold readable, field. rewrite forallb_forall. intros Hr Hn%list_elem_of_In. specialize (Hr _ Hn). cbn beta in Hr.
  destruct (m !! name) as [[t d]|]; [|done]. cbn [mbind option_bind]. destruct (RegValue.Decode t d); [eauto|done..].
Qed.

Lemma query_readable v fd c a m name w : handles v !! fd = Some (Some c, a) -> granted a KEY_QUERY_VALUE ->
  stored v !! c = Some m -> readable m = true -> name ∈ [str "Precedence"; str "Enabled"; str "Owner"] -> at_ v (kst w) ->
  total (RegKey.TryQueryValue fd name) w (fun o w' => o = Ok (field m name) /\ at_ v (kst w')).
Proof.
  intros Hh Ha Hm Hr Hn Hv. eapply total_mono.
  { eapply query_field; [done..| |done]. revert Hn. rewrite !elem_of_cons, elem_of_nil. by intros [->|[->|[->|[]]]]. }
  intros o w' [Hv' Ho].
  pose proof (readable_field m name Hr Hn) as Hf. destruct (m !! name) as [[t d]|].
  - destruct Hf as (x & Hx & ->). by rewrite Hx in Ho.
  - by rewrite Hf.
Qed.

(** Reading a layer gives what its key describes, or the error of the open. *)
Lemma Get_spec n v w : map_Forall (fun _ m => readable m = true) (stored v) -> at_ v (kst w) ->
  total (Get n) w (fun o w' => at_ v (kst w') /\
    ((exists m, stored v !! canon n = Some m /\ o = Ok (info n (describe m)))
     \/ exists e, o = Err e /\ open_failed n v e)).
Proof.
  intros Hr Hv. unfold Get. eapply total_mono.
  - apply (total_with_key n _ _ v w (fun o T => T = stored v /\ exists m, stored v !! canon n = Some m /\ o = Ok (info n (describe m))));
      [done|].
    intros r w1 [m Hm] Hv1. set (v1 := opened v r _) in *.
    assert (Hq : forall name w2, name ∈ [str "Precedence"; str "Enabled"; str "Owner"] -> at_ v1 (kst w2) ->
      total (RegKey.TryQueryValue r name) w2 (fun o w' => o = Ok (field m name) /\ at_ v1 (kst w'))).
    { intros name w2. eapply query_readable; [apply opened_handle|apply granted_lor|exact Hm|by eapply (Hr _ _ Hm)]. }
    apply total_bind. eapply total_mono; [apply Hq; [set_solver|done]|]. intros o2 w2 [-> Hv2].
    apply total_bind. eapply total_mono; [apply Hq; [set_solver|done]|]. intros o3 w3 [-> Hv3].
    apply total_bind. eapply total_mono; [apply Hq; [set_solver|done]|]. intros o4 w4 [-> Hv4].
    apply total_ret. exists (stored v). split; [by destruct v|]. split; [done|]. exists m. split; [done|].
    unfold info, describe, number. cbn [l_precedence l_enabled l_owner]. repeat f_equal.
    destruct (field m (str "Enabled")) as [x|]; [|done]. by destruct (RegValue.Uint32 x) as [? []].
  - intros o w' (T & Hv' & Ho). assert (T = stored v) as -> by naive_solver.
    split; [by destruct v|]. naive_solver.
Qed.

(** ** Values of a layer *)

Definition dword (n : Z) : Z * bytes := RegValue.Encode (RegValue.DWORD n).

Lemma Decode_dword n : fits 32 n -> RegValue.Decode (dword n).1 (dword n).2 = Ok (RegValue.DWORD n).
Proof. intros Hn. unfold dword. rewrite RegValue.Decode_made by by constructor. done. Qed.

Lemma field_dword m name n : fits 32 n -> field (<[name := dword n]> m) name = Some (RegValue.DWORD n).
Proof.
  intros Hn. unfold field. rewrite lookup_insert_eq. cbn [mbind option_bind].
  pose proof (Decode_dword n Hn) as Hd. destruct (dword n) as [t d]. cbn [fst snd] in Hd. by rewrite Hd.
Qed.
Lemma field_other m name name' x : name <> name' -> field (<[name := x]> m) name' = field m name'.
Proof. intros. unfold field. by rewrite lookup_insert_ne. Qed.
Lemma number_dword n dflt : fits 32 n -> number (Some (RegValue.DWORD n)) dflt = n.
Proof.
  intros Hn. unfold number, RegValue.Uint32, RegValue.DWORD. cbn [RegValue.typ RegValue.num]. rewrite Z.eqb_refl. cbn [orb].
  unfold wrap. by rewrite Z.mod_small.
Qed.
Lemma fits_bool e : fits 32 (boolUint32 e).
Proof. by destruct e; vm_compute. Qed.

Lemma readable_dword m name n : fits 32 n -> readable m = true -> readable (<[name := dword n]> m) = true.
Proof.
  intros Hn. unfold readable. rewrite !forallb_forall. intros Hr x Hx. specialize (Hr x Hx).
  destruct (decide (name = x)) as [->|Hne]; [|by rewrite lookup_insert_ne].
  rewrite lookup_insert_eq. pose proof (Decode_dword n Hn) as Hd. destruct (dword n) as [t d]. cbn [fst snd] in Hd. by rewrite Hd.
Qed.

Lemma describe_precedence m p : fits 32 p ->
  describe (<[str "Precedence" := dword p]> m) = mkLayer p (l_enabled (describe m)) (l_owner (describe m)).
Proof.
  intros Hp. unfold describe. cbn [l_enabled l_owner].
  by rewrite field_dword, number_dword, !(field_other m (str "Precedence")) by done.
Qed.
Lemma describe_enabled m e :
  describe (<[str "Enabled" := dword (boolUint32 e)]> m) = mkLayer (l_precedence (describe m)) e (l_owner (describe m)).
Proof.
  pose proof (fits_bool e). unfold describe. cbn [l_precedence l_owner].
  rewrite field_dword, number_dword, !(field_other m (str "Enabled")) by done. by destruct e.
Qed.

(** ** One operation *)

Definition abs (T : gmap bytes meta) : gmap bytes layer := describe <$> T.
Definition all_readable (T : gmap bytes meta) : Prop := map_Forall (fun _ m => readable m = true) T.

(** What an operation did to the keys [T]: the step of the specification, or nothing. *)
Definition stepped (o : op) (T : gmap bytes meta) (r : outcome unit) (T' : gmap bytes meta) : Prop :=
  match r with
  | Ok _ => equal_fold (op_name o) baseLayer = false /\ all_readable T'
            /\ abs T' = effect canon (describe born) o (abs T)
  | Err _ => T' = T
  | Panic => False
  end.

Lemma zlen_dword n : zlen (dword n).2 < 2 ^ 32.
Proof.
  unfold dword, RegValue.Encode, RegValue.DWORD. cbn [RegValue.typ RegValue.num RegValue.s RegValue.b RegValue.list_].
  repeat case_match; cbn [snd]; rewrite ?zlen_be_enc, ?zlen_le_enc; vm_compute; reflexivity.
Qed.

Lemma total_set_dword lw name n v P w : RegKey.w_layer lw = [] -> zlen name < 2 ^ 32 ->
  may v (SetValue_ (RegKey.w_key lw) name (dword n).1 (dword n).2 [] (int32 (RegKey.w_txnFD lw)) 0) (fun _ => P) (fun _ => True) ->
  at_ v (kst w) ->
  total (RegKey.SetValue lw name (RegValue.DWORD n)) w (fun o w' =>
    (o = Ok tt /\ P (kst w')) \/ (exists e, o = Err e) /\ at_ v (kst w')).
Proof.
  intros Hl Hn Hm Hv. unfold RegKey.SetValue. pose proof (zlen_dword n) as Hz. unfold dword in *.
  destruct (RegValue.Encode _) as [t d]. cbn [fst snd] in *. unfold RegKey.writeValue. rewrite Hl.
  rewrite !RegKey.ptr_len_short by done.
  eapply total_may; [exact Hm|done| |].
  - intros [] w' Hw'. by left.
  - intros e w' _ _ Hw'. right. eauto.
Qed.

(** An operation on an existing layer key: guarded, then one change of the key's values. *)
Lemma step_guarded o verb access (body : Z -> R unit) v w :
  at_ v (kst w) -> all_readable (stored v) ->
  (forall r m w1, stored v !! canon (op_name o) = Some m -> at_ (opened v r (Some (canon (op_name o)), access)) (kst w1) ->
     total (body r) w1 (fun x w2 => exists T, at_ (storing (opened v r (Some (canon (op_name o)), access)) T) (kst w2)
       /\ (equal_fold (op_name o) baseLayer = false -> stepped o (stored v) x T))) ->
  total (lift (guardReserved (op_name o) verb);; key ← RegKey.Open (layerPath (op_name o)) access;
         deferred (RegKey.Close key) (body key)) w
    (fun x w' => exists T, at_ (storing v T) (kst w') /\ stepped o (stored v) x T).
Proof.
  intros Hv Hr Hb. unfold guardReserved. apply total_bind, total_lift.
  destruct (equal_fold _ _) eqn:Eb; [exists (stored v); split; [by destruct v|done]|].
  eapply total_mono.
  { apply (total_with_key (op_name o) access body v w (stepped o (stored v))); [done|].
    intros r w1 [m Hm] Hv1. eapply total_mono; [by eapply Hb|]. naive_solver. }
  intros x w' (T & Hv' & [Hs|[-> (e & -> & _)]]); eauto.
  exists (stored v). by split.
Qed.

Lemma insert_step c T m' l : all_readable T -> readable m' = true -> describe m' = l ->
  all_readable (<[c := m']> T) /\ abs (<[c := m']> T) = <[c := l]> (abs T).
Proof. intros Hr Hr' <-. split; [by apply map_Forall_insert_2|apply fmap_insert]. Qed.

Lemma abs_alter c T m f : T !! c = Some m -> alter f c (abs T) = <[c := f (describe m)]> (abs T).
Proof.
  intros Hm. apply map_eq. intros i. destruct (decide (i = c)) as [->|].
  - rewrite lookup_alter_eq, lookup_insert_eq. unfold abs. by rewrite lookup_fmap, Hm.
  - by rewrite lookup_alter_ne, lookup_insert_ne.
Qed.

(** One value set outside a transaction. *)
Lemma set_step o fd a m name n v w : fits 32 n -> zlen name < 2 ^ 32 ->
  handles v !! fd = Some (Some (canon (op_name o)), a) -> stored v !! canon (op_name o) = Some m -> all_readable (stored v) ->
  effect canon (describe born) o (abs (stored v)) = <[canon (op_name o) := describe (<[name := dword n]> m)]> (abs (stored v)) ->
  at_ v (kst w) ->
  total (RegKey.SetValue (RegKey.Base fd) name (RegValue.DWORD n)) w (fun x w' =>
    exists T, at_ (storing v T) (kst w') /\ (equal_fold (op_name o) baseLayer = false -> stepped o (stored v) x T)).
Proof.
  intros Hn Hz Hh Hm Hr He Hv. eapply total_mono.
  { exact (total_set_dword (RegKey.Base fd) name n v _ w eq_refl Hz (k_set v fd _ a m name _ _ Hh Hm) Hv). }
  intros x w' Hx. destruct Hx as [[-> Hv']|[[e ->] Hv']]; [|exists (stored v); split; [by destruct v|done]].
  rewrite <- surjective_pairing in Hv'. eexists. split; [exact Hv'|]. intros Hb. split; [done|].
  destruct (insert_step (canon (op_name o)) (stored v) (<[name := dword n]> m) (describe (<[name := dword n]> m)) Hr) as [Hr' ->];
    [by apply readable_dword, (Hr _ _ Hm)|done|]. by rewrite He.
Qed.

Lemma guarded_steps o v w : (forall b, o <> OCreate b) -> op_fits o -> at_ v (kst w) -> all_readable (stored v) ->
  total (exec o) w (fun x w' => exists T, at_ (storing v T) (kst w') /\ stepped o (stored v) x T).
Proof.
  intros Ho Hf Hv Hr. destruct o as [b|n p|n e|n]; [by destruct (Ho b)|..]; cbn [exec].
  - apply (step_guarded (OSetPrecedence n p)); [done..|]. intros r m w1 Hm Hv1.
    apply (set_step (OSetPrecedence n p) r KEY_SET_VALUE m (str "Precedence") p (opened v r _) w1 Hf eq_refl (opened_handle v r _) Hm Hr); [|done].
    cbn [effect op_name]. rewrite (abs_alter _ _ _ _ Hm). by rewrite describe_precedence.
  - apply (step_guarded (OSetEnabled n e)); [done..|]. intros r m w1 Hm Hv1.
    apply (set_step (OSetEnabled n e) r KEY_SET_VALUE m (str "Enabled") (boolUint32 e) (opened v r _) w1 (fits_bool e) eq_refl (opened_handle v r _) Hm Hr); [|done].
    cbn [effect op_name]. rewrite (abs_alter _ _ _ _ Hm). by rewrite describe_enabled.
  - apply (step_guarded (ODelete n)); [done..|]. intros r m w1 Hm Hv1.
    eapply total_may; [exact (k_delete (opened v r _) r (canon n) KACS_ACCESS_DELETE (opened_handle v r _))|exact Hv1| |].
    + intros [] w2 Hv2. eexists. split; [exact Hv2|]. intros Hb. split; [done|].
      split; [by apply map_Forall_delete|apply fmap_delete].
    + intros ex w2 _ _ Hv2. exists (stored v). split; [by destruct v|done].
Qed.

(** ** Creating a layer *)

Lemma close_in_txn v fd h x : fresh_in v fd -> closed (in_txn (opened v fd h) x) fd = in_txn v x.
Proof. intros (_ & Hn & _). destruct v. unfold closed, opened, in_txn. cbn in *. by rewrite delete_insert_id. Qed.

Lemma close_txn v tx x w : 0 <= tx -> txn v = Some (tx, x) -> at_ v (kst w) ->
  total (Txn.Close tx) w (fun o w' => (exists x, o = Ok x) /\ at_ (in_txn v None) (kst w')).
Proof.
  intros Htx Ht Hv. unfold Txn.Close. destruct (Z.ltb_spec tx 0); [lia|].
  pose proof (k_close_txn v tx x (kst w) Ht Hv) as Hc.
  apply total_bind, total_once. destruct (answer (CloseFD tx) (kst w)) as [[[] e] k]. apply total_ret. eauto.
Qed.

Lemma commit_step v tx T n w : txn v = Some (tx, Some T) -> at_ v (kst w) ->
  total (Txn.commit_loop tx n) w (fun o w' =>
    match o with
    | Ok _ => at_ (mkView T (handles v) (Some (tx, None))) (kst w')
    | Err _ => exists x, at_ (in_txn v (Some (tx, x))) (kst w')
    | Panic => False
    end).
Proof.
  intros Ht. assert (Hself : in_txn v (Some (tx, Some T)) = v) by (rewrite <- Ht; by destruct v).
  revert w. induction n as [|n IH]; intros w Hv; cbn [Txn.commit_loop]; apply total_bind;
    (eapply total_transit; [by apply k_commit|done|]); intros r e k Hk; cbv beta in Hk;
    (destruct (Z.eqb_spec e 0) as [->|He]; [by apply total_ret|]).
  { apply total_throw. destruct Hk as [Hk|[_ Hk]]; [exists (Some T); by rewrite Hself|by exists None]. }
  change (errors_is (Errno e) (Errno Errno.EBUSY)) with (is_errno (Some (Errno e)) Errno.EBUSY).
  change (errors_is (Errno e) (Errno Errno.EIO)) with (is_errno (Some (Errno e)) Errno.EIO).
  rewrite !is_errno_Errno. destruct (_ || _) eqn:Er.
  - apply IH. cbn [kst]. destruct Hk as [Hk|[Hne _]]; [done|]. destruct Hne. unfold Txn.retryable.
    rewrite orb_true_iff, !Z.eqb_eq in Er. tauto.
  - apply total_throw. destruct Hk as [Hk|[_ Hk]]; [exists (Some T); by rewrite Hself|by exists None].
Qed.

Lemma set_in_txn v tx fd c a T m name n w : 0 <= tx < 2 ^ 31 -> handles v !! fd = Some (Some c, a) -> zlen name < 2 ^ 32 ->
  T !! c = Some m -> at_ (in_txn v (Some (tx, Some T))) (kst w) ->
  total (RegKey.SetValue (Txn.Base (Txn.At tx fd)) name (RegValue.DWORD n)) w (fun o w' =>
    (o = Ok tt /\ at_ (in_txn v (Some (tx, Some (<[c := <[name := dword n]> m]> T)))) (kst w'))
    \/ (exists e, o = Err e) /\ at_ (in_txn v (Some (tx, Some T))) (kst w')).
Proof.
  intros Htx Hh Hz Hl Hv. rewrite (surjective_pairing (dword n)).
  apply (total_set_dword (Txn.Base (Txn.At tx fd)) name n (in_txn v _) _ w eq_refl Hz); [|done].
  cbn [Txn.Base Txn.At RegKey.newLayerWrite RegKey.w_key RegKey.w_txnFD Txn.key Txn.txnFD]. rewrite int32_fits by done.
  exact (k_set_txn (in_txn v _) tx T fd c a m name _ _ eq_refl Hh Hl).
Qed.

Lemma create_body_step b tx v T w : 0 <= tx < 2 ^ 31 -> fits 32 (b_precedence b) -> all_readable T ->
  txn v = Some (tx, Some T) -> at_ v (kst w) ->
  total (create_body b tx) w (fun o w' => exists T', at_ (in_txn v (Some (tx, Some T'))) (kst w') /\
    match o with
    | Ok _ => all_readable T' /\ abs T' = effect canon (describe born) (OCreate b) (abs T)
    | Err _ => True
    | Panic => False
    end).
Proof.
  intros Htx Hp Hr Ht Hv. assert (Hself : in_txn v (Some (tx, Some T)) = v) by (rewrite <- Ht; by destruct v).
  set (c := canon (b_name b)). set (m := default born (T !! c)).
  assert (Hm : readable m = true). { unfold m. destruct (T !! c) eqn:E; [by apply (Hr _ _ E)|apply k_born]. }
  unfold create_body, RegKey.Call. apply total_bind, total_bind, total_lift.
  cbn [RegKey.c_path RegKey.Access Txn.Create RegKey.withTxn RegKey.Create RegKey.createAt].
  unfold BytePtrFromString. destruct (bool_decide _); cbn [wrap_err]; [exists T; by rewrite Hself|].
  apply total_bind, total_ret. cbn [RegKey.c_parentFD RegKey.c_access RegKey.c_flags RegKey.c_txnFD RegKey.Access Txn.Create RegKey.withTxn RegKey.Create RegKey.createAt].
  rewrite (int32_fits tx) by done.
  eapply total_may; [exact (k_create v tx T (b_name b) KEY_ALL_ACCESS Ht)|done| |intros e w1 _ _ Hv1; exists T; by rewrite Hself].
  intros [key d] w1 [Hf Hv1]. cbn [fst] in *. fold c m in Hv1. set (T1 := <[c := m]> T) in *.
  set (vk := fun T' => in_txn (opened v key (Some c, KEY_ALL_ACCESS)) (Some (tx, Some T'))).
  assert (Hclose : forall T' w2, at_ (vk T') (kst w2) ->
    total (RegKey.Close key) w2 (fun o w' => (exists x, o = Ok x) /\ at_ (in_txn v (Some (tx, Some T'))) (kst w'))).
  { intros T' w2 Hv2. rewrite <- (close_in_txn v key (Some c, KEY_ALL_ACCESS) _ Hf).
    exact (close_key (vk T') key _ w2 (opened_handle v key _) (proj1 (proj1 Hf)) Hv2). }
  assert (Hset : forall name n T' mm w2, zlen name < 2 ^ 32 -> T' !! c = Some mm -> at_ (vk T') (kst w2) ->
    total (RegKey.SetValue (Txn.Base (Txn.At tx key)) name (RegValue.DWORD n)) w2 (fun o w' =>
      (o = Ok tt /\ at_ (vk (<[c := <[name := dword n]> mm]> T')) (kst w')) \/ (exists e, o = Err e) /\ at_ (vk T') (kst w'))).
  { intros name n T' mm w2. apply (set_in_txn (opened v key _) tx key c KEY_ALL_ACCESS T' mm name n w2 Htx (opened_handle v key _)). }
  apply total_deferred, total_bind. eapply total_mono; [apply (Hset (str "Precedence") _ T1 m); [done|apply lookup_insert_eq|done]|].
  intros o w2 [[-> Hv2]|[[e ->] Hv2]].
  - eapply total_mono; [eapply (Hset (str "Enabled")); [done|apply lookup_insert_eq|exact Hv2]|].
    intros o w3 [[-> Hv3]|[[e ->] Hv3]]; (eapply total_mono; [by apply Hclose|]); intros o w4 [[x ->] Hv4]; eexists; (split; [exact Hv4|]); [|done].
    unfold T1. rewrite !insert_insert_eq.
    apply insert_step; [done|apply readable_dword; [apply fits_bool|by apply readable_dword]|].
    rewrite describe_enabled, describe_precedence by done. cbn [l_precedence l_owner]. f_equal.
    change (canon (op_name (OCreate b))) with c. unfold abs, m. rewrite lookup_fmap. by destruct (T !! c).
  - eapply total_mono; [by apply Hclose|]. intros o w3 [[x ->] Hv3]. by exists T1.
Qed.

Lemma create_step b v w : fits 32 (b_precedence b) -> txn v = None -> at_ v (kst w) -> all_readable (stored v) ->
  total (exec (OCreate b)) w (fun x w' => exists T, at_ (storing v T) (kst w') /\ stepped (OCreate b) (stored v) x T).
Proof.
  intros Hp Ht Hv Hr. assert (Hs : in_txn v None = v) by (rewrite <- Ht; by destruct v).
  assert (Hst : storing v (stored v) = v) by by destruct v.
  cbn [exec]. unfold Call, guardReserved. apply total_bind, total_bind, total_lift.
  destruct (equal_fold (b_name b) baseLayer) eqn:Eb; [exists (stored v); by rewrite Hst|].
  apply total_bind. unfold Txn.Transact, Txn.Begin. apply total_bind.
  eapply total_may; [exact (k_begin v Ht)|done| |intros e w1 _ _ Hv1; exists (stored v); by rewrite Hst].
  intros tx w1 [Hf Hv1]. apply total_deferred, total_bind.
  eapply total_mono; [exact (create_body_step b tx (in_txn v _) _ w1 (proj1 Hf) Hp Hr eq_refl Hv1)|].
  intros o w2 (T & Hv2 & Ho). cbn [in_txn stored handles txn] in Hv2.
  assert (Hc : forall v' x w3, txn v' = Some (tx, x) -> at_ v' (kst w3) ->
    total (Txn.Close tx) w3 (fun o w' => (exists x, o = Ok x) /\ at_ (in_txn v' None) (kst w'))).
  { intros v' x w3. apply close_txn, Hf. }
  assert (Hfail : forall x w3, at_ (in_txn v (Some (tx, x))) (kst w3) ->
    total (Txn.Close tx) w3 (fun oc w' => (exists x, oc = Ok x) /\ at_ (storing v (stored v)) (kst w'))).
  { intros x w3 Hv3. replace (storing v (stored v)) with (in_txn v None) by congruence. exact (Hc (in_txn v _) x w3 eq_refl Hv3). }
  destruct o as [[]|e|]; [|eapply total_mono; [by eapply Hfail|]; intros oc w3 [[x ->] Hv3]; by exists (stored v)|by destruct Ho].
  eapply total_mono; [exact (commit_step (in_txn v _) tx T Txn.commitRetries w2 eq_refl Hv2)|].
  intros [[]|e|] w3 Hv3; [|destruct Hv3 as [x Hv3]; eapply total_mono; [by eapply Hfail|];
    intros oc w4 [[y ->] Hv4]; by exists (stored v)|done].
  eapply total_mono; [exact (Hc (mkView _ _ _) _ w3 eq_refl Hv3)|]. intros o w4 [[x ->] Hv4]. apply total_ret, total_ret.
  exists T. split; [|by split]. revert Hv4. destruct v. cbn in *. by subst.
Qed.

(** ** Histories *)

Lemma exec_step o v w : op_fits o -> txn v = None -> at_ v (kst w) -> all_readable (stored v) ->
  total (exec o) w (fun x w' => exists T, at_ (storing v T) (kst w') /\ stepped o (stored v) x T).
Proof.
  intros Hf Ht Hv Hr. destruct o as [b| | |]; [by apply create_step|by apply guarded_steps..].
Qed.

(** The base layer is no key that an operation changes. *)
Lemma effect_base o A : equal_fold (op_name o) baseLayer = false ->
  effect canon (describe born) o A !! canon baseLayer = A !! canon baseLayer.
Proof.
  intros Hb. assert (Hne : canon (op_name o) <> canon baseLayer).
  { intros E%k_canon. congruence. }
  destruct o; cbn [effect op_name] in *; by rewrite ?lookup_insert_ne, ?lookup_alter_ne, ?lookup_delete_ne.
Qed.

Lemma run_replay ops v w : Forall op_fits ops -> txn v = None -> at_ v (kst w) -> all_readable (stored v) ->
  total (run ops) w (fun r w' => exists oks T, r = Ok oks /\ length oks = length ops
    /\ at_ (storing v T) (kst w') /\ all_readable T
    /\ abs T = replay canon (describe born) ops oks (abs (stored v))
    /\ abs T !! canon baseLayer = abs (stored v) !! canon baseLayer
    /\ Forall2 (fun o ok => equal_fold (op_name o) baseLayer = true -> ok = false) ops oks).
Proof.
  revert v w. induction ops as [|o ops IH]; intros v w Hf Ht Hv Hr; cbn [run].
  { apply total_ret. exists [], (stored v). split_and!; [done..|by destruct v|done|done|done|constructor]. }
  apply Forall_cons in Hf as [Hfo Hf]. apply total_bind, total_try.
  eapply total_mono; [by apply exec_step|]. intros x w1 (T & Hv1 & Hs).
  assert (Hgo : forall ok, all_readable T -> abs T = (if ok : bool then effect canon (describe born) o (abs (stored v)) else abs (stored v)) ->
    (equal_fold (op_name o) baseLayer = true -> ok = false) ->
    total (oks ← run ops; mret (ok :: oks)) w1 (fun r w' => exists oks T, r = Ok oks /\ length oks = length (o :: ops)
      /\ at_ (storing v T) (kst w') /\ all_readable T
      /\ abs T = replay canon (describe born) (o :: ops) oks (abs (stored v))
      /\ abs T !! canon baseLayer = abs (stored v) !! canon baseLayer
      /\ Forall2 (fun o ok => equal_fold (op_name o) baseLayer = true -> ok = false) (o :: ops) oks)).
  { intros ok HrT HT Hok. apply total_bind. eapply total_mono; [by apply (IH (storing v T) w1)|].
    intros r w2 (oks & T' & -> & Hl & Hv2 & Hr' & HT' & Hb & Hz). apply total_ret. exists (ok :: oks), T'. cbn [stored storing] in *.
    split_and!; [done|by cbn; rewrite Hl|exact Hv2|done|by rewrite HT', HT| |by constructor].
    rewrite Hb, HT. destruct ok; [|done]. apply effect_base. by destruct (equal_fold _ _); [discriminate Hok|]. }
  destruct x as [[]|e|]; cbn [stepped] in Hs; [|subst T|done].
  - destruct Hs as (Hb & HrT & HT). apply (Hgo true); [done..|congruence].
  - by apply (Hgo false).
Qed.

(** Listing reads every layer of the store, once. *)
Lemma list_loop_spec v subs out w : at_ v (kst w) -> all_readable (stored v) -> Forall (fun s => x00 ∉ RegKey.SName s) subs ->
  total (list_loop subs out) w (fun o w' => at_ v (kst w') /\
    ((exists infos, o = Ok (out ++ infos) /\ Forall2 (fun s i => exists m, stored v !! canon (RegKey.SName s) = Some m /\ i = info (RegKey.SName s) (describe m)) subs infos)
     \/ exists e, o = Err e)).
Proof.
  revert out w. induction subs as [|s subs IH]; intros out w Hv Hr Hn; cbn [list_loop].
  { apply total_ret. split; [done|]. left. exists []. by rewrite app_nil_r. }
  apply Forall_cons in Hn as [Hs Hn]. apply total_bind. eapply total_mono; [by apply Get_spec|].
  intros o w1 (Hv1 & [(m & Hm & ->)|(e & -> & _)]); [|split; [done|right; by exists e]].
  eapply total_mono; [by apply IH|]. intros o w2 (Hv2 & [(infos & -> & HF)|(e & ->)]); (split; [done|]); [left|right; by exists e].
  exists (info (RegKey.SName s) (describe m) :: infos). split; [by rewrite <- app_assoc|]. constructor; [by exists m|done].
Qed.

Definition entry (i : Info) : bytes * layer := (canon (Name i), mkLayer (Precedence i) (Enabled i) (Owner i)).

Lemma listed_all subs infos T : canon ∘ RegKey.SName <$> subs ≡ₚ (map_to_list T).*1 ->
  Forall2 (fun s i => exists m, T !! canon (RegKey.SName s) = Some m /\ i = info (RegKey.SName s) (describe m)) subs infos ->
  entry <$> infos ≡ₚ map_to_list (abs T).
Proof.
  intros Hp HF. set (f := fun c => (c, describe (default born (T !! c)))).
  assert (entry <$> infos = f <$> (canon ∘ RegKey.SName <$> subs)) as ->.
  { clear Hp. induction HF as [|s i subs infos (m & Hm & ->) _ IH]; [done|]. cbn [fmap list_fmap]. f_equal; [|exact IH].
    unfold f, entry, info, compose. cbn [Name Precedence Enabled Owner]. rewrite Hm. cbn [from_option]. unfold id. by destruct (describe m). }
  rewrite Hp. unfold abs. rewrite map_to_list_fmap, <- list_fmap_compose.
  apply Permutation_refl', list_fmap_ext. intros j [c m] Hj. apply list_elem_of_lookup_2, elem_of_map_to_list in Hj.
  unfold f. cbn. by rewrite Hj.
Qed.

Lemma List_spec fuel v w : at_ v (kst w) -> all_readable (stored v) -> (size (stored v) < fuel)%nat ->
  total (List_ fuel) w (fun o w' => at_ v (kst w') /\
    ((exists infos, o = Ok infos /\ entry <$> infos ≡ₚ map_to_list (abs (stored v))) \/ exists e, o = Err e)).
Proof.
  intros Hv Hr Hf. unfold List_. apply total_bind. unfold RegKey.Open, RegKey.openAt. apply total_bind, total_lift.
  replace (wrap_err _ _) with (Ok layersRoot : outcome bytes) by by vm_compute.
  eapply total_may; [exact (k_open_root v KEY_ENUMERATE_SUB_KEYS)|done| |intros e w1 _ _ Hv1; split; [done|right; eauto]].
  intros r w1 [Hfr Hv1]. set (v1 := opened v r _) in *.
  destruct (k_children v1 r KEY_ENUMERATE_SUB_KEYS (kst w1) Hv1 (opened_handle v r _) (granted_self _)) as (subs & (Hp & Hl & Hx) & Hs).
  apply total_deferred, total_bind. eapply total_mono.
  { apply (RegKey.subkeys_loop_serves (at_ v1) r RegKey.noTxn subs fuel 0 [] w1 Hs Hv1 Hl); [lia|].
    apply Permutation_length in Hp. rewrite !length_fmap, length_map_to_list in Hp. cbn [v1 opened stored] in Hp. lia. }
  intros o w2 (Hv2 & _ & ->). eapply total_mono; [by apply (list_loop_spec v1)|]. intros o w3 (Hv3 & Ho).
  eapply total_mono; [exact (close_key v1 r _ w3 (opened_handle v r _) (proj1 (proj1 Hfr)) Hv3)|].
  intros oc w4 [[x ->] Hv4]. unfold v1 in Hv4. rewrite closed_opened in Hv4 by done. split; [done|].
  destruct Ho as [(infos & -> & HF)|(e & ->)]; [left|right; by exists e]. exists infos. split; [done|].
  by eapply listed_all.
Qed.

(** [C33] Managing layers keeps a store of layers.  Whatever sequence of creations, changes and deletions is run,
    and however the registry refuses requests in between, every operation ends, and the registry then holds the
    store that the successful ones describe, applied in order: a failed one changed nothing, a created layer has
    both its settings, and the base layer is as it was, every operation on it having been refused.  Reading any
    layer then gives what the store holds of it, with no descriptor or transaction left open; a missing one infos
    ENOENT; listing gives every layer once. *)
Theorem layers_refine ops v w : Forall op_fits ops -> txn v = None -> all_readable (stored v) -> at_ v (kst w) ->
  total (run ops) w (fun r w' => exists oks T, r = Ok oks /\ at_ (storing v T) (kst w') /\
    abs T = replay canon (describe born) ops oks (abs (stored v))
    /\ length oks = length ops
    /\ abs T !! canon baseLayer = abs (stored v) !! canon baseLayer
    /\ Forall2 (fun o ok => equal_fold (op_name o) baseLayer = true -> ok = false) ops oks
    /\ (forall n, x00 ∉ n -> total (Get n) w' (fun o w'' => at_ (storing v T) (kst w'') /\
         match abs T !! canon n with
         | Some l => o = Ok (info n l) \/ exists e, e <> 0 /\ e <> Errno.ENOENT /\ o = Err (Wrapf "open" (Errno e))
         | None => o = Err (Wrapf "open" (Errno Errno.ENOENT))
         end))
    /\ (forall fuel, (size (abs T) < fuel)%nat -> total (List_ fuel) w' (fun o w'' => at_ (storing v T) (kst w'') /\
         ((exists infos, o = Ok infos /\ entry <$> infos ≡ₚ map_to_list (abs T)) \/ exists e, o = Err e)))).
Proof.
  intros Hf Ht Hr Hv. eapply total_mono; [by apply run_replay|].
  intros r w1 (oks & T & -> & Hl & Hv1 & HrT & HT & Hb & HF). exists oks, T. split_and!; try done.
  - intros n Hn. eapply total_mono; [by apply (Get_spec n (storing v T))|]. intros o w2 (Hv2 & Ho). split; [done|].
    unfold abs. rewrite lookup_fmap. cbn [storing stored] in Ho.
    destruct Ho as [(m & -> & ->)|(e & -> & Hof)]; [by left|]. destruct (Hof Hn) as (x & Hx & -> & Hiff). cbn [storing stored] in Hiff.
    destruct (T !! canon n) as [m|]; cbn; [|by rewrite (proj1 Hiff)].
    right. exists x. split_and!; [done|intros E; by apply Hiff in E|done].
  - intros fuel Hfuel. unfold abs in Hfuel. rewrite map_size_fmap in Hfuel. by apply (List_spec fuel (storing v T)).
Qed.
End proofs.

(** ** A registry of layers *)

(** Used by the witness only: names are taken as they are, at most [limit] layers. *)
Module Sample.
#[local] Existing Instance pkm.

Definition limit : nat := 1000.
Definition sound (T : gmap bytes meta) : Prop :=
  (size T <= limit)%nat
  /\ map_Forall (fun n m => (x00 ∉ n) /\ zlen n < 2 ^ 32 /\ map_Forall (fun _ x => zlen x.2 < 2 ^ 32) m) T.
#[global] Instance sound_dec T : Decision (sound T).
Proof. unfold sound. apply _. Defined.

Definition is_tx (v : view) (fd : Z) : bool := match txn v with Some (tx, _) => fd =? tx | None => false end.
Definition pick (v : view) : option Z :=
  List.find (fun fd => bool_decide (handles v !! fd = None) && negb (is_tx v fd)) [3; 4; 5; 6; 7; 8].
Definition root_path : bytes := layersRoot ++ str "\".
Definition of_path (path : bytes) : option bytes :=
  if bool_decide (take (length root_path) path = root_path) then Some (drop (length root_path) path) else None.

Definition EMFILE : Z := 24.
Definition ENOSPC : Z := 28.
(** The view [v'], whose keys are [T], or no space. *)
Definition grow (T : gmap bytes meta) (v v' : view) : Z * view := if bool_decide (sound T) then (0, v') else (ENOSPC, v).

Definition open (v : view) (h : option bytes * Z) : (Z * Z) * view :=
  match pick v with Some r => (r, 0, opened v r h) | None => (0, EMFILE, v) end.
Definition held_value (m : meta) (name : bytes) : option RegKey.held :=
  '(t, d) ← m !! name; Some (RegKey.mkHeld t d (str "base") 1).
Definition query (v : view) (fd : Z) (name : bytes) (dl ll : Z) : query_args * Z :=
  match handles v !! fd with
  | Some (Some c, _) =>
      match (m ← stored v !! c; held_value m name) with
      | Some x => RegKey.Sample.query dl ll x
      | None => (mkQuery 0 0 0 0 [] [], Errno.ENOENT)
      end
  | _ => (mkQuery 0 0 0 0 [] [], Errno.EBADF)
  end.

Definition children (T : gmap bytes meta) : list RegKey.Subkey := (fun n => RegKey.mkSubkey n 0 0 0) <$> (map_to_list T).*1.
Definition enum (v : view) (fd index nl : Z) : enum_args * Z :=
  match handles v !! fd with
  | Some (None, _) =>
      match children (stored v) !! Z.to_nat index with
      | None => (mkEnum 0 0 0 0 [], Errno.ENOENT)
      | Some s =>
          if zlen (RegKey.SName s) <=? nl then (mkEnum (zlen (RegKey.SName s)) 0 0 0 (RegKey.SName s), 0)
          else (mkEnum (zlen (RegKey.SName s)) 0 0 0 [], Errno.ERANGE)
      end
  | _ => (mkEnum 0 0 0 0 [], Errno.EBADF)
  end.
Definition set_value (v : view) (fd : Z) (name : bytes) (x : Z * bytes) (tx : Z) : Z * view :=
  match handles v !! fd with
  | Some (Some c, _) =>
      if tx =? -1 then
        match stored v !! c with
        | Some m => let T := <[c := <[name := x]> m]> (stored v) in grow T v (storing v T)
        | None => (Errno.ENOENT, v)
        end
      else
        match txn v with
        | Some (tx', Some T) =>
            match T !! c with
            | Some m => let T := <[c := <[name := x]> m]> T in grow T v (in_txn v (Some (tx', Some T)))
            | None => (Errno.ENOENT, v)
            end
        | _ => (Errno.EINVAL, v)
        end
  | _ => (Errno.EBADF, v)
  end.
Definition create (v : view) (path : bytes) (access : Z) : ((Z * Z) * Z) * view :=
  match txn v, of_path path, pick v with
  | Some (tx, Some T), Some n, Some r =>
      let T := <[n := default ∅ (T !! n)]> T in
      let '(e, v') := grow T v (in_txn (opened v r (Some n, access)) (Some (tx, Some T))) in ((r, 1), e, v')
  | _, _, _ => ((0, 0), Errno.EACCES, v)
  end.

Definition respond {A} (c : rcall A) (v : view) : (A * Z) * view :=
  match c in rcall A return (A * Z) * view with
  | OpenKey _ path access _ =>
      if bool_decide (path = layersRoot) then open v (None, access) else
      match of_path path with
      | Some n => if bool_decide (stored v !! n = None) then (0, Errno.ENOENT, v) else open v (Some n, access)
      | None => (0, Errno.EINVAL, v)
      end
  | CreateKey _ path access _ _ _ => create v path access
  | CloseFD fd => (tt, 0, if is_tx v fd then in_txn v None else closed v fd)
  | QueryValue_ fd name _ dl ll => (query v fd name dl ll, v)
  | EnumSubkeys fd index _ nl => (enum v fd index nl, v)
  | SetValue_ fd name t d _ tx _ => let '(e, v') := set_value v fd name (t, d) tx in (tt, e, v')
  | DeleteKey_ fd _ _ =>
      match handles v !! fd with
      | Some (Some c, _) => let T := delete c (stored v) in let '(e, v') := grow T v (storing v T) in (tt, e, v')
      | _ => (tt, Errno.EBADF, v)
      end
  | BeginTransaction =>
      match txn v, pick v with
      | None, Some r => (r, 0, in_txn v (Some (r, Some (stored v))))
      | _, _ => (0, EMFILE, v)
      end
  | CommitTxn _ =>
      match txn v with
      | Some (tx, Some T) => (tt, 0, mkView T (handles v) (Some (tx, None)))
      | _ => (tt, Errno.EINVAL, v)
      end
  | QueryValuesBatch _ _ _ => (mkBatch 0 0 [], Errno.ENOSYS, v)
  | QueryKeyInfo _ _ => (mkInfoArgs 0 0 0 0 0 0 0 0 0 0 0 [], Errno.ENOSYS, v)
  | GetSecurity _ _ _ | ReadFD _ _ => ((0, []), Errno.ENOSYS, v)
  | TxnStatus _ | Now | KmesEmitBatch _ => (0, Errno.ENOSYS, v)
  | SetSecurity _ _ _ _ | Flush_ _ | Backup_ _ _ | Restore_ _ _ | DeleteValue_ _ _ _ _
  | BlanketTombstone_ _ _ _ _ | HideKey_ _ _ _ | Notify_ _ _ _ | SetNonblock _ | KmesEmit _ _ => (tt, Errno.ENOSYS, v)
  end.

#[global] Instance kernel : Kernel rcall view := {| answer A c v := respond c v; patience := 1 |}.

Definition Inv (v : view) : Prop :=
  sound (stored v)
  /\ match txn v with
     | Some (tx, T) => 0 <= tx /\ handles v !! tx = None /\ match T with Some T => sound T | None => True end
     | None => True
     end.

Definition layer_key (p : Z) : meta := {[ str "Precedence" := dword p ]}.
Definition start : view := mkView {[ str "base" := layer_key 0; str "role-x" := layer_key 5 ]} ∅ None.
Definition script : list op :=
  [OCreate (set_Enabled false (Create (str "gp-1"))); ODelete (str "Base"); OSetPrecedence (str "role-x") 9;
   OSetEnabled (str "nowhere") true; OSetEnabled (str "gp-1") true].

(** The reserved layer, in any case, and a missing one are refused; the others are as asked. *)
Example script_runs :
  match run script (World start []) with
  | Some (Ok oks, w) =>
      Some (oks, (fun x => (x.1, l_precedence x.2, l_enabled x.2)) <$> map_to_list (abs (stored (kst w))),
            map_to_list (handles (kst w)), txn (kst w))
  | _ => None
  end
  = Some ([true; false; true; false; true], [(str "role-x", 9, true); (str "base", 0, true); (str "gp-1", 0, true)], [], None).
Proof. vm_compute. reflexivity. Qed.

Ltac no_eintr := cbn; unfold Errno.ENOENT, Errno.EBADF, Errno.EINVAL, Errno.ERANGE, Errno.EACCES, Errno.ENOSYS, EMFILE, ENOSPC; lia.

Lemma grow_errno T v v' : (grow T v v').1 <> 4.
Proof. unfold grow. case_bool_decide; no_eintr. Qed.

#[global] Instance settled : Settles rcall view.
Proof.
  apply (settles_never 0); [done|]. change Errno.EINTR with 4. intros A c v. cbn [answer kernel].
  assert (Hopen : forall h, (open v h).1.2 <> 4). { intros h. unfold open. destruct (pick v); no_eintr. }
  destruct c; cbn [respond fst snd]; try no_eintr.
  - case_bool_decide; [apply Hopen|]. destruct (of_path path); [|no_eintr]. case_bool_decide; [no_eintr|apply Hopen].
  - unfold create. destruct (txn v) as [[tx [T|]]|], (of_path path), (pick v); try no_eintr.
    match goal with |- context [grow ?T ?v ?v'] => pose proof (grow_errno T v v') as Hg; by destruct (grow T v v') end.
  - unfold query, RegKey.Sample.query. destruct (handles v !! fd) as [[[c|] a]|]; try no_eintr.
    destruct (m ← stored v !! c; held_value m name); [destruct (_ && _)|]; no_eintr.
  - unfold enum. destruct (handles v !! fd) as [[[c|] a]|]; try no_eintr.
    destruct (children _ !! _); [destruct (_ <=? _)|]; no_eintr.
  - unfold set_value. destruct (handles v !! fd) as [[[c|] a]|]; try no_eintr. destruct (_ =? -1).
    + destruct (stored v !! c); [|no_eintr].
      match goal with |- context [grow ?T ?v ?v'] => pose proof (grow_errno T v v') as Hg; by destruct (grow T v v') end.
    + destruct (txn v) as [[tx [T|]]|]; try no_eintr. destruct (T !! c); [|no_eintr].
      match goal with |- context [grow ?T ?v ?v'] => pose proof (grow_errno T v v') as Hg; by destruct (grow T v v') end.
  - destruct (handles v !! fd) as [[[c|] a]|]; try no_eintr.
    match goal with |- context [grow ?T ?v ?v'] => pose proof (grow_errno T v v') as Hg; by destruct (grow T v v') end.
  - destruct (txn v), (pick v); no_eintr.
  - destruct (txn v) as [[tx [T|]]|]; no_eintr.
Qed.

Lemma pick_fresh v r : Inv v -> pick v = Some r -> fresh_in v r.
Proof.
  intros _ Hp. apply List.find_some in Hp as [Hin Hf]. apply andb_true_iff in Hf as [Hn%bool_decide_eq_true Ht%negb_true_iff].
  split; [|split; [done|]].
  - cbn in Hin. lia.
  - intros T Et. unfold is_tx in Ht. rewrite Et in Ht. by rewrite Z.eqb_refl in Ht.
Qed.

Lemma of_layerPath n : of_path (layerPath n) = Some n.
Proof.
  unfold of_path, layerPath, root_path. rewrite app_assoc, take_app_length, drop_app_length. by rewrite bool_decide_eq_true_2.
Qed.
Lemma layerPath_not_root n : layerPath n <> layersRoot.
Proof. intros E. apply (f_equal length) in E. unfold layerPath in E. rewrite !length_app in E. cbn in E. lia. Qed.

Lemma Inv_opened v r h : fresh_in v r -> Inv v -> Inv (opened v r h).
Proof.
  intros (Hr & Hn & Ht) [Hs Hx]. split; [done|]. cbn. destruct (txn v) as [[tx T]|] eqn:E; [|done].
  destruct Hx as (?&?&?). split_and!; [done| |done]. rewrite lookup_insert_ne; [done|]. intros ->. by apply (Ht T).
Qed.
Lemma Inv_storing v T : Inv v -> sound T -> Inv (storing v T).
Proof. intros [_ Hx] HT. by split. Qed.
Lemma Inv_staged v tx T0 T : txn v = Some (tx, T0) -> Inv v -> sound T -> Inv (in_txn v (Some (tx, Some T))).
Proof. intros Et [Hs Hx] HT. rewrite Et in Hx. destruct Hx as (?&?&_). split; [done|]. by split_and!. Qed.

(** A request that grows the keys is granted or refused without a change. *)
Lemma grow_may T v v' : Inv v -> (sound T -> Inv v') ->
  let '(e, w) := grow T v v' in e <> 4 /\ if e =? 0 then Inv w /\ w = v' else w = v.
Proof. intros Hv Hv'. unfold grow. case_bool_decide; cbn; [split_and!; auto|done]. Qed.

Lemma grow_serves {A} T (c : rcall A) (a : A) v v' refused : (forall e, refused e : Prop) ->
  (forall k, at_ Inv id v k -> respond c k = let '(e, w) := grow T v v' in (a, e, w)) -> (Inv v -> sound T -> Inv v') ->
  may Inv id v c (fun _ => at_ Inv id v') refused.
Proof.
  intros Href Hc Hv' k Hk. pose proof Hk as [Hi E]. cbn [answer kernel]. rewrite Hc by done. unfold id in E. subst k.
  pose proof (grow_may T v v' Hi (Hv' Hi)) as Hg. destruct (grow T v v') as [e w]. destruct Hg as [He Hg].
  destruct (Z.eqb_spec e Errno.EINTR) as [->|_]; [done|]. destruct (e =? 0); [by destruct Hg as [Hw ->]|subst w; auto].
Qed.

Lemma open_serves v h : Inv v ->
  let '(r, e, w) := open v h in e <> 4 /\ if e =? 0 then fresh_in v r /\ Inv w /\ w = opened v r h else e = EMFILE /\ w = v.
Proof.
  intros Hv. unfold open. destruct (pick v) as [r|] eqn:Ep; [|done].
  pose proof (pick_fresh v r Hv Ep). cbn. split_and!; [done..|by apply Inv_opened|done].
Qed.

Lemma children_names (l : list bytes) : id ∘ RegKey.SName <$> ((fun n => RegKey.mkSubkey n 0 0 0) <$> l) = l.
Proof. induction l as [|n l IH]; [reflexivity|]. cbn [fmap list_fmap] in *. rewrite IH. reflexivity. Qed.

Lemma children_list T : sound T -> lists id (children T) T.
Proof.
  intros [Hsz Hs]. unfold lists, children. split_and!.
  - by rewrite children_names.
  - rewrite !length_fmap, length_map_to_list. unfold limit in Hsz. lia.
  - apply Forall_fmap, Forall_fmap, Forall_forall. intros [n m] Hin%elem_of_map_to_list. by apply (Hs _ _ Hin).
Qed.

Lemma close_serves v fd k : is_Some (handles v !! fd) -> at_ Inv id v k -> at_ Inv id (closed v fd) (answer (CloseFD fd) k).2.
Proof.
  intros [h Hh] [Hi E]. unfold id in E. subst k. cbn.
  assert (Hx : is_tx v fd = false).
  { unfold is_tx. destruct Hi as [_ Hi]. destruct (txn v) as [[tx T]|]; [|done].
    apply Z.eqb_neq. intros ->. destruct Hi as (_&Hi&_). congruence. }
  rewrite Hx. split; [|done]. destruct Hi as [Hs Hi]. split; [done|]. cbn. destruct (txn v) as [[tx T]|]; [|done].
  destruct Hi as (?&?&?). split_and!; [done| |done]. apply lookup_delete_None. by right.
Qed.

Lemma query_serves v fd c a m name : handles v !! fd = Some (Some c, a) -> stored v !! c = Some m -> zlen name < 2 ^ 32 ->
  exists x, holds m name x /\ RegKey.serves_value (at_ Inv id v) (fun _ => x) fd name RegKey.noTxn.
Proof.
  intros Hh Hm Hz. exists (match held_value m name with Some x => inr x | None => inl Errno.ENOENT end). split.
  { unfold holds, held_value. destruct (m !! name) as [[t d]|]; [|done]. cbn. eauto. }
  split.
  - intros k x [[[_ Hs] _] E] Hx. unfold id in E. subst k. unfold held_value in Hx.
    destruct (m !! name) as [[t d]|] eqn:En; [|done]. cbn in Hx. injection Hx as <-. cbn [RegKey.h_data RegKey.h_layer].
    destruct (Hs _ _ Hm) as (_&_&Hd). specialize (Hd _ _ En). cbn in Hd. pose proof (zlen_nonneg d). split; [unfold fits; lia|done].
  - intros dl ll k [Hi E]. unfold id in E. subst k. cbn [answer kernel respond]. rewrite (RegKey.ptr_len_short name) by done. unfold query.
    rewrite Hh, Hm. cbn [mbind option_bind]. destruct (held_value m name) as [x|]; [|by split_and!].
    unfold RegKey.Sample.query. destruct (_ && _); by split_and!.
Qed.

Lemma children_serve v fd a : handles v !! fd = Some (None, a) -> sound (stored v) ->
  RegKey.serves_subkeys (at_ Inv id v) fd RegKey.noTxn (children (stored v)).
Proof.
  intros Hh [_ Hs]. split.
  - apply Forall_fmap, Forall_fmap, Forall_forall. intros [n m] Hin%elem_of_map_to_list. destruct (Hs _ _ Hin) as (_&Hz&_).
    cbn. pose proof (zlen_nonneg n). unfold fits. lia.
  - intros index nl k [Hi E]. unfold id in E. subst k. cbn [answer kernel respond]. unfold enum. rewrite Hh.
    destruct (children _ !! _) as [x|] eqn:Ex; [|done]. unfold children in Ex.
    rewrite list_lookup_fmap in Ex. destruct ((map_to_list (stored v)).*1 !! Z.to_nat index); [|done]. injection Ex as <-.
    cbn. by destruct (_ <=? _).
Qed.

#[global] Instance serves : LayerKeys Inv id id ∅.
Proof.
  split.
  - intros n E. unfold id in E. by subst n.
  - reflexivity.
  - intros v n access k [Hi E]. unfold id in E. subst k. cbn [answer kernel respond].
    rewrite bool_decide_eq_false_2 by apply layerPath_not_root. rewrite of_layerPath. case_bool_decide as Hn.
    { cbn. split; [|by split]. unfold id. done. }
    pose proof (open_serves v (Some n, access) Hi) as Ho. destruct (open v (Some n, access)) as [[r e] w]. destruct Ho as [He Ho].
    destruct (Z.eqb_spec e Errno.EINTR) as [->|_]; [done|]. destruct (e =? 0).
    + destruct Ho as (?&?&->). split_and!; [by apply not_eq_None_Some|done|by split].
    + destruct Ho as [-> ->]. split; [|by split]. unfold id. split; [done|discriminate].
  - intros v access k [Hi E]. unfold id in E. subst k. cbn [answer kernel respond]. rewrite bool_decide_eq_true_2 by done.
    pose proof (open_serves v (None, access) Hi) as Ho. destruct (open v (None, access)) as [[r e] w]. destruct Ho as [He Ho].
    destruct (Z.eqb_spec e Errno.EINTR) as [->|_]; [done|]. destruct (e =? 0).
    + destruct Ho as (?&?&->). by split.
    + destruct Ho as [-> ->]. by split.
  - apply close_serves.
  - intros v fd c a m name Hh _. by apply (query_serves v fd c a m).
  - intros v fd a k [[Hs _] E] Hh _. unfold id in E. subst k. exists (children (stored v)).
    split; [by apply children_list|by apply (children_serve v fd a)].
  - intros v fd c a m name t d Hh Hm. apply (grow_serves (<[c := <[name := (t, d)]> m]> (stored v)) _ tt); [done| |].
    + intros k [_ E]. unfold id in E. subst k. cbn. unfold set_value. by rewrite Hh, Hm.
    + apply Inv_storing.
  - intros v fd c a Hh. apply (grow_serves (delete c (stored v)) _ tt); [done| |].
    + intros k [_ E]. unfold id in E. subst k. cbn. by rewrite Hh.
    + apply Inv_storing.
  - intros v Ht k [Hi E]. unfold id in E. subst k. cbn [answer kernel respond]. rewrite Ht.
    destruct (pick v) as [r|] eqn:Ep; [|by cbn; split]. pose proof (pick_fresh v r Hi Ep) as Hf. cbn.
    split; [done|]. split; [|done]. split; [apply Hi|]. cbn. split_and!; [apply Hf|apply Hf|apply Hi].
  - intros v tx T n access Ht k [Hi E]. unfold id in E. subst k. cbn [answer kernel respond]. unfold create.
    rewrite Ht, of_layerPath. destruct (pick v) as [r|] eqn:Ep; [|by cbn; split]. pose proof (pick_fresh v r Hi Ep) as Hf.
    pose proof (grow_may (<[n := default ∅ (T !! n)]> T) v
      (in_txn (opened v r (Some n, access)) (Some (tx, Some (<[n := default ∅ (T !! n)]> T)))) Hi) as Hg.
    destruct (grow _ _ _) as [e w]. destruct Hg as [He Hg].
    { intros HT. apply (Inv_staged (opened v r (Some n, access)) tx (Some T)); [done|by apply Inv_opened|done]. }
    destruct (Z.eqb_spec e Errno.EINTR) as [->|_]; [done|]. destruct (e =? 0).
    + destruct Hg as [Hw ->]. by split.
    + subst w. by split.
  - intros v tx T fd c a m name t d Ht Hh Hm. apply (grow_serves (<[c := <[name := (t, d)]> m]> T) _ tt); [done| |].
    + intros k [Hi E]. unfold id in E. subst k. cbn. unfold set_value. rewrite Hh.
      destruct Hi as [_ Hi]. rewrite Ht in *. destruct (Z.eqb_spec tx (-1)); [lia|]. by rewrite Hm.
    + intros Hi HT. by apply (Inv_staged v tx (Some T)).
  - intros v tx T Ht k [Hi E]. unfold id in E. subst k. cbn [answer kernel respond]. rewrite Ht. cbn.
    split; [|done]. destruct Hi as [_ Hi]. rewrite Ht in Hi. destruct Hi as (?&?&?). by split_and!.
  - intros v tx x k Ht [Hi E]. unfold id in E. subst k. cbn. unfold is_tx. rewrite Ht, Z.eqb_refl.
    split; [|done]. split; [apply Hi|done].
Qed.
End Sample.

Lemma layers_refine_witness :
  total (@run pkm view Sample.kernel Sample.script) (World Sample.start []) (fun r w' =>
    exists oks T, r = Ok oks
      /\ @abs pkm T = replay id (@describe pkm ∅) Sample.script oks (@abs pkm (stored Sample.start))
      /\ @abs pkm T !! baseLayer = @abs pkm (stored Sample.start) !! baseLayer
      /\ total (@Get pkm view Sample.kernel (str "role-x")) w' (fun o w'' => kst w'' = storing Sample.start T)).
Proof.
  eapply total_mono.
  { apply (@layers_refine pkm pkm_RegLaws view Sample.kernel Sample.settled Sample.Inv id id ∅ Sample.serves
      Sample.script Sample.start (World Sample.start [])).
    - repeat constructor; vm_compute; congruence.
    - reflexivity.
    - apply (bool_decide_unpack _). vm_compute. exact I.
    - split; [|reflexivity]. split; [|exact I]. apply (bool_decide_unpack _). vm_compute. exact I. }
  intros r w' (oks & T & -> & _ & HT & _ & Hb & _ & Hg & _). exists oks, T. split; [reflexivity|]. split; [exact HT|].
  split; [exact Hb|]. eapply total_mono; [apply (Hg (str "role-x")); apply (bool_decide_unpack _); vm_compute; exact I|].
  intros o w'' [[_ E] _]. exact E.
Defined.
End LayerStore.
