(* ===== verification/Ring.v ===== *)
(** * Ring: the consumer of a per-CPU KMES ring buffer

    event/ring.go and the owned events of event/event.go.  The kernel writes the
    ring while it is read: every load of a producer word and every read of the
    data region is a request, so the producer may move between any two of them.
    [Producer] is the contract of the producer side: an append-only log of events
    whose positions never move, a tail and a write position that only advance, and
    data that is intact as long as the tail has not passed it. *)

From Stdlib Require Import Sorting.Sorted.
From S2P Require Import Prelude Outcome Uapi Kernel WireEvent.

(** The requests of a consumer: loads and stores of shared memory, and system calls.
    [Window fd off len] is a read of [len] bytes of the data region from [off]. *)
Inductive mcall : Type -> Type :=
  | Attach (cpuID : Z) : mcall (Z * Z)
  | Mmap (fd len : Z) : mcall unit
  | Magic (fd : Z) : mcall bytes
  | Munmap (fd : Z) : mcall unit
  | CloseRing (fd : Z) : mcall unit
  | Load32 (fd off : Z) : mcall Z
  | Load64 (fd off : Z) : mcall Z
  | Store32 (fd off v : Z) : mcall unit
  | Window (fd off len : Z) : mcall bytes
  | FutexWait (fd off expected : Z) (timeout : option Z) : mcall unit.

Module Ring.
Section defs.
Context {U : Uapi} {K : Type} {H : Kernel mcall K}.
Abbreviation R := (M mcall K).

Definition metaTotal : Z := KMES_METADATA_TOTAL_SIZE.
Definition metaPage : Z := KMES_METADATA_PAGE_SIZE.
Definition pVersion : Z := KMES_PRODUCER_VERSION_OFFSET.
Definition pCPUID : Z := KMES_PRODUCER_CPU_ID_OFFSET.
Definition pGeneration : Z := KMES_PRODUCER_GENERATION_OFFSET.
Definition pWritePos : Z := KMES_PRODUCER_WRITE_POS_OFFSET.
Definition pTailPos : Z := KMES_PRODUCER_TAIL_POS_OFFSET.
Definition pFutex : Z := KMES_PRODUCER_FUTEX_COUNTER_OFFSET.
Definition ringVersion : Z := KMES_RING_VERSION.

Definition ETIMEDOUT : Z := 110.

(** [mapped] is [base != nil]. *)
Record Ring := mkRing {
  fd : Z; mapped : bool; capacity : Z; cpuID : Z; generation : Z;
  readPos : Z; pending : Z; lastSeq : Z; lostEvents : Z
}.

Definition set_readPos (p : Z) (r : Ring) : Ring :=
  mkRing (fd r) (mapped r) (capacity r) (cpuID r) (generation r) p (pending r) (lastSeq r) (lostEvents r).
Definition set_pending (p : Z) (r : Ring) : Ring :=
  mkRing (fd r) (mapped r) (capacity r) (cpuID r) (generation r) (readPos r) p (lastSeq r) (lostEvents r).
Definition set_sequence (seq lost : Z) (r : Ring) : Ring :=
  mkRing (fd r) (mapped r) (capacity r) (cpuID r) (generation r) (readPos r) (pending r) seq lost.

(** A shared-memory access: it cannot fail. *)
Definition access {A} (c : mcall A) : R A := '(v, _) ← Sys.call_once c; mret v.

(** ** Draining *)

(** What [Next] returns: an event, nothing, or an error. *)
Definition result : Type := option WireEvent.Event + err.

(** [if r.pending != 0 { r.readPos += r.pending; r.pending = 0 }] *)
Definition step_over (r : Ring) : Ring :=
  if negb (pending r =? 0) then set_pending 0 (set_readPos (wrap 64 (readPos r + pending r)) r) else r.

(** The gap detection at the end of [Next]. *)
Definition yield (ev : WireEvent.Event) (r : Ring) : Ring :=
  let lost :=
    if negb (lastSeq r =? 0) && (wrap 64 (lastSeq r + 1) <? WireEvent.Sequence ev)
    then wrap 64 (lostEvents r + (WireEvent.Sequence ev - lastSeq r - 1)) else lostEvents r in
  set_pending (WireEvent.EventSize ev) (set_sequence (WireEvent.Sequence ev) lost r).

(** The loop of [Next], which runs until it returns; [None] is "still looping". *)
Fixpoint Next_loop (fuel : nat) (r : Ring) : R (Ring * result) :=
  match fuel with
  | O => fun _ => None
  | S fuel =>
      writePos ← access (Load64 (fd r) pWritePos);
      if writePos <=? readPos r then
        g ← access (Load64 (fd r) pGeneration);
        if negb (g =? generation r) then mret (r, inr ErrGenerationChanged) else mret (r, inl None)
      else
      savedTail ← access (Load64 (fd r) pTailPos);
      if readPos r <? savedTail then Next_loop fuel (set_readPos savedTail r) else
      let off := Z.land (readPos r) (wrap 64 (capacity r - 1)) in
      window ← access (Window (fd r) off (capacity r));
      p ← lift (match WireEvent.ParseEvent window with
                | Ok ev => Ok (inl ev) | Err e => Ok (inr e) | Panic => Panic end);
      tailAfter ← access (Load64 (fd r) pTailPos);
      if (savedTail <? tailAfter) && (readPos r <? tailAfter) then Next_loop fuel r else
      match p with
      | inr perr =>
          tail ← access (Load64 (fd r) pTailPos);
          if readPos r <? tail then Next_loop fuel (set_readPos tail r)
          else mret (r, inr (Wrapf "ring" perr))
      | inl ev => mret (yield ev r, inl (Some ev))
      end
  end.

(** [r.base[metaTotal:]] panics on a closed ring. *)
Definition Next (fuel : nat) (r : Ring) : R (Ring * result) :=
  let r := step_over r in
  if negb (mapped r) then lift Panic else Next_loop fuel r.

(** ** Waiting *)

Definition setNeedWake (r : Ring) : R unit := access (Store32 (fd r) metaPage 1).
Definition clearNeedWake (r : Ring) : R unit := access (Store32 (fd r) metaPage 0).

Definition futexWait (r : Ring) (expected : Z) (timeout : option Z) : R (option err) :=
  '(_, err) ← Sys.call_once (FutexWait (fd r) pFutex expected timeout);
  mret (match err with
        | None => None
        | Some (Errno e) =>
            if (e =? Errno.EAGAIN) || (e =? ETIMEDOUT) then None
            else if e =? Errno.EINTR then Some ErrInterrupted else Some (Errno e)
        | Some e => Some e
        end).

Definition wait (r : Ring) (timeout : option Z) : R (option err) :=
  setNeedWake r;;
  w ← access (Load64 (fd r) pWritePos);
  if negb (w =? readPos r) then clearNeedWake r;; mret None else
  counter ← access (Load32 (fd r) pFutex);
  e ← futexWait r counter timeout;
  clearNeedWake r;;
  mret e.

(** ** Owned events *)

(** A borrowed event's byte slices point into the ring, so copying one reads the ring
    again: the slices of [ev] in the bytes [w] now at its place. *)
Definition reborrow (ev : WireEvent.Event) (w : bytes) : outcome WireEvent.Event :=
  let guid off := slice w off (off + WireEvent.evGUIDSize) in
  eff ← guid WireEvent.evEffectiveTokenGUIDOff;
  tru ← guid WireEvent.evTrueTokenGUIDOff;
  proc ← guid WireEvent.evProcessGUIDOff;
  etype ← slice w WireEvent.evHeaderBase (WireEvent.evHeaderBase + zlen (WireEvent.EventType ev));
  payload ← slice w (WireEvent.HeaderSize ev) (WireEvent.EventSize ev);
  Ok (WireEvent.mkEvent (WireEvent.EventSize ev) (WireEvent.HeaderSize ev) (WireEvent.TimestampNS ev)
        (WireEvent.Sequence ev) (WireEvent.CPUID ev) (WireEvent.Origin ev) eff tru proc etype payload).

Definition ownedFrom (r : Ring) (ev : WireEvent.Event) : R WireEvent.Event :=
  w ← access (Window (fd r) (Z.land (readPos r) (wrap 64 (capacity r - 1))) (capacity r));
  lift (reborrow ev w).

(** [Read]: [fuel] bounds the rounds of waiting; each [Next] is given as much. *)
Fixpoint Read (fuel : nat) (r : Ring) : R (Ring * (WireEvent.Event + err)) :=
  match fuel with
  | O => fun _ => None
  | S fuel' =>
      '(r, res) ← Next fuel r;
      match res with
      | inr e => mret (r, inr e)
      | inl (Some ev) => o ← ownedFrom r ev; mret (r, inl o)
      | inl None =>
          e ← wait r None;
          match e with
          | Some e => mret (r, inr e)
          | None => Read fuel' r
          end
      end
  end.

Definition ReadTimeout (fuel : nat) (r : Ring) (timeout : Z) : R (Ring * result) :=
  '(r, res) ← Next fuel r;
  match res with
  | inr e => mret (r, inr e)
  | inl (Some ev) => o ← ownedFrom r ev; mret (r, inl (Some o))
  | inl None =>
      e ← wait r (Some timeout);
      match e with
      | Some e => mret (r, inr e)
      | None =>
          '(r, res) ← Next fuel r;
          match res with
          | inr e => mret (r, inr e)
          | inl (Some ev) => o ← ownedFrom r ev; mret (r, inl (Some o))
          | inl None => mret (r, inl None)
          end
      end
  end.

(** ** Attaching and closing *)

(** A failed attach gives the error instead of the descriptor and the capacity. *)
Definition attach (cpu : Z) : R ((Z * Z) + err) :=
  '(v, err) ← Sys.call (Attach cpu);
  mret (match err with Some e => inr e | None => inl v end).

Definition mapRing (fd capacity : Z) : R (Ring + err) :=
  '(_, err) ← Sys.call_once (Mmap fd (metaTotal + 2 * capacity));
  match err with
  | Some e => access (CloseRing fd);; mret (inr (Wrapf "map ring buffer" e))
  | None =>
      magic ← access (Magic fd);
      if negb (bool_decide (magic = KMES_RING_MAGIC)) then
        access (Munmap fd);; access (CloseRing fd);; mret (inr ErrBadMagic) else
      v ← access (Load32 fd pVersion);
      if negb (v =? ringVersion) then
        access (Munmap fd);; access (CloseRing fd);; mret (inr (Errorf "ring buffer version")) else
      cpu ← access (Load32 fd pCPUID);
      g ← access (Load64 fd pGeneration);
      tail ← access (Load64 fd pTailPos);
      mret (inl (mkRing fd true capacity (wrap 16 cpu) g tail 0 0 0))
  end.

Definition Close (r : Ring) : R (Ring * option err) :=
  if negb (mapped r) then mret (r, None) else
  '(_, mErr) ← Sys.call_once (Munmap (fd r));
  '(_, cErr) ← Sys.call_once (CloseRing (fd r));
  mret (mkRing (-1) false (capacity r) (cpuID r) (generation r) (readPos r) (pending r) (lastSeq r) (lostEvents r),
        match mErr, cErr with None, None => None | _, _ => Some (Errorf "close ring") end).

Fixpoint close_all (rings : list Ring) : R unit :=
  match rings with
  | [] => mret tt
  | r :: rings => Close r;; close_all rings
  end.

(** [for cpuID := uint32(0); ; cpuID++]: still looping when [fuel] is spent. *)
Fixpoint AttachAll_loop (fuel : nat) (cpu : Z) (rings : list Ring) : R (list Ring) :=
  match fuel with
  | O => fun _ => None
  | S fuel =>
      a ← attach cpu;
      match a with
      | inr e =>
          if errors_is e (Errno Errno.EINVAL) then mret rings
          else close_all rings;; throw (Wrapf "attach cpu" e)
      | inl (fd, capacity) =>
          m ← mapRing fd capacity;
          match m with
          | inr e => close_all rings;; throw e
          | inl ring => AttachAll_loop fuel (wrap 32 (cpu + 1)) (rings ++ [ring])
          end
      end
  end.
Definition AttachAll (fuel : nat) : R (list Ring) :=
  rings ← AttachAll_loop fuel 0 [];
  if zlen rings =? 0 then throw (Errorf "attach: kernel reported no ring buffers") else mret rings.
End defs.

(** ** The producer *)

Section producer.
Context {U : Uapi} {EL : EventLaws U} {K : Type} {H : Kernel mcall K}.

(** The log: every event the producer ever writes to this ring, encoded, with its fields. *)
Context (rfd cap : Z) (log : list (bytes * WireEvent.Event)).

(** The position of the event of index [i]. *)
Definition pos (i : nat) : Z := zlen (concat (fst <$> take i log)).

Definition entry_ok (e : bytes * WireEvent.Event) : Prop :=
  0 < zlen e.1 /\ WireEvent.EventSize e.2 = zlen e.1 /\ forall s, WireEvent.ParseEvent (e.1 ++ s) = Ok e.2.

(** The producer's state: the invariant of the kernel, the indices of the oldest surviving event and of
    the next one to write, and the buffer generation. *)
Context (Inv : K -> Prop) (tl wr : K -> nat) (gen : K -> Z).

(** A request during which the producer only advances. *)
Definition advances {A} (c : mcall A) (P : A -> K -> K -> Prop) : Prop :=
  forall k, Inv k -> let '((v, _), k') := answer c k in
    Inv k' /\ (tl k <= tl k')%nat /\ (wr k <= wr k')%nat /\ P v k k'.

Class Producer : Prop := {
  p_entries : Forall entry_ok log;
  p_fits : pos (length log) < 2 ^ 64;
  p_sequence : forall i j e e', (i < j)%nat -> log !! i = Some e -> log !! j = Some e' ->
    0 < WireEvent.Sequence e.2 < WireEvent.Sequence e'.2;
  p_sequence_fits : forall i e, log !! i = Some e -> 0 < WireEvent.Sequence e.2 < 2 ^ 64 - 1;
  p_order : forall k, Inv k -> (tl k <= wr k <= length log)%nat;
  p_write : advances (Load64 rfd pWritePos) (fun v _ k => v = pos (wr k));
  p_tail : advances (Load64 rfd pTailPos) (fun v _ k => v = pos (tl k));
  p_gen : advances (Load64 rfd pGeneration) (fun v _ k => v = gen k);
  p_window : forall off, advances (Window rfd off cap) (fun b k k' =>
    forall i e, log !! i = Some e -> off = Z.land (pos i) (wrap 64 (cap - 1)) ->
      (tl k' <= i)%nat -> (i < wr k)%nat -> exists s, b = e.1 ++ s)
}.

Context {P : Producer}.

Lemma pos_S i e : log !! i = Some e -> pos (S i) = pos i + zlen e.1.
Proof.
  intros He. unfold pos. rewrite (take_S_r _ _ _ He), fmap_app, concat_app, zlen_app. cbn. by rewrite app_nil_r.
Qed.

Lemma pos_lt i j : (i < j)%nat -> (j <= length log)%nat -> pos i < pos j.
Proof.
  intros Hij Hj. assert (Hstep : forall i, (i < length log)%nat -> pos i < pos (S i)).
  { intros i' Hi'. apply lookup_lt_is_Some in Hi' as [e He]. rewrite (pos_S _ _ He).
    pose proof p_entries as Hp. rewrite Forall_forall in Hp. apply list_elem_of_lookup_2, Hp in He as (?&_). lia. }
  induction Hij as [|j Hij IH]; [apply Hstep; lia|]. specialize (Hstep j ltac:(lia)). specialize (IH ltac:(lia)). lia.
Qed.

Lemma pos_le_inv i j : (i <= length log)%nat -> (j <= length log)%nat -> pos i <= pos j -> (i <= j)%nat.
Proof. intros Hi Hj Hp. destruct (decide (j < i)%nat) as [Hl|]; [|lia]. apply pos_lt in Hl; lia. Qed.

Lemma pos_lt_inv i j : (i <= length log)%nat -> (j <= length log)%nat -> pos i < pos j -> (i < j)%nat.
Proof.
  intros Hi Hj Hp. destruct (decide (i < j)%nat); [done|]. destruct (decide (i = j)) as [->|]; [lia|].
  pose proof (pos_lt j i). lia.
Qed.

Lemma pos_bounds i : (i <= length log)%nat -> 0 <= pos i < 2 ^ 64.
Proof.
  intros Hi. pose proof p_fits. destruct (decide (i = length log)) as [->|].
  - destruct (decide (length log = 0%nat)) as [E|]; [unfold pos in *; by rewrite E|].
    pose proof (pos_lt 0 (length log)). change (pos 0) with 0 in *. lia.
  - pose proof (pos_lt i (length log)). destruct (decide (i = 0%nat)) as [->|]; [change (pos 0) with 0 in *; lia|].
    pose proof (pos_lt 0 i). change (pos 0) with 0 in *. lia.
Qed.

Lemma total_access {A} (c : mcall A) Pc w Q : advances c Pc -> Inv (kst w) ->
  (forall v k tr, Inv k -> (tl (kst w) <= tl k)%nat -> (wr (kst w) <= wr k)%nat -> Pc v (kst w) k -> Q (Ok v) (World k tr)) ->
  total (access c) w Q.
Proof.
  intros Hc Hi HQ. apply total_bind. unfold total, Sys.call_once. specialize (Hc _ Hi).
  destruct (answer c (kst w)) as [[v e] k]. destruct Hc as (?&?&?&?). eexists _, _. split; [done|].
  apply total_ret. auto.
Qed.

(** A ring of this producer whose cursor is at the event of index [i]. *)
Definition ring_at (r : Ring) (i : nat) : Prop :=
  mapped r = true /\ fd r = rfd /\ capacity r = cap /\ readPos r = pos i /\ (i <= length log)%nat.

(** What [Next] does from a cursor at index [i], with the producer in [k] before and [k'] after. *)
Definition Next_post (r : Ring) (i : nat) (k : K) (r' : Ring) (res : result) (k' : K) : Prop :=
  exists j, (i <= j <= length log)%nat /\ (i < j -> j <= tl k')%nat /\
  match res with
  | inl (Some ev) => (exists e, log !! j = Some (e, ev)) /\ (j < wr k')%nat /\ r' = yield ev (set_readPos (pos j) r)
  | inl None => r' = set_readPos (pos j) r /\ (wr k <= j)%nat /\ gen k' = generation r
  | inr e => r' = set_readPos (pos j) r /\ (wr k <= j)%nat /\ gen k' <> generation r /\ e = ErrGenerationChanged
  end.

(** A later start reaches what an earlier one may: the events skipped in between were overwritten. *)
Lemma Next_post_later r i i' k k1 r' res k' : (i <= i')%nat -> (i < i' -> i' <= tl k')%nat -> (wr k <= wr k1)%nat ->
  Next_post (set_readPos (pos i') r) i' k1 r' res k' -> Next_post r i k r' res k'.
Proof.
  intros Hi Ht Hw (j & Hj & Hjt & Hres). exists j. split_and!; [lia|lia| |].
  - intros. destruct (decide (i' < j)%nat); [by apply Hjt|]. replace j with i' by lia. apply Ht. lia.
  - destruct res as [[ev|]|e]; [done| |]; destruct Hres as (->&?&?); split_and!; try done; try lia; tauto.
Qed.

Lemma set_readPos_same r i : readPos r = pos i -> set_readPos (pos i) r = r.
Proof. destruct r; cbn. by intros ->. Qed.

(** The end of a round: the window was read in [k], with the tail at [i] or before it, and parsed to [p]. *)
Definition checked_round (fuel : nat) (r : Ring) (savedTail : Z) (p : WireEvent.Event + err) : M mcall K (Ring * result) :=
  tailAfter ← access (Load64 (fd r) pTailPos);
  if (savedTail <? tailAfter) && (readPos r <? tailAfter) then Next_loop fuel r else
  match p with
  | inr perr =>
      tail ← access (Load64 (fd r) pTailPos);
      if readPos r <? tail then Next_loop fuel (set_readPos tail r)
      else mret (r, inr (Wrapf "ring" perr))
  | inl ev => mret (yield ev r, inl (Some ev))
  end.

(** The bytes of the window are those of the event while the tail has not passed it. *)
Definition intact (i : nat) (p : WireEvent.Event + err) (k : K) : Prop :=
  (tl k <= i)%nat -> exists e ev, log !! i = Some (e, ev) /\ p = inl ev.

Definition loop_post (r : Ring) (i : nat) (k : K) (o : outcome (Ring * result)) (w' : world mcall K) : Prop :=
  exists r' res, o = Ok (r', res) /\ Inv (kst w') /\ (tl k <= tl (kst w'))%nat /\ (wr k <= wr (kst w'))%nat
    /\ Next_post r i k r' res (kst w').
Definition loop_fuel (i : nat) (k : K) : nat :=
  (2 * (length log - i) + (if decide (tl k <= i)%nat then 1 else 0))%nat.

Lemma loop_post_later r i i' k k1 o w' : (i <= i')%nat -> (i < i' -> i' <= tl k1)%nat ->
  (tl k <= tl k1)%nat -> (wr k <= wr k1)%nat ->
  loop_post (set_readPos (pos i') r) i' k1 o w' -> loop_post r i k o w'.
Proof.
  intros Hi Ht Hk Hw (r' & res & -> & Hi' & Ht' & Hw' & Hp). eexists _, _. split_and!; [done|done|lia|lia|].
  eapply Next_post_later, Hp; lia.
Qed.

Lemma intact_window i b : (i < length log)%nat -> (exists e, log !! i = Some e /\ exists s, b = e.1 ++ s) ->
  exists e ev, log !! i = Some (e, ev) /\ WireEvent.ParseEvent b = Ok ev.
Proof.
  intros Hi ([e ev] & He & s & ->). exists e, ev. split; [done|].
  pose proof p_entries as Hp. rewrite Forall_forall in Hp. apply list_elem_of_lookup_2, Hp in He as (_&_&Hparse).
  apply Hparse.
Qed.

Lemma checked_round_spec fuel r i p k w :
  (forall r i w, ring_at r i -> Inv (kst w) -> (loop_fuel i (kst w) < fuel)%nat -> total (Next_loop fuel r) w (loop_post r i (kst w))) ->
  ring_at r i -> Inv (kst w) -> (tl k <= i)%nat -> (tl k <= tl (kst w))%nat -> (wr k <= wr (kst w))%nat ->
  (2 * (length log - i) < fuel)%nat -> (i < wr (kst w))%nat ->
  (forall k', (tl (kst w) <= tl k')%nat -> intact i p k') ->
  forall st, st <= pos i -> total (checked_round fuel r st p) w (loop_post r i k).
Proof.
  intros IH Hr Hi Hki Htk Hwk Hf Hiw Hp st Hst. pose proof Hr as (_ & Hfd & _ & Hpos & Hlen). unfold checked_round.
  pose proof (p_order (kst w) Hi) as Hord. assert (Hil : (i < length log)%nat) by lia.
  apply total_bind. eapply total_access; [rewrite Hfd; apply p_tail|done|]. intros ta k4 tr4 Hi4 Ht4 Hw4 ->.
  pose proof (p_order k4 Hi4). destruct (decide (tl k4 <= i)%nat) as [Hin|Hout].
  - destruct (Z.ltb_spec (readPos r) (pos (tl k4))) as [Hc|].
    { rewrite Hpos in Hc. apply pos_lt_inv in Hc; lia. }
    rewrite andb_false_r. destruct (Hp k4) as (e & ev & He & ->); [lia|done|]. apply total_ret. eexists _, _.
    split_and!; [done|done|cbn [kst]; lia|cbn [kst]; lia|]. exists i. split_and!; [lia|lia|lia|by eexists|cbn [kst]; lia|]. by rewrite set_readPos_same.
  - pose proof (pos_lt i (tl k4)). destruct (Z.ltb_spec (readPos r) (pos (tl k4))); [|lia].
    destruct (Z.ltb_spec st (pos (tl k4))); [|lia]. cbn [andb].
    eapply total_mono; [apply (IH r i); [done|done|]|].
    + cbn [kst]. unfold loop_fuel. destruct (decide _); lia.
    + cbn [kst]. intros o w' Ho. rewrite <- (set_readPos_same r i Hpos) in Ho.
      eapply loop_post_later, Ho; lia.
Qed.

Lemma Next_loop_spec fuel r i w : ring_at r i -> Inv (kst w) -> (loop_fuel i (kst w) < fuel)%nat ->
  total (Next_loop fuel r) w (loop_post r i (kst w)).
Proof.
  revert r i w. induction fuel as [|fuel IH]; intros r i w Hr Hi Hf; [lia|].
  pose proof Hr as (Hmap & Hfd & Hcap & Hpos & Hlen). cbn [Next_loop].
  apply total_bind. eapply total_access; [rewrite Hfd; apply p_write|done|]. intros wp k1 tr1 Hi1 Ht1 Hw1 ->.
  pose proof (p_order k1 Hi1). destruct (Z.leb_spec (pos (wr k1)) (readPos r)) as [Hd|Hd]; rewrite Hpos in Hd.
  { apply pos_le_inv in Hd; [|lia..].
    apply total_bind. eapply total_access; [rewrite Hfd; apply p_gen|done|]. intros g k2 tr2 Hi2 Ht2 Hw2 ->. cbn [kst] in *.
    destruct (Z.eqb_spec (gen k2) (generation r)); cbn [negb]; apply total_ret; eexists _, _;
      (split_and!; [done|done|cbn [kst]; lia|cbn [kst]; lia|]); exists i; split_and!; try done; try lia; by rewrite set_readPos_same. }
  apply pos_lt_inv in Hd; [|lia..].
  apply total_bind. eapply total_access; [rewrite Hfd; apply p_tail|done|]. intros st k2 tr2 Hi2 Ht2 Hw2 ->. cbn [kst] in *.
  pose proof (p_order k2 Hi2). destruct (Z.ltb_spec (readPos r) (pos (tl k2))) as [Hl|Hl]; rewrite Hpos in Hl.
  { apply pos_lt_inv in Hl; [|lia..].
    eapply total_mono; [apply (IH (set_readPos (pos (tl k2)) r) (tl k2))|].
    - split_and!; try done; lia.
    - done.
    - cbn [kst]. unfold loop_fuel in *. destruct (decide (tl k2 <= tl k2)%nat), (decide (tl (kst w) <= i)%nat); lia.
    - cbn [kst]. intros o w' Ho. eapply loop_post_later, Ho; lia. }
  apply pos_le_inv in Hl as Hti; [|lia..].
  apply total_bind. eapply total_access; [rewrite Hfd, Hcap; apply p_window|done|]. intros b k3 tr3 Hi3 Ht3 Hw3 Hb. cbn [kst] in *.
  assert (Hok : forall k', (tl k3 <= tl k')%nat -> (tl k' <= i)%nat -> exists e ev, log !! i = Some (e, ev) /\ WireEvent.ParseEvent b = Ok ev).
  { intros k' Hk' Hk'i. apply intact_window; [lia|]. destruct (lookup_lt_is_Some_2 log i) as [e He]; [lia|].
    exists e. split; [done|]. apply (Hb i e He); [by rewrite Hpos|lia|lia]. }
  apply total_bind, total_lift. destruct (WireEvent.ParseEvent_cases b) as [Hx|Hx]; rewrite Hx in *; cbv iota.
  - eapply (checked_round_spec fuel r i (inr ErrBadEvent) (kst w) (World k3 tr3)); try done; cbn [kst]; try lia.
    + unfold loop_fuel in Hf. destruct (decide (tl (kst w) <= i)%nat); lia.
    + intros k' Hk' Hk'i. by destruct (Hok k' Hk' Hk'i) as (e & ev & _ & ?).
  - eapply (checked_round_spec fuel r i (inl (WireEvent.view b)) (kst w) (World k3 tr3)); try done; cbn [kst]; try lia.
    + unfold loop_fuel in Hf. destruct (decide (tl (kst w) <= i)%nat); lia.
    + intros k' Hk' Hk'i. destruct (Hok k' Hk' Hk'i) as (e & ev & ? & [= ->]). eauto.
Qed.

(** ** Calls of [Next] *)

(** The next event [Next] looks for is the one of index [i]. *)
Definition at_index (r : Ring) (i : nat) : Prop := ring_at (step_over r) i.

Lemma at_index_here r j : ring_at r j -> pending r = 0 -> at_index r j.
Proof. intros Hr Hp. unfold at_index, step_over. by rewrite Hp. Qed.

Lemma at_index_yield r j e ev : ring_at r j -> log !! j = Some (e, ev) -> at_index (yield ev r) (S j).
Proof.
  intros (Hm & Hf & Hc & Hp & Hj) He. pose proof p_entries as Hpe. rewrite Forall_forall in Hpe.
  apply list_elem_of_lookup_2 in He as Hin. apply Hpe in Hin as (Hl & Hs & _). cbn [fst snd] in *.
  apply lookup_lt_Some in He as Hlt. pose proof (pos_S _ _ He) as HS. cbn [fst] in HS.
  unfold at_index, step_over. cbn [yield pending set_pending]. rewrite Hs.
  destruct (Z.eqb_spec (zlen e) 0); [lia|]. cbn [negb]. unfold ring_at.
  cbn [mapped fd capacity readPos yield set_pending set_readPos set_sequence]. split_and!; [done..| |lia].
  rewrite Hp, <- HS. unfold wrap. apply Z.mod_small. apply pos_bounds. lia.
Qed.

(** The sequence numbers and the count of lost events a ring carries. *)
Definition counters (r : Ring) : Z * Z := (lastSeq r, lostEvents r).
Definition sane (r : Ring) : Prop := 0 <= lostEvents r <= lastSeq r.

Lemma counters_yield ev r : sane r -> lastSeq r < WireEvent.Sequence ev < 2 ^ 64 - 1 ->
  counters (yield ev r) = (WireEvent.Sequence ev,
    if lastSeq r =? 0 then lostEvents r else lostEvents r + (WireEvent.Sequence ev - lastSeq r - 1)).
Proof.
  unfold sane. intros Hs Hq. unfold counters, yield. cbn [lastSeq lostEvents set_pending set_sequence]. f_equal.
  destruct (Z.eqb_spec (lastSeq r) 0); cbn [negb andb]; [done|]. unfold wrap at 1. rewrite Z.mod_small by lia.
  destruct (Z.ltb_spec (lastSeq r + 1) (WireEvent.Sequence ev)); [unfold wrap; rewrite Z.mod_small; lia|lia].
Qed.

Lemma step_over_eq r : counters (step_over r) = counters r /\ generation (step_over r) = generation r /\ pending (step_over r) = 0.
Proof. unfold step_over. by destruct (Z.eqb_spec (pending r) 0). Qed.

Lemma Next_spec fuel r i w : at_index r i -> Inv (kst w) -> (2 * length log + 1 < fuel)%nat ->
  total (Next fuel r) w (fun o w' => exists r' res j, o = Ok (r', res) /\ Inv (kst w') /\ (tl (kst w) <= tl (kst w'))%nat
    /\ (wr (kst w) <= wr (kst w'))%nat /\ (i <= j <= length log)%nat /\ (i < j -> j <= tl (kst w'))%nat
    /\ match res with
       | inl (Some ev) => exists e, log !! j = Some (e, ev) /\ at_index r' (S j)
           /\ counters r' = counters (yield ev r)
       | _ => at_index r' j /\ counters r' = counters r /\ (wr (kst w) <= j)%nat
       end).
Proof.
  intros Hr Hi Hf. unfold Next. destruct (step_over_eq r) as (Hc & Hg & Hp). pose proof Hr as (-> & _). cbn [negb].
  eapply total_mono; [apply Next_loop_spec; [exact Hr|done|]|].
  { unfold loop_fuel. destruct (decide _); lia. }
  intros o w' (r' & res & -> & Hi' & Ht & Hw & j & Hj & Hjt & Hres). eexists _, _, j. split_and!; try done; try lia.
  assert (Hat : ring_at (set_readPos (pos j) (step_over r)) j).
  { destruct Hr as (?&?&?&?&?). split_and!; try done; lia. }
  destruct res as [[ev|]|e]; [destruct Hres as ([e He] & _ & ->)|destruct Hres as (->&?&_)..].
  - exists e. split_and!; [done|by eapply at_index_yield|]. unfold counters, yield in *. cbn in *. by injection Hc as -> ->.
  - split_and!; [by apply at_index_here|exact Hc|done].
  - split_and!; [by apply at_index_here|exact Hc|done].
Qed.

(** A consumer that calls [Next] until it has [n] events, or it yields none. *)
Fixpoint drain (fuel n : nat) (r : Ring) : M mcall K (Ring * list WireEvent.Event) :=
  match n with
  | O => mret (r, [])
  | S n =>
      '(r, res) ← Next fuel r;
      match res with
      | inl (Some ev) => '(r, evs) ← drain fuel n r; mret (r, ev :: evs)
      | _ => mret (r, [])
      end
  end.

(** The events of the log of indices [js], which are among those of index [i] up to [c], in order; those of the
    range that are not among them have an index below [t]. *)
Definition taken (i c t : nat) (js : list nat) (evs : list WireEvent.Event) : Prop :=
  Forall2 (fun j ev => exists e, log !! j = Some (e, ev)) js evs /\ StronglySorted lt js
  /\ Forall (fun j => (i <= j < c)%nat) js /\ (forall m, (i <= m < c)%nat -> m ∉ js -> (m < t)%nat).

Lemma taken_nil i c t : (forall m, (i <= m < c)%nat -> (m < t)%nat) -> taken i c t [] [].
Proof. intros Hm. split_and!; [by apply Forall2_nil|apply SSorted_nil|by apply Forall_nil|auto]. Qed.

Lemma taken_cons i j c t t0 js evs e ev : (i <= j)%nat -> (i < j -> j <= t0)%nat -> (t0 <= t)%nat -> (S j <= c)%nat ->
  log !! j = Some (e, ev) -> taken (S j) c t js evs -> taken i c t (j :: js) (ev :: evs).
Proof.
  intros Hij Ht Ht0 Hc He (Hf & Hs & Hr & Hm). split_and!.
  - constructor; [by exists e|done].
  - constructor; [done|]. eapply Forall_impl; [exact Hr|]. cbn. lia.
  - constructor; [lia|]. eapply Forall_impl; [exact Hr|]. cbn. lia.
  - intros m Hm' Hnin. apply not_elem_of_cons in Hnin as [Hne Hnin].
    destruct (decide (S j <= m)%nat); [apply Hm; [lia|done]|]. assert (m < j)%nat by lia. lia.
Qed.

(** The lost events that [counters] report when [evs] is what a ring yielded: the gaps of the sequence. *)
Definition lost_after (r : Ring) (evs : list WireEvent.Event) : Z * Z :=
  match evs with
  | [] => counters r
  | e0 :: _ =>
      let last := WireEvent.Sequence (List.last evs e0) in
      (last, if lastSeq r =? 0 then lostEvents r + (last - WireEvent.Sequence e0 + 1 - zlen evs)
             else lostEvents r + (last - lastSeq r - zlen evs))
  end.

(** The events still to come have later sequence numbers. *)
Definition behind (r : Ring) (i : nat) : Prop :=
  sane r /\ forall j e, (i <= j)%nat -> log !! j = Some e -> lastSeq r < WireEvent.Sequence e.2.

Lemma behind_later r r' i j : (i <= j)%nat -> counters r' = counters r -> behind r i -> behind r' j.
Proof.
  unfold behind, sane. intros Hij Hc [Hs Hb]. injection Hc as -> ->. split; [done|]. intros j' e Hj' He. eapply Hb, He. lia.
Qed.

Lemma behind_yield r r' i j e ev : behind r i -> (i <= j)%nat -> log !! j = Some (e, ev) ->
  counters r' = counters (yield ev r) -> behind r' (S j) /\ lastSeq r' = WireEvent.Sequence ev
  /\ lostEvents r' = (if lastSeq r =? 0 then lostEvents r else lostEvents r + (WireEvent.Sequence ev - lastSeq r - 1)).
Proof.
  intros [Hs Hb] Hij He Hc. specialize (Hb j (e, ev) Hij He) as Hlt. cbn [snd] in Hlt.
  pose proof (p_sequence_fits j (e, ev) He) as Hq. cbn [snd] in Hq.
  rewrite counters_yield in Hc by (done || lia). injection Hc as Hl Hlo. rewrite Hl, Hlo. split_and!; [|done|done].
  unfold behind, sane in *. rewrite Hl, Hlo. split; [destruct (lastSeq r =? 0) eqn:E; lia|].
  intros j' e' Hj' He'. by apply (p_sequence j j' (e, ev) e').
Qed.

Lemma drain_counters r r1 ev evs : sane r -> lastSeq r < WireEvent.Sequence ev -> lastSeq r1 = WireEvent.Sequence ev ->
  lostEvents r1 = (if lastSeq r =? 0 then lostEvents r else lostEvents r + (WireEvent.Sequence ev - lastSeq r - 1)) ->
  lost_after r1 evs = lost_after r (ev :: evs).
Proof.
  intros [? ?] Hlt Hl Hlo. unfold lost_after, counters. destruct evs as [|e1 evs].
  - rewrite Hl, Hlo. cbn [List.last]. change (zlen [ev]) with 1. f_equal. destruct (lastSeq r =? 0); lia.
  - rewrite Hl, Hlo. destruct (Z.eqb_spec (WireEvent.Sequence ev) 0); [lia|].
    change (List.last (ev :: e1 :: evs) ev) with (List.last (e1 :: evs) ev).
    replace (List.last (e1 :: evs) ev) with (List.last (e1 :: evs) e1).
    2: { clear. revert e1. induction evs as [|e2 evs IH]; intros e1; [done|]. cbn. destruct evs; [done|]. apply IH. }
    rewrite (zlen_cons ev). f_equal. destruct (lastSeq r =? 0); lia.
Qed.

(** [C35] Draining a ring that the producer keeps writing, wrapping and overwriting: each call of [Next] returns; every event it
    yields is one of the log, untorn, and they come in order without repetition; an event that is passed over
    has been overwritten; when fewer than the [n] events asked for are yielded, nothing written before the
    call is left; and the count of lost events is the number of gaps in the sequence numbers of the yielded
    events. *)
Theorem drain_spec fuel n r i w : at_index r i -> behind r i -> Inv (kst w) -> (2 * length log + 1 < fuel)%nat ->
  total (drain fuel n r) w (fun o w' => exists r' evs js c, o = Ok (r', evs) /\ Inv (kst w')
    /\ (i <= c)%nat /\ at_index r' c /\ behind r' c /\ (tl (kst w) <= tl (kst w'))%nat
    /\ taken i c (tl (kst w')) js evs
    /\ counters r' = lost_after r evs
    /\ (length evs <= n)%nat /\ ((length evs < n)%nat -> (wr (kst w) <= c)%nat)).
Proof.
  revert r i w. induction n as [|n IH]; intros r i w Hr Hb Hi Hf; cbn [drain].
  { apply total_ret. exists r, [], [], i. split_and!; try done; try lia. apply taken_nil. lia. }
  apply total_bind. eapply total_mono; [by apply (Next_spec fuel r i)|].
  intros o w' (r1 & res & j & -> & Hi' & Ht & Hwr & Hj & Hjt & Hres). destruct res as [[ev|]|e].
  2,3: apply total_ret; destruct Hres as (Hat & Hc & Hw); exists r1, [], [], j;
    split_and!; try done; try lia;
    first [simpl; lia|eapply (behind_later r r1 i j); [lia|done|done]|apply taken_nil; intros m Hm; specialize (Hjt ltac:(lia)); lia].
  destruct Hres as (e & He & Hat & Hc). pose proof (behind_yield r r1 i j e ev Hb ltac:(lia) He Hc) as (Hb' & Hl & Hlo).
  apply total_bind. eapply total_mono; [by apply (IH r1 (S j) w')|].
  intros o w'' (r' & evs & js & c & -> & Hi'' & Hjc & Hat' & Hbc & Ht' & Htk & Hcn & Hlen & Hw).
  apply total_ret. exists r', (ev :: evs), (j :: js), c. split_and!; try done; try lia.
  - eapply (taken_cons i j c (tl (kst w'')) (tl (kst w'))); try done; lia.
  - rewrite Hcn. destruct Hb as [Hs Hlt]. specialize (Hlt j (e, ev) ltac:(lia) He). by apply drain_counters.
  - cbn. lia.
  - cbn. intros. enough (wr (kst w') <= c)%nat by lia. apply Hw. lia.
Qed.
End producer.

(** ** A concrete producer *)

(** Three events, the second of them numbered 3 (one was dropped); the third is written, and the first
    overwritten, while the consumer reads the first.  Used by the witness only. *)
Module Sample.

Definition event_bytes (seq : Z) : bytes :=
  le_enc 4 84 ++ le_enc 4 80 ++ replicate 8 x00 ++ le_enc 8 seq ++ replicate 51 x00 ++ le_enc 2 3 ++ str "abc" ++ [x93; x01; x02; x03].
Definition entry (seq : Z) : bytes * WireEvent.Event :=
  (event_bytes seq, @WireEvent.view pkm (event_bytes seq)).
Definition log : list (bytes * WireEvent.Event) := [entry 1; entry 3; entry 4].

(** [false] before the first read of the data region, [true] after it. *)
Definition tl (k : bool) : nat := if k then 1 else 0.
Definition wr (k : bool) : nat := if k then 3 else 2.

Definition respond {A} (c : mcall A) (k : bool) : (A * Z) * bool :=
  match c in mcall A return (A * Z) * bool with
  | Attach cpu => if cpu =? 0 then ((3, 512), 0, k) else ((0, 0), Errno.EINVAL, k)
  | Mmap _ _ | Munmap _ | CloseRing _ | Store32 _ _ _ | FutexWait _ _ _ _ => (tt, 0, k)
  | Magic _ => (str "KMESRING", 0, k)
  | Load32 _ _ => (1, 0, k)
  | Load64 _ off =>
      (if off =? 64 then pos log (wr k) else if off =? 72 then pos log (tl k) else 1, 0, k)
  | Window _ off _ =>
      (if off =? 84 then event_bytes 3 else if off =? 168 then event_bytes 4 else replicate 512 xff, 0, true)
  end.

#[global] Instance kernel : Kernel mcall bool := {| answer A c k := respond c k; patience := 1 |}.

Lemma entries_ok : Forall (@entry_ok pkm) log.
Proof.
  assert (Hw : forall seq ev, @WireEvent.ParseEvent pkm (event_bytes seq) = Ok ev -> ev = @WireEvent.view pkm (event_bytes seq) ->
    WireEvent.EventSize ev = zlen (event_bytes seq) -> 0 < zlen (event_bytes seq) -> @entry_ok pkm (entry seq)).
  { intros seq ev Hp -> Hs Hl. split_and!; [done|done|]. intros s. cbn [fst snd entry]. by apply WireEvent.ParseEvent_app. }
  repeat constructor; (eapply Hw; [vm_compute; reflexivity|vm_compute; reflexivity|vm_compute; reflexivity|reflexivity]).
Qed.

#[global] Instance producer : @Producer pkm bool kernel 3 512 log (fun _ => True) tl wr (fun _ => 1).
Proof.
  split.
  - apply entries_ok.
  - vm_compute. reflexivity.
  - intros i j e e' Hij Hi Hj. do 3 (destruct i as [|i]; [do 3 (destruct j as [|j]; [try lia; injection Hi as <-; injection Hj as <-; vm_compute; split; reflexivity|]); done|]); done.
  - intros i e Hi. do 3 (destruct i as [|i]; [injection Hi as <-; vm_compute; split; reflexivity|]); done.
  - intros [] _; vm_compute; split; lia.
  - intros k _. cbn. by split_and!.
  - intros k _. cbn. by split_and!.
  - intros k _. cbn. by split_and!.
  - intros off k _. cbn. split_and!; [done|destruct k; cbn; lia|destruct k; cbn; lia|].
    intros i e Hi -> Ht Hw. exists []. rewrite app_nil_r.
    destruct i as [|[|[|i]]]; [cbn in Ht; lia| | |done]; injection Hi as <-; vm_compute; reflexivity.
Qed.
End Sample.

Lemma drain_spec_witness :
  let r := mkRing 3 true 512 0 1 0 0 0 0 in let w := World false [] in
  total (@drain pkm bool Sample.kernel 8 5 r) w (fun o w' => exists r' evs js c, o = Ok (r', evs) /\ True
    /\ (0 <= c)%nat /\ at_index 3 512 Sample.log r' c /\ behind Sample.log r' c /\ (Sample.tl (kst w) <= Sample.tl (kst w'))%nat
    /\ taken Sample.log 0 c (Sample.tl (kst w')) js evs
    /\ counters r' = lost_after r evs
    /\ (length evs <= 5)%nat /\ ((length evs < 5)%nat -> (Sample.wr (kst w) <= c)%nat)).
Proof.
  intros r w. apply (@drain_spec pkm pkm_EventLaws bool Sample.kernel 3 512 Sample.log (fun _ => True) Sample.tl Sample.wr (fun _ => 1) Sample.producer).
  - unfold at_index, ring_at. cbn. split_and!; try reflexivity; lia.
  - split; [unfold sane; cbn; lia|]. intros j e _ He. cbn. destruct (@p_sequence_fits _ _ _ _ _ _ _ _ _ _ Sample.producer j e He) as [Hs _]. exact Hs.
  - exact I.
  - cbn. lia.
Defined.

(** The first event is lost while it is read, the others are yielded; two events are missing. *)
Example drain_sample :
  match @drain pkm bool Sample.kernel 8 5 (mkRing 3 true 512 0 1 0 0 0 0) (World false []) with
  | Some (Ok (r, evs), _) => (WireEvent.Sequence <$> evs, lostEvents r) = ([3; 4], 0)
  | _ => False
  end.
Proof. vm_compute. reflexivity. Qed.

(** ** Descriptors and mappings *)

Section resources.
Context {U : Uapi} {K : Type} {H : Kernel mcall K} {S : Settles mcall K}.

(** What a request changes of the descriptors and of the mappings the process holds. *)
Definition fd_delta (ev : event mcall) : Z :=
  match ev_call ev with
  | Attach _ => if ev_errno ev =? 0 then 1 else 0
  | CloseRing _ => -1
  | _ => 0
  end.
Definition map_delta (ev : event mcall) : Z :=
  match ev_call ev with
  | Mmap _ _ => if ev_errno ev =? 0 then 1 else 0
  | Munmap _ => -1
  | _ => 0
  end.
Fixpoint sum_of (f : event mcall -> Z) (es : list (event mcall)) : Z :=
  match es with [] => 0 | ev :: es => f ev + sum_of f es end.

Lemma sum_of_app f es es' : sum_of f (es ++ es') = sum_of f es + sum_of f es'.
Proof. induction es as [|e es IH]; cbn; lia. Qed.

(** [m] finishes from any world, with an outcome in [Q], after requests that change the descriptors and the
    mappings held by the given amounts. *)
Definition holding {A} (m : M mcall K A) (Q : outcome A -> Z -> Z -> Prop) : Prop :=
  forall w, total m w (fun o w' => exists es, trace w' = trace w ++ es /\ Q o (sum_of fd_delta es) (sum_of map_delta es)).

Lemma holding_ret {A} (a : A) (Q : outcome A -> Z -> Z -> Prop) : Q (Ok a) 0 0 -> holding (mret a) Q.
Proof. intros HQ w. apply total_ret. exists []. by rewrite app_nil_r. Qed.
Lemma holding_throw {A} e (Q : outcome A -> Z -> Z -> Prop) : Q (Err e) 0 0 -> holding (throw e) Q.
Proof. intros HQ w. apply total_throw. exists []. by rewrite app_nil_r. Qed.

Lemma holding_bind {A B} (m : M mcall K A) (f : A -> M mcall K B) Q :
  holding m (fun o n p =>
    match o with
    | Ok a => holding (f a) (fun o n' p' => Q o (n + n') (p + p'))
    | Err e => Q (Err e) n p
    | Panic => Q Panic n p
    end) -> holding (m ≫= f) Q.
Proof.
  intros Hm w. apply total_bind. eapply total_mono; [apply Hm|]. intros o w' (es & Ht & Hq).
  destruct o as [a|e|]; [|by exists es..]. eapply total_mono; [apply Hq|]. intros o w'' (es' & Ht' & Hq').
  exists (es ++ es'). rewrite Ht', Ht, !sum_of_app. split; [by rewrite <- app_assoc|done].
Qed.

Lemma holding_mono {A} (m : M mcall K A) (Q Q' : outcome A -> Z -> Z -> Prop) :
  holding m Q -> (forall o n p, Q o n p -> Q' o n p) -> holding m Q'.
Proof. intros Hm HQ w. eapply total_mono; [apply Hm|]. intros o w' (es & ? & ?). eauto. Qed.

Lemma holding_call {A} (c : mcall A) (Q : outcome (A * option err) -> Z -> Z -> Prop) :
  (forall r e, e <> Errno.EINTR -> Q (Ok (r, if e =? 0 then None else Some (Errno e))) (fd_delta (Ev c e)) (map_delta (Ev c e))) ->
  holding (Sys.call c) Q.
Proof.
  intros HQ w. apply total_call_any. intros r e k He. exists [Ev c e]. split; [done|]. cbn [sum_of].
  rewrite !Z.add_0_r. by apply HQ.
Qed.

Lemma holding_call_once {A} (c : mcall A) (Q : outcome (A * option err) -> Z -> Z -> Prop) :
  (forall r e, Q (Ok (r, if e =? 0 then None else Some (Errno e))) (fd_delta (Ev c e)) (map_delta (Ev c e))) ->
  holding (Sys.call_once c) Q.
Proof.
  intros HQ w. apply total_call_once. intros r e k. exists [Ev c e]. split; [done|]. cbn [sum_of].
  rewrite !Z.add_0_r. by apply HQ.
Qed.

Lemma holding_access {A} (c : mcall A) (Q : outcome A -> Z -> Z -> Prop) :
  (forall v e, Q (Ok v) (fd_delta (Ev c e)) (map_delta (Ev c e))) -> holding (access c) Q.
Proof.
  intros HQ. apply holding_bind, holding_call_once. intros r e. apply holding_ret. rewrite !Z.add_0_r. apply HQ.
Qed.

Lemma mapRing_holding fd cap : holding (mapRing fd cap) (fun o n p =>
  match o with Ok (inl r) => mapped r = true /\ n = 0 /\ p = 1 | Ok (inr _) => n = -1 /\ p = 0 | _ => False end).
Proof.
  unfold mapRing. apply holding_bind, holding_call_once. intros [] e. cbn [fd_delta map_delta ev_call ev_errno].
  destruct (e =? 0); [|apply holding_bind, holding_access; intros; apply holding_ret; cbn; lia].
  apply holding_bind, holding_access. intros magic ?. destruct (bool_decide _); cbn [negb];
    [|apply holding_bind, holding_access; intros; apply holding_bind, holding_access; intros; apply holding_ret; cbn; lia].
  apply holding_bind, holding_access. intros v ?. destruct (v =? _); cbn [negb];
    [|apply holding_bind, holding_access; intros; apply holding_bind, holding_access; intros; apply holding_ret; cbn; lia].
  do 3 (apply holding_bind, holding_access; intros). by apply holding_ret.
Qed.

Lemma Close_holding r : mapped r = true -> holding (Close r) (fun o n p => is_ok o = true /\ n = -1 /\ p = -1).
Proof.
  intros Hm. unfold Close. rewrite Hm. cbn [negb]. do 2 (apply holding_bind, holding_call_once; intros [] ?).
  by apply holding_ret.
Qed.

Lemma close_all_holding rings : Forall (fun r => mapped r = true) rings ->
  holding (close_all rings) (fun o n p => o = Ok tt /\ n = - zlen rings /\ p = - zlen rings).
Proof.
  induction 1 as [|r rings Hr _ IH]; [by apply holding_ret|]. cbn [close_all].
  apply holding_bind. eapply holding_mono; [by apply Close_holding|]. intros o n p (Ho & -> & ->).
  destruct o; [|done..]. eapply holding_mono; [apply IH|]. intros o n p (-> & -> & ->). split; [done|len].
Qed.

(** A machine with [cpus] CPUs: there is no ring past the last one. *)
Definition cpu_count (cpus : Z) : Prop := forall cpu, cpus <= cpu -> promises (Attach cpu) (fun _ => True) (fun _ e _ => e = Errno.EINVAL).

Lemma attach_holding cpus cpu : cpu_count cpus -> holding (attach cpu) (fun o n p => p = 0 /\
  match o with
  | Ok (inl _) => cpu < cpus /\ n = 1
  | Ok (inr e) => n = 0
  | _ => False
  end).
Proof.
  intros Hc w. unfold attach. apply total_bind.
  assert (Hp : promises (Attach cpu) (fun _ : K => True) (fun _ e _ => cpus <= cpu -> e = Errno.EINVAL)).
  { intros k Hk. destruct (decide (cpus <= cpu)) as [Hle|Hlt].
    - specialize (Hc cpu Hle k Hk). destruct (answer (Attach cpu) k) as [[? ?] ?]. naive_solver.
    - destruct (answer (Attach cpu) k) as [[? ?] ?]. split; [done|]. lia. }
  eapply total_call; [exact Hp|done|]. intros r e k _ He _. apply total_ret. exists [Ev (Attach cpu) e]. split; [done|].
  cbn. destruct (Z.eqb_spec e 0) as [->|]; [|done]. split_and!; [done| |done].
  destruct (Z.lt_ge_cases cpu cpus); [done|]. by specialize (He ltac:(done)).
Qed.

Lemma AttachAll_loop_holding cpus fuel cpu rings : cpu_count cpus -> cpus < 2 ^ 32 -> 0 <= cpu <= cpus ->
  cpus - cpu < Z.of_nat fuel -> Forall (fun r => mapped r = true) rings ->
  holding (AttachAll_loop fuel cpu rings) (fun o n p =>
    match o with
    | Ok rs => exists new, rs = rings ++ new /\ Forall (fun r => mapped r = true) rs /\ n = zlen new /\ p = zlen new
    | Err _ => n = - zlen rings /\ p = - zlen rings
    | Panic => False
    end).
Proof.
  intros Hc H32. revert cpu rings. induction fuel as [|fuel IH]; intros cpu rings Hcpu Hf Hr; [lia|]. cbn [AttachAll_loop].
  apply holding_bind. eapply holding_mono; [by apply attach_holding|]. intros o n p (-> & Ho).
  destruct o as [[[fd cap]|e]|e|]; [|subst n|done..].
  - destruct Ho as [Hlt ->]. apply holding_bind. eapply holding_mono; [apply mapRing_holding|]. intros o n p Ho.
    destruct o as [[r|e]|e|]; [|destruct Ho as [-> ->]|done..].
    + destruct Ho as (Hm & -> & ->). unfold wrap. rewrite Z.mod_small by lia.
      eapply holding_mono; [apply IH; [lia|lia|apply Forall_app_2; [done|by constructor]]|].
      intros o n p. destruct o as [rs|e|]; [|rewrite zlen_app; change (zlen [r]) with 1; lia|done].
      intros (new & -> & Hrs & -> & ->). exists (r :: new). split_and!; [by rewrite <- app_assoc|done|len|len].
    + apply holding_bind. eapply holding_mono; [by apply close_all_holding|]. intros o n p (-> & -> & ->).
      apply holding_throw. lia.
  - destruct (errors_is e _).
    + apply holding_ret. exists []. by rewrite app_nil_r.
    + apply holding_bind. eapply holding_mono; [by apply close_all_holding|]. intros o n p (-> & -> & ->).
      apply holding_throw. lia.
Qed.

(** [C37] Attaching finishes, and leaks nothing: when it succeeds the process holds exactly one descriptor and
    one mapping for each ring returned, at least one, all of them open; when it fails for whatever reason, a refused attach, a
    failed mapping, a wrong magic or version, every descriptor and mapping taken on the way has been released. *)
Theorem AttachAll_no_leak cpus fuel w : cpu_count cpus -> 0 <= cpus < 2 ^ 32 -> cpus < Z.of_nat fuel ->
  total (AttachAll fuel) w (fun o w' => exists es, trace w' = trace w ++ es /\
    match o with
    | Ok rings => 0 < zlen rings /\ Forall (fun r => mapped r = true) rings
                  /\ sum_of fd_delta es = zlen rings /\ sum_of map_delta es = zlen rings
    | Err _ => sum_of fd_delta es = 0 /\ sum_of map_delta es = 0
    | Panic => False
    end).
Proof.
  intros Hc Hn Hf.
  enough (Hh : holding (AttachAll fuel) (fun o n p => match o with
    | Ok rings => 0 < zlen rings /\ Forall (fun r => mapped r = true) rings /\ n = zlen rings /\ p = zlen rings
    | Err _ => n = 0 /\ p = 0 | Panic => False end)) by apply (Hh w).
  apply holding_bind. eapply holding_mono; [apply (AttachAll_loop_holding cpus fuel 0 []); auto; try lia; constructor|].
  intros o n p Ho. destruct o as [rs|e|]; [|done|done]. destruct Ho as (new & -> & Hrs & -> & ->). cbn [app] in *.
  destruct (Z.eqb_spec (zlen new) 0) as [E|].
  - apply holding_throw. lia.
  - apply holding_ret. pose proof (zlen_nonneg new). split_and!; try lia. done.
Qed.
End resources.

Lemma AttachAll_no_leak_witness :
  @cpu_count bool Sample.kernel 1
  /\ total (@AttachAll pkm bool Sample.kernel 2) (World false []) (fun o w' => exists es, trace w' = [] ++ es /\
    match o with
    | Ok rings => 0 < zlen rings /\ Forall (fun r => mapped r = true) rings
                  /\ sum_of fd_delta es = zlen rings /\ sum_of map_delta es = zlen rings
    | Err _ => sum_of fd_delta es = 0 /\ sum_of map_delta es = 0
    | Panic => False
    end).
Proof.
  assert (Hc : @cpu_count bool Sample.kernel 1) by (intros cpu Hcpu k _; cbn; destruct (Z.eqb_spec cpu 0); [lia|done]).
  assert (Hs : Settles mcall bool) by (intros A [] k; try discriminate; cbn; destruct (_ =? 0); discriminate).
  split; [exact Hc|]. apply (@AttachAll_no_leak pkm bool Sample.kernel Hs 1 2 (World false []) Hc); [lia|lia].
Defined.

End Ring.
