(* ===== verification/RingRead.v ===== *)
(** * RingRead: blocking reads of a ring (event/ring.go, event/event.go)

    [Read] and [ReadTimeout] drain, sleep on the ring's futex and copy the event they
    find.  [Sleeper] adds to the producer of Ring.v what the kernel owes a consumer
    that sleeps; the theorem says what a blocking read returns, and how far the copy
    can be trusted. *)

From S2P Require Import Prelude Outcome Uapi Kernel WireEvent Ring.

Module RingRead.
Import Ring.

(** ** Copying a borrowed event *)

Section copy.
Context {U : Uapi} {EL : EventLaws U}.

(** The fields that were loaded when the event was parsed, which a copy keeps. *)
Definition header (ev : WireEvent.Event) : Z * Z * Z * Z * Z * Z :=
  (WireEvent.EventSize ev, WireEvent.HeaderSize ev, WireEvent.TimestampNS ev, WireEvent.Sequence ev, WireEvent.CPUID ev,
   WireEvent.Origin ev).

(** The slices of an event lie inside the bytes of an event of its size, so the copy of any of those exists. *)
Lemma reborrow_ok b ev w : WireEvent.ParseEvent b = Ok ev -> WireEvent.EventSize ev <= zlen w ->
  reborrow ev w = Ok (WireEvent.mkEvent (WireEvent.EventSize ev) (WireEvent.HeaderSize ev) (WireEvent.TimestampNS ev)
    (WireEvent.Sequence ev) (WireEvent.CPUID ev) (WireEvent.Origin ev)
    (zseg WireEvent.evEffectiveTokenGUIDOff (WireEvent.evEffectiveTokenGUIDOff + WireEvent.evGUIDSize) w)
    (zseg WireEvent.evTrueTokenGUIDOff (WireEvent.evTrueTokenGUIDOff + WireEvent.evGUIDSize) w)
    (zseg WireEvent.evProcessGUIDOff (WireEvent.evProcessGUIDOff + WireEvent.evGUIDSize) w)
    (zseg WireEvent.evHeaderBase (WireEvent.evHeaderBase + zlen (WireEvent.EventType ev)) w)
    (zseg (WireEvent.HeaderSize ev) (WireEvent.EventSize ev) w)).
Proof.
  intros Hp Hl. rewrite WireEvent.ParseEvent_eq in Hp. destruct (Z.ltb_spec (zlen b) WireEvent.evHeaderBase); [done|].
  cbn [orb] in Hp. destruct (WireEvent.valid b) eqn:Hv; [|done]. cbn [negb] in Hp. apply Ok_inj in Hp.
  unfold WireEvent.valid in Hv. rewrite !andb_true_iff, !Z.leb_le in Hv.
  pose proof (WireEvent.field_bound 2 b WireEvent.evTypeLenOff).
  destruct (WireEvent.event_fields WireEvent.evOriginOff 1) as (?&?&?); [simpl; tauto|].
  assert (HT : zlen (WireEvent.EventType ev) = WireEvent.field 2 b WireEvent.evTypeLenOff).
  { rewrite <- Hp. cbn [WireEvent.EventType WireEvent.view]. rewrite zlen_zseg; lia. }
  assert (HE : WireEvent.EventSize ev = WireEvent.field 4 b WireEvent.evSizeOff) by by rewrite <- Hp.
  assert (HH : WireEvent.HeaderSize ev = WireEvent.field 4 b WireEvent.evHeaderOff) by by rewrite <- Hp.
  unfold reborrow. cbv zeta. rewrite !WireEvent.guid_field by (simpl; tauto || lia). rewrite !bind_Ok.
  rewrite (slice_ok w WireEvent.evHeaderBase), (slice_ok w (WireEvent.HeaderSize ev)) by lia. done.
Qed.

(** The copy of an event from its own bytes is the event. *)
Lemma reborrow_same b ev : WireEvent.ParseEvent b = Ok ev -> reborrow ev b = Ok ev.
Proof.
  intros Hp. pose proof Hp as Hp'. rewrite WireEvent.ParseEvent_eq in Hp'.
  destruct (Z.ltb_spec (zlen b) WireEvent.evHeaderBase); [done|]. cbn [orb] in Hp'.
  destruct (WireEvent.valid b) eqn:Hv; [|done]. cbn [negb] in Hp'. apply Ok_inj in Hp'.
  unfold WireEvent.valid in Hv. rewrite !andb_true_iff, !Z.leb_le in Hv.
  pose proof (WireEvent.field_bound 2 b WireEvent.evTypeLenOff).
  destruct (WireEvent.event_fields WireEvent.evOriginOff 1) as (?&?&?); [simpl; tauto|].
  rewrite (reborrow_ok b) by (done || (rewrite <- Hp'; cbn [WireEvent.EventSize WireEvent.view]; lia)).
  rewrite <- Hp'. cbn [WireEvent.view WireEvent.EventSize WireEvent.HeaderSize WireEvent.TimestampNS WireEvent.Sequence
    WireEvent.CPUID WireEvent.Origin WireEvent.EventType]. unfold WireEvent.view. rewrite zlen_zseg by lia.
  by replace (WireEvent.evHeaderBase + (WireEvent.evHeaderBase + WireEvent.field 2 b WireEvent.evTypeLenOff - WireEvent.evHeaderBase))
    with (WireEvent.evHeaderBase + WireEvent.field 2 b WireEvent.evTypeLenOff) by lia.
Qed.
End copy.

(** ** Sleeping *)

Section read.
Context {U : Uapi} {EL : EventLaws U} {K : Type} {H : Kernel mcall K}.
Context (rfd cap : Z) (log : list (bytes * WireEvent.Event)) (Inv : K -> Prop) (tl wr : K -> nat) (gen : K -> Z).

(** [naps]: how often a sleep may still end without an event having come; [armed]: the need_wake word of the ring. *)
Context (naps : K -> nat) (armed : K -> bool).

Definition arms {A} (c : mcall A) : option bool :=
  match c with
  | Store32 fd off v => if (fd =? rfd) && (off =? metaPage) then Some (negb (v =? 0)) else None
  | _ => None
  end.

(** A sleep that ends without an error either saw the producer write or used up one of its naps; nothing but the
    consumer's own store moves need_wake; a read of the data region gives the bytes asked for, which hold any event. *)
Class Sleeper : Prop := {
  s_any {A} (c : mcall A) k : Inv k -> (naps (answer c k).2 <= naps k)%nat
    /\ armed (answer c k).2 = default (armed k) (arms c);
  s_store v : advances Inv tl wr (Store32 rfd metaPage v) (fun _ _ _ => True);
  s_counter : advances Inv tl wr (Load32 rfd pFutex) (fun _ _ _ => True);
  s_sleep expected timeout k : Inv k -> let '((_, e), k') := answer (FutexWait rfd pFutex expected timeout) k in
    Inv k' /\ (tl k <= tl k')%nat /\ (wr k <= wr k')%nat
    /\ (e = 0 \/ e = Errno.EAGAIN \/ e = ETIMEDOUT -> (wr k < wr k')%nat \/ (naps k' < naps k)%nat);
  s_window off : advances Inv tl wr (Window rfd off cap) (fun b _ _ => zlen b = cap);
  s_small : Forall (fun e : bytes * WireEvent.Event => zlen e.1 <= cap) log
}.
Context {P : Producer rfd cap log Inv tl wr gen} {SL : Sleeper}.

(** The invariant with at most [n] naps left and need_wake as given. *)
Definition Inv_at (n : nat) (b : bool) (k : K) : Prop := Inv k /\ (naps k <= n)%nat /\ armed k = b.

Lemma advances_at {A} (c : mcall A) Pc n b b' : advances Inv tl wr c Pc -> default b (arms c) = b' ->
  forall k, Inv_at n b k -> let '((v, _), k') := answer c k in
    Inv_at n b' k' /\ (tl k <= tl k')%nat /\ (wr k <= wr k')%nat /\ Pc v k k'.
Proof.
  intros Hc Hb k (Hi & Hn & Ha). specialize (Hc k Hi). destruct (s_any c k Hi) as [Hn' Ha'].
  destruct (answer c k) as [[v e] k']. cbn [fst snd] in *. destruct Hc as (?&?&?&?).
  split_and!; [|done..]. split; [done|]. split; [lia|congruence].
Qed.

(** The producer keeps its contract while need_wake stays as it is and the naps run out. *)
#[local] Instance producer_at n b : Producer rfd cap log (Inv_at n b) tl wr gen.
Proof.
  destruct P as [He Hf Hs Hq Ho Hw Ht Hg Hd]. split; try done.
  - intros k (Hi & _). by apply Ho.
  - exact (advances_at _ _ n b b Hw eq_refl).
  - exact (advances_at _ _ n b b Ht eq_refl).
  - exact (advances_at _ _ n b b Hg eq_refl).
  - intros off. exact (advances_at _ _ n b b (Hd off) eq_refl).
Qed.

(** One access, with need_wake and the naps. *)
Lemma total_access_at {A} (c : mcall A) Pc n b w (Q : outcome A -> world mcall K -> Prop) :
  advances Inv tl wr c Pc -> Inv_at n b (kst w) ->
  (forall v k tr, Inv_at n (default b (arms c)) k -> (tl (kst w) <= tl k)%nat -> (wr (kst w) <= wr k)%nat ->
     Pc v (kst w) k -> Q (Ok v) (World k tr)) ->
  total (access c) w Q.
Proof.
  intros Hc Hi HQ. apply total_bind. unfold total, Sys.call_once.
  pose proof (advances_at c Pc n b _ Hc eq_refl (kst w) Hi) as Ha.
  destruct (answer c (kst w)) as [[v e] k]. destruct Ha as (?&?&?&?). eexists _, _. split; [done|].
  apply total_ret. auto.
Qed.

Definition woken (j : nat) (n : nat) (k : K) : Prop := (j < wr k)%nat \/ (naps k < n)%nat.

(** [wait] at an empty ring, whose cursor is at [j]: need_wake is down when it returns, on every path; without an error
    there is an event to read, or a nap was used up. *)
Lemma wait_spec r j timeout w n : fd r = rfd -> readPos r = pos log j -> (j <= wr (kst w))%nat -> Inv_at n false (kst w) ->
  total (wait r timeout) w (fun o w' => exists e, o = Ok e /\ Inv_at n false (kst w')
    /\ (tl (kst w) <= tl (kst w'))%nat /\ (wr (kst w) <= wr (kst w'))%nat
    /\ match e with None => woken j n (kst w') | Some e => e = ErrInterrupted \/ exists m, e = Errno m end).
Proof.
  intros Hfd Hpos Hj Hi.
  assert (Harm : forall v b, default b (arms (Store32 rfd metaPage v)) = negb (v =? 0))
    by (intros v b; cbn; by rewrite !Z.eqb_refl).
  unfold wait, setNeedWake, clearNeedWake. rewrite Hfd.
  apply total_bind. eapply total_access_at; [apply s_store|exact Hi|]. rewrite Harm.
  change (negb (1 =? 0)) with true. intros _ k1 tr1 Hi1 Ht1 Hw1 _.
  apply total_bind. eapply total_access_at; [apply (p_write rfd cap log Inv tl wr gen)|exact Hi1|]. intros v k2 tr2 Hi2 Ht2 Hw2 ->. cbn [kst] in *.
  assert (Hput : forall w0 e, Inv_at n true (kst w0) -> (tl (kst w) <= tl (kst w0))%nat -> (wr (kst w) <= wr (kst w0))%nat ->
    match e with None => woken j n (kst w0) | Some e => e = ErrInterrupted \/ exists m, e = Errno m end ->
    total (access (Store32 rfd metaPage 0);; mret e) w0 (fun o w' => exists e, o = Ok e /\ Inv_at n false (kst w')
      /\ (tl (kst w) <= tl (kst w'))%nat /\ (wr (kst w) <= wr (kst w'))%nat
      /\ match e with None => woken j n (kst w') | Some e => e = ErrInterrupted \/ exists m, e = Errno m end)).
  { intros w0 e Hi0 Ht0 Hw0 He. apply total_bind. pose proof Hi0 as (Hi0' & _). unfold access. apply total_bind.
    unfold total, Sys.call_once. destruct (s_any (Store32 rfd metaPage 0) _ Hi0') as [Hn' _].
    pose proof (advances_at _ _ n true _ (s_store 0) (Harm 0 true) (kst w0) Hi0) as Ha.
    destruct (answer (Store32 rfd metaPage 0) (kst w0)) as [[[] er] k]. destruct Ha as (Ha & Ht & Hw & _). eexists _, _.
    split; [done|]. apply total_ret, total_ret. exists e. split_and!; try done; [cbn [kst]; lia..|]. cbn [kst snd] in *.
    destruct e; [done|]. unfold woken in *. destruct He; [left|right]; lia. }
  destruct (Z.eqb_spec (pos log (wr k2)) (readPos r)) as [Hx|Hx]; cbn [negb].
  - apply total_bind. eapply total_access_at; [apply s_counter|exact Hi2|]. intros c k3 tr3 Hi3 Ht3 Hw3 _. cbn [kst arms default] in *.
    apply total_bind. unfold futexWait. rewrite Hfd. apply total_bind. unfold total, Sys.call_once. cbn [kst].
    pose proof Hi3 as (Hi3' & Hn3 & Ha3). pose proof (s_sleep c timeout k3 Hi3') as Hs.
    destruct (s_any (FutexWait rfd pFutex c timeout) k3 Hi3') as [Hn4 Ha4].
    destruct (answer (FutexWait rfd pFutex c timeout) k3) as [[[] e] k4]. cbn [snd] in Hn4, Ha4. change (armed k4 = armed k3) in Ha4.
    destruct Hs as (Hi4 & Ht4 & Hw4 & Hwoken). eexists _, _. split; [done|]. apply total_ret. apply Hput; cbn [kst]; try lia.
    { split_and!; [done|lia|congruence]. }
    unfold woken. destruct (Z.eqb_spec e 0); [destruct Hwoken; auto; [left|right]; lia|].
    destruct (Z.eqb_spec e Errno.EAGAIN); cbn [orb]; [destruct Hwoken; auto; [left|right]; lia|].
    destruct (Z.eqb_spec e ETIMEDOUT); [destruct Hwoken; auto; [left|right]; lia|].
    destruct (Z.eqb_spec e Errno.EINTR); [by left|right; eauto].
  - apply Hput; cbn [kst]; try lia; [done|]. left. destruct (decide (wr k2 = j)) as [E|]; [by rewrite E in Hx|]. lia.
Qed.

(** ** Blocking reads *)

Lemma Next_exact fuel r i w n : at_index rfd cap log r i -> Inv_at n false (kst w) -> (2 * length log + 1 < fuel)%nat ->
  total (Next fuel r) w (fun o w' => exists r' res, o = Ok (r', res) /\ Inv_at n false (kst w')
    /\ (tl (kst w) <= tl (kst w'))%nat /\ (wr (kst w) <= wr (kst w'))%nat
    /\ Next_post log tl wr gen (step_over r) i (kst w) r' res (kst w')).
Proof.
  intros Hr Hi Hf. unfold Next. pose proof Hr as (-> & _). cbn [negb].
  apply (Next_loop_spec rfd cap log (Inv_at n false) tl wr gen fuel (step_over r) i w Hr Hi).
  unfold loop_fuel. destruct (decide _); lia.
Qed.

(** The copy of the event of index [j], read when the tail is not past it, is that event. *)
Lemma ownedFrom_spec r j e ev w n : fd r = rfd -> capacity r = cap -> readPos r = pos log j -> log !! j = Some (e, ev) ->
  (j < wr (kst w))%nat -> Inv_at n false (kst w) ->
  total (ownedFrom r ev) w (fun o w' => exists ev', o = Ok ev' /\ Inv_at n false (kst w')
    /\ (tl (kst w) <= tl (kst w'))%nat /\ (wr (kst w) <= wr (kst w'))%nat
    /\ header ev' = header ev /\ ((tl (kst w') <= j)%nat -> ev' = ev)).
Proof.
  intros Hfd Hcap Hpos He Hj Hi. unfold ownedFrom. rewrite Hfd, Hcap, Hpos. apply total_bind.
  set (off := Z.land (pos log j) (wrap 64 (cap - 1))).
  assert (Hb : advances Inv tl wr (Window rfd off cap) (fun b k k' => zlen b = cap
    /\ ((tl k' <= j)%nat -> (j < wr k)%nat -> exists s, b = e ++ s))).
  { intros k Hk. pose proof (s_window off k Hk) as Hs. pose proof (p_window rfd cap log Inv tl wr gen off k Hk) as Hp.
    destruct (answer (Window rfd off cap) k) as [[b er] k']. destruct Hs as (?&?&?&?), Hp as (_&_&_&Hp).
    split_and!; try done. intros Ht Hw. exact (Hp j (e, ev) He eq_refl Ht Hw). }
  pose proof (p_entries rfd cap log Inv tl wr gen) as Hent. rewrite Forall_forall in Hent.
  apply list_elem_of_lookup_2 in He as Hin. destruct (Hent _ Hin) as (Hl & Hsize & Hparse). cbn [fst snd] in *.
  pose proof s_small as Hsm. rewrite Forall_forall in Hsm. specialize (Hsm _ Hin). cbn [fst] in Hsm.
  specialize (Hparse []) as Hparse0. rewrite app_nil_r in Hparse0.
  eapply total_access_at; [exact Hb|exact Hi|]. intros b k tr Hik Ht Hw [Hlen Hint]. cbn [kst] in *.
  apply total_lift. destruct (decide (tl k <= j)%nat) as [Hin'|Hout].
  - destruct (Hint Hin' Hj) as [s ->]. exists ev. rewrite (reborrow_same _ _ (Hparse s)). by split_and!.
  - rewrite (reborrow_ok e) by (done || lia). eexists. split; [done|]. by split_and!.
Qed.

(** What a read made of the ring, [w0] events having been written before it: the event it returned, copied, is the one of
    index [j]; or there was none, or an error, and the cursor is at [j].  The events passed over were overwritten, and
    need_wake is down. *)
Definition read_post (w0 : nat) (r : Ring) (i : nat) (r' : Ring) (res : result) (k' : K) : Prop :=
  exists j, (i <= j <= length log)%nat /\ (i < j -> j <= tl k')%nat /\ armed k' = false /\ Inv k' /\
  match res with
  | inl (Some ev') => exists e ev, log !! j = Some (e, ev) /\ at_index rfd cap log r' (S j)
      /\ counters r' = counters (yield ev r) /\ header ev' = header ev /\ ((tl k' <= j)%nat -> ev' = ev)
  | inl None => at_index rfd cap log r' j /\ counters r' = counters r /\ (w0 <= j)%nat
  | inr e => at_index rfd cap log r' j /\ counters r' = counters r
      /\ (e = ErrGenerationChanged /\ gen k' <> generation r \/ e = ErrInterrupted \/ exists m, e = Errno m)
  end.

Lemma counters_yield_ext ev r r' : counters r' = counters r -> counters (yield ev r') = counters (yield ev r).
Proof. unfold counters, yield. intros [= -> ->]. done. Qed.

(** A read that went on from a later index, the counters and the generation of the ring unchanged. *)
Lemma read_post_later w0 w1 r r1 i j r' res k' : counters r1 = counters r -> generation r1 = generation r ->
  (i <= j)%nat -> (i < j -> j <= tl k')%nat -> (w0 <= w1)%nat -> read_post w1 r1 j r' res k' -> read_post w0 r i r' res k'.
Proof.
  intros Hc Hg Hij Ht Hw (m & Hm & Hmt & Ha & Hi & Hres). exists m. split; [lia|]. split.
  { intros Him. destruct (decide (j < m)%nat); [by apply Hmt|]. replace m with j by lia. apply Ht. lia. }
  split; [done|]. split; [done|]. destruct res as [[ev'|]|e].
  - destruct Hres as (e & ev & ? & ? & Hcn & ?). exists e, ev. split_and!; try done; try tauto.
    rewrite Hcn. by apply counters_yield_ext.
  - destruct Hres as (? & Hcn & ?). split_and!; [done|congruence|lia].
  - destruct Hres as (? & Hcn & He). rewrite Hg in He. split_and!; [done|congruence|done].
Qed.

(** One turn: [Next], and the copy of what it found.  Without an event the ring is where the next turn starts. *)
Lemma turn fuel r i w n : at_index rfd cap log r i -> (i <= wr (kst w))%nat -> Inv_at n false (kst w) -> (2 * length log + 1 < fuel)%nat ->
  total (Next fuel r) w (fun o w' => exists r' res, o = Ok (r', res)
    /\ (tl (kst w) <= tl (kst w'))%nat /\ (wr (kst w) <= wr (kst w'))%nat /\ Inv_at n false (kst w') /\
    match res with
    | inl (Some ev) => total (ownedFrom r' ev) w' (fun o w'' => exists ev', o = Ok ev'
        /\ (tl (kst w') <= tl (kst w''))%nat /\ read_post (wr (kst w)) r i r' (inl (Some ev')) (kst w''))
    | inl None => exists j, (i <= j <= length log)%nat /\ (i < j -> j <= tl (kst w'))%nat /\ (wr (kst w) <= j <= wr (kst w'))%nat
        /\ at_index rfd cap log r' j /\ ring_at rfd cap log r' j /\ counters r' = counters r /\ generation r' = generation r
    | inr e => read_post (wr (kst w)) r i r' (inr e) (kst w')
    end).
Proof.
  intros Hr Hw Hi Hf. pose proof Hr as (Hm & Hfd & Hc & _ & _). destruct (step_over_eq r) as (Hcn & Hg & Hp).
  eapply total_mono; [by apply (Next_exact fuel r i w n)|].
  intros o w' (r' & res & -> & Hi' & Ht' & Hw' & j & Hj & Hjt & Hres). exists r', res. split; [done|]. split; [done|].
  split; [done|]. split; [done|].
  assert (Hat : ring_at rfd cap log (set_readPos (pos log j) (step_over r)) j) by (split_and!; try done; lia).
  pose proof (p_order rfd cap log Inv tl wr gen _ (proj1 Hi')) as Hord.
  destruct res as [[ev|]|e].
  - destruct Hres as ([e He] & Hjw & ->). eapply total_mono; [by apply (ownedFrom_spec _ j e ev w' n)|].
    intros o w'' (ev' & -> & (Hi'' & _ & Ha) & Ht'' & Hw'' & Hh & Hint). exists ev'. split; [done|]. split; [done|].
    exists j. split; [lia|]. split; [lia|]. split; [done|]. split; [done|]. exists e, ev. split_and!; try done.
    + by eapply (at_index_yield rfd cap log Inv tl wr gen).
    + by apply counters_yield_ext.
  - destruct Hres as (-> & Hwj & _). exists j. split_and!; try done; try lia.
    + by apply at_index_here.
  - destruct Hres as (-> & Hwj & Hgen & ->). destruct Hi' as (Hi' & _ & Ha). exists j.
    split; [lia|]. split; [lia|]. split; [done|]. split; [done|].
    split; [by apply at_index_here|]. split; [done|]. left. split; [done|]. by rewrite <- Hg.
Qed.

(** The rounds that a blocking read may still need. *)
Definition rounds (i : nat) (k : K) : nat := (2 * (length log - i) + 2 * naps k + (if decide (i < wr k)%nat then 0 else 1))%nat.

Lemma read_post_error w0 r i j r' e k' : (i <= j <= length log)%nat -> (i < j -> j <= tl k')%nat -> Inv_at (naps k') false k' ->
  at_index rfd cap log r' j -> counters r' = counters r -> e = ErrInterrupted \/ (exists m, e = Errno m) ->
  read_post w0 r i r' (inr e) k'.
Proof.
  intros Hj Hjt (Hi & _ & Ha) Hat Hc He. exists j. split; [lia|]. split; [lia|]. split; [done|]. split; [done|].
  split; [done|]. split; [done|]. by right.
Qed.

Lemma Inv_at_now n b k : Inv_at n b k -> Inv_at (naps k) b k.
Proof. intros (?&_&?). by split_and!. Qed.

Lemma rounds_decrease i j k k' k'' : (i <= j <= length log)%nat -> (wr k <= j)%nat -> (naps k' <= naps k)%nat ->
  (naps k'' <= naps k)%nat -> woken j (naps k) k'' -> (rounds j k'' < rounds i k)%nat.
Proof. unfold rounds, woken. intros. destruct (decide (j < wr k'')%nat), (decide (i < wr k)%nat); lia. Qed.

Definition found (res : WireEvent.Event + err) : result := match res with inl ev => inl (Some ev) | inr e => inr e end.

Lemma Read_total fuel r i w : at_index rfd cap log r i -> (i <= wr (kst w))%nat -> Inv (kst w) -> armed (kst w) = false ->
  (2 * length log + 1 + rounds i (kst w) < fuel)%nat ->
  total (Read fuel r) w (fun o w' => exists r' res, o = Ok (r', res) /\ (tl (kst w) <= tl (kst w'))%nat
    /\ read_post (wr (kst w)) r i r' (found res) (kst w')).
Proof.
  revert r i w. induction fuel as [|fuel IH]; intros r i w Hr Hw Hi Ha Hf; [lia|]. cbn [Read].
  assert (Hn : Inv_at (naps (kst w)) false (kst w)) by (by split_and!).
  apply total_bind. eapply total_mono; [apply (turn (S fuel) r i w _ Hr Hw Hn); lia|].
  intros o w' (r' & res & -> & Ht' & Hw' & Hn' & Hres). destruct res as [[ev|]|e]; [| |apply total_ret; exists r', (inr e); split_and!; (done || lia)].
  - apply total_bind. eapply total_mono; [exact Hres|]. intros o w'' (ev' & -> & ? & Hp). apply total_ret.
    exists r', (inl ev'). split_and!; [done|lia|done].
  - destruct Hres as (j & Hj & Hjt & Hwj & Hat & (_ & Hfd & _ & Hpos & _) & Hc & Hg). apply total_bind.
    eapply total_mono; [apply (wait_spec r' j None w' (naps (kst w))); [done|done|lia|done]|].
    intros o w'' (e & -> & Hn'' & Ht'' & Hw'' & He). destruct e as [e|].
    + apply total_ret. exists r', (inr e). split; [done|]. split; [lia|]. cbn [found].
      eapply (read_post_error _ r i j); try done; [lia|by eapply Inv_at_now].
    + assert (Hd : (rounds j (kst w'') < rounds i (kst w))%nat).
      { eapply (rounds_decrease i j (kst w) (kst w')); [done|lia|apply Hn'|apply Hn''|done]. }
      eapply total_mono; [apply (IH r' j w''); [done|lia|apply Hn''|apply Hn''|lia]|].
      intros o w3 (r3 & res & -> & Ht3 & Hp). exists r3, res. split; [done|]. split; [lia|].
      by apply (read_post_later _ (wr (kst w'')) r r' i j); try lia.
Qed.

Lemma ReadTimeout_total fuel r i w timeout : at_index rfd cap log r i -> (i <= wr (kst w))%nat -> Inv (kst w) ->
  armed (kst w) = false -> (2 * length log + 1 < fuel)%nat ->
  total (ReadTimeout fuel r timeout) w (fun o w' => exists r' res, o = Ok (r', res)
    /\ read_post (wr (kst w)) r i r' res (kst w')).
Proof.
  intros Hr Hw Hi Ha Hf. unfold ReadTimeout. assert (Hn : Inv_at (naps (kst w)) false (kst w)) by (by split_and!).
  apply total_bind. eapply total_mono; [by apply (turn fuel r i w _ Hr Hw Hn)|].
  intros o w' (r' & res & -> & Ht' & Hw' & Hn' & Hres). destruct res as [[ev|]|e]; [| |apply total_ret; by exists r', (inr e)].
  - apply total_bind. eapply total_mono; [exact Hres|]. intros o w'' (ev' & -> & _ & Hp). apply total_ret. by exists r', (inl (Some ev')).
  - destruct Hres as (j & Hj & Hjt & Hwj & Hat & (_ & Hfd & _ & Hpos & _) & Hc & Hg). apply total_bind.
    eapply total_mono; [apply (wait_spec r' j (Some timeout) w' (naps (kst w))); [done|done|lia|done]|].
    intros o w'' (e & -> & Hn'' & Ht'' & Hw'' & He). destruct e as [e|].
    + apply total_ret. exists r', (inr e). split; [done|].
      eapply (read_post_error _ r i j); try done; [lia|by eapply Inv_at_now].
    + apply total_bind. eapply total_mono; [apply (turn fuel r' j w'' _ Hat ltac:(lia) Hn'' Hf)|].
      intros o w3 (r3 & res & -> & Ht3 & Hw3 & Hn3 & Hres).
      assert (Hlater : forall k', (tl (kst w3) <= tl k')%nat -> forall res, read_post (wr (kst w'')) r' j r3 res k' -> read_post (wr (kst w)) r i r3 res k').
      { intros k' Hk' res' Hp. by apply (read_post_later _ (wr (kst w'')) r r' i j); try lia. }
      destruct res as [[ev|]|e]; apply total_bind || apply total_ret.
      * eapply total_mono; [exact Hres|]. intros o w4 (ev' & -> & Ht4 & Hp). apply total_ret. exists r3, (inl (Some ev')).
        split; [done|]. by apply Hlater.
      * exists r3, (inl None). split; [done|]. destruct Hres as (m & Hm & Hmt & Hwm & Hat3 & _ & Hc3 & _).
        destruct Hn3 as (Hi3 & _ & Ha3). exists m. split; [lia|]. split; [|].
        { intros Him. destruct (decide (j < m)%nat); [by apply Hmt|]. replace m with j by lia. specialize (Hjt ltac:(lia)). lia. }
        split_and!; [done|done|done|congruence|lia].
      * exists r3, (inr e). split; [done|]. by apply Hlater.
Qed.

(** C36: a blocking read, of a ring the producer keeps writing, from the event of index [i].  [Read] returns: with the first
    event that is left, or the end of the ring's generation, or an interrupted or failed wait; [ReadTimeout] may also return
    without one, when nothing written before the call is left.  Only overwritten events are passed over, the counters are
    those of [Next], and need_wake is down again.  The event returned is a copy with the header of an event of the log;
    its names and payload are that event's if the tail has not passed it by the time of the copy - and only then are they known to be. *)
Theorem Read_spec fuel r i w timeout : at_index rfd cap log r i -> (i <= wr (kst w))%nat -> Inv (kst w) -> armed (kst w) = false ->
  (2 * length log + 1 + rounds i (kst w) < fuel)%nat ->
  total (Read fuel r) w (fun o w' => exists r' res, o = Ok (r', res)
    /\ read_post (wr (kst w)) r i r' (found res) (kst w'))
  /\ total (ReadTimeout fuel r timeout) w (fun o w' => exists r' res, o = Ok (r', res)
    /\ read_post (wr (kst w)) r i r' res (kst w')).
Proof.
  intros Hr Hw Hi Ha Hf. split; [|apply (ReadTimeout_total fuel r i); try done; lia].
  eapply total_mono; [by apply (Read_total fuel r i)|]. intros o w' (r' & res & -> & _ & Hp). by exists r', res.
Qed.
End read.

(** ** A concrete consumer *)

(** One event.  It is written while the consumer sleeps, parsed, and overwritten before it is copied.  Used by the
    witness and the example only. *)
Module Sample.
#[local] Existing Instance pkm.

Definition log : list (bytes * WireEvent.Event) := [Ring.Sample.entry 1].

(** [phase]: not written, written, parsed, overwritten. *)
Record state := mkState { phase : nat; need_wake : bool }.
Definition tl (k : state) : nat := match phase k with 0 | 1 | 2 => 0 | _ => 1 end%nat.
Definition wr (k : state) : nat := match phase k with 0 => 0 | _ => 1 end%nat.

Definition window (k : state) : bytes :=
  match phase k with 1%nat => Ring.Sample.event_bytes 1 ++ replicate 428 x00 | _ => replicate 512 xff end.
Definition after_window (k : state) : state :=
  mkState (match phase k with 0 => 0 | 1 => 2 | _ => 3 end)%nat (need_wake k).

Definition respond {A} (c : mcall A) (k : state) : (A * Z) * state :=
  match c in mcall A return (A * Z) * state with
  | Attach _ => ((3, 512), 0, k)
  | Mmap _ _ | Munmap _ | CloseRing _ => (tt, 0, k)
  | Store32 fd off v => (tt, 0, mkState (phase k) (if (fd =? 3) && (off =? metaPage) then negb (v =? 0) else need_wake k))
  | Magic _ => (str "KMESRING", 0, k)
  | Load32 _ _ => (1, 0, k)
  | Load64 _ off => (if off =? pWritePos then pos log (wr k) else if off =? pTailPos then pos log (tl k) else 1, 0, k)
  | Window _ _ _ => (window k, 0, after_window k)
  | FutexWait _ _ _ _ => match phase k with 0%nat => (tt, 0, mkState 1 (need_wake k)) | _ => (tt, Errno.EINTR, k) end
  end.
#[global] Instance kernel : Kernel mcall state := {| answer A c k := respond c k; patience := 1 |}.

#[global] Instance producing : Producer 3 512 log (fun _ => True) tl wr (fun _ => 1).
Proof.
  split.
  - constructor; [|constructor]. exact (Forall_inv Ring.Sample.entries_ok).
  - vm_compute. reflexivity.
  - intros [|i] [|j] e e' Hij Hi Hj; (done || lia).
  - intros [|i] e Hi; [injection Hi as <-; vm_compute; split; reflexivity|done].
  - intros k _. unfold tl, wr. destruct k as [[|[|[|p]]] b]; cbn; lia.
  - intros k _. by split_and!.
  - intros k _. by split_and!.
  - intros k _. by split_and!.
  - intros off k _. cbn -[window]. split; [done|].
    assert (Hm : (tl k <= tl (after_window k))%nat /\ (wr k <= wr (after_window k))%nat).
    { unfold tl, wr, after_window. destruct k as [[|[|[|p]]] b]; cbn; lia. }
    split; [apply Hm|]. split; [apply Hm|]. intros [|i] e Hi _ Ht Hw; [|done]. injection Hi as <-. unfold window.
    unfold tl, wr, after_window in *. destruct k as [[|[|[|p]]] b]; cbn -[replicate Ring.Sample.event_bytes] in *; try lia. by eexists.
Qed.

#[global] Instance sleeping : Sleeper 3 512 log (fun _ => True) tl wr (fun _ => O) need_wake.
Proof.
  split.
  - intros A c k _. split; [done|]. destruct c; try done; cbn.
    + by destruct (_ && _).
    + by destruct k as [[|p] b].
  - intros v k _. cbn. by split_and!.
  - intros k _. cbn. by split_and!.
  - intros expected timeout k _. destruct k as [[|p] b]; cbn.
    + split_and!; [done|lia|lia|]. intros _. left. lia.
    + split_and!; [done|lia|lia|]. intros [?|[?|?]]; done.
  - intros off k _. cbn -[window]. split; [done|].
    assert (Hm : (tl k <= tl (after_window k))%nat /\ (wr k <= wr (after_window k))%nat).
    { unfold tl, wr, after_window. destruct k as [[|[|[|p]]] b]; cbn; lia. }
    split; [apply Hm|]. split; [apply Hm|]. unfold window. by destruct k as [[|[|p]] b].
  - constructor; [|constructor]. vm_compute. discriminate.
Qed.

Definition ring : Ring := mkRing 3 true 512 0 1 0 0 0 0.
Definition start : world mcall state := World (mkState 0 false) [].
End Sample.

Lemma Read_spec_witness :
  total (@Read pkm Sample.state Sample.kernel 8 Sample.ring) Sample.start (fun o w' => exists r' res, o = Ok (r', res)
    /\ read_post 3 512 Sample.log (fun _ => True) Sample.tl (fun _ => 1) Sample.need_wake 0 Sample.ring 0 r' (found res) (kst w')).
Proof.
  apply (@Read_spec pkm pkm_EventLaws Sample.state Sample.kernel 3 512 Sample.log (fun _ => True) Sample.tl Sample.wr (fun _ => 1)
    (fun _ => O) Sample.need_wake Sample.producing Sample.sleeping 8 Sample.ring 0 Sample.start 0).
  - unfold at_index, ring_at. cbn. split_and!; try reflexivity; lia.
  - cbn. lia.
  - exact I.
  - reflexivity.
  - vm_compute. lia.
Defined.

(** The copy is torn: the header is that of the event, its type is not, and there is no error. *)
Example torn_copy :
  match @Read pkm Sample.state Sample.kernel 8 Sample.ring Sample.start with
  | Some (Ok (_, inl ev), _) => (WireEvent.Sequence ev, WireEvent.EventType ev) = (1, [xff; xff; xff])
  | _ => False
  end.
Proof. vm_compute. reflexivity. Qed.

(** ** A wake-up that is missed *)

(** A producer that, with need_wake up, bumps the futex counter and wakes whoever sleeps on it each time it writes; here it
    writes between the consumer's re-check of the write position and its load of the counter.  Used by the example only. *)
Module Missed.
#[local] Existing Instance pkm.

Record state := mkState { written : Z; counter : Z; need_wake : bool }.

(** One event of 84 bytes is written. *)
Definition write (k : state) : state := mkState (written k + 84) (if need_wake k then counter k + 1 else counter k) (need_wake k).

Definition respond {A} (c : mcall A) (k : state) : (A * Z) * state :=
  match c in mcall A return (A * Z) * state with
  | Load64 _ off => (if off =? pWritePos then written k else 0, 0, k)
  | Load32 _ _ => let k := write k in (counter k, 0, k)
  | Store32 _ _ v => (tt, 0, mkState (written k) (counter k) (negb (v =? 0)))
  | FutexWait _ _ expected _ =>
      (** a sleep, which a signal ends *)
      if expected =? counter k then (tt, Errno.EINTR, k) else (tt, Errno.EAGAIN, k)
  | Attach _ => ((3, 512), 0, k)
  | Mmap _ _ | Munmap _ | CloseRing _ => (tt, 0, k)
  | Magic _ => ([], 0, k)
  | Window _ _ _ => ([], 0, k)
  end.
#[global] Instance kernel : Kernel mcall state := {| answer A c k := respond c k; patience := 1 |}.
End Missed.

(** The counter is loaded after the re-check: the event that comes in between has bumped it already, so the consumer sleeps on the
    new count, with an event to read. *)
Example wake_up_missed :
  match @wait pkm Missed.state Missed.kernel Sample.ring None (World (Missed.mkState 0 7 false) []) with
  | Some (Ok (Some e), w') => e = ErrInterrupted
      /\ trace w' !! 3%nat = Some (Ev (FutexWait 3 (@pFutex pkm) (Missed.counter (kst w')) None) Errno.EINTR)
      /\ readPos Sample.ring < Missed.written (kst w')
  | _ => False
  end.
Proof. vm_compute. by split_and!. Qed.
End RingRead.
