(* ===== verification/Policy.v ===== *)
(** * Policy: the emission policy and the emitters

    event/policy.go and event/emit.go.  The pure part is the resolution of an
    event type over a tree of keys, written against the interface [PolicyTree];
    [liveTree] is its implementation over the registry.  [Policy] is the cached,
    watched view that programs share; the mutex serialises its operations, so each
    is a step from one policy state to the next. *)

From S2P Require Import Prelude Outcome GoStd GoText Uapi Kernel RegValue RegWire RegKey.

Module Policy.

(** ** Tiers and settings *)

Definition TierEssential : Z := 0.
Definition TierStandard : Z := 1.
Definition TierVerbose : Z := 2.
Definition TierDebug : Z := 3.

Definition Tier_String (t : Z) : bytes :=
  if t =? TierEssential then str "essential" else if t =? TierStandard then str "standard"
  else if t =? TierVerbose then str "verbose" else if t =? TierDebug then str "debug"
  else str "Tier(" ++ format_uint 10 t ++ str ")".

Inductive setting := unset | off | on.
#[global] Instance setting_eq_dec : EqDecision setting.
Proof. solve_decision. Defined.

Definition decide (tier : Z) (s : setting) : bool :=
  if tier =? TierEssential then true
  else if bool_decide (s <> unset) then bool_decide (s = on)
  else tier =? TierStandard.

(** [None] is a malformed type. *)
Definition policySegments (eventType : bytes) : option (list bytes) :=
  if bool_decide (eventType = []) || negb (utf8_valid eventType) then None else
  let segs := split_on x2e eventType in
  if existsb (fun s => bool_decide (s = []) || existsb (fun c => bool_decide (c ∈ [x5c; x2f; x00])) s) segs
  then None else Some segs.

(** ** The tree and the walk *)

(** A [None] key is one that is missing or may not be read. *)
Record PolicyTree (E : Type -> Type) (K Key : Type) := mkTree {
  root : M E K (option Key);
  child : Key -> bytes -> M E K (option Key);
  enabled : Key -> M E K setting;
  release : Key -> M E K unit
}.
Arguments root {E K Key}.
Arguments child {E K Key}.
Arguments enabled {E K Key}.
Arguments release {E K Key}.

Section resolve.
Context {E : Type -> Type} {K Key : Type} (t : PolicyTree E K Key).

Definition overridden (found s : setting) : setting := if bool_decide (s <> unset) then s else found.

(** The loop of [resolve] at [key], with the segments still to walk. *)
Fixpoint walk (segs : list bytes) (key : option Key) (found : setting) : M E K setting :=
  match key with
  | None => mret found
  | Some k =>
      s ← enabled t k;
      let found := overridden found s in
      match segs with
      | [] => release t k;; mret found
      | seg :: segs =>
          next ← child t k seg;
          release t k;;
          walk segs next found
      end
  end.

Definition resolve (segs : list bytes) : M E K setting :=
  key ← root t; walk segs key unset.
End resolve.

Section defs.
Context {U : Uapi} {K : Type} {H : Kernel rcall K}.
Abbreviation R := (M rcall K).

Definition interpretEnabled (v : RegValue.Value) : setting :=
  if negb (RegValue.Kind v =? RegValue.TypeDWORD) then unset else
  let '(n, _) := RegValue.Uint32 v in
  if n =? 0 then off else if n =? 1 then on else unset.

Definition policyRoot : bytes := str "Machine\Generic\Events".
Definition enabledVal : bytes := str "Enabled".
Definition unwatchedTTL : Z := 1000000000.
Definition policyCacheMax : nat := 4096.
Definition policyWatchBuf : Z := 64 * 1024.
Definition policyAncestors : list bytes := [str "Machine\Generic"; str "Machine"].

(** [liveTree]: a key is its descriptor; open handles have distinct ones, so comparing
    descriptors is comparing the handles. *)
Definition tree_root (root_ : Z) : R (option Z) := mret (Some root_).
Definition tree_child (parent : Z) (segment : bytes) : R (option Z) :=
  r ← try_ (RegKey.OpenSubkey parent segment KEY_QUERY_VALUE);
  mret (match r with inl k => Some k | inr _ => None end).
Definition tree_enabled (key : Z) : R setting :=
  r ← try_ (RegKey.QueryValue key enabledVal);
  mret (match r with inl v => interpretEnabled v | inr _ => unset end).
Definition tree_release (root_ key : Z) : R unit :=
  if key =? root_ then mret tt else RegKey.Close key;; mret tt.
Definition liveTree (root_ : Z) : PolicyTree rcall K Z := {|
  root := tree_root root_; child := tree_child; enabled := tree_enabled; release := tree_release root_
|}.

(** ** Watch records *)

Record watchNews := mkNews { changed : bool; gone : bool }.

(** The loop over the records from [off]; each record advances it, so [fuel] is never spent. *)
Fixpoint classify_loop (fuel : nat) (buf : bytes) (off : Z) (n : watchNews) : outcome watchNews :=
  if zlen buf <=? off then Ok n else
  match fuel with
  | O => Panic
  | S fuel =>
      rec ← slice_from buf off;
      if zlen rec <? REG_WATCH_EVENT_MIN_SIZE then Ok (mkNews (changed n) true) else
      total ← get_le_at 4 rec REG_WATCH_EVENT_TOTAL_LEN_OFFSET;
      if (total <? REG_WATCH_EVENT_MIN_SIZE) || (zlen rec <? total) then Ok (mkNews (changed n) true) else
      rec ← slice rec 0 total;
      type ← get_le_at 2 rec REG_WATCH_EVENT_TYPE_OFFSET;
      self ← (if type =? REG_WATCH_KEY_DELETED then
                nl ← get_le_at 2 rec REG_WATCH_EVENT_NAME_LEN_OFFSET;
                let at_ := REG_WATCH_EVENT_NAME_OFFSET + nl in
                if zlen rec <? at_ + 2 then Ok true else d ← get_le_at 2 rec at_; Ok (d =? 0)
              else Ok false);
      classify_loop fuel buf (off + total) (mkNews true (gone n || self))
  end.
Definition classifyRecords (buf : bytes) : outcome watchNews :=
  classify_loop (length buf) buf 0 (mkNews false false).

(** ** The policy *)

(** [root_] and [ancestor] are nil when [None]; the read buffer and the clock function are not state. *)
Record Policy := mkPolicy {
  root_ : option Z; rootWatched : bool; ancestor : option Z; retryAt : Z;
  cache : gmap bytes setting; closed : bool
}.

Definition arm (k filter : Z) (subtree : bool) : R bool :=
  r ← try_ (RegKey.Watch k filter subtree);
  match r with
  | inr _ => mret false
  | inl _ => '(_, e) ← Sys.call_once (SetNonblock k); mret (match e with None => true | Some _ => false end)
  end.

Definition close_key (k : option Z) : R unit :=
  match k with Some k => RegKey.Close k;; mret tt | None => mret tt end.

Definition teardown (p : Policy) : R Policy :=
  close_key (root_ p);;
  close_key (ancestor p);;
  mret (mkPolicy None false None (retryAt p) ∅ (closed p)).

Fixpoint watch_ancestor (paths : list bytes) : R (option Z) :=
  match paths with
  | [] => mret None
  | path :: paths =>
      r ← try_ (RegKey.Open path KEY_NOTIFY);
      match r with
      | inr _ => watch_ancestor paths
      | inl a =>
          armed ← arm a RegKey.WatchSubkey false;
          if (armed : bool) then mret (Some a) else RegKey.Close a;; watch_ancestor paths
      end
  end.

(** [for range 2] *)
Fixpoint establish_loop (n : nat) (p : Policy) : R Policy :=
  match n with
  | O => mret p
  | S n =>
      r ← try_ (RegKey.Open policyRoot KEY_READ);
      match r with
      | inl k =>
          close_key (ancestor p);;
          w ← arm k (Z.lor RegKey.WatchValue RegKey.WatchSubkey) true;
          mret (mkPolicy (Some k) w None (retryAt p) (cache p) (closed p))
      | inr e =>
          if negb (errors_is e (Errno Errno.ENOENT)) || bool_decide (ancestor p <> None) then mret p else
          a ← watch_ancestor policyAncestors;
          let p := mkPolicy (root_ p) (rootWatched p) a (retryAt p) (cache p) (closed p) in
          match a with None => mret p | Some _ => establish_loop n p end
      end
  end.

Definition now : R Z := '(t, _) ← Sys.call_once Now; mret t.

Definition establish (p : Policy) : R Policy :=
  p ← teardown p;
  p ← establish_loop 2 p;
  if negb (rootWatched p) && bool_decide (ancestor p = None) then
    t ← now;
    mret (mkPolicy (root_ p) (rootWatched p) (ancestor p) (t + unwatchedTTL) (cache p) (closed p))
  else mret p.

Definition OpenPolicy : R Policy := establish (mkPolicy None false None 0 ∅ false).

Definition Close (p : Policy) : R Policy :=
  p ← teardown p; mret (mkPolicy (root_ p) (rootWatched p) (ancestor p) (retryAt p) (cache p) true).

(** The descriptor [drain] reads, if anything is watched. *)
Definition watched_key (p : Policy) : option Z :=
  match root_ p, rootWatched p with
  | Some k, true => Some k
  | _, _ => ancestor p
  end.

(** The reads of [drain]; [None] when [fuel] is spent is "still draining".  A failed read gives no count. *)
Fixpoint drain_loop (fuel : nat) (k : Z) (n : watchNews) : R watchNews :=
  match fuel with
  | O => fun _ => None
  | S fuel =>
      '((r, data), e) ← Sys.call_once (ReadFD k policyWatchBuf);
      match e with
      | None =>
          if 0 <? r then
            got ← lift (b ← slice (go_copy (make_bytes policyWatchBuf) data) 0 r; classifyRecords b);
            let n := mkNews (changed n || changed got) (gone n || gone got) in
            if gone n then mret n else drain_loop fuel k n
          else mret n
      | Some (Errno e) =>
          if e =? Errno.EINTR then drain_loop fuel k n
          else if negb (e =? Errno.EAGAIN) then mret (mkNews true true) else mret n
      | Some _ => mret (mkNews true true)
      end
  end.
Definition drain (fuel : nat) (p : Policy) : R (watchNews * bool) :=
  match watched_key p with
  | None => mret (mkNews false false, false)
  | Some k => n ← drain_loop fuel k (mkNews false false); mret (n, true)
  end.

Definition refresh (fuel : nat) (p : Policy) : R Policy :=
  '(n, watched) ← drain fuel p;
  if negb watched then
    if closed p then mret p else
    t ← now;
    if negb (t <? retryAt p) then establish p else mret p
  else if gone n || (changed n && bool_decide (ancestor p <> None)) then establish p
  else if changed n then mret (mkPolicy (root_ p) (rootWatched p) (ancestor p) (retryAt p) ∅ (closed p))
  else mret p.

Definition setting_of (p : Policy) (eventType : bytes) (segs : list bytes) : R (Policy * setting) :=
  match root_ p with
  | None => mret (p, unset)
  | Some r =>
      match cache p !! eventType with
      | Some s => mret (p, s)
      | None =>
          s ← resolve (liveTree r) segs;
          let c := if bool_decide (policyCacheMax <= size (cache p))%nat then ∅ else cache p in
          mret (mkPolicy (root_ p) (rootWatched p) (ancestor p) (retryAt p) (<[eventType := s]> c) (closed p), s)
      end
  end.

(** [Policy.Enabled]: an error leaves the policy as it was. *)
Definition Enabled (fuel : nat) (p : Policy) (eventType : bytes) (tier : Z) : R (Policy * (bool + err)) :=
  match policySegments eventType with
  | None => mret (p, inr (Wrapf "malformed event type" (Errno Errno.EINVAL)))
  | Some segs =>
      if TierDebug <? tier then mret (p, inr (Wrapf "unknown tier" (Errno Errno.EINVAL)))
      else if tier =? TierEssential then mret (p, inl true)
      else
        p ← refresh fuel p;
        '(p, s) ← setting_of p eventType segs;
        mret (p, inl (decide tier s))
  end.

(** ** Emitting *)

Definition Emit (eventType payload : bytes) : R unit :=
  if 0xFFFF <? zlen eventType then throw (Errorf "event type too long")
  else if 0xFFFFFFFF <? zlen payload then throw (Errorf "payload too long")
  else Sys.checked "emit" (KmesEmit eventType payload);; mret tt.

(** [EmitWith]: [build] is the caller's closure. *)
Definition EmitWith (fuel : nat) (p : Policy) (eventType : bytes) (tier : Z) (build : R bytes)
    : R (Policy * (bool + err)) :=
  '(p, r) ← Enabled fuel p eventType tier;
  match r with
  | inr e => mret (p, inr e)
  | inl false => mret (p, inl false)
  | inl true =>
      b ← try_ build;
      match b with
      | inr e => mret (p, inr e)
      | inl payload =>
          x ← try_ (Emit eventType payload);
          mret (p, match x with inr e => inr e | inl _ => inl true end)
      end
  end.

(** The per-entry checks of [EmitBatch], in order. *)
Fixpoint check_entries (entries : list (bytes * bytes)) : outcome unit :=
  match entries with
  | [] => Ok tt
  | (et, payload) :: entries =>
      if 0xFFFF <? zlen et then Err (Errorf "event type too long")
      else if 0xFFFFFFFF <? zlen payload then Err (Errorf "payload too long")
      else check_entries entries
  end.
Definition EmitBatch (entries : list (bytes * bytes)) : R unit :=
  if (zlen entries =? 0) || (KMES_BATCH_MAX_ENTRIES <? zlen entries) then throw (Errorf "want 1..n entries") else
  lift (check_entries entries);;
  '(emitted, e) ← Sys.call (KmesEmitBatch entries);
  match e with
  | None => mret tt
  | Some e => throw (Wrapf (if 0 <? emitted then "emitted some then failed" else "emit batch") e)
  end.
End defs.

(** ** What resolution promises *)

(** A tree as the walk should see it: the setting of each path of segments whose key is there. *)
Abbreviation tree := (list bytes -> option setting).

(** Every key from the root down to [q] is there. *)
Definition reachable (T : tree) (q : list bytes) : Prop := forall q', q' `prefix_of` q -> T q' <> None.

(** [s] is the setting of the deepest set key on the path [segs], [unset] when none is set. *)
Definition deepest_set (T : tree) (segs : list bytes) (s : setting) : Prop :=
  (exists q, q `prefix_of` segs /\ reachable T q /\ T q = Some s /\ s <> unset
     /\ forall q', q' `prefix_of` segs -> reachable T q' -> (length q < length q')%nat -> T q' = Some unset)
  \/ s = unset /\ forall q, q `prefix_of` segs -> reachable T q -> T q = Some unset.

(** The same, computed from the root down. *)
Fixpoint deepest (T : tree) (p segs : list bytes) (found : setting) : setting :=
  match T p with
  | None => found
  | Some s =>
      let found := overridden found s in
      match segs with
      | [] => found
      | seg :: segs => deepest T (p ++ [seg]) segs found
      end
  end.

Lemma prefix_cons_split (seg : bytes) q segs : q `prefix_of` seg :: segs -> q = [] \/ exists q', q = seg :: q' /\ q' `prefix_of` segs.
Proof. intros Hq. destruct q as [|x q]; [by left|right]. pose proof (prefix_cons_inv_1 _ _ _ _ Hq) as ->. apply prefix_cons_inv_2 in Hq. eauto. Qed.

(** [deepest] from [p] on, by the keys at [p] and below. *)
Lemma deepest_spec T segs p found : let r := deepest T p segs found in
  (exists q, q `prefix_of` segs /\ (forall q', q' `prefix_of` q -> T (p ++ q') <> None) /\ T (p ++ q) = Some r /\ r <> unset
     /\ forall q', q' `prefix_of` segs -> (forall q'', q'' `prefix_of` q' -> T (p ++ q'') <> None) ->
          (length q < length q')%nat -> T (p ++ q') = Some unset)
  \/ r = found /\ forall q, q `prefix_of` segs -> (forall q', q' `prefix_of` q -> T (p ++ q') <> None) -> T (p ++ q) = Some unset.
Proof.
  revert p found. induction segs as [|seg segs IH]; intros p found; cbn [deepest]; cbv zeta.
  - destruct (T p) as [s|] eqn:Ep.
    + unfold overridden. case_bool_decide as Hs; [left|right].
      * exists []. rewrite app_nil_r. split_and!; [done| |done|done|].
        -- intros q' ->%prefix_nil_inv. rewrite app_nil_r. congruence.
        -- intros q' ->%prefix_nil_inv. cbn. lia.
      * split; [done|]. intros q ->%prefix_nil_inv _. rewrite app_nil_r. congruence.
    + right. split; [done|]. intros q ->%prefix_nil_inv Hr. exfalso. apply (Hr []); [done|]. by rewrite app_nil_r.
  - destruct (T p) as [s|] eqn:Ep.
    2: { right. split; [done|]. intros q _ Hr. exfalso. apply (Hr []); [apply prefix_nil|]. by rewrite app_nil_r. }
    assert (Happ : forall q, p ++ seg :: q = (p ++ [seg]) ++ q) by (intros; app_eq).
    destruct (IH (p ++ [seg]) (overridden found s)) as [(q & Hq & Hr & Hv & Hne & Hmax)|[Hv Hmax]].
    + left. exists (seg :: q). split_and!; [by apply prefix_cons| |by rewrite Happ|done|].
      * intros q' [->|(q'' & -> & Hq'')]%prefix_cons_split; [rewrite app_nil_r; congruence|rewrite Happ; by apply Hr].
      * intros q' [->|(q'' & -> & Hq'')]%prefix_cons_split Hr' Hl; [cbn in Hl; lia|]. rewrite Happ.
        apply Hmax; [done| |cbn in Hl; lia]. intros q3 Hq3. rewrite <- Happ. by apply Hr', prefix_cons.
    + rewrite Hv. unfold overridden. case_bool_decide as Hs; [left|right].
      * exists []. rewrite app_nil_r. split_and!; [apply prefix_nil| |done|done|].
        -- intros q' ->%prefix_nil_inv. rewrite app_nil_r. congruence.
        -- intros q' [->|(q'' & -> & Hq'')]%prefix_cons_split Hr' Hl; [cbn in Hl; lia|]. rewrite Happ.
           apply Hmax; [done|]. intros q3 Hq3. rewrite <- Happ. by apply Hr', prefix_cons.
      * split; [done|]. intros q [->|(q'' & -> & Hq'')]%prefix_cons_split Hr'.
        -- rewrite app_nil_r, Ep. congruence.
        -- rewrite Happ. apply Hmax; [done|]. intros q3 Hq3. rewrite <- Happ. by apply Hr', prefix_cons.
Qed.

Lemma deepest_deepest_set T segs : deepest_set T segs (deepest T [] segs unset).
Proof. apply (deepest_spec T segs [] unset). Qed.

(** ** The contract of a tree *)

Section walk.
Context {E : Type -> Type} {K Key : Type} (t : PolicyTree E K Key).
Context (T : tree) (plain : bytes -> Prop).
Context (idle : world E K -> Prop) (at1 : Key -> list bytes -> world E K -> Prop).
Context (at2 : Key -> list bytes -> Key -> list bytes -> world E K -> Prop).

(** What the walk needs of a tree that shows [T]: [idle] holds of the worlds where the walk has no key, [at1] and
    [at2] where it has exactly the given keys open. *)
Class Walkable : Prop := {
  w_root w : idle w -> total (root t) w (fun o w' =>
    match T [] with None => o = Ok None /\ idle w' | Some _ => exists k, o = Ok (Some k) /\ at1 k [] w' end);
  w_enabled k p w : at1 k p w -> total (enabled t k) w (fun o w' => exists s, T p = Some s /\ o = Ok s /\ at1 k p w');
  w_child k p seg w : plain seg -> at1 k p w -> total (child t k seg) w (fun o w' =>
    match T (p ++ [seg]) with
    | None => o = Ok None /\ at1 k p w'
    | Some _ => exists k', o = Ok (Some k') /\ at2 k p k' (p ++ [seg]) w'
    end);
  w_release1 k p w : at1 k p w -> total (release t k) w (fun o w' => o = Ok tt /\ idle w');
  w_release2 k p k' p' w : at2 k p k' p' w -> total (release t k) w (fun o w' => o = Ok tt /\ at1 k' p' w')
}.

Context {W : Walkable}.

Lemma walk_spec segs k p found w : Forall plain segs -> at1 k p w ->
  total (walk t segs (Some k) found) w (fun o w' => o = Ok (deepest T p segs found) /\ idle w').
Proof.
  revert k p found w. induction segs as [|seg segs IH]; intros k p found w Hs Hat; cbn [walk];
    apply total_bind; (eapply total_mono; [by apply w_enabled|]); intros o w' (s & Hp & -> & Hat'); cbn [deepest]; rewrite Hp.
  - apply total_bind. eapply total_mono; [by eapply w_release1|]. intros o w'' [-> Hi]. by apply total_ret.
  - apply Forall_cons in Hs as [Hseg Hs].
    apply total_bind. eapply total_mono; [by eapply w_child|]. intros o w'' Ho.
    destruct (T (p ++ [seg])) as [s'|] eqn:Ec.
    + destruct Ho as (k' & -> & Hat2). apply total_bind. eapply total_mono; [by eapply w_release2|].
      intros o w3 [-> Hat3]. by apply IH.
    + destruct Ho as [-> Hat1]. apply total_bind. eapply total_mono; [by eapply w_release1|].
      intros o w3 [-> Hi]. destruct segs; cbn [walk deepest]; rewrite Ec; by apply total_ret.
Qed.

Lemma resolve_spec segs w : Forall plain segs -> idle w ->
  total (resolve t segs) w (fun o w' => o = Ok (deepest T [] segs unset) /\ idle w').
Proof.
  intros Hs Hi. unfold resolve. apply total_bind. eapply total_mono; [by apply w_root|]. intros o w' Ho.
  destruct (T []) as [s|] eqn:E0.
  - destruct Ho as (k & -> & Hat). by apply walk_spec.
  - destruct Ho as [-> Hi']. destruct segs; cbn [walk deepest]; rewrite E0; by apply total_ret.
Qed.
End walk.


(** ** The registry as a tree *)

Section live.
Context {U : Uapi} {L : RegLaws U} {K : Type} {H : Kernel rcall K} {S : Settles rcall K}.

(** The kernel holds the keys [keys] below Events, each with what its "Enabled" resolves to, and a table
    [opened] of the descriptors open on them. *)
Context (Inv : K -> Prop) (opened : K -> gmap Z (list bytes)) (keys : gmap (list bytes) (Z + RegKey.held)).
Context (plain : bytes -> Prop).

Definition table (tbl : gmap Z (list bytes)) (k : K) : Prop := Inv k /\ opened k = tbl.

(** What the kernel's value says, by its type and bytes: a REG_DWORD 0 is off, a REG_DWORD 1 is on; a missing or
    unreadable value, or any other, is no setting. *)
Definition value_setting (x : Z + RegKey.held) : setting :=
  match x with
  | inl _ => unset
  | inr v =>
      if bool_decide (RegKey.h_type v = REG_DWORD /\ RegKey.h_data v = [x00; x00; x00; x00]) then off
      else if bool_decide (RegKey.h_type v = REG_DWORD /\ RegKey.h_data v = [x01; x00; x00; x00]) then on
      else unset
  end.
Definition live_settings : tree := fun p => value_setting <$> keys !! p.

(** Opening a child gives a fresh descriptor on it when it is there; closing a descriptor frees it, whatever
    close returns; reading "Enabled" keeps the two-pass contract. *)
Class ServesTree : Prop := {
  t_plain seg : plain seg -> x00 ∉ seg;
  t_open tbl fd p seg : tbl !! fd = Some p -> plain seg ->
    transits (OpenKey fd seg KEY_QUERY_VALUE 0) (table tbl) (fun r e k =>
      match keys !! (p ++ [seg]) with
      | Some _ => e = 0 /\ 0 <= r /\ tbl !! r = None /\ table (<[r := p ++ [seg]]> tbl) k
      | None => e <> 0 /\ table tbl k
      end);
  t_close tbl fd k : table tbl k -> table (delete fd tbl) (answer (CloseFD fd) k).2;
  t_query tbl fd p x : tbl !! fd = Some p -> keys !! p = Some x ->
    RegKey.serves_value (table tbl) (fun _ => x) fd enabledVal RegKey.noTxn
}.
Context {ST : ServesTree}.

(** The table the walk starts from, in which the root is open. *)
Context (tbl : gmap Z (list bytes)) (r : Z).
Hypothesis root_open : tbl !! r = Some [].

(** The table when the walk has [k] open at [p]: the root is not its own. *)
Definition with_key (k : Z) (p : list bytes) (t : gmap Z (list bytes)) : Prop :=
  if bool_decide (k = r) then p = [] /\ t = tbl else 0 <= k /\ tbl !! k = None /\ t = <[k := p]> tbl.
Definition live_idle (w : world rcall K) : Prop := table tbl (kst w).
Definition live_at1 (k : Z) (p : list bytes) (w : world rcall K) : Prop :=
  live_settings p <> None /\ exists t, with_key k p t /\ table t (kst w).
Definition live_at2 (k : Z) (p : list bytes) (k' : Z) (p' : list bytes) (w : world rcall K) : Prop :=
  live_settings p' <> None /\ exists t, with_key k p t /\ 0 <= k' /\ t !! k' = None /\ table (<[k' := p']> t) (kst w).

Lemma with_key_lookup k p t : with_key k p t -> t !! k = Some p.
Proof. unfold with_key. case_bool_decide; [by intros [-> ->]; subst k|]. intros (_&_&->). apply lookup_insert_eq. Qed.

Lemma total_close_fd fd w t (Q : outcome unit -> world rcall K -> Prop) : 0 <= fd -> table t (kst w) ->
  (forall w', table (delete fd t) (kst w') -> Q (Ok tt) w') ->
  total (RegKey.Close fd;; mret tt) w Q.
Proof.
  intros Hfd Ht HQ. apply total_bind. unfold RegKey.Close. destruct (Z.ltb_spec fd 0); [lia|].
  apply total_bind. unfold Sys.call_once, total. pose proof (t_close t fd (kst w) Ht) as Hc.
  destruct (answer (CloseFD fd) (kst w)) as [[[] e] k]. eexists _, _. split; [done|].
  apply total_ret, total_ret. by apply HQ.
Qed.

Lemma live_release1 k p w : live_at1 k p w ->
  total (release (liveTree r) k) w (fun o w' => o = Ok tt /\ live_idle w').
Proof.
  intros (_ & t & Hk & Ht). cbn [release liveTree]. unfold tree_release. unfold with_key in Hk. case_bool_decide as Hr.
  - subst k. rewrite Z.eqb_refl. destruct Hk as [_ ->]. by apply total_ret.
  - apply Z.eqb_neq in Hr as ->. destruct Hk as (Hk & Hn & ->). apply (total_close_fd _ _ _ _ Hk Ht).
    intros w' Hw'. split; [done|]. unfold live_idle. by rewrite delete_insert_id in Hw'.
Qed.

Lemma live_release2 k p k' p' w : live_at2 k p k' p' w ->
  total (release (liveTree r) k) w (fun o w' => o = Ok tt /\ live_at1 k' p' w').
Proof.
  intros (Hset & t & Hk & Hk' & Hn & Ht). cbn [release liveTree]. unfold tree_release.
  pose proof (with_key_lookup _ _ _ Hk) as Hl. assert (k' <> k) by congruence.
  unfold with_key in Hk. case_bool_decide as Hr.
  - subst k. rewrite Z.eqb_refl. destruct Hk as [_ ->]. apply total_ret. split; [done|]. split; [done|].
    exists (<[k' := p']> tbl). split; [|done]. unfold with_key. by rewrite bool_decide_eq_false_2.
  - apply Z.eqb_neq in Hr as Hr'. rewrite Hr'. destruct Hk as (Hk & Hkn & ->). apply (total_close_fd _ _ _ _ Hk Ht).
    intros w' Hw'. split; [done|]. split; [done|]. exists (<[k' := p']> tbl).
    rewrite lookup_insert_ne in Hn by done.
    assert (k' <> r) by congruence. split; [unfold with_key; by rewrite bool_decide_eq_false_2|].
    rewrite delete_insert_ne in Hw' by done. by rewrite delete_insert_id in Hw'.
Qed.

Lemma live_child k p seg w : plain seg -> live_at1 k p w ->
  total (child (liveTree r) k seg) w (fun o w' =>
    match live_settings (p ++ [seg]) with
    | None => o = Ok None /\ live_at1 k p w'
    | Some _ => exists k', o = Ok (Some k') /\ live_at2 k p k' (p ++ [seg]) w'
    end).
Proof.
  intros Hs (Hset & t & Hk & Ht). cbn [child liveTree]. unfold tree_child. unfold live_settings at 1.
  apply total_bind, total_try. unfold RegKey.OpenSubkey, RegKey.openAt. apply total_bind, total_lift.
  unfold BytePtrFromString. rewrite bool_decide_eq_false_2 by by apply t_plain. cbn [wrap_err].
  apply total_bind. eapply total_transit; [apply (t_open t k p seg); [by apply with_key_lookup|done]|done|].
  intros fd e k' Hp. destruct (keys !! (p ++ [seg])) as [x|] eqn:Ex.
  - destruct Hp as (-> & Hfd & Hn & Ht'). cbn [Z.eqb fmap option_fmap option_map]. apply total_ret, total_ret.
    exists fd. split; [done|]. split; [unfold live_settings; by rewrite Ex|]. by exists t.
  - destruct Hp as [He Ht']. apply Z.eqb_neq in He as ->. cbn [fmap option_fmap option_map]. apply total_throw, total_ret.
    split; [done|]. split; [done|]. by exists t.
Qed.

Lemma hit_safe x : safe (RegKey.hit_of x).
Proof.
  destruct x as [n|v]; [done|]. cbn. pose proof (RegValue.Decode_exact (RegKey.h_type v) (RegKey.h_data v)) as Hd.
  by destruct (RegValue.Decode _ _).
Qed.

(** The code reads the setting that the value says. *)
Lemma interpret_value x :
  match RegKey.hit_of x with Ok h => interpretEnabled (RegKey.Value h) | _ => unset end = value_setting x.
Proof.
  destruct x as [n|[t data lay seq]]; [done|]. cbn [RegKey.hit_of value_setting RegKey.h_type RegKey.h_data].
  destruct (base.decide (t = REG_DWORD)) as [->|Ht].
  - pose proof (RegValue.Decode_DWORD data) as Hd. destruct (RegValue.Decode REG_DWORD data) as [v|e|]; [| |done].
    + destruct Hd as (m & -> & Hm & ->). cbn [mbind outcome_bind RegKey.Value]. unfold interpretEnabled.
      change (RegValue.Kind (RegValue.DWORD m)) with REG_DWORD. unfold RegValue.TypeDWORD. rewrite Z.eqb_refl. cbn [negb].
      unfold RegValue.Uint32. change (RegValue.typ (RegValue.DWORD m)) with RegValue.TypeDWORD. rewrite Z.eqb_refl.
      cbn [orb RegValue.DWORD RegValue.num]. unfold wrap. rewrite Z.mod_small by exact Hm.
      destruct (Z.eqb_spec m 0) as [->|H0]; [by rewrite bool_decide_eq_true_2|].
      assert (Hinj : forall m', fits 32 m' -> le_enc 4 m = le_enc 4 m' -> m = m').
      { intros m' Hm' E%(f_equal le_dec). unfold fits in *. by rewrite !le_dec_enc_small in E by lia. }
      rewrite bool_decide_eq_false_2 by (intros [_ E]; apply H0, (Hinj 0); [split; lia|exact E]).
      destruct (Z.eqb_spec m 1) as [->|H1]; [by rewrite bool_decide_eq_true_2|].
      by rewrite bool_decide_eq_false_2 by (intros [_ E]; apply H1, (Hinj 1); [split; lia|exact E]).
    + cbn. rewrite !bool_decide_eq_false_2; [done|by intros [_ ->]|by intros [_ ->]].
  - rewrite !bool_decide_eq_false_2 by naive_solver. pose proof (RegValue.Decode_exact t data) as Hd.
    destruct (RegValue.Decode t data) as [v|e|]; [|done|done]. destruct Hd as (_ & Hk & _). cbn. unfold interpretEnabled.
    rewrite Hk. unfold RegValue.TypeDWORD. by apply Z.eqb_neq in Ht as ->.
Qed.

Lemma live_enabled k p w : live_at1 k p w ->
  total (enabled (liveTree r) k) w (fun o w' => exists s, live_settings p = Some s /\ o = Ok s /\ live_at1 k p w').
Proof.
  intros (Hset & t & Hk & Ht). cbn [enabled liveTree]. unfold tree_enabled. unfold live_settings in Hset.
  destruct (keys !! p) as [x|] eqn:Ex; [|done]. apply total_bind, total_try. unfold RegKey.QueryValue. apply total_bind.
  pose proof (t_query t k p x (with_key_lookup _ _ _ Hk) Ex) as Hq.
  eapply total_mono; [exact (proj2 (RegKey.queryValueIn_two_pass _ _ _ _ _ w Hq Ht) x (fun _ _ => eq_refl))|].
  intros o w' (m & _ & Hi & _ & ->). assert (Hat : live_at1 k p w').
  { split; [unfold live_settings; by rewrite Ex|by exists t]. }
  unfold live_settings. rewrite Ex. cbn [fmap option_fmap option_map]. rewrite <- interpret_value.
  pose proof (hit_safe x) as Hsafe. destruct (RegKey.hit_of x) as [h|e|]; [| |done]; repeat apply total_ret; eauto.
Qed.

#[global] Instance live_walkable : live_settings [] <> None ->
  Walkable (liveTree r) live_settings plain live_idle live_at1 live_at2.
Proof.
  intros H0. split.
  - intros w Hi. apply total_ret. destruct (live_settings []) as [s|] eqn:E; [|done]. exists r. split; [done|].
    split; [congruence|]. exists tbl. split; [unfold with_key; by rewrite bool_decide_eq_true_2|done].
  - apply live_enabled.
  - apply live_child.
  - apply live_release1.
  - apply live_release2.
Qed.
End live.


(** ** Classifying watch records *)

Section records.
Context {U : Uapi} {L : WatchLaws U}.

(** The deletion of the watched key itself: a direct event, or a subtree event with an empty path. *)
Definition self_deleted (rec : RegWire.record_) : bool :=
  (RegWire.r_type rec =? REG_WATCH_KEY_DELETED)
  && match RegWire.r_path rec with None => true | Some cs => zlen cs =? 0 end.

Lemma classify_step fuel p rec rest n : RegWire.record_ok rec ->
  classify_loop (S fuel) (p ++ RegWire.pack_record rec ++ rest) (zlen p) n
  = classify_loop fuel ((p ++ RegWire.pack_record rec) ++ rest) (zlen (p ++ RegWire.pack_record rec))
      (mkNews true (gone n || self_deleted rec)).
Proof.
  intros Hr. pose proof (RegWire.record_length rec Hr) as Hl8. pose proof Hr as (Ht & Hn & Hb & Hp).
  cbn [classify_loop]. rewrite watch_min_size, watch_total_len, watch_type, watch_name_len, watch_name.
  pose proof (zlen_nonneg rest).
  destruct (Z.leb_spec (zlen (p ++ RegWire.pack_record rec ++ rest)) (zlen p)); [len|].
  rewrite slice_from_app, bind_Ok by done.
  destruct (Z.ltb_spec (zlen (RegWire.pack_record rec ++ rest)) 8); [len|].
  assert (Hz : zlen (RegWire.pack_record rec) = 4 + zlen (RegWire.record_body rec)) by (unfold RegWire.pack_record; len).
  rewrite (get_le_at_is 4 _ [] (zlen (RegWire.pack_record rec)) (RegWire.record_body rec ++ rest) 0).
  2: { rewrite Hz. unfold RegWire.pack_record. app_eq. } 2: done. 2: { rewrite Hz. apply Hb. }
  rewrite bind_Ok. destruct (Z.ltb_spec (zlen (RegWire.pack_record rec)) 8); [lia|].
  destruct (Z.ltb_spec (zlen (RegWire.pack_record rec ++ rest)) (zlen (RegWire.pack_record rec))); [len|]. cbn [orb].
  rewrite slice_prefix, bind_Ok by done.
  set (buf := RegWire.pack_record rec). unfold RegWire.pack_record, RegWire.record_body in buf.
  set (h := le_enc 4 _) in buf. assert (Hh : zlen h = 4) by (unfold h; len).
  rewrite (get_le_at_is 2 buf h (RegWire.r_type rec)
    (le_enc 2 (zlen (RegWire.r_name rec)) ++ RegWire.r_name rec ++ RegWire.pack_path (RegWire.r_path rec)) 4)
    by first [done|apply Ht|unfold buf; app_eq].
  rewrite bind_Ok. unfold self_deleted.
  assert (Happ : p ++ buf ++ rest = (p ++ buf) ++ rest) by app_eq.
  assert (Hlen : zlen (p ++ buf) = zlen p + zlen buf) by len. fold buf. rewrite Happ, Hlen. cbv zeta.
  destruct (RegWire.r_type rec =? REG_WATCH_KEY_DELETED); [|by rewrite bind_Ok]. cbn [andb].
  rewrite (get_le_at_is 2 buf (h ++ le_enc 2 (RegWire.r_type rec)) (zlen (RegWire.r_name rec))
    (RegWire.r_name rec ++ RegWire.pack_path (RegWire.r_path rec)) 6)
    by first [apply Hn|by len|unfold buf; app_eq].
  rewrite bind_Ok.
  assert (Hbuf : zlen buf = 8 + zlen (RegWire.r_name rec) + zlen (RegWire.pack_path (RegWire.r_path rec))) by (unfold buf; len).
  destruct (RegWire.r_path rec) as [cs|]; cbn [RegWire.pack_path] in *.
  - destruct (Z.ltb_spec (zlen buf) (8 + zlen (RegWire.r_name rec) + 2)); [len|].
    rewrite (get_le_at_is 2 buf (h ++ le_enc 2 (RegWire.r_type rec) ++ le_enc 2 (zlen (RegWire.r_name rec)) ++ RegWire.r_name rec)
      (zlen cs) (concat (RegWire.pack_component <$> cs))) by first [apply Hp|by len|unfold buf; app_eq].
    by rewrite !bind_Ok.
  - destruct (Z.ltb_spec (zlen buf) (8 + zlen (RegWire.r_name rec) + 2)); [by rewrite bind_Ok|].
    unfold zlen in *. simpl in *. lia.
Qed.

Lemma classify_packed rs : Forall RegWire.record_ok rs ->
  classifyRecords (concat (RegWire.pack_record <$> rs)) = Ok (mkNews (bool_decide (rs <> [])) (existsb self_deleted rs)).
Proof.
  intros Hrs. unfold classifyRecords.
  enough (Hg : forall rs p n fuel, Forall RegWire.record_ok rs -> (length rs <= fuel)%nat ->
    classify_loop fuel (p ++ concat (RegWire.pack_record <$> rs)) (zlen p) n
    = Ok (mkNews (changed n || bool_decide (rs <> [])) (gone n || existsb self_deleted rs))).
  { apply (Hg rs [] (mkNews false false)); [done|]. clear Hg. induction Hrs as [|rec rs Hr _ IH]; [done|].
    cbn [fmap list_fmap concat]. pose proof (RegWire.record_length rec Hr). rewrite length_app. unfold zlen in *. simpl. lia. }
  clear -L. intros rs. induction rs as [|rec rs IH]; intros p n fuel Hrs Hf.
  - rewrite app_nil_r. destruct n as [c g]. cbn. rewrite !orb_false_r.
    destruct fuel; cbn [classify_loop]; by rewrite Z.leb_refl.
  - apply Forall_cons in Hrs as [Hr Hrs]. destruct fuel as [|fuel]; [simpl in Hf; lia|].
    cbn [fmap list_fmap concat]. rewrite classify_step, IH by (done || (simpl in Hf; lia)).
    cbn [changed gone existsb orb]. rewrite (bool_decide_eq_true_2 (rec :: rs <> [])), orb_true_r by done. by rewrite orb_assoc.
Qed.
End records.


(** ** Event types *)

(** A segment that names one key. *)
Definition plain_seg (seg : bytes) : Prop := seg <> [] /\ Forall (fun c => c ∉ [x5c; x2f; x00]) seg.

(** What an event type is, and its segments: a UTF-8 text of segments that each name one key, joined by dots. *)
Definition names (ty : bytes) (segs : list bytes) : Prop :=
  (exists rs, Forall scalar rs /\ ty = utf8_encode rs)
  /\ segs <> [] /\ Forall (fun seg => plain_seg seg /\ x2e ∉ seg) segs /\ ty = join_with x2e segs.

(** The check of one segment in the loop of [policySegments]. *)
Lemma bad_seg seg : bool_decide (seg = []) || existsb (fun c => bool_decide (c ∈ [x5c; x2f; x00])) seg = false <-> plain_seg seg.
Proof.
  unfold plain_seg. rewrite orb_false_iff, bool_decide_eq_false, Forall_forall. f_equiv.
  rewrite <- not_true_iff_false, existsb_exists. setoid_rewrite bool_decide_eq_true. setoid_rewrite <- list_elem_of_In. naive_solver.
Qed.

Lemma policySegments_names ty segs : policySegments ty = Some segs <-> names ty segs.
Proof.
  assert (Hall : forall l, existsb (fun seg => bool_decide (seg = []) || existsb (fun c => bool_decide (c ∈ [x5c; x2f; x00])) seg) l = false
    <-> Forall plain_seg l).
  { induction l as [|seg l IH]; [done|]. cbn [existsb]. by rewrite orb_false_iff, bad_seg, IH, Forall_cons. }
  unfold policySegments, names. rewrite <- utf8_valid_encoding. split.
  - destruct (_ || _) eqn:Eg; [done|]. destruct (existsb _ _) eqn:E; [done|]. intros [= <-].
    apply orb_false_iff in Eg as [_ Ev%negb_false_iff]. split_and!; [done|apply split_on_nil| |by rewrite join_split].
    apply Forall_and. split; [by apply Hall|apply RegValue.split_no_sep].
  - intros (Hv & Hne & [Hp Hd]%Forall_and & Ht). subst ty. rewrite split_join, Hv by done.
    rewrite bool_decide_eq_false_2; [|by destruct segs as [|[] []]; [|apply Forall_cons in Hp as [[]]..]].
    cbn [negb orb]. by rewrite (proj2 (Hall segs) Hp).
Qed.
Lemma policySegments_malformed ty : policySegments ty = None <-> forall segs, ~ names ty segs.
Proof.
  split; [intros Hn segs Hs%policySegments_names; congruence|]. intros Hn. destruct (policySegments ty) as [segs|] eqn:E; [|done].
  by apply policySegments_names, Hn in E.
Qed.
Lemma names_plain ty segs : names ty segs -> Forall plain_seg segs.
Proof. intros (_&_&[? _]%Forall_and&_). done. Qed.

(** ** Decisions *)

Section decisions.
Context {U : Uapi} {RL : RegLaws U} {WL : WatchLaws U} {K : Type} {H : Kernel rcall K} {S : Settles rcall K}.

Context (Inv : K -> Prop) (opened : K -> gmap Z (list bytes)) (keys : gmap (list bytes) (Z + RegKey.held)).
Context {ST : ServesTree Inv opened keys plain_seg}.
Context (tbl : gmap Z (list bytes)) (r : Z).

(** The watch of the root: the records queued and the signals that may interrupt a read. *)
Context (queue : K -> list RegWire.record_) (signals : K -> nat).

(** A non-blocking read of the watch is interrupted, finds nothing, or takes records off the front of the queue. *)
Class ServesWatch : Prop := {
  s_read k : table Inv opened tbl k -> let '(((n, data), e), k') := answer (ReadFD r policyWatchBuf) k in
    table Inv opened tbl k' /\
    ((e = Errno.EINTR /\ queue k' = queue k /\ (signals k' < signals k)%nat)
     \/ (e = Errno.EAGAIN /\ queue k = [] /\ queue k' = [])
     \/ exists now_, e = 0 /\ queue k = now_ ++ queue k' /\ now_ <> [] /\ data = concat (RegWire.pack_record <$> now_)
          /\ n = zlen data /\ zlen data <= policyWatchBuf /\ (signals k' <= signals k)%nat)
}.
Context {SW : ServesWatch}.

Lemma drain_loop_spec fuel n w : table Inv opened tbl (kst w) -> Forall RegWire.record_ok (queue (kst w)) ->
  existsb self_deleted (queue (kst w)) = false -> gone n = false ->
  (length (queue (kst w)) + signals (kst w) < fuel)%nat ->
  total (drain_loop fuel r n) w (fun o w' => table Inv opened tbl (kst w')
    /\ o = Ok (mkNews (changed n || bool_decide (queue (kst w) <> [])) false)).
Proof.
  revert n w. induction fuel as [|fuel IH]; intros n w Ht Hq Hs Hg Hf; [lia|]. cbn [drain_loop].
  apply total_bind. unfold Sys.call_once, total. pose proof (s_read (kst w) Ht) as Hr.
  destruct (answer (ReadFD r policyWatchBuf) (kst w)) as [[[m data] e] k]. eexists _, _. split; [done|].
  destruct Hr as (Htk & [(-> & Hqk & Hsig)|[(-> & Hq0 & Hqk)|(now_ & -> & Hqk & Hne & -> & -> & Hbuf & Hsig)]]).
  - cbn [Z.eqb Errno.EINTR Pos.eqb]. rewrite <- Hqk in *. eapply total_mono; [apply IH; cbn [kst]; auto; lia|]. done.
  - cbn [Z.eqb Errno.EAGAIN Errno.EINTR Pos.eqb negb]. apply total_ret. cbn [kst]. split; [done|].
    rewrite Hq0, bool_decide_eq_false_2 by naive_solver. rewrite orb_false_r. destruct n; cbn in *. by subst.
  - cbn [Z.eqb]. rewrite Hqk in Hq, Hs, Hf. apply Forall_app in Hq as [Hn Hq].
    rewrite existsb_app in Hs. apply orb_false_iff in Hs as [Hsn Hs].
    assert (Hlen : 0 < zlen (concat (RegWire.pack_record <$> now_))).
    { destruct now_ as [|rec now_]; [done|]. apply Forall_cons in Hn as [Hr _].
      pose proof (RegWire.record_length rec Hr). cbn [fmap list_fmap concat]. len. }
    destruct (Z.ltb_spec 0 (zlen (concat (RegWire.pack_record <$> now_)))); [|lia].
    rewrite slice_copied by (rewrite zlen_make_bytes by done; done).
    rewrite bind_Ok, classify_packed by done. apply total_bind, total_lift. cbn [changed gone]. rewrite Hsn, Hg. cbn [orb gone].
    eapply total_mono; [apply IH; cbn [kst]; auto; rewrite length_app in Hf; destruct now_; [done|simpl in Hf; lia]|].
    cbn [kst changed]. intros o w' [? ->]. split; [done|]. f_equal. f_equal. rewrite Hqk.
    rewrite (bool_decide_eq_true_2 (now_ <> [])), (bool_decide_eq_true_2 (now_ ++ _ <> [])) by (done || by destruct now_).
    by rewrite orb_true_r.
Qed.

(** What the cache says is what the tree says. *)
Definition cache_right (c : gmap bytes setting) : Prop :=
  forall ty s segs, c !! ty = Some s -> names ty segs -> deepest_set (live_settings keys) segs s.

Hypothesis root_open : tbl !! r = Some [].
Hypothesis root_there : live_settings keys [] <> None.

Lemma setting_of_spec p ty segs w : root_ p = Some r -> names ty segs -> cache_right (cache p) ->
  table Inv opened tbl (kst w) ->
  total (setting_of p ty segs) w (fun o w' => exists p' s, o = Ok (p', s) /\ table Inv opened tbl (kst w')
    /\ deepest_set (live_settings keys) segs s /\ cache_right (cache p')
    /\ root_ p' = root_ p /\ rootWatched p' = rootWatched p /\ ancestor p' = ancestor p /\ closed p' = closed p).
Proof.
  intros Hr Hs Hc Ht. unfold setting_of. rewrite Hr. destruct (cache p !! ty) as [s|] eqn:Ec.
  { apply total_ret. exists p, s. split_and!; try done. by apply (Hc ty s). }
  pose proof (live_walkable Inv opened keys plain_seg tbl r root_open root_there) as HW.
  apply total_bind. eapply total_mono; [eapply resolve_spec; [exact HW|by eapply names_plain|exact Ht]|].
  intros o w' [-> Hi]. apply total_ret. eexists _, _. split_and!; try done; [apply deepest_deepest_set|].
  cbn [cache]. intros ty' s' segs' Hl Hs'. destruct (base.decide (ty' = ty)) as [->|Hne].
  - rewrite lookup_insert_eq in Hl. apply policySegments_names in Hs, Hs'. simplify_eq. apply deepest_deepest_set.
  - rewrite lookup_insert_ne in Hl by done. case_bool_decide; [done|]. by eapply Hc.
Qed.

(** The answer for a tier that is not essential: what the setting says, and without one, whether the tier is the standard one. *)
Definition answers (tier : Z) (s : setting) (b : bool) : Prop :=
  match s with on => b = true | off => b = false | unset => b = true <-> tier = 1 end.

Lemma decide_answers tier s : 1 <= tier <= 3 -> answers tier s (decide tier s).
Proof.
  intros Ht. unfold answers, decide, TierEssential, TierStandard. destruct (Z.eqb_spec tier 0); [lia|].
  destruct s; [|done|done]. apply Z.eqb_eq.
Qed.

(** [C38] With the root of the policy watched, every decision follows the registry as it is when it is made.  For an
    event type, the setting is that of the deepest key on the type's path whose "Enabled" is a REG_DWORD of 0, off, or of 1, on;
    the answer is what it says, and when there is none, true for the standard tier and false for the verbose and debug ones.
    This holds whether or not the type is cached, provided that a change of the tree since the cache was right has left a
    record in the watch's queue, and that no record queued is of the deletion of the root itself.  The call finishes,
    leaves the table of open descriptors as it was and the cache right. *)
Theorem Enabled_current fuel p ty segs tier w :
  names ty segs -> 1 <= tier <= 3 ->
  root_ p = Some r -> rootWatched p = true -> ancestor p = None ->
  table Inv opened tbl (kst w) -> Forall RegWire.record_ok (queue (kst w)) -> existsb self_deleted (queue (kst w)) = false ->
  (queue (kst w) = [] -> cache_right (cache p)) -> (length (queue (kst w)) + signals (kst w) < fuel)%nat ->
  total (Enabled fuel p ty tier) w (fun o w' => exists p' s b, o = Ok (p', inl b) /\ answers tier s b
    /\ deepest_set (live_settings keys) segs s
    /\ table Inv opened tbl (kst w') /\ cache_right (cache p') /\ root_ p' = Some r /\ rootWatched p' = true /\ ancestor p' = None).
Proof.
  intros Hs Htier Hr Hw Ha Ht Hq Hself Hc Hf. unfold Enabled. rewrite (proj2 (policySegments_names _ _) Hs). unfold TierDebug, TierEssential in *.
  destruct (Z.ltb_spec 3 tier); [lia|]. destruct (Z.eqb_spec tier 0); [lia|].
  apply total_bind. unfold refresh, drain, watched_key. rewrite Hr, Hw. apply total_bind, total_bind.
  eapply total_mono; [by apply drain_loop_spec|]. intros o w' [Ht' ->]. apply total_ret. cbn [negb gone changed orb].
  rewrite (bool_decide_eq_false_2 (ancestor p <> None)), andb_false_r by naive_solver.
  case_bool_decide as Hne; apply total_ret, total_bind.
  - eapply total_mono; [by apply (setting_of_spec _ ty segs w')|].
    intros o w'' (p' & s & -> & Ht'' & Hd & Hc' & Hr' & Hw' & Ha' & _). apply total_ret. cbn [root_ rootWatched ancestor] in *.
    exists p', s, (decide tier s). split_and!; try done; [by apply decide_answers|congruence..].
  - eapply total_mono; [apply (setting_of_spec _ ty segs w'); auto|].
    intros o w'' (p' & s & -> & Ht'' & Hd & Hc' & Hr' & Hw' & Ha' & _). apply total_ret.
    exists p', s, (decide tier s). split_and!; try done; [by apply decide_answers|congruence..].
Qed.
End decisions.


(** ** Gates *)

Section gates.
Context {U : Uapi} {K : Type} {H : Kernel rcall K}.

(** The gates of [Enabled]. *)
Lemma Enabled_gates fuel p ty tier (w : world rcall K) :
  (((forall segs, ~ names ty segs) \/ 3 < tier) ->
     exists e, errors_is e (Errno Errno.EINVAL) = true /\ Enabled fuel p ty tier w = Some (Ok (p, inr e), w))
  /\ (forall segs, names ty segs -> tier = 0 -> Enabled fuel p ty tier w = Some (Ok (p, inl true), w))
  /\ (forall segs, names ty segs -> 1 <= tier <= 3 -> root_ p = None -> ancestor p = None -> closed p = true ->
        exists b, Enabled fuel p ty tier w = Some (Ok (p, inl b), w) /\ (b = true <-> tier = 1)).
Proof.
  split_and!.
  - rewrite <- policySegments_malformed. intros [Hn|Ht]; unfold Enabled.
    + rewrite Hn. eexists. by split; [|reflexivity].
    + destruct (policySegments ty); [|eexists; by split; [|reflexivity]].
      unfold TierDebug. destruct (Z.ltb_spec 3 tier); [eexists; by split; [|reflexivity]|lia].
  - intros segs Hs%policySegments_names ->. unfold Enabled. by rewrite Hs.
  - intros segs Hs%policySegments_names Ht Hr Ha Hc. unfold Enabled, TierDebug, TierEssential. rewrite Hs.
    destruct (Z.ltb_spec 3 tier); [lia|]. destruct (Z.eqb_spec tier 0) as [|He]; [lia|].
    unfold refresh, drain, watched_key. rewrite Hr, Ha. unfold mbind, M_bind, mret, M_ret. cbn. rewrite Hc.
    unfold setting_of. rewrite Hr. eexists. split; [done|]. exact (decide_answers tier unset Ht).
Qed.

(** [EmitWith], step by step: what is reported after the answer, the payload and the emission. *)
Lemma EmitWith_steps fuel p ty tier (build : M rcall K bytes) w o w' : Enabled fuel p ty tier w = Some (o, w') ->
  match o with
  | Err e => EmitWith fuel p ty tier build w = Some (Err e, w')
  | Panic => EmitWith fuel p ty tier build w = Some (Panic, w')
  | Ok (p', inr e) => EmitWith fuel p ty tier build w = Some (Ok (p', inr e), w')
  | Ok (p', inl false) => EmitWith fuel p ty tier build w = Some (Ok (p', inl false), w')
  | Ok (p', inl true) => forall ob w2, build w' = Some (ob, w2) ->
      match ob with
      | Err e => EmitWith fuel p ty tier build w = Some (Ok (p', inr e), w2)
      | Panic => EmitWith fuel p ty tier build w = Some (Panic, w2)
      | Ok payload => forall oe w3, Emit ty payload w2 = Some (oe, w3) ->
          EmitWith fuel p ty tier build w = Some (match oe with Ok _ => Ok (p', inl true) | Err e => Ok (p', inr e) | Panic => Panic end, w3)
      end
  end.
Proof.
  intros He. unfold EmitWith, mbind, M_bind, try_. rewrite He. destruct o as [[p' [[]|e]]|e|]; [|done..].
  intros ob w2 Hb. cbn. rewrite Hb. destruct ob as [payload|e|]; [|done..]. intros oe w3 Hx. cbn. rewrite Hx. by destruct oe.
Qed.

Context {S : Settles rcall K}.

(** An entry that the lengths of the KMES ABI cannot describe. *)
Definition too_long (e : bytes * bytes) : Prop := 0xFFFF < zlen e.1 \/ 0xFFFFFFFF < zlen e.2.

(** A request for [c] that failed is an error that wraps its errno. *)
Definition reported {A} (c : rcall A) (w : world rcall K) (o : outcome unit) (w' : world rcall K) : Prop :=
  exists r n, asked c w w' r n /\ if n =? 0 then o = Ok tt else exists msg, o = Err (Wrapf msg (Errno n)).

Lemma Emit_spec ty payload w :
  total (Emit ty payload) w (fun o w' =>
    (too_long (ty, payload) /\ w' = w /\ exists e, o = Err e)
    \/ (~ too_long (ty, payload) /\ reported (KmesEmit ty payload) w o w')).
Proof.
  unfold Emit, too_long, reported. cbn [fst snd].
  destruct (Z.ltb_spec 0xFFFF (zlen ty)); [apply total_throw; left; eauto|].
  destruct (Z.ltb_spec 0xFFFFFFFF (zlen payload)); [apply total_throw; left; eauto|].
  apply total_bind, total_bind, total_call_asked. intros r n w' Ha.
  destruct (n =? 0) eqn:En; [apply total_ret, total_ret|apply total_throw]; (right; split; [lia|]); exists r, n; rewrite En; eauto.
Qed.

Lemma check_entries_spec entries :
  (check_entries entries = Ok tt /\ Forall (fun e => ~ too_long e) entries)
  \/ ((exists e, check_entries entries = Err e) /\ Exists too_long entries).
Proof.
  induction entries as [|[et payload] entries IH]; [by left|]. cbn [check_entries].
  destruct (Z.ltb_spec 0xFFFF (zlen et)); [right; split; [eauto|by left; left]|].
  destruct (Z.ltb_spec 0xFFFFFFFF (zlen payload)); [right; split; [eauto|by left; right]|].
  destruct IH as [[-> ?]|[? ?]]; [left|right]; (split; [done|]); [|by right].
  constructor; [|done]. unfold too_long. cbn. lia.
Qed.

Lemma EmitBatch_spec entries w :
  total (EmitBatch entries) w (fun o w' =>
    let refused := entries = [] \/ KMES_BATCH_MAX_ENTRIES < zlen entries \/ Exists too_long entries in
    (refused /\ w' = w /\ exists e, o = Err e) \/ (~ refused /\ reported (KmesEmitBatch entries) w o w')).
Proof.
  cbv zeta. unfold EmitBatch. destruct (Z.eqb_spec (zlen entries) 0) as [E|E].
  { apply total_throw. left. apply zlen_0_inv in E. eauto. }
  cbn [orb]. destruct (Z.ltb_spec KMES_BATCH_MAX_ENTRIES (zlen entries)).
  { apply total_throw. left. split; [by right; left|]. eauto. }
  apply total_bind, total_lift. destruct (check_entries_spec entries) as [[-> Hf]|[[e ->] Hx]]; [|left; split; eauto].
  apply total_bind, total_call_asked. intros r n w' Ha.
  assert (Hok : ~ (entries = [] \/ KMES_BATCH_MAX_ENTRIES < zlen entries \/ Exists too_long entries)).
  { intros [->|[?|Hx]]; [done|lia|]. by apply Forall_not_Exists in Hf. }
  destruct (n =? 0) eqn:En; [apply total_ret|apply total_throw]; right; (split; [done|]); exists r, n; rewrite En; eauto.
Qed.

(** [C40] Sending events.  [Emit] is refused without a request exactly when the type or the payload is longer than the
    ABI's length fields, and [EmitBatch] exactly when there is no entry, more than the batch limit, or one too long;
    otherwise one request that is not interrupted carries all of it, and the call succeeds exactly when the errno is
    zero and wraps it otherwise.  Emission is gated as documented.  A type that is not a UTF-8 text of dotted segments, none of
    them empty or holding a separator or a NUL, and a tier past the last are EINVAL;
    an essential type is on; a closed policy answers true for the standard tier alone: none of these makes a request.
    What [EmitWith] does is then fixed.  An error of [Enabled] is its result, and neither it nor a type that is off has a payload
    built or anything emitted.  For a type that is on the payload is built; an error or a panic of the caller's function is the
    result and nothing is emitted; a payload is emitted with [Emit], and the event is reported emitted exactly when [Emit] succeeds, its error being
    the result otherwise. *)
Theorem emission_spec :
  (forall ty payload w, total (Emit ty payload) w (fun o w' =>
     (too_long (ty, payload) /\ w' = w /\ exists e, o = Err e)
     \/ (~ too_long (ty, payload) /\ reported (KmesEmit ty payload) w o w')))
  /\ (forall entries w, total (EmitBatch entries) w (fun o w' =>
       let refused := entries = [] \/ KMES_BATCH_MAX_ENTRIES < zlen entries \/ Exists too_long entries in
       (refused /\ w' = w /\ exists e, o = Err e) \/ (~ refused /\ reported (KmesEmitBatch entries) w o w')))
  /\ (forall fuel p ty tier w,
       (((forall segs, ~ names ty segs) \/ 3 < tier) ->
          exists e, errors_is e (Errno Errno.EINVAL) = true /\ Enabled fuel p ty tier w = Some (Ok (p, inr e), w))
       /\ (forall segs, names ty segs -> tier = 0 -> Enabled fuel p ty tier w = Some (Ok (p, inl true), w))
       /\ (forall segs, names ty segs -> 1 <= tier <= 3 -> root_ p = None -> ancestor p = None -> closed p = true ->
             exists b, Enabled fuel p ty tier w = Some (Ok (p, inl b), w) /\ (b = true <-> tier = 1)))
  /\ (forall fuel p ty tier build w o w', Enabled fuel p ty tier w = Some (o, w') ->
       match o with
       | Err e => EmitWith fuel p ty tier build w = Some (Err e, w')
       | Panic => EmitWith fuel p ty tier build w = Some (Panic, w')
       | Ok (p', inr e) => EmitWith fuel p ty tier build w = Some (Ok (p', inr e), w')
       | Ok (p', inl false) => EmitWith fuel p ty tier build w = Some (Ok (p', inl false), w')
       | Ok (p', inl true) => forall ob w2, build w' = Some (ob, w2) ->
           match ob with
           | Err e => EmitWith fuel p ty tier build w = Some (Ok (p', inr e), w2)
           | Panic => EmitWith fuel p ty tier build w = Some (Panic, w2)
           | Ok payload => forall oe w3, Emit ty payload w2 = Some (oe, w3) ->
               EmitWith fuel p ty tier build w
               = Some (match oe with Ok _ => Ok (p', inl true) | Err e => Ok (p', inr e) | Panic => Panic end, w3)
           end
       end).
Proof. split_and!; [exact Emit_spec|exact EmitBatch_spec|exact Enabled_gates|exact EmitWith_steps]. Qed.
End gates.

(** ** A concrete registry *)

(** Events with kacs switched off and kacs\audit on; one change waits in the queue.  Used by the witness only. *)
Module Sample.

#[local] Existing Instance pkm.

Definition keys : gmap (list bytes) (Z + RegKey.held) :=
  list_to_map [([], inl Errno.ENOENT);
               ([str "kacs"], inr (RegKey.mkHeld 4 [x00; x00; x00; x00] (str "base") 1));
               ([str "kacs"; str "audit"], inr (RegKey.mkHeld 4 [x01; x00; x00; x00] (str "base") 2))].

Record state := mkState { opened : gmap Z (list bytes); queue : list RegWire.record_ }.

Definition fresh_fd (t : gmap Z (list bytes)) : Z := Z.of_N (fresh (set_map Z.to_N (dom t) : gset N)).

Definition respond {A} (c : rcall A) (k : state) : (A * Z) * state :=
  match c in rcall A return (A * Z) * state with
  | OpenKey fd seg _ _ =>
      match opened k !! fd with
      | Some p =>
          match keys !! (p ++ [seg]) with
          | Some _ => let r := fresh_fd (opened k) in (r, 0, mkState (<[r := p ++ [seg]]> (opened k)) (queue k))
          | None => (0, Errno.ENOENT, k)
          end
      | None => (0, Errno.EBADF, k)
      end
  | CreateKey _ _ _ _ _ _ => ((0, 0), Errno.EACCES, k)
  | CloseFD fd => (tt, 0, mkState (delete fd (opened k)) (queue k))
  | QueryValue_ fd _ _ dl ll =>
      match opened k !! fd with
      | Some p => match keys !! p with Some (inr v) => (RegKey.Sample.query dl ll v, k) | _ => (mkQuery 0 0 0 0 [] [], Errno.ENOENT, k) end
      | None => (mkQuery 0 0 0 0 [] [], Errno.EBADF, k)
      end
  | QueryValuesBatch _ _ _ => (mkBatch 0 0 [], 0, k)
  | EnumSubkeys _ _ _ _ => (mkEnum 0 0 0 0 [], Errno.ENOENT, k)
  | QueryKeyInfo _ _ => (mkInfoArgs 0 0 0 0 0 0 0 0 0 0 0 [], 0, k)
  | GetSecurity _ _ _ => ((0, []), 0, k)
  | ReadFD _ _ =>
      match queue k with
      | [] => ((0, []), Errno.EAGAIN, k)
      | rec :: q => ((zlen (RegWire.pack_record rec), RegWire.pack_record rec), 0, mkState (opened k) q)
      end
  | BeginTransaction | TxnStatus _ | Now | KmesEmitBatch _ => (0, 0, k)
  | CommitTxn _ | SetSecurity _ _ _ _ | Flush_ _ | Backup_ _ _ | Restore_ _ _ | SetValue_ _ _ _ _ _ _ _ | DeleteValue_ _ _ _ _
  | BlanketTombstone_ _ _ _ _ | DeleteKey_ _ _ _ | HideKey_ _ _ _ | Notify_ _ _ _ | SetNonblock _ | KmesEmit _ _ => (tt, 0, k)
  end.

#[global] Instance kernel : Kernel rcall state := {| answer A c k := respond c k; patience := 1 |}.

Ltac errno := cbn; unfold Errno.ENOENT, Errno.EBADF, Errno.EAGAIN, Errno.ERANGE, Errno.EACCES; lia.

#[global] Instance settled : Settles rcall state.
Proof.
  apply (settles_never 0); [done|]. change Errno.EINTR with 4. intros A c k.
  destruct c; try (errno); cbn -[keys].
  - destruct (opened k !! parentFD) as [p|]; [|errno]. destruct (keys !! (p ++ [path])); errno.
  - destruct (opened k !! fd) as [p|]; [|errno]. destruct (keys !! p) as [[|v]|]; [errno| |errno].
    unfold RegKey.Sample.query. destruct (_ && _); errno.
  - destruct (queue k); errno.
Qed.

Definition Inv (k : state) : Prop := Forall (fun rec => zlen (RegWire.pack_record rec) <= policyWatchBuf) (queue k).

Lemma fresh_fd_spec t : 0 <= fresh_fd t /\ t !! fresh_fd t = None.
Proof.
  unfold fresh_fd. split; [lia|]. apply not_elem_of_dom. intros Hin.
  apply (is_fresh (set_map Z.to_N (dom t) : gset N)), elem_of_map. eexists. split; [|exact Hin]. by rewrite N2Z.id.
Qed.

Lemma keys_small p v : keys !! p = Some (inr v) -> fits 32 (zlen (RegKey.h_data v)) /\ fits 32 (zlen (RegKey.h_layer v)).
Proof.
  intros Hl. apply elem_of_list_to_map_2 in Hl. revert Hl. rewrite !elem_of_cons, elem_of_nil.
  intros [Hl|[Hl|[Hl|[]]]]; injection Hl; intros; simplify_eq; vm_compute; repeat split; congruence.
Qed.

Lemma keys_errno p n : keys !! p = Some (inl n) -> n = Errno.ENOENT.
Proof.
  intros Hl. apply elem_of_list_to_map_2 in Hl. revert Hl. rewrite !elem_of_cons, elem_of_nil.
  intros [Hl|[Hl|[Hl|[]]]]; injection Hl; intros; by simplify_eq.
Qed.

#[global] Instance serves : ServesTree Inv opened keys plain_seg.
Proof.
  split.
  - intros seg [_ Hf] Hin. rewrite Forall_forall in Hf. by apply Hf in Hin; apply Hin; repeat constructor.
   - intros tbl fd p seg Hfd _ k [Hi <-]. cbn -[keys]. rewrite Hfd. destruct (fresh_fd_spec (opened k)).
    destruct (keys !! (p ++ [seg])); cbn; by split_and!.
  - intros tbl fd k [Hi <-]. by split.
  - intros tbl fd p x Hfd Hx. split.
    + intros k v _ ->. by eapply keys_small.
    + intros dl ll k [Hi <-]. cbn -[keys]. rewrite Hfd, Hx. destruct x as [n|v]; cbn.
      * apply keys_errno in Hx as ->. by split_and!.
      * unfold RegKey.Sample.query. by destruct (_ && _).
Qed.

#[global] Instance watches tbl r : ServesWatch Inv opened tbl r queue (fun _ => O).
Proof.
  split. intros k [Hi <-]. cbn. destruct (queue k) as [|rec q] eqn:Eq.
  - split; [done|]. right; left. by split_and!.
  - unfold Inv in Hi. rewrite Eq in Hi. apply Forall_cons in Hi as [Hrec Hq]. split; [by split|]. right; right.
    exists [rec]. cbn [fmap list_fmap concat]. rewrite app_nil_r. by split_and!.
Qed.

Definition start : state := mkState {[ 7 := [] ]} [RegWire.mkRecord 1 (str "Enabled") (Some [str "kacs"])].
Definition policy : Policy := mkPolicy (Some 7) true None 0 {[ str "kacs.token.created" := on ]} false.
End Sample.

Lemma Enabled_current_witness : let w := World Sample.start [] in
  total (@Enabled pkm Sample.state Sample.kernel 8 Sample.policy (str "kacs.token.created") TierStandard) w (fun o w' =>
    exists p' s b, o = Ok (p', inl b) /\ answers TierStandard s b
    /\ deepest_set (@live_settings pkm Sample.keys) [str "kacs"; str "token"; str "created"] s
    /\ table Sample.Inv Sample.opened {[ 7 := [] ]} (kst w') /\ @cache_right pkm Sample.keys (cache p')
    /\ root_ p' = Some 7 /\ rootWatched p' = true /\ ancestor p' = None).
Proof.
  intros w. apply (@Enabled_current pkm pkm_RegLaws pkm_WatchLaws Sample.state Sample.kernel Sample.settled
    Sample.Inv Sample.opened Sample.keys Sample.serves {[ 7 := [] ]} 7 Sample.queue (fun _ => O) (Sample.watches _ _)).
  - reflexivity.
  - vm_compute. discriminate.
  - apply policySegments_names. reflexivity.
  - split; [reflexivity|vm_compute; discriminate].
  - reflexivity.
  - reflexivity.
  - reflexivity.
  - split; [|reflexivity]. constructor; [|constructor]. vm_compute. discriminate.
  - repeat constructor; vm_compute; congruence.
  - reflexivity.
  - discriminate.
  - cbn. lia.
Defined.

(** The stale cached decision is dropped: kacs is off. *)
Example kacs_is_off :
  match @Enabled pkm Sample.state Sample.kernel 8 Sample.policy (str "kacs.token.created") TierStandard (World Sample.start []) with
  | Some (Ok (_, r), _) => r = inl false
  | _ => False
  end.
Proof. vm_compute. reflexivity. Qed.

(** No segments: the middle one is empty. *)
Example empty_segment_unnamed : forall segs, ~ names (str "kacs..x") segs.
Proof. by apply policySegments_malformed. Qed.
(** The type that the repository's test rejects for its byte 0xFF. *)
Example not_utf8_unnamed : forall segs, ~ names (str "a." ++ [xff] ++ str ".d") segs.
Proof. by apply policySegments_malformed. Qed.

Lemma emission_spec_witness : let w := World Sample.start [] in
  let fail : M rcall Sample.state bytes := throw (Errno Errno.EACCES) in
  (exists e, errors_is e (Errno Errno.EINVAL) = true
    /\ @Enabled pkm Sample.state Sample.kernel 8 Sample.policy (str "a." ++ [xff] ++ str ".d") TierDebug w = Some (Ok (Sample.policy, inr e), w)
    /\ forall build, @EmitWith pkm Sample.state Sample.kernel 8 Sample.policy (str "a." ++ [xff] ++ str ".d") TierDebug build w
         = Some (Ok (Sample.policy, inr e), w))
  /\ @EmitWith pkm Sample.state Sample.kernel 8 Sample.policy (str "kacs.x") TierEssential fail w
     = Some (Ok (Sample.policy, inr (Errno Errno.EACCES)), w)
  /\ exists w', @EmitBatch pkm Sample.state Sample.kernel [(str "kacs.x", [xc0])] w = Some (Ok tt, w')
    /\ trace w' = [Ev (KmesEmitBatch [(str "kacs.x", [xc0])]) 0].
Proof.
  intros w fail. destruct (@emission_spec pkm Sample.state Sample.kernel Sample.settled) as (_&Hb&Hg&Hx). split_and!.
  - destruct (proj1 (Hg 8%nat Sample.policy _ TierDebug w) (or_introl not_utf8_unnamed)) as (e & He & E).
    exists e. split_and!; [exact He|exact E|]. intros build. exact (Hx _ _ _ _ build _ _ _ E).
  - exact (Hx 8%nat Sample.policy (str "kacs.x") TierEssential fail w (Ok (Sample.policy, inl true)) w eq_refl
      (Err (Errno Errno.EACCES)) w eq_refl).
  - destruct (Hb [(str "kacs.x", [xc0])] w) as (o & w' & E & Ho). assert (o = Ok tt) as -> by (vm_compute in E; by injection E as <- _).
    exists w'. split; [exact E|]. destruct Ho as [(_&_&e&?)|(_&r&n&(Ht&_)&Hn)]; [done|].
    destruct (Z.eqb_spec n 0) as [->|]; [exact Ht|]. by destruct Hn.
Defined.
End Policy.
