(* ===== verification/PolicyLife.v ===== *)
(** * PolicyLife: a policy from its opening to its closing (event/policy.go)

    A policy holds at most one registry handle, on the root of the policy or on the
    nearest ancestor that is there, and moves between the two as keys appear and go.
    [reachable] is the state machine of its operations, over a kernel that may answer
    anything the descriptor table allows ([Descriptors]): keys may come, go and change
    between any two requests.  In every reachable state each operation ends, and the
    process has the policy's handle open and nothing else of its making. *)

From S2P Require Import Prelude Outcome Uapi GoStd GoText Kernel RegValue RegWire RegKey Policy.

Module PolicyLife.
Import Policy.

Section life.
Context {U : Uapi} {WL : WatchLaws U} {RL : RegLaws U} {K : Type} {H : Kernel rcall K} {S : Settles rcall K}.
Context (Inv : K -> Prop) (opened : K -> gset Z) (backlog : K -> nat) (fuel : nat).

(** The process has exactly the descriptors [O] open. *)
Definition owns (O : gset Z) (k : K) : Prop := Inv k /\ opened k = O.

(** What the kernel owes a process whatever the registry holds: an open that succeeds gives a descriptor that was
    not open; a close frees its descriptor, whatever it returns; no other request changes the table; what is written
    fits the buffer it was given; and a watch has a bounded number of reads before it is empty. *)
Class Descriptors : Prop := {
  d_open O parentFD path access flags :
    transits (OpenKey parentFD path access flags) (owns O) (fun r e k =>
      if e =? 0 then 0 <= r /\ (r ∉ O) /\ owns ({[r]} ∪ O) k else owns O k);
  d_close O fd k : owns O k -> owns (O ∖ {[fd]}) (answer (CloseFD fd) k).2;
  d_query O fd name txnFD dl ll : promises (QueryValue_ fd name txnFD dl ll) (owns O) (fun a e _ =>
    e = 0 -> 0 <= q_Data_len a <= dl /\ 0 <= q_Layer_len a <= ll);
  d_notify O fd filter subtree : promises (Notify_ fd filter subtree) (owns O) (fun _ _ _ => True);
  d_emit O ty payload : promises (KmesEmit ty payload) (owns O) (fun _ _ _ => True);
  d_nonblock O fd k : owns O k -> owns O (answer (SetNonblock fd) k).2;
  d_now O k : owns O k -> owns O (answer Now k).2;
  d_read O fd k : owns O k -> let '(((n, data), e), k') := answer (ReadFD fd policyWatchBuf) k in
    owns O k' /\ n <= policyWatchBuf /\ ((e = 0 /\ 0 < n) \/ e = Errno.EINTR -> (backlog k' < backlog k)%nat);
  d_fuel k : Inv k -> (backlog k < fuel)%nat
}.
Context {D : Descriptors}.

(** ** Requests *)

(** The outcome of an open: a new descriptor, or an error and no change. *)
Definition opens (O : gset Z) (o : outcome Z) (w : world rcall K) : Prop :=
  (exists r, o = Ok r /\ 0 <= r /\ (r ∉ O) /\ owns ({[r]} ∪ O) (kst w)) \/ (exists e, o = Err e) /\ owns O (kst w).

Lemma open_owns O parentFD path access w : owns O (kst w) -> total (RegKey.openAt parentFD path access 0) w (opens O).
Proof.
  intros Ho. unfold RegKey.openAt. apply total_bind, total_lift. unfold opens, BytePtrFromString.
  destruct (bool_decide _); cbn [wrap_err]; [eauto|]. unfold Sys.checked.
  apply total_bind. eapply total_transit; [apply d_open|done|]. intros r e k HP. cbv beta in HP.
  destruct (Z.eqb_spec e 0) as [->|]; [apply total_ret; left|apply total_throw; right]; eauto.
Qed.

Lemma close_call O fd w : 0 <= fd -> owns O (kst w) ->
  total (RegKey.Close fd) w (fun o w' => (exists x, o = Ok x) /\ owns (O ∖ {[fd]}) (kst w')).
Proof.
  intros Hfd Ho. unfold RegKey.Close. destruct (Z.ltb_spec fd 0); [lia|]. apply total_bind, total_once.
  pose proof (d_close O fd (kst w) Ho) as Hc. destruct (answer (CloseFD fd) (kst w)) as [[[] e] k].
  apply total_ret. eauto.
Qed.

Lemma close_owns O fd w : 0 <= fd -> owns O (kst w) ->
  total (RegKey.Close fd;; mret tt) w (fun o w' => o = Ok tt /\ owns (O ∖ {[fd]}) (kst w')).
Proof.
  intros Hfd Ho. apply total_bind. eapply total_mono; [by apply close_call|]. intros o w' [[x ->] Ho']. by apply total_ret.
Qed.

Lemma arm_owns O k filter subtree w : owns O (kst w) ->
  total (arm k filter subtree) w (fun o w' => (exists b, o = Ok b) /\ owns O (kst w')).
Proof.
  intros Ho. unfold arm, RegKey.Watch, Sys.checked. apply total_bind, total_try, total_bind.
  eapply total_call; [apply d_notify|done|]. intros r e k' Hk _ _.
  destruct (e =? 0); [apply total_ret|by apply total_throw, total_ret; eauto].
  apply total_bind, total_once. cbn [kst]. pose proof (d_nonblock O k k' Hk) as Hn.
  destruct (answer (SetNonblock k) k') as [[[] e'] k'']. apply total_ret. eauto.
Qed.

Lemma now_owns O w : owns O (kst w) -> total now w (fun o w' => (exists t, o = Ok t) /\ owns O (kst w')).
Proof.
  intros Ho. unfold now. apply total_bind, total_once. pose proof (d_now O (kst w) Ho) as Hn.
  destruct (answer Now (kst w)) as [[t e] k]. apply total_ret. eauto.
Qed.

(** ** Reading the watch *)

(** The classification ends on any bytes: every record it passes is at least a header. *)
Lemma classify_loop_ends n buf off news : 0 <= off -> zlen buf - off <= Z.of_nat n ->
  exists news', classify_loop n buf off news = Ok news'.
Proof.
  revert off news. induction n as [|n IH]; intros off news Ho Hn; cbn [classify_loop];
    (destruct (Z.leb_spec (zlen buf) off) as [|Hlt]; [eauto|]); [lia|].
  rewrite watch_min_size, watch_total_len, watch_type, watch_name_len, watch_name.
  rewrite slice_from_ok, bind_Ok by lia. set (rec := drop (Z.to_nat off) buf).
  assert (Hrec : zlen rec = zlen buf - off) by (unfold rec; len).
  destruct (Z.ltb_spec (zlen rec) 8); [eauto|].
  destruct (get_le_at 4 rec 0) as [total| |] eqn:Et; [|by rewrite get_le_at_ok in Et by lia..].
  rewrite bind_Ok. destruct (Z.ltb_spec total 8), (Z.ltb_spec (zlen rec) total); cbn [orb]; eauto.
  rewrite slice_ok, bind_Ok by lia. set (r := zseg 0 total rec). assert (Hr : zlen r = total) by (unfold r; rewrite zlen_zseg; lia).
  rewrite (get_le_at_ok 2 r 4), bind_Ok by lia. destruct (_ =? REG_WATCH_KEY_DELETED); [|rewrite bind_Ok; apply IH; lia].
  destruct (get_le_at 2 r 6) as [nl| |] eqn:En; [|by rewrite get_le_at_ok in En by lia..].
  apply get_le_at_Ok_inv in En as (_&_&Hnl&_). rewrite bind_Ok.
  destruct (Z.ltb_spec (zlen r) (8 + nl + 2)); [|rewrite get_le_at_ok by lia]; rewrite !bind_Ok; apply IH; lia.
Qed.

Lemma classify_ends buf : exists news, classifyRecords buf = Ok news.
Proof. apply classify_loop_ends; [done|]. unfold zlen. lia. Qed.

Lemma drain_loop_owns n O k news w : owns O (kst w) -> (backlog (kst w) < n)%nat ->
  total (drain_loop n k news) w (fun o w' => (exists news', o = Ok news') /\ owns O (kst w')).
Proof.
  revert news w. induction n as [|n IH]; intros news w Ho Hn; [lia|]. cbn [drain_loop]. apply total_bind, total_once.
  pose proof (d_read O k (kst w) Ho) as Hr. destruct (answer (ReadFD k policyWatchBuf) (kst w)) as [[[r data] e] k'].
  destruct Hr as (Ho' & Hr & Hb). destruct (Z.eqb_spec e 0) as [->|He].
  - destruct (Z.ltb_spec 0 r); [|apply total_ret; eauto].
    rewrite slice_ok, bind_Ok by (unfold zlen; rewrite ?length_go_copy; fold (zlen (make_bytes policyWatchBuf));
      rewrite ?zlen_make_bytes by done; lia).
    destruct (classify_ends (zseg 0 r (go_copy (make_bytes policyWatchBuf) data))) as [got ->].
    apply total_bind, total_lift. cbn [gone].
    destruct (_ || _); [apply total_ret; eauto|]. apply IH; cbn [kst]; [done|]. assert (backlog k' < backlog (kst w))%nat by auto. lia.
  - destruct (Z.eqb_spec e Errno.EINTR) as [->|]; [|by destruct (negb _); apply total_ret; eauto].
    apply IH; cbn [kst]; [done|]. assert (backlog k' < backlog (kst w))%nat by auto. lia.
Qed.

Lemma drain_owns O p w : owns O (kst w) ->
  total (drain fuel p) w (fun o w' => (exists news, o = Ok (news, bool_decide (is_Some (watched_key p)))) /\ owns O (kst w')).
Proof.
  intros Ho. unfold drain. destruct (watched_key p) as [k|]; [|apply total_ret; eauto].
  apply total_bind. eapply total_mono; [apply drain_loop_owns; [done|apply d_fuel, Ho]|].
  intros o w' [[news ->] Ho']. apply total_ret. eauto.
Qed.

(** ** Walking the registry *)

Lemma query_owns O k name w : owns O (kst w) ->
  total (RegKey.QueryValue k name) w (fun o w' => o <> Panic /\ owns O (kst w')).
Proof.
  intros Ho. unfold RegKey.QueryValue, RegKey.queryValueIn. apply total_bind.
  eapply (total_probe (fun _ _ w => owns O (kst w))); [done|by intros|]. clear w Ho. intros _ [data layer] w Ho.
  unfold RegKey.queryValue_round. apply total_bind. eapply total_call; [apply d_query|done|].
  intros a e k' Ho' HP _. cbv beta in HP. destruct (Z.eqb_spec e 0) as [->|He].
  - cbn [is_errno]. destruct (HP eq_refl) as [Hd Hl]. pose proof (wrap_le 32 (zlen data) (zlen_nonneg _)).
    pose proof (wrap_le 32 (zlen layer) (zlen_nonneg _)).
    rewrite !slice_ok by (unfold zlen; rewrite ?length_go_copy; fold (zlen data) (zlen layer); lia).
    apply total_bind, total_lift, total_bind, total_lift. set (d := zseg _ _ _).
    pose proof (RegValue.Decode_exact (q_Type a) d) as Hdec. destruct (RegValue.Decode (q_Type a) d) as [v|e|]; [|done..].
    by apply total_bind, total_lift, total_ret, total_ret.
  - destruct (is_errno _ _); [by apply total_ret|by apply total_throw].
Qed.

Lemma enabled_owns O r k w : owns O (kst w) ->
  total (enabled (liveTree r) k) w (fun o w' => (exists s, o = Ok s) /\ owns O (kst w')).
Proof.
  intros Ho. cbn [enabled liveTree]. unfold tree_enabled. apply total_bind, total_try.
  eapply total_mono; [by apply query_owns|]. intros [v|e|] w' [Hp Ho']; [..|done]; apply total_ret; eauto.
Qed.

(** The walk has [k] open on top of [O]: the root is the policy's own. *)
Definition walks (r : Z) (O : gset Z) (k : Z) (w : world rcall K) : Prop :=
  if bool_decide (k = r) then owns O (kst w) else 0 <= k /\ (k ∉ O) /\ owns ({[k]} ∪ O) (kst w).

Lemma close_new O k w : 0 <= k -> (k ∉ O) -> owns ({[k]} ∪ O) (kst w) ->
  total (RegKey.Close k;; mret tt) w (fun o w' => o = Ok tt /\ owns O (kst w')).
Proof.
  intros Hk Hn Ho. eapply total_mono; [by apply close_owns|]. intros o w' [-> Ho']. split; [done|].
  by replace (({[k]} ∪ O) ∖ {[k]}) with O in Ho' by set_solver.
Qed.

Lemma release_owns r O k w : walks r O k w ->
  total (release (liveTree r) k) w (fun o w' => o = Ok tt /\ owns O (kst w')).
Proof.
  unfold walks. cbn [release liveTree]. unfold tree_release. case_bool_decide as Hr.
  - subst k. rewrite Z.eqb_refl. intros Ho. by apply total_ret.
  - apply Z.eqb_neq in Hr as ->. intros (Hk & Hn & Ho). by apply close_new.
Qed.

(** Releasing a key while its child is open. *)
Lemma release_below r O k k' w : r ∈ O -> 0 <= k' ->
  (if bool_decide (k = r) then (k' ∉ O) /\ owns ({[k']} ∪ O) (kst w)
   else 0 <= k /\ (k ∉ O) /\ (k' ∉ {[k]} ∪ O) /\ owns ({[k']} ∪ ({[k]} ∪ O)) (kst w)) ->
  total (release (liveTree r) k) w (fun o w' => o = Ok tt /\ walks r O k' w').
Proof.
  intros Hroot Hk'. cbn [release liveTree]. unfold tree_release, walks. case_bool_decide as Hr.
  - subst k. rewrite Z.eqb_refl. intros [Hn Ho]. apply total_ret. split; [done|].
    rewrite bool_decide_eq_false_2 by set_solver. done.
  - apply Z.eqb_neq in Hr as ->. intros (Hk & Hn & Hn' & Ho). eapply total_mono; [by apply close_owns|].
    intros o w' [-> Ho']. split; [done|]. rewrite bool_decide_eq_false_2 by set_solver. split_and!; [done|set_solver|].
    by replace (({[k']} ∪ ({[k]} ∪ O)) ∖ {[k]}) with ({[k']} ∪ O) in Ho' by set_solver.
Qed.

Lemma walk_owns r O segs k found w : r ∈ O -> walks r O k w ->
  total (walk (liveTree r) segs (Some k) found) w (fun o w' => (exists s, o = Ok s) /\ owns O (kst w')).
Proof.
  intros Hr. revert k found w. induction segs as [|seg segs IH]; intros k found w Hk; cbn [walk]; apply total_bind.
  all: set (Ok_ := if bool_decide (k = r) then O else {[k]} ∪ O).
  all: assert (Howns : owns Ok_ (kst w)) by (unfold walks in Hk; unfold Ok_; case_bool_decide; [done|apply Hk]).
  all: assert (Hback : forall w' : world rcall K, owns Ok_ (kst w') -> walks r O k w')
         by (intros w' Hw; unfold walks, Ok_ in *; case_bool_decide; [done|]; destruct Hk as (?&?&_); by split_and!).
  all: (eapply total_mono; [by apply enabled_owns|]); intros o w' [[s ->] Ho]; apply total_bind.
  - eapply total_mono; [by apply release_owns, Hback|]. intros o w'' [-> Ho']. apply total_ret. eauto.
  - cbn [child liveTree]. unfold tree_child. apply total_bind, total_try.
    eapply total_mono; [apply open_owns; exact Ho|]. intros o w'' [(k' & -> & Hk' & Hn & Ho')|[[e ->] Ho']].
    + apply total_ret, total_bind. eapply total_mono; [eapply (release_below r O k k'); [done|done|]|].
      * unfold walks, Ok_ in *. case_bool_decide; [done|]. destruct Hk as (?&?&_). by split_and!.
      * intros o w3 [-> Hw]. by apply IH.
    + apply total_ret, total_bind. eapply total_mono; [by apply release_owns, Hback|].
      intros o w3 [-> Ho3]. destruct segs; cbn [walk]; apply total_ret; eauto.
Qed.

Lemma resolve_owns r O segs w : r ∈ O -> owns O (kst w) ->
  total (resolve (liveTree r) segs) w (fun o w' => (exists s, o = Ok s) /\ owns O (kst w')).
Proof.
  intros Hr Ho. unfold resolve. apply total_bind. cbn [root liveTree]. apply total_ret. apply walk_owns; [done|].
  unfold walks. by rewrite bool_decide_eq_true_2.
Qed.

(** ** The handles of a policy *)

Definition handles (p : Policy) : gset Z := list_to_set (option_list (root_ p) ++ option_list (ancestor p)).

(** The fields agree: one handle at most; only a root is watched as a root; what is remembered was read below a
    root, and there is not too much of it; nothing is held once closed. *)
Definition consistent (p : Policy) : Prop :=
  (root_ p = None \/ ancestor p = None)
  /\ (rootWatched p = true -> root_ p <> None)
  /\ (root_ p = None -> cache p = ∅)
  /\ (size (cache p) <= policyCacheMax)%nat
  /\ (closed p = true -> root_ p = None /\ ancestor p = None).

(** The policy is consistent and its handles, beside the descriptors [B] of the rest of the process, are what is open. *)
Definition lives (B : gset Z) (p : Policy) (w : world rcall K) : Prop :=
  consistent p /\ (forall k, k ∈ handles p -> 0 <= k /\ (k ∉ B)) /\ owns (handles p ∪ B) (kst w).

(** An operation that ends with a policy that lives. *)
Definition keeps (B : gset Z) (m : M rcall K Policy) (w : world rcall K) (Q : Policy -> Prop) : Prop :=
  total m w (fun o w' => exists p, o = Ok p /\ Q p /\ lives B p w').

Lemma handles_root p k : root_ p = Some k -> ancestor p = None -> handles p = {[k]}.
Proof. intros Hr Ha. unfold handles. rewrite Hr, Ha. cbn. set_solver. Qed.
Lemma handles_ancestor p k : root_ p = None -> ancestor p = Some k -> handles p = {[k]}.
Proof. intros Hr Ha. unfold handles. rewrite Hr, Ha. cbn. set_solver. Qed.
Lemma handles_none p : root_ p = None -> ancestor p = None -> handles p = ∅.
Proof. intros Hr Ha. unfold handles. by rewrite Hr, Ha. Qed.

(** The two shapes in which a policy holds a handle, and the one in which it does not. *)
Lemma lives_root B p k w : root_ p = Some k -> ancestor p = None -> closed p = false ->
  (size (cache p) <= policyCacheMax)%nat -> 0 <= k -> (k ∉ B) -> owns ({[k]} ∪ B) (kst w) -> lives B p w.
Proof.
  intros Hr Ha Hc Hs Hk Hn Ho. unfold lives, consistent. rewrite (handles_root p k), Hr, Ha, Hc by done.
  split_and!; try done; [by right|set_solver].
Qed.
Lemma lives_no_root B p w : root_ p = None -> rootWatched p = false -> cache p = ∅ ->
  (closed p = true -> ancestor p = None) ->
  match ancestor p with Some k => 0 <= k /\ (k ∉ B) /\ owns ({[k]} ∪ B) (kst w) | None => owns B (kst w) end -> lives B p w.
Proof.
  intros Hr Hw He Hc Ho. unfold lives, consistent. rewrite Hr, Hw, He, map_size_empty.
  destruct (ancestor p) as [k|] eqn:Ea.
  - rewrite (handles_ancestor p k) by done. destruct Ho as (?&?&?).
    assert (closed p = true -> False) by (intros E; by discriminate (Hc E)).
    split_and!; [by left|done|done|lia|done|set_solver|done].
  - rewrite (handles_none p), union_empty_l_L by done. split_and!; [by left|done|done|lia|done|set_solver|done].
Qed.

Lemma close_key_owns B k w : (forall x, k = Some x -> 0 <= x /\ (x ∉ B)) -> owns (list_to_set (option_list k) ∪ B) (kst w) ->
  total (close_key k) w (fun o w' => o = Ok tt /\ owns B (kst w')).
Proof.
  intros Hk Ho. destruct k as [k|]; cbn [close_key].
  - destruct (Hk k eq_refl). apply close_new; [done|done|].
    by replace (list_to_set (option_list (Some k)) ∪ B) with ({[k]} ∪ B : gset Z) in Ho by set_solver.
  - apply total_ret. split; [done|]. by replace (list_to_set (option_list None) ∪ B) with B in Ho by set_solver.
Qed.

Definition torn_down (p : Policy) : Policy := mkPolicy None false None (retryAt p) ∅ (closed p).

Lemma teardown_lives B p w : lives B p w ->
  total (teardown p) w (fun o w' => o = Ok (torn_down p) /\ owns B (kst w')).
Proof.
  intros ((Hx & _) & Hh & Ho). unfold teardown, handles in *.
  apply total_bind. eapply total_mono; [eapply (close_key_owns (list_to_set (option_list (ancestor p)) ∪ B))|].
  - intros x E. rewrite E in *. destruct Hx as [|Hx]; [done|]. rewrite Hx. destruct (Hh x); [set_solver|]. split; [done|set_solver].
  - by rewrite list_to_set_app_L, <- (assoc_L (∪)) in Ho.
  - intros o w' [-> Ho']. apply total_bind. eapply total_mono; [eapply (close_key_owns B); [|exact Ho']|].
    + intros x E. apply Hh. rewrite E. set_solver.
    + intros o w'' [-> Ho'']. by apply total_ret.
Qed.

(** ** Opening and watching what is there *)

Lemma watch_ancestor_owns B paths w : owns B (kst w) ->
  total (watch_ancestor paths) w (fun o w' =>
    o = Ok None /\ owns B (kst w') \/ exists a, o = Ok (Some a) /\ 0 <= a /\ (a ∉ B) /\ owns ({[a]} ∪ B) (kst w')).
Proof.
  revert w. induction paths as [|path paths IH]; intros w Ho; cbn [watch_ancestor]; [apply total_ret; by left|].
  apply total_bind, total_try. eapply total_mono; [by apply open_owns|]. intros o w' [(a & -> & Ha & Hn & Ho')|[[e ->] Ho']].
  - apply total_bind. eapply total_mono; [by apply arm_owns|]. intros o w'' [[[] ->] Ho''].
    + apply total_ret. right. by exists a.
    + apply total_bind. eapply total_mono; [by apply close_call|]. intros o w3 [[x ->] Ho3]. apply IH.
      by replace (({[a]} ∪ B) ∖ {[a]}) with B in Ho3 by set_solver.
  - by apply IH.
Qed.

Lemma establish_loop_lives B n p w : lives B p w -> root_ p = None -> closed p = false ->
  keeps B (establish_loop n p) w (fun p' => closed p' = false).
Proof.
  revert p w. induction n as [|n IH]; intros p w Hl Hr Hc; cbn [establish_loop]; [apply total_ret; eauto|].
  pose proof Hl as ((_ & Hw & He & _) & Hh & Ho). specialize (He Hr).
  assert (rootWatched p = false) as Hw' by (destruct (rootWatched p); [by destruct Hw|done]).
  assert (handles p = list_to_set (option_list (ancestor p))) as Eh by (unfold handles; by rewrite Hr).
  apply total_bind, total_try. eapply total_mono; [by apply open_owns|]. intros o w' [(k & -> & Hk & Hn & Ho')|[[e ->] Ho']].
  - apply total_bind. eapply total_mono; [apply (close_key_owns ({[k]} ∪ B))|].
    + intros x E. rewrite Eh, E in Hh, Hn. destruct (Hh x); [set_solver|]. split; [done|set_solver].
    + rewrite Eh in Ho'. by replace (list_to_set (option_list (ancestor p)) ∪ ({[k]} ∪ B))
        with ({[k]} ∪ (list_to_set (option_list (ancestor p)) ∪ B) : gset Z) by set_solver.
    + intros o w'' [-> Ho'']. apply total_bind. eapply total_mono; [by apply arm_owns|]. intros o w3 [[b ->] Ho3].
      apply total_ret. eexists. split; [done|]. split; [done|].
      apply (lives_root B _ k); cbn [root_ ancestor closed cache]; try done; [rewrite He, map_size_empty; lia|set_solver].
  - assert (Hl' : lives B p w') by (by split_and!; try apply Hl).
    destruct (_ || _) eqn:Eg; [apply total_ret; eauto|]. apply orb_false_iff in Eg as [_ Ea%bool_decide_eq_false].
    destruct (ancestor p) as [|] eqn:Eanc; [by destruct Ea|].
    replace (handles p ∪ B) with B in Ho' by (rewrite Eh; set_solver).
    apply total_bind. eapply total_mono; [by apply watch_ancestor_owns|]. intros o w'' [[-> Ho'']|(a & -> & Ha & Hna & Ho'')].
    + apply total_ret. eexists. split; [done|]. split; [done|]. apply lives_no_root; by cbn.
    + apply IH; cbn [root_ closed]; [|done..]. apply lives_no_root; cbn [root_ rootWatched cache closed ancestor]; try done.
      by rewrite Hc.
Qed.

Lemma establish_lives B p w : lives B p w -> closed p = false -> keeps B (establish p) w (fun p' => closed p' = false).
Proof.
  intros Hl Hc. unfold establish. apply total_bind. eapply total_mono; [by apply teardown_lives|]. intros o w' [-> Ho].
  apply total_bind. eapply total_mono; [apply (establish_loop_lives B); [by apply lives_no_root|done..]|].
  intros o w'' (p' & -> & Hc' & Hl'). destruct (negb _ && _); [|apply total_ret; eauto].
  pose proof Hl' as (Hcons & Hh & Ho'). apply total_bind. eapply total_mono; [apply now_owns; exact Ho'|].
  intros o w3 [[t ->] Ho3]. apply total_ret. eexists. split; [done|]. split; [done|]. by split_and!.
Qed.

(** ** The operations *)

Lemma watched_key_lives B p w : lives B p w -> is_Some (watched_key p) -> closed p = false.
Proof.
  intros ((_&_&_&_&Hc)&_) [k Hk]. destruct (closed p); [|done]. destruct Hc as [Hr Ha]; [done|].
  unfold watched_key in Hk. by rewrite Hr, Ha in Hk.
Qed.

(** Clearing the cache, or adding to it below a root. *)
Lemma lives_cache B p c w : lives B p w -> (root_ p = None -> c = ∅) -> (size c <= policyCacheMax)%nat ->
  lives B (mkPolicy (root_ p) (rootWatched p) (ancestor p) (retryAt p) c (closed p)) w.
Proof. intros ((?&?&_&_&?)&Hh&Ho) Hc Hs. by split_and!. Qed.

Lemma lives_owns B p w : lives B p w -> owns (handles p ∪ B) (kst w).
Proof. by intros (_&_&?). Qed.
Lemma lives_at B p w w' : lives B p w -> owns (handles p ∪ B) (kst w') -> lives B p w'.
Proof. intros (?&?&_) ?. by split_and!. Qed.

Lemma refresh_lives B p w : lives B p w -> keeps B (refresh fuel p) w (fun p' => closed p' = closed p).
Proof.
  intros Hl. unfold refresh. apply total_bind. eapply total_mono; [by apply drain_owns, lives_owns|].
  intros o w' [[news ->] Ho]. pose proof (lives_at _ _ _ _ Hl Ho) as Hl'. clear Ho.
  case_bool_decide as Hk; cbn [negb].
  - pose proof (watched_key_lives _ _ _ Hl Hk) as Hc. destruct (_ || _).
    { eapply total_mono; [by apply establish_lives|]. intros o w'' (p' & -> & ? & ?). exists p'. split_and!; [done|congruence|done]. }
    destruct (changed news); apply total_ret; [|by exists p].
    eexists. split; [done|]. split; [done|]. apply lives_cache; [done|done|]. rewrite map_size_empty. lia.
  - destruct (closed p) eqn:Hc; [apply total_ret; by exists p|].
    apply total_bind. eapply total_mono; [by apply now_owns, lives_owns|]. intros o w'' [[t ->] Ho].
    pose proof (lives_at _ _ _ _ Hl Ho) as Hl''. destruct (negb _); [|apply total_ret; by exists p].
    by apply establish_lives.
Qed.

Lemma setting_of_lives B p ty segs w : lives B p w ->
  total (setting_of p ty segs) w (fun o w' => exists p' s, o = Ok (p', s) /\ closed p' = closed p /\ lives B p' w').
Proof.
  intros Hl. unfold setting_of. destruct (root_ p) as [r|] eqn:Er; [|apply total_ret; by exists p, unset].
  destruct (cache p !! ty) as [s|] eqn:Ec; [apply total_ret; by exists p, s|].
  apply total_bind. eapply total_mono; [apply (resolve_owns r); [|by apply lives_owns]|].
  { unfold handles. rewrite Er. set_solver. }
  intros o w' [[s ->] Ho]. apply total_ret. eexists _, s. split; [done|]. split; [done|]. rewrite <- Er.
  apply lives_cache; [by eapply lives_at|congruence|].
  pose proof Hl as ((_&_&_&Hs&_)&_). unfold policyCacheMax in *. rewrite map_size_insert.
  case_bool_decide; [rewrite lookup_empty, map_size_empty; lia|]. rewrite Ec. lia.
Qed.

Lemma Enabled_lives B p ty tier w : lives B p w ->
  total (Enabled fuel p ty tier) w (fun o w' => exists p' r, o = Ok (p', r) /\ closed p' = closed p /\ lives B p' w').
Proof.
  intros Hl. unfold Enabled. destruct (policySegments ty) as [segs|]; [|apply total_ret; eauto].
  destruct (_ <? _); [apply total_ret; eauto|]. destruct (_ =? _); [apply total_ret; eauto|].
  apply total_bind. eapply total_mono; [by apply refresh_lives|]. intros o w' (p' & -> & Hc & Hl').
  apply total_bind. eapply total_mono; [by apply setting_of_lives|]. intros o w'' (p'' & s & -> & Hc' & Hl'').
  apply total_ret. eexists _, _. split; [done|]. split; [congruence|done].
Qed.

(** The caller's closure: it ends, does not panic and leaves the descriptors as they were. *)
Definition harmless (build : M rcall K bytes) : Prop :=
  forall O w, owns O (kst w) -> total build w (fun o w' => o <> Panic /\ owns O (kst w')).

Lemma Emit_owns O ty payload w : owns O (kst w) -> total (Emit ty payload) w (fun o w' => o <> Panic /\ owns O (kst w')).
Proof.
  intros Ho. unfold Emit. destruct (_ <? _); [by apply total_throw|]. destruct (_ <? _); [by apply total_throw|].
  unfold Sys.checked. apply total_bind, total_bind. eapply total_call; [apply d_emit|done|]. intros r e k Ho' _ _.
  destruct (e =? 0); [by apply total_ret, total_ret|by apply total_throw].
Qed.

Lemma EmitWith_lives B p ty tier build w : lives B p w -> harmless build ->
  total (EmitWith fuel p ty tier build) w (fun o w' => exists p' r, o = Ok (p', r) /\ closed p' = closed p /\ lives B p' w').
Proof.
  intros Hl Hb. unfold EmitWith. apply total_bind. eapply total_mono; [by apply Enabled_lives|].
  intros o w' (p' & r & -> & Hc & Hl'). destruct r as [[]|e]; [|apply total_ret; eauto 6..].
  apply total_bind, total_try. eapply total_mono; [by apply Hb, lives_owns|]. intros [payload|e|] w'' [Hp Ho]; [| |done].
  - apply total_bind, total_try. eapply total_mono; [by apply Emit_owns|]. intros [[]|e|] w3 [Hp' Ho3]; [..|done];
      apply total_ret; do 2 eexists; (split; [done|]); (split; [done|]); by eapply lives_at.
  - apply total_ret. do 2 eexists. split; [done|]. split; [done|]. by eapply lives_at.
Qed.

Lemma Close_lives B p w : lives B p w -> keeps B (Close p) w (fun p' => closed p' = true).
Proof.
  intros Hl. unfold Close. apply total_bind. eapply total_mono; [by apply teardown_lives|]. intros o w' [-> Ho].
  apply total_ret. eexists. split; [done|]. split; [done|]. by apply lives_no_root.
Qed.

Lemma OpenPolicy_lives B w : owns B (kst w) -> keeps B OpenPolicy w (fun p => closed p = false).
Proof. intros Ho. apply (establish_lives B); [by apply lives_no_root|done]. Qed.

(** ** The state machine *)

Inductive op :=
  | OpEnabled (eventType : bytes) (tier : Z)
  | OpEmit (eventType : bytes) (tier : Z) (build : M rcall K bytes)
  | OpClose.
Definition allowed (o : op) : Prop := match o with OpEmit _ _ build => harmless build | _ => True end.

(** What an operation does to the policy; what it answers is the subject of the theorems of Policy.v. *)
Definition perform (o : op) (p : Policy) : M rcall K Policy :=
  match o with
  | OpEnabled ty tier => '(p, _) ← Enabled fuel p ty tier; mret p
  | OpEmit ty tier build => '(p, _) ← EmitWith fuel p ty tier build; mret p
  | OpClose => Close p
  end.

(** The policy [p] in the world [w], the rest of the process holding [B]: just opened, after an operation, or after
    the registry changed and the rest of the process opened and closed descriptors of its own. *)
Inductive reachable : gset Z -> Policy -> world rcall K -> Prop :=
  | reach_open B p w w' : owns B (kst w) -> OpenPolicy w = Some (Ok p, w') -> reachable B p w'
  | reach_step B o p p' w w' : reachable B p w -> allowed o -> perform o p w = Some (Ok p', w') -> reachable B p' w'
  | reach_elsewhere B B' p w w' : reachable B p w -> (forall k, k ∈ handles p -> (k ∉ B')) -> owns (handles p ∪ B') (kst w') ->
      reachable B' p w'.

Lemma perform_lives B o p w : lives B p w -> allowed o ->
  keeps B (perform o p) w (fun p' => closed p' = (if o is OpClose then true else closed p)).
Proof.
  intros Hl Ha. destruct o as [ty tier|ty tier build|]; cbn [perform].
  - apply total_bind. eapply total_mono; [by apply Enabled_lives|]. intros o w' (p' & r & -> & ? & ?). apply total_ret. eauto.
  - apply total_bind. eapply total_mono; [by apply EmitWith_lives|]. intros o w' (p' & r & -> & ? & ?). apply total_ret. eauto.
  - by apply Close_lives.
Qed.

Lemma reachable_lives B p w : reachable B p w -> lives B p w.
Proof.
  induction 1 as [B p w w' Ho Hr|B o p p' w w' _ IH Ha Hr|B B' p w w' _ IH Hh Ho].
  - eapply total_fun in Hr; [|by apply OpenPolicy_lives]. cbn in Hr. by destruct Hr as (? & [= <-] & _ & ?).
  - eapply total_fun in Hr; [|by apply perform_lives]. cbn in Hr. by destruct Hr as (? & [= <-] & _ & ?).
  - destruct IH as (? & Hk & _). split_and!; [done| |done]. intros k Hin. split; [by apply Hk|by apply Hh].
Qed.

(** C39: the life of a policy, whatever the registry answers and however it changes between two requests.
    [OpenPolicy] never fails; in every reachable state every operation ends without a panic, in a reachable state; the
    descriptors open are those of the rest of the process and at most one of the policy's, on the root or on an
    ancestor; only a root that is open is watched as one, decisions are remembered only below a root, and at most
    [policyCacheMax] of them; and a closed policy stays closed, holds no descriptor and remembers nothing. *)
Theorem policy_lifecycle :
  (forall B w, owns B (kst w) -> exists p w', OpenPolicy w = Some (Ok p, w') /\ reachable B p w' /\ closed p = false)
  /\ (forall B p w, reachable B p w ->
       opened (kst w) = handles p ∪ B /\ (forall k, k ∈ handles p -> (k ∉ B))
       /\ (root_ p = None \/ ancestor p = None)
       /\ (rootWatched p = true -> root_ p <> None)
       /\ (root_ p = None -> cache p = ∅)
       /\ (size (cache p) <= policyCacheMax)%nat
       /\ (closed p = true -> handles p = ∅ /\ opened (kst w) = B)
       /\ (forall o, allowed o -> exists p' w', perform o p w = Some (Ok p', w') /\ reachable B p' w'
              /\ closed p' = (if o is OpClose then true else closed p))).
Proof.
  split.
  - intros B w Ho. destruct (OpenPolicy_lives B w Ho) as (? & w' & Hr & p & -> & Hc & _).
    exists p, w'. split_and!; [done|by eapply reach_open|done].
  - intros B p w Hr. pose proof (reachable_lives _ _ _ Hr) as ((Hx & Hw & He & Hs & Hc) & Hh & _ & Ho).
    split_and!; [done|by intros k Hk; apply Hh|done..| |].
    + intros E. destruct (Hc E) as [H1 H2]. pose proof (handles_none p H1 H2) as E0. split; [done|]. rewrite Ho, E0. set_solver.
    + intros o Ha. destruct (perform_lives B o p w) as (? & w' & Hp & p' & -> & Hc' & _); [by apply reachable_lives|done|].
      exists p', w'. split_and!; [done|by eapply reach_step|done].
Qed.
End life.

(** ** A concrete registry *)

(** The root of the policy is not there at first; one record announces it.  Every key says on.  Used by the witness only. *)
Module Sample.
#[local] Existing Instance pkm.

Record state := mkState { fds : gset Z; there : bool; news : bool }.
Definition new_fd (s : gset Z) : Z := Z.of_N (fresh (set_map Z.to_N s : gset N)).
Definition created : bytes := RegWire.pack_record (RegWire.mkRecord REG_WATCH_SUBKEY_CREATED (str "Events") None).

Definition respond {A} (c : rcall A) (k : state) : (A * Z) * state :=
  match c in rcall A return (A * Z) * state with
  | OpenKey _ path _ _ =>
      if bool_decide (path = policyRoot) && negb (there k) then (0, Errno.ENOENT, k)
      else let r := new_fd (fds k) in (r, 0, mkState ({[r]} ∪ fds k) (there k) (news k))
  | CloseFD fd => (tt, 0, mkState (fds k ∖ {[fd]}) (there k) (news k))
  | QueryValue_ _ _ _ dl ll => (RegKey.Sample.query dl ll (RegKey.mkHeld 4 [x01; x00; x00; x00] (str "base") 1), k)
  | ReadFD _ _ => if news k then ((zlen created, created), 0, mkState (fds k) true false) else ((0, []), Errno.EAGAIN, k)
  | CreateKey _ _ _ _ _ _ => ((0, 0), Errno.EACCES, k)
  | QueryValuesBatch _ _ _ => (mkBatch 0 0 [], 0, k)
  | EnumSubkeys _ _ _ _ => (mkEnum 0 0 0 0 [], Errno.ENOENT, k)
  | QueryKeyInfo _ _ => (mkInfoArgs 0 0 0 0 0 0 0 0 0 0 0 [], 0, k)
  | GetSecurity _ _ _ => ((0, []), 0, k)
  | BeginTransaction | TxnStatus _ | Now | KmesEmitBatch _ => (0, 0, k)
  | CommitTxn _ | SetSecurity _ _ _ _ | Flush_ _ | Backup_ _ _ | Restore_ _ _ | SetValue_ _ _ _ _ _ _ _ | DeleteValue_ _ _ _ _
  | BlanketTombstone_ _ _ _ _ | DeleteKey_ _ _ _ | HideKey_ _ _ _ | Notify_ _ _ _ | SetNonblock _ | KmesEmit _ _ => (tt, 0, k)
  end.
#[global] Instance kernel : Kernel rcall state := {| answer A c k := respond c k; patience := 1 |}.

#[global] Instance settled : Settles rcall state.
Proof.
  apply (settles_never 0); [done|]. intros A c k. destruct c; try discriminate; cbn -[bool_decide].
  - by destruct (_ && _).
  - unfold RegKey.Sample.query. by destruct (_ && _).
  - by destruct (news k).
Qed.

Lemma new_fd_fresh s : 0 <= new_fd s /\ (new_fd s ∉ s).
Proof.
  unfold new_fd. split; [lia|]. intros Hin. apply (is_fresh (set_map Z.to_N s : gset N)), elem_of_map.
  eexists. split; [|exact Hin]. by rewrite N2Z.id.
Qed.

Definition pending (k : state) : nat := if news k then 1 else 0.
#[global] Instance descriptors : Descriptors (fun _ => True) fds pending 2.
Proof.
  split; unfold owns.
  - intros O fd path access flags k [_ <-]. cbn -[bool_decide]. destruct (_ && _); cbn; [done|].
    by destruct (new_fd_fresh (fds k)).
  - by intros O fd k [_ <-].
  - intros O fd name txn dl ll k [_ <-]. cbn. unfold RegKey.Sample.query.
    destruct (_ && _) eqn:E; [|done]. apply andb_true_iff in E as [?%Z.leb_le ?%Z.leb_le].
    cbn in *. split; [done|]. intros _ _. unfold zlen in *. cbn in *. lia.
  - by intros O fd filter subtree k [_ <-].
  - by intros O ty payload k [_ <-].
  - by intros O fd k [_ <-].
  - by intros O k [_ <-].
  - intros O fd k [_ <-]. cbn -[created]. unfold pending. destruct (news k); cbn -[created].
    + split; [done|]. split; [by vm_compute|]. intros _. lia.
    + split; [done|]. split; [done|]. unfold Errno.EAGAIN, Errno.EINTR. lia.
  - intros k _. unfold pending. destruct (news k); lia.
Qed.

Definition start : world rcall state := World (mkState {[ 0; 1; 2 ]} false true) [].
End Sample.

(** The policy finds the root, decides, and closes; what is open then is what was open before. *)
Lemma policy_lifecycle_witness :
  exists p0 w0 p1 w1 p2 w2,
    @OpenPolicy pkm Sample.state Sample.kernel Sample.start = Some (Ok p0, w0)
    /\ @perform pkm Sample.state Sample.kernel 2 (OpEnabled (str "kacs.x") TierDebug) p0 w0 = Some (Ok p1, w1)
    /\ @perform pkm Sample.state Sample.kernel 2 OpClose p1 w1 = Some (Ok p2, w2)
    /\ Sample.fds (kst w2) = {[ 0; 1; 2 ]}.
Proof.
  destruct (@policy_lifecycle pkm pkm_WatchLaws pkm_RegLaws Sample.state Sample.kernel Sample.settled (fun _ => True)
    Sample.fds Sample.pending 2 Sample.descriptors) as [Hopen Hlife].
  destruct (Hopen {[ 0; 1; 2 ]} Sample.start) as (p0 & w0 & H0 & R0 & _); [by split|].
  destruct (Hlife _ _ _ R0) as (_&_&_&_&_&_&_&Hs0). destruct (Hs0 (OpEnabled (str "kacs.x") TierDebug) I) as (p1 & w1 & H1 & R1 & _).
  destruct (Hlife _ _ _ R1) as (_&_&_&_&_&_&_&Hs1). destruct (Hs1 OpClose I) as (p2 & w2 & H2 & R2 & Hc).
  destruct (Hlife _ _ _ R2) as (_&_&_&_&_&_&Hc2&_). exists p0, w0, p1, w1, p2, w2. split_and!; [done..|]. by apply Hc2.
Defined.

(** It held an ancestor first, and the root when it decided. *)
Example found_the_root :
  match @OpenPolicy pkm Sample.state Sample.kernel Sample.start with
  | Some (Ok p, w) =>
      match @Enabled pkm Sample.state Sample.kernel 2 p (str "kacs.x") TierDebug w with
      | Some (Ok (p', inl b), w') => (bool_decide (root_ p = None) && bool_decide (is_Some (ancestor p))
          && bool_decide (is_Some (root_ p')) && bool_decide (ancestor p' = None) && b
          && bool_decide (size (Sample.fds (kst w')) = 4%nat))%bool
      | _ => false
      end
  | _ => false
  end = true.
Proof. vm_compute. reflexivity. Qed.
End PolicyLife.
