(* ===== verification/RegFrame.v ===== *)
(** * RegFrame: what the operations of the registry can touch (registry/, registry/layers, event/policy.go)

    A bound on the requests an operation makes, whatever the kernel answers and
    however the operation ends ([emits]).  A write goes to the key, the layer and the
    transaction of its view and nowhere else; an operation on a key bound to a
    transaction is enlisted in it, and one on a plain key in none; what reads does not
    write; and a closure run by [Transact] that keeps to its transaction changes
    nothing outside it. *)

From S2P Require Import Prelude Outcome GoStd Uapi Sid Kernel RegValue RegWire RegKey RegTxn Policy.

Module RegFrame.
Import RegKey.

Section frames.
Context {U : Uapi} {K : Type} {H : Kernel rcall K}.
Abbreviation R := (M rcall K).

(** ** Requests *)

(** Requests that can change what the registry holds, or send an event. *)
Definition mutates {A} (c : rcall A) : bool :=
  match c with
  | CreateKey _ _ _ _ _ _ | SetSecurity _ _ _ _ | Restore_ _ _ | SetValue_ _ _ _ _ _ _ _ | DeleteValue_ _ _ _ _
  | BlanketTombstone_ _ _ _ _ | DeleteKey_ _ _ _ | HideKey_ _ _ _ | CommitTxn _ | KmesEmit _ _ | KmesEmitBatch _ => true
  | _ => false
  end.

(** The key and the transaction a request names, if it is one that can be enlisted. *)
Definition enlists {A} (c : rcall A) : option (Z * Z) :=
  match c with
  | QueryValue_ fd _ tx _ _ | QueryValuesBatch fd tx _ | EnumSubkeys fd _ tx _ | SetSecurity fd _ _ tx
  | SetValue_ fd _ _ _ _ tx _ | DeleteValue_ fd _ _ tx | BlanketTombstone_ fd _ _ tx | DeleteKey_ fd _ tx
  | HideKey_ fd _ tx => Some (fd, tx)
  | _ => None
  end.
(** The layer a write names. *)
Definition targets {A} (c : rcall A) : option bytes :=
  match c with
  | SetValue_ _ _ _ _ layer _ _ | DeleteValue_ _ _ layer _ | BlanketTombstone_ _ layer _ _ | DeleteKey_ _ layer _
  | HideKey_ _ layer _ => Some layer
  | _ => None
  end.
(** The transaction that a change is part of. *)
Definition part_of {A} (c : rcall A) : option Z :=
  match c with
  | CreateKey _ _ _ _ _ tx => Some tx
  | CommitTxn fd => Some (int32 fd)
  | c => snd <$> enlists c
  end.

(** A write to one layer of one key, in one transaction. *)
Definition addressed (fd txnFD : Z) (layer : bytes) (ev : event rcall) : Prop :=
  enlists (ev_call ev) = Some (fd, int32 txnFD) /\ targets (ev_call ev) = Some (ptr_len layer).
Definition on_key (fd txnFD : Z) (ev : event rcall) : Prop := enlists (ev_call ev) = Some (fd, int32 txnFD).
Definition read_only (ev : event rcall) : Prop := mutates (ev_call ev) = false.
(** Every change is part of [tx]. *)
Definition within (tx : Z) (ev : event rcall) : Prop :=
  mutates (ev_call ev) = true -> part_of (ev_call ev) = Some (int32 tx).

(** ** Operations *)

(** The writes of a layer view. *)
Inductive write :=
  | WSet (name : bytes) (v : RegValue.Value) | WSetIf (name : bytes) (v : RegValue.Value) (seq : Z)
  | WTombstone (name : bytes) | WDelete (name : bytes) | WBlanket (set : bool) | WDeleteKey | WHideKey.
Definition perform (lw : LayerWrite) (x : write) : R unit :=
  match x with
  | WSet name v => SetValue lw name v
  | WSetIf name v seq => SetValueIf lw name v seq
  | WTombstone name => TombstoneValue lw name
  | WDelete name => DeleteValue lw name
  | WBlanket set => BlanketTombstone lw set
  | WDeleteKey => DeleteKey lw
  | WHideKey => HideKey lw
  end.

(** ** Writes and reads of a key *)

Lemma emits_perform lw x : emits (addressed (w_key lw) (w_txnFD lw) (w_layer lw)) (perform lw x).
Proof.
  destruct x; cbn [perform]; unfold SetValue, SetValueIf, TombstoneValue, DeleteValue, BlanketTombstone, DeleteKey, HideKey, writeValue;
    emitting; done.
Qed.

(** A read of the key, in the transaction. *)
Definition queries (fd txnFD : Z) (ev : event rcall) : Prop := on_key fd txnFD ev /\ read_only ev.

(** The reads of a key, in its transaction ([Txn.TxnKey]) and outside one. *)
Inductive read :=
  | RValue (name : bytes) | RValueFull (name : bytes) | RTryValue (name : bytes) | RValues | RSubkeys (fuel : nat).
Definition read_bound (tk : Txn.TxnKey) (r : read) : R unit :=
  match r with
  | RValue name => Txn.QueryValue tk name;; mret tt
  | RValueFull name => Txn.QueryValueFull tk name;; mret tt
  | RTryValue name => Txn.TryQueryValue tk name;; mret tt
  | RValues => Txn.Values tk;; mret tt
  | RSubkeys fuel => Txn.Subkeys fuel tk;; mret tt
  end.
Definition read_plain (fd : Z) (r : read) : R unit :=
  match r with
  | RValue name => QueryValue fd name;; mret tt
  | RValueFull name => QueryValueFull fd name;; mret tt
  | RTryValue name => TryQueryValue fd name;; mret tt
  | RValues => Values fd;; mret tt
  | RSubkeys fuel => Subkeys fuel fd;; mret tt
  end.
(** What else only reads. *)
Inductive inspect :=
  | IOpen (path : bytes) (access : Z) | IOpenSubkey (fd : Z) (path : bytes) (access : Z) | IClose (fd : Z) | IInfo (fd : Z)
  | ISecurity (fd info : Z) | IWatch (fd filter : Z) (subtree : bool) | IDisarm (fd : Z) | IReadEvents (fd : Z)
  | IStatus (tx : Z) | ILayer (name : bytes) | ILayers (fuel : nat)
  | IOpenPolicy | IEnabled (fuel : nat) (p : Policy.Policy) (type : bytes) (tier : Z) | IClosePolicy (p : Policy.Policy).
Definition look (i : inspect) : R unit :=
  match i with
  | IOpen path access => Open path access;; mret tt
  | IOpenSubkey fd path access => OpenSubkey fd path access;; mret tt
  | IClose fd => Close fd;; mret tt
  | IInfo fd => Info fd;; mret tt
  | ISecurity fd info => Security fd info;; mret tt
  | IWatch fd filter subtree => Watch fd filter subtree
  | IDisarm fd => Disarm fd
  | IReadEvents fd => ReadEvents fd;; mret tt
  | IStatus tx => Txn.Status tx;; mret tt
  | ILayer name => Layers.Get name;; mret tt
  | ILayers fuel => Layers.List_ fuel;; mret tt
  | IOpenPolicy => Policy.OpenPolicy;; mret tt
  | IEnabled fuel p type tier => Policy.Enabled fuel p type tier;; mret tt
  | IClosePolicy p => Policy.Close p;; mret tt
  end.

Lemma emits_queryValueIn fd name tx : emits (queries fd tx) (queryValueIn fd name tx).
Proof. unfold queryValueIn, queryValue_round. emitting; done. Qed.
Lemma emits_tryQueryValueIn fd name tx : emits (queries fd tx) (tryQueryValueIn fd name tx).
Proof. pose proof emits_queryValueIn. unfold tryQueryValueIn. emitting; auto. Qed.
Lemma emits_valuesIn fd tx : emits (queries fd tx) (valuesIn fd tx).
Proof. unfold valuesIn, values_round. emitting; done. Qed.
Lemma emits_subkeysIn fuel fd tx : emits (queries fd tx) (subkeysIn fuel fd tx).
Proof.
  unfold subkeysIn. generalize 0, (@nil Subkey). induction fuel as [|fuel IH]; intros i out; cbn [subkeys_loop]; [apply emits_none|].
  unfold enumSubkeyAt, enumSubkey_round. emitting; done.
Qed.
Hint Resolve emits_queryValueIn emits_tryQueryValueIn emits_valuesIn emits_subkeysIn : emits.

Lemma emits_read_bound tk r : emits (queries (Txn.key tk) (Txn.txnFD tk)) (read_bound tk r).
Proof.
  destruct r; cbn [read_bound];
    unfold Txn.QueryValue, Txn.QueryValueFull, Txn.TryQueryValue, Txn.Values, Txn.Subkeys; emitting.
Qed.
Lemma emits_read_plain fd r : emits (queries fd noTxn) (read_plain fd r).
Proof.
  destruct r; cbn [read_plain]; unfold QueryValue, QueryValueFull, TryQueryValue, Values, Subkeys; emitting.
Qed.
Lemma on_key_queries {A} fd tx (m : R A) : emits (queries fd tx) m -> emits (on_key fd tx) m.
Proof. apply emits_mono. by intros ev []. Qed.
Lemma read_only_queries {A} fd tx (m : R A) : emits (queries fd tx) m -> emits read_only m.
Proof. apply emits_mono. by intros ev []. Qed.
Lemma emits_setSecurityIn fd info sd tx : emits (on_key fd tx) (setSecurityIn fd info sd tx).
Proof. unfold setSecurityIn. emitting; done. Qed.

Lemma emits_Call c : emits (fun ev => part_of (ev_call ev) = Some (int32 (c_txnFD c))) (Call c).
Proof. unfold Call. emitting; done. Qed.

(** ** Reading *)

Lemma ro_openAt parent path access flags : emits read_only (openAt parent path access flags).
Proof. unfold openAt. emitting; done. Qed.
Lemma ro_Close fd : emits read_only (Close fd).
Proof. unfold Close. emitting; done. Qed.
Lemma ro_query fd name tx : emits read_only (queryValueIn fd name tx).
Proof. eapply read_only_queries, emits_queryValueIn. Qed.
Lemma ro_tryQuery fd name tx : emits read_only (tryQueryValueIn fd name tx).
Proof. eapply read_only_queries, emits_tryQueryValueIn. Qed.
Lemma ro_values fd tx : emits read_only (valuesIn fd tx).
Proof. eapply read_only_queries, emits_valuesIn. Qed.
Lemma ro_subkeys fuel fd tx : emits read_only (subkeysIn fuel fd tx).
Proof. eapply read_only_queries, emits_subkeysIn. Qed.
Lemma ro_Watch fd filter subtree : emits read_only (Watch fd filter subtree).
Proof. unfold Watch. emitting; done. Qed.
Hint Resolve ro_openAt ro_Close ro_query ro_tryQuery ro_values ro_subkeys ro_Watch : emits.

Lemma ro_Info fd : emits read_only (Info fd).
Proof. unfold Info, info_round. emitting; done. Qed.
Lemma ro_Security fd info : emits read_only (Security fd info).
Proof. unfold Security, security_round. emitting; done. Qed.
Lemma ro_ReadEvents fd : emits read_only (ReadEvents fd).
Proof. unfold ReadEvents. emitting; done. Qed.

Lemma ro_Get name : emits read_only (Layers.Get name).
Proof. unfold Layers.Get, Open, TryQueryValue. emitting. Qed.
Hint Resolve ro_Get : emits.
Lemma ro_List fuel : emits read_only (Layers.List_ fuel).
Proof.
  unfold Layers.List_, Open, Subkeys. emitting. clear. generalize (@nil Layers.Info).
  rename a0 into subs. induction subs as [|s subs IH]; intros out; cbn [Layers.list_loop]; emitting.
Qed.
(** ** Transactions *)

(** Changes through a key bound to [tx], and reads, keep to [tx]. *)
Lemma on_key_within fd tx ev : on_key fd tx ev -> within tx ev.
Proof. unfold on_key, within. destruct ev as [A c n]. cbn. destruct c; cbn; intros E' ?; congruence. Qed.
Lemma addressed_on_key fd tx layer ev : addressed fd tx layer ev -> on_key fd tx ev.
Proof. by intros []. Qed.
Lemma read_only_within tx ev : read_only ev -> within tx ev.
Proof. unfold read_only, within. congruence. Qed.

Lemma within_perform lw tx x : w_txnFD lw = tx -> emits (within tx) (perform lw x).
Proof. intros <-. eapply emits_mono, emits_perform. eauto using addressed_on_key, on_key_within. Qed.
Lemma within_SetValue lw tx name v : w_txnFD lw = tx -> emits (within tx) (SetValue lw name v).
Proof. exact (within_perform lw tx (WSet name v)). Qed.
Lemma within_Call tx c : c_txnFD c = tx -> emits (within tx) (Call c).
Proof. intros <-. eapply emits_mono, emits_Call. by intros ev ? ?. Qed.
Lemma within_Close tx fd : emits (within tx) (Close fd).
Proof. eapply emits_mono, ro_Close. apply read_only_within. Qed.
Hint Resolve within_Close : emits.

Lemma within_create_body b tx : emits (within tx) (Layers.create_body b tx).
Proof.
  unfold Layers.create_body. emitting; solve [done | by intros ? | by apply within_SetValue].
Qed.

Lemma within_commit tx : emits (within tx) (Txn.commitWithRetry tx).
Proof.
  unfold Txn.commitWithRetry. generalize Txn.commitRetries. intros n.
  induction n as [|n IH]; cbn [Txn.commit_loop]; emitting; done.
Qed.
Lemma within_txn_Close tx : emits (within tx) (Txn.Close tx).
Proof. unfold Txn.Close. emitting; done. Qed.

(** The transaction is known once it has begun. *)
Lemma Transact_confined body w o w' : (forall tx, emits (within tx) (body tx)) -> Txn.Transact body w = Some (o, w') ->
  exists tx es, trace w' = trace w ++ es /\ Forall (within tx) es.
Proof.
  intros Hb. unfold Txn.Transact. unfold mbind at 1, M_bind at 1.
  assert (Hbegin : forall tx, emits (within tx) Txn.Begin) by (intros tx; unfold Txn.Begin; emitting; done).
  destruct (Txn.Begin w) as [[[tx|e|] w1]|] eqn:E1; [|intros [= _ <-]; exists 0; by eapply Hbegin..|done].
  intros E2. exists tx. eapply (emits_app _ Txn.Begin); [apply Hbegin| |done|exact E2].
  apply emits_deferred; [apply within_txn_Close|]. apply emits_bind; [done|]. intros ?. apply within_commit.
Qed.

Lemma Layer_Call_confined b w o w' : Layers.Call b w = Some (o, w') ->
  exists tx es, trace w' = trace w ++ es /\ Forall (within tx) es.
Proof.
  unfold Layers.Call. unfold mbind, M_bind, lift. destruct (Layers.guardReserved _ _);
    [|intros [= _ <-]; exists 0, []; by rewrite app_nil_r..].
  destruct (Txn.Transact _ w) as [[o1 w1]|] eqn:E1; [|done]. intros E2.
  assert (w' = w1) as -> by (destruct o1; by injection E2).
  eapply Transact_confined, E1. apply within_create_body.
Qed.

(** ** The policy *)

Lemma ro_OpenSubkey fd seg access : emits read_only (OpenSubkey fd seg access).
Proof. apply ro_openAt. Qed.
Lemma ro_Open path access : emits read_only (Open path access).
Proof. apply ro_openAt. Qed.
Lemma ro_QueryValue fd name : emits read_only (QueryValue fd name).
Proof. unfold QueryValue. emitting. Qed.
Hint Resolve ro_OpenSubkey ro_Open ro_QueryValue : emits.

Lemma ro_close_key k : emits read_only (Policy.close_key k).
Proof. unfold Policy.close_key. emitting. Qed.
Hint Resolve ro_close_key : emits.
Lemma ro_teardown p : emits read_only (Policy.teardown p).
Proof. unfold Policy.teardown. emitting. Qed.
Lemma ro_arm k filter subtree : emits read_only (Policy.arm k filter subtree).
Proof. unfold Policy.arm. emitting; done. Qed.
Lemma ro_now : emits read_only Policy.now.
Proof. unfold Policy.now. emitting; done. Qed.
Hint Resolve ro_teardown ro_arm ro_now : emits.
Lemma ro_watch_ancestor paths : emits read_only (Policy.watch_ancestor paths).
Proof. induction paths as [|path paths IH]; cbn [Policy.watch_ancestor]; emitting. Qed.
Hint Resolve ro_watch_ancestor : emits.
Lemma ro_establish_loop n p : emits read_only (Policy.establish_loop n p).
Proof. revert p. induction n as [|n IH]; intros p; cbn [Policy.establish_loop]; emitting. Qed.
Hint Resolve ro_establish_loop : emits.
Lemma ro_establish p : emits read_only (Policy.establish p).
Proof. unfold Policy.establish. emitting. Qed.
Lemma ro_drain_loop fuel k n : emits read_only (Policy.drain_loop fuel k n).
Proof. revert n. induction fuel as [|fuel IH]; intros n; cbn [Policy.drain_loop]; emitting; done. Qed.
Hint Resolve ro_establish ro_drain_loop : emits.
Lemma ro_drain fuel p : emits read_only (Policy.drain fuel p).
Proof. unfold Policy.drain. emitting. Qed.
Hint Resolve ro_drain : emits.
Lemma ro_refresh fuel p : emits read_only (Policy.refresh fuel p).
Proof. unfold Policy.refresh. emitting. Qed.
Lemma ro_walk root_ segs key found : emits read_only (Policy.walk (Policy.liveTree root_) segs key found).
Proof.
  revert key found. induction segs as [|seg segs IH]; intros key found; cbn [Policy.walk]; destruct key as [k|];
    cbn [Policy.enabled Policy.release Policy.child Policy.liveTree];
    unfold Policy.tree_enabled, Policy.tree_release, Policy.tree_child; emitting.
Qed.
Hint Resolve ro_refresh ro_walk : emits.
Lemma ro_setting_of p ty segs : emits read_only (Policy.setting_of p ty segs).
Proof. unfold Policy.setting_of, Policy.resolve. emitting. Qed.
Hint Resolve ro_setting_of : emits.
Lemma ro_Enabled fuel p ty tier : emits read_only (Policy.Enabled fuel p ty tier).
Proof. unfold Policy.Enabled. emitting. Qed.

(** An event of type [ty] is sent. *)
Definition sends (ty : bytes) (ev : event rcall) : Prop :=
  match ev_call ev with KmesEmit t _ => t = ty | _ => False end.

Lemma emits_EmitWith P fuel p ty tier build : emits P build ->
  emits (fun ev => P ev \/ sends ty ev \/ read_only ev) (Policy.EmitWith fuel p ty tier build).
Proof.
  intros Hb. unfold Policy.EmitWith, Policy.Emit. apply emits_bind.
  { eapply emits_mono, ro_Enabled. auto. }
  intros [p' r]. assert (emits (fun ev => P ev \/ sends ty ev \/ read_only ev) build) by (eapply emits_mono, Hb; auto).
  emitting. by right; left.
Qed.
Hint Resolve ro_Info ro_Security ro_ReadEvents ro_List ro_Enabled : emits.
Lemma ro_look i : emits read_only (look i).
Proof.
  destruct i; cbn [look]; unfold Disarm, Txn.Status, Policy.OpenPolicy, Policy.Close; emitting; done.
Qed.

(** [C34] What an operation of the registry can touch, whatever the kernel answers and however the operation ends.
    A write goes to the key of its view, the layer of the view - the base layer has the empty name - and its
    transaction; the view of a plain key is in none, the view of a bound key in its transaction.  A read of a key
    makes only reads of that key, in that transaction, and so sees what the transaction wrote; a create is part of
    the transaction it was given.  What only looks - opening, closing, watching, listing layers, deciding a
    policy - changes nothing, and a gated emission sends events of its own type only.  When the body of a [Transact]
    keeps its changes to the transaction it is handed, as the views of its [TxnKey]s and its creates do, so does the whole run,
    commits and close included; creating a layer is such a run. *)
Theorem registry_frames :
  (forall fd name x, emits (addressed fd noTxn name) (perform (KeyLayer fd name) x)
     /\ emits (addressed fd noTxn []) (perform (Base fd) x))
  /\ (forall tk name x, emits (addressed (Txn.key tk) (Txn.txnFD tk) name) (perform (Txn.Layer tk name) x)
     /\ emits (addressed (Txn.key tk) (Txn.txnFD tk) []) (perform (Txn.Base tk) x))
  /\ (forall fd r, emits (queries fd noTxn) (read_plain fd r))
  /\ (forall tk r, emits (queries (Txn.key tk) (Txn.txnFD tk)) (read_bound tk r))
  /\ (forall fd info sd, emits (on_key fd noTxn) (KeySetSecurity fd info sd))
  /\ (forall tk info sd, emits (on_key (Txn.key tk) (Txn.txnFD tk)) (Txn.TxnSetSecurity tk info sd))
  /\ (forall i, emits read_only (look i))
  /\ (forall P fuel p ty tier build, emits P build ->
        emits (fun ev => P ev \/ sends ty ev \/ read_only ev) (Policy.EmitWith fuel p ty tier build))
  /\ (forall tx path access key name x, let tk := Txn.At tx key in
        emits (within tx) (Call (Access access (Txn.Create tx path)))
        /\ emits (within tx) (perform (Txn.Layer tk name) x) /\ emits (within tx) (perform (Txn.Base tk) x))
  /\ (forall body w o w', (forall tx, emits (within tx) (body tx)) -> Txn.Transact body w = Some (o, w') ->
        exists tx es, trace w' = trace w ++ es /\ Forall (within tx) es)
  /\ (forall b w o w', Layers.Call b w = Some (o, w') -> exists tx es, trace w' = trace w ++ es /\ Forall (within tx) es).
Proof.
  split_and!.
  - intros. split; apply emits_perform.
  - intros. split; apply emits_perform.
  - exact emits_read_plain.
  - exact emits_read_bound.
  - intros. apply emits_setSecurityIn.
  - intros. apply emits_setSecurityIn.
  - exact ro_look.
  - exact emits_EmitWith.
  - intros. split_and!; [by apply within_Call|by apply within_perform..].
  - exact Transact_confined.
  - exact Layer_Call_confined.
Qed.
End frames.

(** A closure that sets a value of key 3 in its transaction. *)
Lemma registry_frames_witness :
  let body tx := SetValue (U := pkm) (H := RegKey.Sample.kernel) (Txn.Base (Txn.At tx 3)) (str "Mode") (@RegValue.DWORD pkm 1) in
  let w := World RegKey.Sample.start [] in
  (forall tx, emits (within tx) (body tx))
  /\ match Txn.Transact body w with
     | Some (o, w') => o = Ok tt /\ exists tx es, trace w' = trace w ++ es /\ Forall (within tx) es
     | None => False
     end.
Proof.
  intros body w.
  pose proof (registry_frames (U := pkm) (H := RegKey.Sample.kernel)) as (_&_&_&_&_&_&_&_&Hat&Ht&_).
  assert (Hb : forall tx, emits (within tx) (body tx)).
  { intros tx. apply (Hat tx [] 0 3 [] (WSet (str "Mode") (@RegValue.DWORD pkm 1))). }
  split; [exact Hb|]. destruct (Txn.Transact body w) as [[o w']|] eqn:E.
  - split; [|by apply (Ht body w o w')]. vm_compute in E. by injection E as <- _.
  - vm_compute in E. discriminate E.
Defined.
End RegFrame.
