(* ===== verification/Kacs.v ===== *)
(** * Kacs: the requests the access-control packages make of the kernel

    The system calls and token ioctls of sd/getset.go, sd/accesscheck.go, sd/caap.go, token/ and files/, each a
    constructor that carries what the kernel reads: the argument registers, and
    for an argument struct its fields, a pointer field being the buffer it
    addresses ([None] for a null pointer) beside the length the code stores.  The
    answer is the result register and what the kernel writes back.  The two last
    requests are to the Go runtime, which pins a goroutine to its thread. *)

From S2P Require Import Prelude Outcome Kernel.

(** The buffer a pointer field addresses: null when the slice is empty. *)
Definition bufPtr (b : bytes) : option bytes := match b with [] => None | _ => Some b end.

(** [uint32(len(b))] *)
Definition len32 (b : bytes) : Z := wrap 32 (zlen b).

(** What the kernel reads through a pointer and a 32-bit length. *)
Definition read_ptr (p : option bytes) (len : Z) : bytes :=
  match p with Some b => take (Z.to_nat len) b | None => [] end.

Lemma read_ptr_bufPtr b : zlen b < 2 ^ 32 -> read_ptr (bufPtr b) (len32 b) = b.
Proof.
  intros Hb. pose proof (zlen_nonneg b). unfold len32, wrap. rewrite Z.mod_small by lia. destruct b; [done|].
  cbn [bufPtr read_ptr]. apply take_ge. unfold zlen. lia.
Qed.

(** [Kacs_access_check_args] *)
Record check_args := mkCheckArgs {
  Caller_size : Z; Token_fd : Z;
  Sd_ptr : option bytes; Sd_len : Z;
  Desired_access : Z; Mapping_read : Z; Mapping_write : Z; Mapping_execute : Z; Mapping_all : Z;
  Self_sid_ptr : option bytes; Self_sid_len : Z;
  Privilege_intent : Z;
  Object_tree_ptr : option bytes; Object_tree_count : Z;
  Local_claims_ptr : option bytes; Local_claims_len : Z;
  Pip_type : Z; Pip_trust : Z;
  Audit_context_ptr : option bytes; Audit_context_len : Z
}.

(** [Kacs_open_how] *)
Record open_how := mkHow {
  how_Desired_access : Z; how_Create_disposition : Z; how_Create_options : Z; how_Flags : Z;
  how_Sd_ptr : option bytes; how_Sd_len : Z
}.

(** [Kacs_mount_policy_args], written back by the kernel on a get: its length field, and the bytes at the
    start of the template buffer. *)
Record mount_args := mkMount { m_Policy : Z; m_Generation : Z; m_Template_sd_len : Z; m_template : bytes }.

Inductive kcall : Type -> Type :=
  (** sd *)
  | GetSD_ (dirfd : Z) (path : bytes) (info len flags : Z) : kcall (Z * bytes)
  | SetSD_ (dirfd : Z) (path : bytes) (info : Z) (sd : bytes) (flags : Z) : kcall unit
  | AccessCheck_ (args : check_args) : kcall Z
  | AccessCheckList_ (args : check_args) (count : Z) : kcall (list (Z * Z))
  | SetCAAP_ (sid spec : bytes) : kcall unit
  (** token *)
  | OpenSelfToken (flags access : Z) : kcall Z
  | OpenProcessToken (pidfd access : Z) : kcall Z
  | OpenThreadToken (pidfd tid access : Z) : kcall Z
  | OpenPeerToken (sockfd : Z) : kcall Z
  | CreateToken (spec : bytes) : kcall Z
  | IocQuery (fd class buf_len : Z) : kcall (Z * bytes)
  | IocDuplicate (fd access_mask token_type level : Z) : kcall Z
  | IocRestrict (fd privs_to_delete num_deny num_restrict : Z) (data : option bytes) (data_len flags : Z) : kcall Z
  | IocInstall (fd : Z) : kcall unit
  | IocLinkTokens (fd elevated_fd filtered_fd session : Z) : kcall unit
  | IocGetLinkedToken (fd : Z) : kcall Z
  | IocAdjustPrivs (fd count : Z) (entries : list (Z * Z)) : kcall Z
  | IocAdjustGroups (fd count : Z) (entries : list (Z * Z)) : kcall (list Z)
  | IocAdjustDefault (fd : Z) (dacl : option bytes) (dacl_len owner group : Z) : kcall unit
  | IocAdjustSessionID (fd id : Z) : kcall unit
  | IocImpersonate (fd : Z) : kcall unit
  | ImpersonatePeer_ (sockfd : Z) : kcall unit
  | SetImpersonationLevel_ (sockfd level : Z) : kcall unit
  | Revert : kcall unit
  | CreateSession_ (spec : bytes) : kcall Z
  | DestroyEmptySession_ (id : Z) : kcall unit
  | SetPSB_ (pidfd mitigations : Z) : kcall unit
  (** files *)
  | KacsOpen (dirfd : Z) (path : bytes) (how : open_how) : kcall (Z * Z)
  | GetMountPolicy_ (fd : Z) (template_len : Z) : kcall mount_args
  | SetMountPolicy_ (fd policy generation : Z) (template : option bytes) (template_len : Z) : kcall unit
  | CloseFD_ (fd : Z) : kcall unit
  (** the Go runtime *)
  | LockOSThread : kcall unit
  | UnlockOSThread : kcall unit.

(** A call into the Go runtime: it does not reach the kernel. *)
Definition runtime_call {K} (c : kcall unit) : M kcall K unit :=
  fun w => Some (Ok tt, World (kst w) (trace w ++ [Ev c 0])).

Lemma total_runtime {K} (c : kcall unit) (w : world kcall K) Q :
  Q (Ok tt) (World (kst w) (trace w ++ [Ev c 0])) -> total (runtime_call c) w Q.
Proof. intros H. by eexists _, _. Qed.

(** The contract of a read that is told how big a buffer it needs, on a call [c len] that answers [(n, data)]:
    while the state is in [Inv] the object holds [cur], and a request with a buffer of [len] bytes gives its length and
    writes it at the start of the buffer if it fits, and writes nothing otherwise. *)
Definition serves_sized {K} {H : Kernel kcall K} (c : Z -> kcall (Z * bytes)) (Inv : K -> Prop) (cur : K -> bytes) : Prop :=
  forall len, promises (c len) Inv (fun o e k =>
    e = 0 -> o = (zlen (cur k), if zlen (cur k) <=? len then cur k else [])).

(** ** Reads of a size the kernel knows *)

Section sized.
Context {K : Type} {H : Kernel kcall K}.
Abbreviation R := (M kcall K).

(** The shape GetSD and Query share: a probe with an empty buffer, a fetch with a buffer of the size it
    reports, and an error when the object outgrew the buffer in between. *)
Definition read_sized (msg grew : string) (c : Z -> kcall (Z * bytes)) : R bytes :=
  '(needed, _) ← Sys.checked msg (c 0);
  if needed =? 0 then mret [] else
  let buf := make_bytes needed in
  '(got, written) ← Sys.checked msg (c (zlen buf));
  if needed <? got then throw (Errorf grew) else
  lift (slice (go_copy buf written) 0 got).

Context {S : Settles kcall K}.

(** One request of a sized read. *)
Lemma total_checked_sized msg c Inv cur len w (Q : outcome (Z * bytes) -> world kcall K -> Prop) :
  serves_sized c Inv cur -> Inv (kst w) ->
  (forall r w', Inv (kst w') -> asked (c len) w w' r 0 ->
     Q (Ok (zlen (cur (kst w')), if zlen (cur (kst w')) <=? len then cur (kst w') else [])) w') ->
  (forall r w' n, Inv (kst w') -> asked (c len) w w' r n -> n <> 0 -> Q (Err (Wrapf msg (Errno n))) w') ->
  total (Sys.checked msg (c len)) w Q.
Proof.
  intros Hs Hi H0 He. apply total_bind. eapply (total_call _ Inv (fun o e k => (e = 0 -> o = _) /\ exists k0, answer (c len) k0 = ((o, e), k)));
    [|done|].
  - intros k Hk. specialize (Hs len k Hk). destruct (answer (c len) k) as [[o e] k'] eqn:Ea. destruct Hs as [Hk' HP].
    split; [done|]. intros Hne. split; [exact (HP Hne)|by exists k].
  - intros o e k Hk [HP Ha] Hne. destruct (Z.eqb_spec e 0) as [->|Hz].
    + apply total_ret. rewrite HP by done. by apply (H0 o (World k _)).
    + apply total_throw. by apply (He o (World k _)).
Qed.

(** What a sized read does, exactly: one request that fails, one that finds nothing there, or two.  When the second
    succeeds the read returns what the object holds then if the buffer, which has the size the first reported, can
    hold it, and is an error otherwise. *)
Definition sized_read (c : Z -> kcall (Z * bytes)) (cur : K -> bytes) (w : world kcall K) (o : outcome bytes) (w' : world kcall K) : Prop :=
  let failed c w w' := exists r n, asked c w w' r n /\ n <> 0 /\ exists msg, o = Err (Wrapf msg (Errno n)) in
  failed (c 0) w w'
  \/ (exists r, asked (c 0) w w' r 0) /\ cur (kst w') = [] /\ o = Ok []
  \/ exists w1, (exists r, asked (c 0) w w1 r 0) /\ cur (kst w1) <> [] /\
       (failed (c (zlen (cur (kst w1)))) w1 w'
        \/ (exists r, asked (c (zlen (cur (kst w1)))) w1 w' r 0)
           /\ if zlen (cur (kst w1)) <? zlen (cur (kst w')) then exists msg, o = Err (Errorf msg) else o = Ok (cur (kst w'))).

Lemma sized_read_safe c cur w w' : ~ sized_read c cur w Panic w'.
Proof.
  unfold sized_read. intros [(?&?&?&?&?&?)|[(_&_&?)|(w1&_&_&[(?&?&?&?&?&?)|[_ Ho]])]]; [done..|].
  destruct (zlen (cur (kst w1)) <? _); [by destruct Ho|done].
Qed.

Lemma total_read_exact msg grew c Inv cur w : serves_sized c Inv cur -> Inv (kst w) ->
  total (read_sized msg grew c) w (fun o w' => Inv (kst w') /\ sized_read c cur w o w').
Proof.
  intros Hs Hi. unfold read_sized. apply total_bind. eapply total_checked_sized; [done|done| |].
  2: { intros r w' n Hk Ha Hn. split; [done|]. left. exists r, n. eauto. }
  intros r w1 Hk Ha. cbv beta iota. pose proof (zlen_nonneg (cur (kst w1))).
  destruct (Z.eqb_spec (zlen (cur (kst w1))) 0) as [E|E].
  { apply total_ret. split; [done|]. right; left. apply zlen_0_inv in E. eauto. }
  assert (Hne : cur (kst w1) <> []) by (intros E'; by rewrite E' in E).
  rewrite zlen_make_bytes by done. apply total_bind. eapply total_checked_sized; [done|done| |].
  2: { intros r' w' n Hk' Ha' Hn. split; [done|]. right; right. exists w1. split_and!; eauto. left. exists r', n. eauto. }
  intros r' w' Hk' Ha'. cbv beta iota. destruct (Z.ltb_spec (zlen (cur (kst w1))) (zlen (cur (kst w')))) as [Hg|Hg].
  - apply total_throw. split; [done|]. right; right. exists w1. split_and!; eauto. right. split; [eauto|].
    rewrite (proj2 (Z.ltb_lt _ _) Hg). eauto.
  - destruct (Z.leb_spec (zlen (cur (kst w'))) (zlen (cur (kst w1)))); [|lia].
    rewrite slice_copied by (rewrite zlen_make_bytes; lia). apply total_lift. split; [done|]. right; right. exists w1.
    split_and!; eauto. right. split; [eauto|]. by rewrite (proj2 (Z.ltb_ge _ _) Hg).
Qed.
End sized.

(** A kernel of constant objects, for the witnesses: it grants what is asked of it, unless its state is an errno. *)
Module SampleKernel.
Definition object : bytes := [x01; x00; x00; x00].
Definition serve_sized (len : Z) : Z * bytes := (4, if 4 <=? len then object else []).
Definition reply {A} (c : kcall A) : A :=
  match c with
  | GetSD_ _ _ _ len _ | IocQuery _ _ len => serve_sized len
  | SetSD_ _ _ _ _ _ | SetCAAP_ _ _ | IocInstall _ | IocLinkTokens _ _ _ _ | IocAdjustDefault _ _ _ _ _
  | IocAdjustSessionID _ _ | IocImpersonate _ | ImpersonatePeer_ _ | SetImpersonationLevel_ _ _ | Revert
  | DestroyEmptySession_ _ | SetPSB_ _ _ | SetMountPolicy_ _ _ _ _ _ | CloseFD_ _ | LockOSThread | UnlockOSThread => tt
  | AccessCheck_ a => Desired_access a
  | AccessCheckList_ a n => replicate (Z.to_nat n) (Desired_access a, 0)
  | OpenSelfToken _ _ | OpenProcessToken _ _ | OpenThreadToken _ _ _ | OpenPeerToken _ | CreateToken _
  | IocDuplicate _ _ _ _ | IocRestrict _ _ _ _ _ _ _ | IocGetLinkedToken _ => 7
  | IocAdjustPrivs _ _ _ | CreateSession_ _ => 1
  | IocAdjustGroups _ _ _ => replicate 16 0
  | KacsOpen _ _ _ => (7, 1)
  | GetMountPolicy_ _ len => mkMount 1 5 4 (if 4 <=? len then object else [])
  end.
(** A call that is about the errno of the state. *)
Definition fallible {A} (c : kcall A) : bool :=
  match c with AccessCheck_ _ | AccessCheckList_ _ _ | Revert => true | _ => false end.
Definition sample_kernel : Kernel kcall bool :=
  {| answer A c k := ((reply c, if fallible c && k then Errno.EACCES else 0), k); patience := 1 |}.
Lemma sample_settles : @Settles kcall bool sample_kernel.
Proof.
  apply (settles_never 0); [done|]. intros A c k. cbn [answer sample_kernel fst snd].
  by destruct (fallible c && k).
Qed.
End SampleKernel.
