(* ===== verification/SdCalls.v ===== *)
(** * SdCalls: reading, writing and checking security descriptors in the kernel

    sd/getset.go (GetSD, SetSD and the pure StripInheritedACEs), sd/accesscheck.go
    (the assembly of a check request and its two calls) and sd/caap.go.  A token
    handle is its descriptor. *)

From S2P Require Import Prelude Outcome Codec Uapi GoStd Sid WellKnown Claims Ace Acl Descriptor Inherit.
From S2P Require Import Msgpack AuditContext Kernel Kacs.

(** ** StripInheritedACEs *)

Module Strip.
Import Ace Inherit.

Section strip.
Context {U : Uapi}.

Definition InfoOwner : Z := KACS_SECINFO_OWNER.
Definition InfoGroup : Z := KACS_SECINFO_GROUP.
Definition InfoDACL : Z := KACS_SECINFO_DACL.
Definition InfoSACL : Z := KACS_SECINFO_SACL.
Definition InfoLabel : Z := KACS_SECINFO_LABEL.
Definition InfoAll : Z := Z.lor (Z.lor (Z.lor InfoOwner InfoGroup) InfoDACL) InfoSACL.

Definition filterInherited (l : Acl.ACL) : Acl.ACL := Acl.mkACL (List.filter explicit (Acl.Entries l)).

(** The descriptor that is marshalled; [fmap] is the test against nil. *)
Definition stripped (d : SD.Descriptor) (info : Z) : SD.Descriptor :=
  SD.mkSD (SD.Control d) (SD.Owner d) (SD.Group d)
    (if has_bit info InfoDACL then filterInherited <$> SD.DACL d else SD.DACL d)
    (if has_bit info InfoSACL then filterInherited <$> SD.SACL d else SD.SACL d).

Definition StripInheritedACEs (sdBytes : bytes) (info : Z) : outcome bytes :=
  if Z.land info (Z.lor InfoDACL InfoSACL) =? 0 then Ok sdBytes else
  d ← wrap_err "strip inherited" (SD.ParseDescriptor sdBytes);
  if negb (has_bit (SD.Control d) KACS_SD_SELF_RELATIVE) then Err ErrNotSelfRelative else
  wrap_err "strip inherited" (SD.Marshal (stripped d info)).

Context `{!AceLaws U, !SdLaws U}.

Lemma stripped_decent d info l : SD.parsed d ->
  SD.DACL (stripped d info) = Some l \/ SD.SACL (stripped d info) = Some l -> Forall decent (Acl.Entries l).
Proof.
  intros (_&_&_&Hd&Hs).
  assert (forall acl (b : bool), (forall l, acl = Some l -> SD.parsed_acl l) ->
    (if b then filterInherited <$> acl else acl) = Some l -> Forall decent (Acl.Entries l)) as H.
  { intros acl b Hl E. assert (forall l, acl = Some l -> Forall decent (Acl.Entries l)) as Hdec.
    { intros l' El. specialize (Hl _ El). apply parsed_decent in Hl. eapply Forall_impl; [exact Hl|]. by intros a [? _]. }
    destruct b; [|by apply Hdec]. destruct acl as [l'|]; [|done]. injection E as <-.
    apply Forall_list_filter. by apply Hdec. }
  intros [E|E]; [by apply (H _ _ Hd E)|by apply (H _ _ Hs E)].
Qed.

(** Parsing gives an ACL only when its presence bit is set. *)
Lemma parsed_presence buf d : SD.ParseDescriptor buf = Ok d ->
  (is_Some (SD.DACL d) -> has_bit (SD.Control d) KACS_SD_DACL_PRESENT = true)
  /\ (is_Some (SD.SACL d) -> has_bit (SD.Control d) KACS_SD_SACL_PRESENT = true).
Proof.
  unfold SD.ParseDescriptor. destruct (_ <? _); [done|].
  intros (c & _ & (oo & _ & (go & _ & (so & _ & (dof & _ & (o & _ & (g & _ & (da & Hd & (sa & Hs & <-%Ok_inj)
    %bind_Ok_inv)%bind_Ok_inv)%bind_Ok_inv)%bind_Ok_inv)%bind_Ok_inv)%bind_Ok_inv)%bind_Ok_inv)%bind_Ok_inv)%bind_Ok_inv.
  cbn [SD.DACL SD.SACL SD.Control]. split.
  - destruct (has_bit c KACS_SD_DACL_PRESENT); [done|]. injection Hd as <-. by intros [? ?].
  - destruct (has_bit c KACS_SD_SACL_PRESENT); [done|]. injection Hs as <-. by intros [? ?].
Qed.

Context `{!SddlLaws U}.

Lemma lor_has_bit c m : In m sd_controls -> has_bit c m = true -> Z.lor c m = c.
Proof.
  intros Hm Hb. pose proof sd_controls_bits as H. rewrite forallb_forall in H. specialize (H m Hm).
  pose proof (land_is_bit c m H) as E. rewrite Hb in E. rewrite <- E. bits.
Qed.

Lemma stripped_control buf d info : SD.ParseDescriptor buf = Ok d -> has_bit (SD.Control d) KACS_SD_SELF_RELATIVE = true ->
  SD.stored_control (stripped d info) = SD.Control d.
Proof.
  intros E Hself. apply parsed_presence in E as [Hd Hs]. unfold SD.stored_control. cbn [SD.Control stripped].
  rewrite (lor_has_bit (SD.Control d) KACS_SD_SELF_RELATIVE) by (done || simpl; tauto).
  assert (forall acl (b : bool), is_Some (if b then filterInherited <$> acl else acl) -> is_Some acl) as Hsome.
  { intros [l|] []; [done..| |done]. by intros [? ?]. }
  unfold stripped. cbn [SD.SACL SD.DACL].
  set (sa := if has_bit info InfoSACL then filterInherited <$> SD.SACL d else SD.SACL d).
  set (da := if has_bit info InfoDACL then filterInherited <$> SD.DACL d else SD.DACL d).
  assert ((if sa is Some _ then Z.lor (SD.Control d) KACS_SD_SACL_PRESENT else SD.Control d) = SD.Control d) as ->.
  { destruct sa eqn:Ea; [|done]. apply lor_has_bit; [simpl; tauto|]. apply Hs. eapply Hsome. unfold sa in Ea. by rewrite Ea. }
  destruct da eqn:Ea; [|done]. apply lor_has_bit; [simpl; tauto|]. apply Hd. eapply Hsome. unfold da in Ea. by rewrite Ea.
Qed.

(** A parsed ACL, filtered, still fits its 65535 bytes. *)
Lemma filtered_Marshal l : SD.parsed_acl l -> Acl.ok (filterInherited l) -> exists w, Acl.Marshal (filterInherited l) = Ok w.
Proof.
  intros [buf (r0&sbz&res&body&rest&_&_&_&Hb&H)%Acl.ParseACL_Ok_inv] Hok. apply Acl.parse_n_size in H. cbn [Acl.aces_size] in H.
  pose proof (Acl.aces_size_filter explicit (Acl.Entries l)). pose proof (Acl.Marshal_size _ Hok) as Hs. cbn [Acl.Entries filterInherited] in Hs.
  destruct (Acl.Marshal _) as [w| |]; [by exists w|lia|done].
Qed.

(** Marshalling the stripped descriptor fails only on an ACE that Marshal refuses wherever it occurs. *)
Lemma stripped_Marshal d info : SD.parsed d ->
  (forall l, SD.DACL (stripped d info) = Some l \/ SD.SACL (stripped d info) = Some l -> Acl.ok l) ->
  exists w, SD.Marshal (stripped d info) = Ok w.
Proof.
  intros (_&Ho&Hg&Hd&Hs) Hok. rewrite SD.Marshal_layout by done.
  assert (forall acl (b : bool), (forall l, acl = Some l -> SD.parsed_acl l) ->
    (forall l, (if b then filterInherited <$> acl else acl) = Some l -> Acl.ok l) ->
    exists w, SD.acl_bytes (if b then filterInherited <$> acl else acl) = Ok w) as HA.
  { intros [l|] b Hl Hk; [|exists []; by destruct b]. destruct b.
    - apply (filtered_Marshal l); auto.
    - destruct (Hl l eq_refl) as [buf Hb]. destruct (Acl.ParseACL_canonical _ _ Hb) as (w & Hw & _); [auto|by exists w]. }
  destruct (HA (SD.SACL d) (has_bit info InfoSACL)) as [sb Hsb]; [done|eauto|].
  destruct (HA (SD.DACL d) (has_bit info InfoDACL)) as [db Hdb]; [done|eauto|].
  unfold stripped. cbn [SD.SACL SD.DACL]. rewrite Hsb, Hdb, !bind_Ok. eauto.
Qed.

Lemma decent_ok_or_hollow es : Forall decent es -> Forall ok es \/ exists a, a ∈ es /\ hollow a.
Proof.
  induction 1 as [|a es [Ha|Ha] _ [IH|(b & Hb & Hh)]]; [by left|by left; constructor| | |]; right; [|exists a..].
  - exists b. split; [by right|done].
  - split; [by left|done].
  - split; [by left|done].
Qed.

Lemma stripped_Marshal_err d info e : SD.parsed d -> SD.Marshal (stripped d info) = Err e ->
  exists l a, (SD.DACL (stripped d info) = Some l \/ SD.SACL (stripped d info) = Some l) /\ a ∈ Acl.Entries l /\ hollow a.
Proof.
  intros Hp He. set (r := stripped d info) in *.
  assert (forall acl, SD.DACL r = acl \/ SD.SACL r = acl ->
    (forall l, acl = Some l -> Acl.ok l) \/ exists l a, acl = Some l /\ a ∈ Acl.Entries l /\ hollow a) as H.
  { intros [l|] Hl; [|by left]. pose proof (decent_ok_or_hollow _ (stripped_decent d info l Hp Hl)) as [Hk|(a & ? & ?)].
    - left. by intros l' [= <-].
    - right. eauto. }
  destruct (H (SD.DACL r)) as [Hd|(l & a & ? & ? & ?)]; [by left| |eauto 6].
  destruct (H (SD.SACL r)) as [Hs|(l & a & ? & ? & ?)]; [by right| |eauto 6].
  destruct (stripped_Marshal d info Hp) as [w Hw]; [naive_solver|]. unfold r in He. congruence.
Qed.

Lemma stripped_safe d info : SD.parsed d -> safe (SD.Marshal (stripped d info)).
Proof. intros (_&?&?&_). by apply SD.SD_Marshal_safe. Qed.

Lemma stripped_parse buf d info w : SD.ParseDescriptor buf = Ok d -> SD.parsed d ->
  has_bit (SD.Control d) KACS_SD_SELF_RELATIVE = true -> SD.Marshal (stripped d info) = Ok w ->
  SD.ParseDescriptor w = Ok (stripped d info).
Proof.
  intros Hb Hp Hself Hw. pose proof Hp as (Hk&Ho&Hg&_). apply decent_parse in Hw; [|done..|].
  - rewrite Hw, (stripped_control _ _ _ Hb Hself). done.
  - intros l. by apply stripped_decent.
Qed.

Lemma stripped_idem d info : stripped (stripped d info) info = stripped d info.
Proof.
  assert (forall acl : option Acl.ACL, filterInherited <$> (filterInherited <$> acl) = filterInherited <$> acl) as H.
  { intros [l|]; [|done]. unfold filterInherited. cbn [fmap option_fmap option_map Acl.Entries]. by rewrite filter_idem. }
  unfold stripped. cbn [SD.Control SD.Owner SD.Group SD.DACL SD.SACL].
  destruct (has_bit info InfoDACL), (has_bit info InfoSACL); by rewrite ?H.
Qed.

(** The inherited ACEs of the DACL are of no account to a derivation of its inheritance. *)
Lemma stripped_reinherited parent d info c : has_bit info InfoSACL = false ->
  reinherited parent (stripped d info) c = reinherited parent d c.
Proof.
  intros Hs. unfold stripped, reinherited. cbn [SD.Control SD.Owner SD.Group SD.DACL SD.SACL]. rewrite Hs.
  destruct (has_bit info InfoDACL), (SD.DACL d) as [l|]; [|done..].
  cbn [fmap option_fmap option_map filterInherited Acl.Entries]. by rewrite filter_idem.
Qed.

Lemma stripped_Reinherit parentSD buf w d info c : has_bit info InfoSACL = false ->
  SD.ParseDescriptor buf = Ok d -> SD.ParseDescriptor w = Ok (stripped d info) ->
  Reinherit parentSD w c = Reinherit parentSD buf c.
Proof.
  intros Hs Hb Hw. unfold Reinherit. destruct (wrap_err _ (SD.ParseDescriptor parentSD)) as [p| |]; [|done..].
  rewrite !bind_Ok, Hb, Hw. cbn [wrap_err]. rewrite !bind_Ok, stripped_reinherited by done. reflexivity.
Qed.
End strip.

(** The ACL with the entries that carry no inherited flag, in order. *)
Definition only_explicit {U : Uapi} (l : Acl.ACL) : Acl.ACL :=
  Acl.mkACL (base.filter (fun a => has_bit (ace_Flags a) FlagInherited = false) (Acl.Entries l)).

Lemma only_explicit_filter {U : Uapi} l : filterInherited l = only_explicit l.
Proof.
  unfold filterInherited, only_explicit. f_equal. induction (Acl.Entries l) as [|a es IH]; [done|].
  rewrite filter_cons. cbn [List.filter]. unfold explicit at 1.
  destruct (has_bit (ace_Flags a) FlagInherited); cbn [negb]; case_decide; congruence.
Qed.

Lemma only_explicit_option {U : Uapi} (acl : option Acl.ACL) : filterInherited <$> acl = only_explicit <$> acl.
Proof. destruct acl as [l|]; [|done]. cbn. by rewrite only_explicit_filter. Qed.

(** C11: [StripInheritedACEs] removes the inherited ACEs and nothing else.  It never panics.  When the selection
    holds neither ACL it returns its input; otherwise what it returns parses as the input's descriptor with the same
    control word, owner and group, each selected ACL keeping exactly its explicit ACEs in order (an absent one staying
    absent) and an unselected one intact, and stripping that again returns the same bytes; and inheritance derived from any
    parent over the result, the SACL not being selected, is the inheritance derived over the input.  It fails only when
    the input does not parse, is not self-relative, or an ACE that is kept is a raw one with an empty body. *)
Theorem StripInheritedACEs_spec {U : Uapi} {LA : AceLaws U} {LS : SdLaws U} {LD : SddlLaws U} (sdBytes : bytes) (info : Z) :
  match StripInheritedACEs sdBytes info with
  | Panic => False
  | Err e => (exists e', SD.ParseDescriptor sdBytes = Err e' /\ e = Wrapf "strip inherited" e')
      \/ exists d, SD.ParseDescriptor sdBytes = Ok d /\
          ((e = ErrNotSelfRelative /\ has_bit (SD.Control d) KACS_SD_SELF_RELATIVE = false)
           \/ exists l a, (SD.DACL (stripped d info) = Some l \/ SD.SACL (stripped d info) = Some l)
                          /\ a ∈ Acl.Entries l /\ hollow a)
  | Ok w =>
      if Z.land info (Z.lor InfoDACL InfoSACL) =? 0 then w = sdBytes else
      exists d d', SD.ParseDescriptor sdBytes = Ok d /\ SD.ParseDescriptor w = Ok d'
        /\ SD.Control d' = SD.Control d /\ SD.Owner d' = SD.Owner d /\ SD.Group d' = SD.Group d
        /\ SD.DACL d' = (if has_bit info InfoDACL then only_explicit <$> SD.DACL d else SD.DACL d)
        /\ SD.SACL d' = (if has_bit info InfoSACL then only_explicit <$> SD.SACL d else SD.SACL d)
        /\ StripInheritedACEs w info = Ok w
        /\ (has_bit info InfoSACL = false -> forall parentSD c, Reinherit parentSD w c = Reinherit parentSD sdBytes c)
  end.
Proof.
  pose proof (SD.ParseDescriptor_cases sdBytes) as Hp. unfold StripInheritedACEs at 1.
  destruct (_ =? 0) eqn:Esel; [done|]. destruct (SD.ParseDescriptor sdBytes) as [d|e|] eqn:Ed; cbn [wrap_err];
    rewrite ?bind_Ok, ?bind_Err; [|by left; eauto|done].
  destruct (has_bit (SD.Control d) KACS_SD_SELF_RELATIVE) eqn:Eself; cbn [negb]; [|by right; eauto 6].
  destruct (SD.Marshal (stripped d info)) as [w|e|] eqn:Ew; cbn [wrap_err].
  - pose proof (stripped_parse _ _ _ _ Ed Hp Eself Ew) as Hw. exists d, (stripped d info).
    split_and!; [done..|by cbn [stripped SD.DACL]; rewrite only_explicit_option|by cbn [stripped SD.SACL]; rewrite only_explicit_option| |].
    + unfold StripInheritedACEs. rewrite Esel, Hw. cbn [wrap_err]. rewrite bind_Ok. cbn [SD.Control stripped]. rewrite Eself.
      cbn [negb]. fold (stripped d info). by rewrite stripped_idem, Ew.
    + intros Hs parentSD c. by eapply stripped_Reinherit.
  - right. exists d. split; [done|]. right. by apply (stripped_Marshal_err d info e).
  - by apply (stripped_safe d info Hp).
Qed.

(** The stale inherited ACE of the test's child goes; the explicit one stays. *)
Lemma StripInheritedACEs_spec_witness :
  exists w d, @StripInheritedACEs pkm test_child 4 = Ok w /\ @SD.ParseDescriptor pkm w = Ok d
    /\ dacl_entries d = [@Allow pkm (WK.SID WK.Anonymous) 0x10000000].
Proof.
  pose proof (@StripInheritedACEs_spec pkm pkm_AceLaws pkm_SdLaws pkm_SddlLaws test_child 4) as H.
  destruct (@StripInheritedACEs pkm test_child 4) as [w| |] eqn:E; [|vm_compute in E; discriminate E..].
  replace (Z.land 4 _ =? 0) with false in H by (vm_compute; reflexivity). destruct H as (d & d' & Hc & Hd & _ & _ & _ & He & _).
  exists w, d'. split; [done|]. split; [done|]. unfold dacl_entries. rewrite He.
  vm_compute in Hc. injection Hc as <-. vm_compute. reflexivity.
Defined.
End Strip.

(** ** Reading and writing a descriptor in the kernel *)

Module SdCalls.
Import Claims Audit Inherit.

Definition atFDCWD : Z := -0x64.
Definition atEmptyPath : Z := 0x1000.
Definition atSymlinkNoFollow : Z := 0x100.

Section defs.
Context {U : Uapi} {K : Type} {H : Kernel kcall K}.
Abbreviation R := (M kcall K).

Record Target := mkTarget { dirfd : Z; path : bytes; flags : Z }.
Definition Path (p : bytes) : Target := mkTarget atFDCWD p 0.
Definition PathAt (fd : Z) (p : bytes) : Target := mkTarget fd p 0.
Definition FD (fd : Z) : Target := mkTarget fd [] atEmptyPath.
Definition NoFollowSymlinks (t : Target) : Target :=
  mkTarget (dirfd t) (path t) (Z.lor (flags t) atSymlinkNoFollow).

Definition GetSD (t : Target) (info : Z) : R bytes :=
  cpath ← lift (wrap_err "get sd: invalid path" (BytePtrFromString (path t)));
  read_sized "get sd" "get sd: descriptor grew between probe and fetch"
    (fun len => GetSD_ (dirfd t) cpath info len (flags t)).

Definition SetSD (t : Target) (info : Z) (sdBytes : bytes) : R unit :=
  cpath ← lift (wrap_err "set sd: invalid path" (BytePtrFromString (path t)));
  Sys.checked "set sd" (SetSD_ (dirfd t) cpath info sdBytes (flags t)).

Definition SetCAAP (policySID : SID.t) (spec : bytes) : R unit :=
  Sys.checked "set caap" (SetCAAP_ (SID.Bytes policySID) spec).

(** ** Access checks *)

Record GenericMapping := mkMapping { Read : Z; Write : Z; Execute : Z; All : Z }.

(** [Token] is the descriptor of the handle; [None] is the nil pointer. *)
Record CheckRequest := mkCheck {
  Token : option Z; SD : bytes; DesiredAccess : Z; Mapping : GenericMapping; SelfSID : SID.t;
  PrivilegeIntent : Z; ObjectTree : list ObjectNode; LocalClaims : list Claim; PIPType : Z; PIPTrust : Z;
  AuditContext : bytes
}.
Record Decision := mkDecision { Granted : bool; GrantedMask : Z }.
Record NodeDecision := mkNodeDecision { NGrantedMask : Z; Status : Z }.

Definition tokenFD (t : option Z) : Z := match t with None => -1 | Some fd => int32 fd end.

Definition check_args_of (req : CheckRequest) (claims : bytes) : check_args :=
  let objTree := EncodeObjectTree (ObjectTree req) in
  let selfSID := if SID.IsValid (SelfSID req) then SID.Bytes (SelfSID req) else [] in
  mkCheckArgs KACS_ACCESS_CHECK_ARGS_SIZE (tokenFD (Token req))
    (bufPtr (SD req)) (len32 (SD req)) (DesiredAccess req)
    (Read (Mapping req)) (Write (Mapping req)) (Execute (Mapping req)) (All (Mapping req))
    (bufPtr selfSID) (len32 selfSID) (PrivilegeIntent req)
    (bufPtr objTree) (wrap 32 (zlen (ObjectTree req)))
    (bufPtr claims) (len32 claims) (PIPType req) (PIPTrust req)
    (bufPtr (AuditContext req)) (len32 (AuditContext req)).

(** [CheckRequest.assemble] *)
Definition assemble (req : CheckRequest) : outcome check_args :=
  if zlen (SD req) =? 0 then Err (Errorf "access check requires a security descriptor") else
  (if 0 <? zlen (AuditContext req) then ValidateAuditContext (AuditContext req) else Ok tt) ;;
  claims ← EncodeClaimsArray (LocalClaims req);
  Ok (check_args_of req claims).

Definition Check (req : CheckRequest) : R Decision :=
  args ← lift (assemble req);
  '(granted, callErr) ← Sys.call (AccessCheck_ args);
  match callErr with
  | Some e =>
      if errors_is e (Errno Errno.EACCES) then mret (mkDecision false granted) else throw (Wrapf "access check" e)
  | None => mret (mkDecision true granted)
  end.

(** The kernel writes its answers into the array [results]. *)
Definition CheckList (req : CheckRequest) : R (list NodeDecision) :=
  if zlen (ObjectTree req) =? 0 then throw (Errorf "access check list requires at least one object-tree node") else
  args ← lift (assemble req);
  let results := replicate (length (ObjectTree req)) (0, 0) in
  written ← Sys.checked "access check list" (AccessCheckList_ args (zlen results));
  mret ((fun r => mkNodeDecision r.1 r.2) <$> go_copy results written).
End defs.

(** ** What a check asks of the kernel *)

Section proofs.
Context {U : Uapi}.

(** A claim whose encoding exists: values of one kind, at least one. *)
Definition one_kind (c : Claim) : Prop :=
  Values c <> [] /\ forall v w, v ∈ Values c -> w ∈ Values c -> kind v = kind w.

(** The claims array: each entry behind its length. *)
Fixpoint claims_bytes (claims : list Claim) : bytes :=
  match claims with
  | [] => []
  | c :: claims =>
      let e := match Claim_Encode c with Ok e => e | _ => [] end in
      le_enc 4 (zlen e) ++ e ++ claims_bytes claims
  end.

Lemma Claim_Encode_one_kind c : one_kind c <-> exists e, Claim_Encode c = Ok e.
Proof.
  unfold one_kind. destruct (Claim_Encode_cases c) as [(v & vs & Hv & _ & He)|(e & He & _ & Hbad)]; rewrite He.
  - split; [eauto|]. intros _. unfold Claim_Encode in He. rewrite Hv in He. rewrite Hv.
    destruct (existsb _ _) eqn:Ex; [done|]. split; [done|].
    assert (forall w, w ∈ v :: vs -> kind w = kind v) as H.
    { intros w Hw. apply dec_stable. intros Hne. apply not_true_iff_false in Ex. apply Ex, existsb_exists.
      exists w. split; [by apply list_elem_of_In|]. by rewrite bool_decide_eq_false_2. }
    intros x y Hx Hy. by rewrite (H x), (H y).
  - split; [|by intros [? ?]]. intros [Hne Hk]. destruct Hbad as [?|(v & w & ? & ? & []) ]; [done|]. auto.
Qed.

Lemma EncodeClaimsArray_spec claims :
  (Forall one_kind claims /\ EncodeClaimsArray claims = Ok (claims_bytes claims))
  \/ (~ Forall one_kind claims /\ exists e, EncodeClaimsArray claims = Err e /\ errors_is e ErrBadClaim = true).
Proof.
  unfold EncodeClaimsArray. enough (forall out,
    (Forall one_kind claims /\ EncodeClaimsArray_loop claims out = Ok (out ++ claims_bytes claims))
    \/ (~ Forall one_kind claims /\ exists e, EncodeClaimsArray_loop claims out = Err e /\ errors_is e ErrBadClaim = true))
    as H by apply (H []).
  induction claims as [|c claims IH]; intros out; cbn [EncodeClaimsArray_loop claims_bytes].
  { left. split; [constructor|by rewrite app_nil_r]. }
  pose proof (Claim_Encode_one_kind c) as Hc.
  destruct (Claim_Encode_cases c) as [(v & vs & _ & _ & He)|(e & He & Hi & _)]; rewrite He in *.
  - rewrite bind_Ok. destruct (IH (out ++ le_enc 4 (zlen (entry c (kind v))) ++ entry c (kind v))) as [[HF ->]|[HF He']].
    + left. split; [constructor; [apply Hc; eauto|done]|]. f_equal. by rewrite <- !app_assoc.
    + right. split; [|done]. by intros [_ ?]%Forall_cons.
  - right. rewrite bind_Err. split; [|eauto]. intros [[e' He']%Hc _]%Forall_cons. done.
Qed.

Context {LA : AuditLaws U}.

(** What [assemble] asks of a request. *)
Definition admissible (req : CheckRequest) : Prop :=
  SD req <> [] /\ (AuditContext req = [] \/ ValidateAuditContext (AuditContext req) = Ok tt)
  /\ Forall one_kind (LocalClaims req).

Lemma assemble_spec req :
  (admissible req /\ assemble req = Ok (check_args_of req (claims_bytes (LocalClaims req))))
  \/ (~ admissible req /\ exists e, assemble req = Err e).
Proof.
  unfold assemble, admissible. destruct (Z.eqb_spec (zlen (SD req)) 0) as [E|E].
  { right. split; [|eauto]. intros (Hne & _). by apply zlen_0_inv in E. }
  assert (SD req <> []) as Hsd by (intros Hn; by rewrite Hn, zlen_nil in E).
  assert ((AuditContext req = [] \/ ValidateAuditContext (AuditContext req) = Ok tt)
          /\ (if 0 <? zlen (AuditContext req) then ValidateAuditContext (AuditContext req) else Ok tt) = Ok tt
          \/ ~ (AuditContext req = [] \/ ValidateAuditContext (AuditContext req) = Ok tt)
             /\ exists e, (if 0 <? zlen (AuditContext req) then ValidateAuditContext (AuditContext req) else Ok tt) = Err e)
    as [[Ha ->]|[Ha [e ->]]].
  { destruct (Z.ltb_spec 0 (zlen (AuditContext req))) as [Hl|Hl].
    - unfold ValidateAuditContext. assert (AuditContext req <> []) by (intros Hn; rewrite Hn in Hl; done).
      destruct (_ || _); [right; split; [by intros [?|?]|eauto]|].
      destruct (_ || _); [right; split; [by intros [?|?]|eauto]|by left; auto].
    - left. split; [|done]. left. apply zlen_0_inv. pose proof (zlen_nonneg (AuditContext req)). lia. }
  - rewrite bind_Ok. destruct (EncodeClaimsArray_spec (LocalClaims req)) as [[? ->]|[? (e & -> & _)]]; [by left|].
    right. split; [tauto|]. rewrite bind_Err. eauto.
  - right. rewrite bind_Err. split; [tauto|eauto].
Qed.

(** The sizes of the buffers, which their 32-bit length fields hold. *)
Definition sized (req : CheckRequest) : Prop :=
  zlen (SD req) < 2 ^ 32 /\ zlen (AuditContext req) < 2 ^ 32 /\ zlen (claims_bytes (LocalClaims req)) < 2 ^ 32
  /\ zlen (ObjectTree req) < 2 ^ 32 /\ SID.wf (SelfSID req)
  /\ Forall (fun n => length (Claims.GUID n) = 16%nat) (ObjectTree req).

(** The request as the kernel reads it from the argument struct. *)
Definition asks (args : check_args) (req : CheckRequest) : Prop :=
  Caller_size args = KACS_ACCESS_CHECK_ARGS_SIZE /\ Token_fd args = tokenFD (Token req)
  /\ read_ptr (Sd_ptr args) (Sd_len args) = SD req
  /\ Desired_access args = DesiredAccess req /\ Privilege_intent args = PrivilegeIntent req
  /\ mkMapping (Mapping_read args) (Mapping_write args) (Mapping_execute args) (Mapping_all args) = Mapping req
  /\ Pip_type args = PIPType req /\ Pip_trust args = PIPTrust req
  /\ read_ptr (Self_sid_ptr args) (Self_sid_len args)
     = (if SID.IsValid (SelfSID req) then SID.Bytes (SelfSID req) else [])
  /\ Object_tree_count args = zlen (ObjectTree req)
  /\ (forall i n, ObjectTree req !! i = Some n ->
       located (read_ptr (Object_tree_ptr args) (20 * Object_tree_count args)) (20 * Z.of_nat i)
         (le_enc 2 (Level n) ++ le_enc 2 0 ++ Claims.GUID n))
  /\ read_ptr (Local_claims_ptr args) (Local_claims_len args) = claims_bytes (LocalClaims req)
  /\ read_ptr (Audit_context_ptr args) (Audit_context_len args) = AuditContext req.

Lemma zlen_EncodeObjectTree nodes : Forall (fun n => length (Claims.GUID n) = 16%nat) nodes ->
  zlen (EncodeObjectTree nodes) = 20 * zlen nodes.
Proof.
  induction 1 as [|n nodes Hn _ IH]; [done|]. cbn [EncodeObjectTree].
  assert (zlen (Claims.GUID n) = 16) by (unfold zlen; lia). len.
Qed.

Lemma read_ptr_whole b n : zlen b <= n -> read_ptr (bufPtr b) n = b.
Proof. intros Hb. destruct b; [done|]. cbn [bufPtr read_ptr]. apply take_ge. unfold zlen in Hb. lia. Qed.

Lemma check_args_asks req : sized req -> asks (check_args_of req (claims_bytes (LocalClaims req))) req.
Proof.
  intros (Hsd & Hau & Hcl & Ht & Hs & Hg). unfold asks, check_args_of.
  cbn -[wrap Z.pow zlen Z.mul]. pose proof (zlen_nonneg (ObjectTree req)).
  pose proof (SID.zlen_Bytes_wf _ Hs).
  assert (wrap 32 (zlen (ObjectTree req)) = zlen (ObjectTree req)) as -> by (unfold wrap; rewrite Z.mod_small; lia).
  rewrite !read_ptr_bufPtr by (destruct (SID.IsValid (SelfSID req)); rewrite ?zlen_nil; lia).
  split_and!; try done; [by destruct (Mapping req)|]. intros i n Hi.
  rewrite read_ptr_whole by (rewrite zlen_EncodeObjectTree by done; lia). by apply EncodeObjectTree_node.
Qed.
End proofs.

(** ** Properties *)

Section calls.
Context {U : Uapi} {K : Type} {H : Kernel kcall K} {S : Settles kcall K}.

Lemma GetSD_read t info cur Inv w : x00 ∉ path t ->
  serves_sized (fun len => GetSD_ (dirfd t) (path t) info len (flags t)) Inv cur -> Inv (kst w) ->
  total (GetSD t info) w (fun o w' => Inv (kst w') /\
    sized_read (fun len => GetSD_ (dirfd t) (path t) info len (flags t)) cur w o w').
Proof.
  intros Hp Hs Hi. unfold GetSD, BytePtrFromString. rewrite bool_decide_eq_false_2 by done. apply total_bind, total_lift.
  cbn [wrap_err]. by apply total_read_exact.
Qed.
End calls.

(** C19: [Check] asks the kernel the question it was given, once, and reports the answer.  A request without a
    descriptor, with an audit context the kernel would refuse, or with an ill-formed claim is refused without reaching the
    kernel.  Any other makes exactly one request that is not interrupted, whose argument struct reads back, pointer by
    pointer, as the request's descriptor, rights, mapping, SID, object tree, claims and audit context; the decision is
    granted exactly when the kernel answered without an error and denied exactly when it answered EACCES, with the mask
    the kernel wrote in both cases; any other errno is an error, so a failure never reads as a decision.  [CheckList]
    refuses an empty tree too, and returns one decision per node of it, those the kernel wrote, in order. *)
Theorem Check_spec {U : Uapi} {LA : AuditLaws U} {K : Type} {H : Kernel kcall K} {S : Settles kcall K}
    (req : CheckRequest) (w : world kcall K) (Hsz : sized req) :
  total (Check req) w (fun o w' =>
    (~ admissible req /\ w' = w /\ exists e, o = Err e)
    \/ (admissible req /\ exists args mask n, asks args req /\ asked (AccessCheck_ args) w w' mask n
        /\ o = (if n =? 0 then Ok (mkDecision true mask)
                else if n =? Errno.EACCES then Ok (mkDecision false mask)
                else Err (Wrapf "access check" (Errno n)))))
  /\ total (CheckList req) w (fun o w' =>
    (~ (admissible req /\ ObjectTree req <> []) /\ w' = w /\ exists e, o = Err e)
    \/ (admissible req /\ exists args rs n, asks args req
        /\ asked (AccessCheckList_ args (zlen (ObjectTree req))) w w' rs n
        /\ if n =? 0 then exists out, o = Ok out /\ length out = length (ObjectTree req)
              /\ forall i r, (i < length out)%nat -> rs !! i = Some r -> out !! i = Some (mkNodeDecision r.1 r.2)
           else o = Err (Wrapf "access check list" (Errno n)))).
Proof.
  split.
  - unfold Check. apply total_bind, total_lift. destruct (assemble_spec req) as [[Ha ->]|[Ha [e ->]]]; [|by left; eauto].
    apply total_bind, total_call_asked. intros mask n w' Hw. pose proof (check_args_asks req Hsz) as Hargs.
    destruct (Z.eqb_spec n 0) as [->|Hn]; [apply total_ret; right; split; [done|]; by eexists _, _, 0|].
    pose proof (is_errno_Errno n Errno.EACCES) as Hi. cbn [is_errno] in Hi. rewrite Hi.
    destruct (n =? Errno.EACCES) eqn:En; [apply total_ret|apply total_throw]; right; (split; [done|]);
      eexists _, mask, n; (split; [exact Hargs|]); (split; [exact Hw|]); by rewrite (proj2 (Z.eqb_neq n 0) Hn), En.
  - unfold CheckList. destruct (Z.eqb_spec (zlen (ObjectTree req)) 0) as [E|E].
    { apply total_throw. left. split; [intros [_ Hne]; by apply zlen_0_inv in E|eauto]. }
    apply total_bind, total_lift. destruct (assemble_spec req) as [[Ha ->]|[Ha [e ->]]]; [|left; split; [tauto|eauto]].
    apply total_bind. unfold Sys.checked. apply total_bind, total_call_asked. intros rs n w' Hw.
    assert (zlen (replicate (length (ObjectTree req)) (0, 0)) = zlen (ObjectTree req)) as Hlen by (rewrite zlen_replicate; done).
    rewrite Hlen in Hw. pose proof (check_args_asks req Hsz) as Hargs.
    destruct (Z.eqb_spec n 0) as [->|Hn]; [apply total_ret, total_ret|apply total_throw];
      right; (split; [done|]); eexists _, rs; [exists 0|exists n]; (split; [exact Hargs|]); (split; [exact Hw|]); [|by rewrite (proj2 (Z.eqb_neq n 0) Hn)].
    cbn [Z.eqb]. eexists. split; [done|]. unfold go_copy. rewrite length_fmap, length_replicate, length_app, length_take, length_drop, length_replicate.
    split; [lia|]. intros i r Hi Hr. rewrite list_lookup_fmap, lookup_app_l, lookup_take_lt, Hr by (rewrite ?length_take; try lia;
      apply lookup_lt_Some in Hr; lia). done.
Qed.

(** A denial with the mask the kernel wrote, and a refusal without a request. *)
Definition sample_check (sd : bytes) : CheckRequest :=
  mkCheck None sd 5 (mkMapping 1 2 4 7) (WK.SID WK.LocalSystem) 0 [mkNode 0 (replicate 16 x00)] [sample_claim] 0 0 [].

Lemma Check_spec_witness :
  exists w', @Check pkm bool SampleKernel.sample_kernel (sample_check test_child) (World true []) = Some (Ok (mkDecision false 5), w')
    /\ exists args, @asks pkm args (sample_check test_child) /\ trace w' = [Ev (AccessCheck_ args) Errno.EACCES].
Proof.
  assert (sized (U := pkm) (sample_check test_child)) as Hsz.
  { split_and!; [vm_compute; reflexivity..|apply WK.SID_wf|by repeat constructor]. }
  pose proof (@Check_spec pkm pkm_AuditLaws bool SampleKernel.sample_kernel SampleKernel.sample_settles
    (sample_check test_child) (World true []) Hsz) as [(o & w' & E & H) _].
  exists w'. assert (o = Ok (mkDecision false 5)) as Ho.
  { assert (fst <$> @Check pkm bool SampleKernel.sample_kernel (sample_check test_child) (World true []) = Some (Ok (mkDecision false 5)))
      as E' by (vm_compute; reflexivity). rewrite E in E'. by injection E'. }
  rewrite E, Ho. split; [done|].
  destruct H as [(_ & _ & e & He)|(_ & args & mask & n & Ha & (Ht & _) & Hn)]; [congruence|].
  exists args. split; [done|]. rewrite Ht. rewrite Ho in Hn. destruct (n =? 0); [done|].
  destruct (Z.eqb_spec n Errno.EACCES) as [->|]; [done|discriminate Hn].
Defined.

End SdCalls.
