(* ===== verification/Token.v ===== *)
(** * Token: handles to KACS tokens (token/)

    Opening and creating tokens, the ioctls on a handle, the sized read of an
    information class with its typed accessors, sessions, and the scoped
    impersonation of token/impersonate.go.  A handle is its file descriptor; Close
    returns the new one.  What a thread is doing is read off the trace of requests:
    how often it is locked to its goroutine, and whom it acts as. *)

From S2P Require Import Prelude Outcome Uapi GoStd Sid Kernel Kacs.

Module Token.

(** [type QueryClass], [type TokenType], [type ImpersonationLevel], [type ElevationType] and [type SessionID]
    are integers; [PrivEntry] is the pair of its fields. *)
Record GroupEntry := mkGroup { Index : Z; Enabled : bool }.
Record RestrictSpec := mkRestrict {
  PrivilegesToDelete : Z; DenyIndexCount : Z; RestrictSIDCount : Z; Payload : bytes; RFlags : Z
}.

(** ** Constants *)

(** Rights of a token handle; a module of its own because methods share the names. *)
Module Rights.
Section rights.
Context {U : Uapi}.
Definition AssignPrimary : Z := KACS_TOKEN_ASSIGN_PRIMARY.
Definition Duplicate : Z := KACS_TOKEN_DUPLICATE.
Definition Impersonate : Z := KACS_TOKEN_IMPERSONATE.
Definition Query : Z := KACS_TOKEN_QUERY.
Definition QuerySource : Z := KACS_TOKEN_QUERY_SOURCE.
Definition AdjustPrivileges : Z := KACS_TOKEN_ADJUST_PRIVS.
Definition AdjustGroups : Z := KACS_TOKEN_ADJUST_GROUPS.
Definition AdjustDefault : Z := KACS_TOKEN_ADJUST_DEFAULT.
Definition AdjustSessionID : Z := KACS_TOKEN_ADJUST_SESSIONID.
Definition AllAccess : Z := KACS_TOKEN_ALL_ACCESS.
End rights.
End Rights.

Section constants.
Context {U : Uapi}.
Definition OpenReal : Z := KACS_TOKEN_OPEN_REAL.
Definition RestrictWriteRestricted : Z := KACS_TOKEN_RESTRICT_WRITE_RESTRICTED.
Definition ClassUser : Z := KACS_TOKEN_CLASS_USER.
Definition ClassGroups : Z := KACS_TOKEN_CLASS_GROUPS.
Definition ClassPrivileges : Z := KACS_TOKEN_CLASS_PRIVILEGES.
Definition ClassType : Z := KACS_TOKEN_CLASS_TYPE.
Definition ClassIntegrityLevel : Z := KACS_TOKEN_CLASS_INTEGRITY_LEVEL.
Definition ClassOwner : Z := KACS_TOKEN_CLASS_OWNER.
Definition ClassPrimaryGroup : Z := KACS_TOKEN_CLASS_PRIMARY_GROUP.
Definition ClassSessionID : Z := KACS_TOKEN_CLASS_SESSION_ID.
Definition ClassRestrictedSIDs : Z := KACS_TOKEN_CLASS_RESTRICTED_SIDS.
Definition ClassSource : Z := KACS_TOKEN_CLASS_SOURCE.
Definition ClassStatistics : Z := KACS_TOKEN_CLASS_STATISTICS.
Definition ClassOrigin : Z := KACS_TOKEN_CLASS_ORIGIN.
Definition ClassElevationType : Z := KACS_TOKEN_CLASS_ELEVATION_TYPE.
Definition ClassDeviceGroups : Z := KACS_TOKEN_CLASS_DEVICE_GROUPS.
Definition ClassAppContainerSID : Z := KACS_TOKEN_CLASS_APPCONTAINER_SID.
Definition ClassCapabilities : Z := KACS_TOKEN_CLASS_CAPABILITIES.
Definition ClassMandatoryPolicy : Z := KACS_TOKEN_CLASS_MANDATORY_POLICY.
Definition ClassLogonType : Z := KACS_TOKEN_CLASS_LOGON_TYPE.
Definition ClassLogonSID : Z := KACS_TOKEN_CLASS_LOGON_SID.
Definition ClassDefaultDACL : Z := KACS_TOKEN_CLASS_DEFAULT_DACL.
Definition ClassImpersonationLevel : Z := KACS_TOKEN_CLASS_IMPERSONATION_LEVEL.
Definition ClassUserClaims : Z := KACS_TOKEN_CLASS_USER_CLAIMS.
Definition ClassDeviceClaims : Z := KACS_TOKEN_CLASS_DEVICE_CLAIMS.
Definition ClassProjectedSupplementaryGIDs : Z := KACS_TOKEN_CLASS_PROJECTED_SUPPLEMENTARY_GIDS.
Definition TypePrimary : Z := KACS_TOKEN_TYPE_PRIMARY.
Definition TypeImpersonation : Z := KACS_TOKEN_TYPE_IMPERSONATION.
Definition LevelAnonymous : Z := KACS_IMLEVEL_ANONYMOUS.
Definition LevelIdentification : Z := KACS_IMLEVEL_IDENTIFICATION.
Definition LevelImpersonation : Z := KACS_IMLEVEL_IMPERSONATION.
Definition LevelDelegation : Z := KACS_IMLEVEL_DELEGATION.
Definition ElevationDefault : Z := KACS_ELEVATION_DEFAULT.
Definition ElevationFull : Z := KACS_ELEVATION_FULL.
Definition ElevationLimited : Z := KACS_ELEVATION_LIMITED.
End constants.

Section defs.
Context {U : Uapi} {K : Type} {H : Kernel kcall K}.
Abbreviation R := (M kcall K).

(** ** Opening and closing (token.go) *)

Definition OpenSelf (flags access : Z) : R Z := Sys.checked "open self token" (OpenSelfToken flags access).
Definition OpenProcess (pidfd access : Z) : R Z := Sys.checked "open process token" (OpenProcessToken pidfd access).
Definition OpenThread (pidfd tid access : Z) : R Z := Sys.checked "open thread token" (OpenThreadToken pidfd tid access).
Definition OpenPeer (sockfd : Z) : R Z := Sys.checked "open peer token" (OpenPeerToken sockfd).
Definition Create (spec : bytes) : R Z := Sys.checked "create token" (CreateToken spec).

(** The error, and the descriptor left in the handle. *)
Definition Close (fd : Z) : R (option err * Z) :=
  if fd <? 0 then mret (None, fd) else
  '(_, e) ← Sys.call_once (CloseFD_ fd);
  mret (Wrapf "close" <$> e, -1).

(** ** The ioctls (ioctl.go) *)

Definition Duplicate (fd access typ level : Z) : R Z := Sys.checked "duplicate" (IocDuplicate fd access typ level).

Definition Restrict (fd : Z) (spec : RestrictSpec) : R Z :=
  Sys.checked "restrict"
    (IocRestrict fd (PrivilegesToDelete spec) (DenyIndexCount spec) (RestrictSIDCount spec)
       (bufPtr (Payload spec)) (len32 (Payload spec)) (RFlags spec)).

Definition Install (fd : Z) : R unit := Sys.checked "install" (IocInstall fd).
Definition LinkTokens (fd filtered session : Z) : R unit :=
  Sys.checked "link tokens" (IocLinkTokens fd (int32 fd) (int32 filtered) session).
Definition LinkedToken (fd : Z) : R Z := Sys.checked "linked token" (IocGetLinkedToken fd).

Definition AdjustPrivileges (fd : Z) (entries : list (Z * Z)) : R Z :=
  if zlen entries =? 0 then throw (Wrapf "adjust privileges" (Errno Errno.EINVAL)) else
  Sys.checked "adjust privileges" (IocAdjustPrivs fd (wrap 32 (zlen entries)) entries).

Definition AdjustGroups (fd : Z) (entries : list GroupEntry) : R (list Z) :=
  if zlen entries =? 0 then throw (Wrapf "adjust groups" (Errno Errno.EINVAL)) else
  let raw := (fun e => (Index e, if Enabled e then 1 else 0)) <$> entries in
  Sys.checked "adjust groups" (IocAdjustGroups fd (wrap 32 (zlen raw)) raw).

Definition AdjustDefault (fd : Z) (dacl : bytes) (ownerIndex groupIndex : Z) : R unit :=
  Sys.checked "adjust default" (IocAdjustDefault fd (bufPtr dacl) (len32 dacl) ownerIndex groupIndex).
Definition SetSessionID (fd id : Z) : R unit := Sys.checked "set session id" (IocAdjustSessionID fd id).

(** ** Queries (query.go) *)

Definition Query (fd class : Z) : R bytes :=
  read_sized "query class" "query class: kernel wrote too many bytes" (IocQuery fd class).

Definition sidClass (fd class : Z) : R SID.t :=
  b ← Query fd class;
  lift (wrap_err "query class" (SID.ParseSID b)).
Definition UserSID (fd : Z) : R SID.t := sidClass fd ClassUser.
Definition PrimaryGroupSID (fd : Z) : R SID.t := sidClass fd ClassPrimaryGroup.
Definition OwnerSID (fd : Z) : R SID.t := sidClass fd ClassOwner.
Definition IntegrityLevel (fd : Z) : R SID.t := sidClass fd ClassIntegrityLevel.

Definition u32Class (fd class : Z) : R Z :=
  b ← Query fd class;
  if zlen b <? 4 then throw (Errorf "query class: want 4 bytes") else lift (get_le 4 b).

(** The switch of the three accessors: a value outside the list is an error. *)
Definition one_of (known : list Z) (msg : string) (v : Z) : R Z :=
  if bool_decide (v ∈ known) then mret v else throw (Errorf msg).

Definition token_types : list Z := [TypePrimary; TypeImpersonation].
Definition impersonation_levels : list Z :=
  [LevelAnonymous; LevelIdentification; LevelImpersonation; LevelDelegation].
Definition elevation_types : list Z := [ElevationDefault; ElevationFull; ElevationLimited].

Definition TokenType (fd : Z) : R Z :=
  v ← u32Class fd ClassType; one_of token_types "unknown token type" v.
Definition ImpersonationLevel (fd : Z) : R Z :=
  v ← u32Class fd ClassImpersonationLevel; one_of impersonation_levels "unknown impersonation level" v.
Definition ElevationType (fd : Z) : R Z :=
  v ← u32Class fd ClassElevationType; one_of elevation_types "unknown elevation type" v.
Definition SessionID (fd : Z) : R Z := u32Class fd ClassSessionID.

(** ** Sessions (session.go) *)

Definition CreateSession (spec : bytes) : R Z := Sys.checked "create session" (CreateSession_ spec).
Definition DestroyEmptySession (id : Z) : R unit := Sys.checked "destroy empty session" (DestroyEmptySession_ id).
Definition SetPSB (pidfd mitigations : Z) : R unit := Sys.checked "set psb" (SetPSB_ pidfd mitigations).

(** ** Impersonation (impersonate.go) *)

Definition revert : R (option err) :=
  '(_, e) ← Sys.call Revert; mret e.

(** What the deferred closure adds to the named result [err]. *)
Definition end_impersonation : R (option err) :=
  e ← revert;
  match e with
  | Some e => mret (Some (Wrapf "revert" e))
  | None => runtime_call UnlockOSThread ;; mret None
  end.

(** [errors.Join(err, e)] into the named result; the join of a nil and an error holds only that error.  A panic is
    not affected. *)
Definition join_into (o : outcome unit) (e : option err) : outcome unit :=
  match e, o with
  | None, _ => o
  | Some e, Ok _ => Err e
  | Some e, Err e' => Err (Join e' e)
  | Some _, Panic => Panic
  end.

(** [defer func() { ... err = ... }()]: the closure runs whatever [fn] did, a panic included. *)
Definition defer_join (closure : R (option err)) (fn : R unit) : R unit := fun w =>
  match fn w with
  | Some (o, w) =>
      match closure w with
      | Some (Ok e, w) => Some (join_into o e, w)
      | Some (Err e, w) => Some (Err e, w)
      | Some (Panic, w) => Some (Panic, w)
      | None => None
      end
  | None => None
  end.

Definition impersonateScoped (set fn : R unit) : R unit :=
  runtime_call LockOSThread ;;
  r ← try_ set;
  match r with
  | inr e => runtime_call UnlockOSThread ;; throw e
  | inl _ => defer_join end_impersonation fn
  end.

Definition Impersonate (fd : Z) (fn : R unit) : R unit :=
  impersonateScoped (Sys.checked "impersonate" (IocImpersonate fd)) fn.
Definition ImpersonatePeer (sockfd : Z) (fn : R unit) : R unit :=
  impersonateScoped (Sys.checked "impersonate peer" (ImpersonatePeer_ sockfd)) fn.
Definition SetImpersonationLevel (sockfd level : Z) : R unit :=
  Sys.checked "set impersonation level" (SetImpersonationLevel_ sockfd level).
End defs.

(** ** The thread *)

Inductive who := AsToken (fd : Z) | AsPeer (sockfd : Z).

(** How often the goroutine has locked its thread, and whom the thread acts as. *)
Record thread := mkThread { locks : Z; acts_as : option who }.

Definition thread_step (t : thread) (e : event kcall) : thread :=
  match ev_call e with
  | LockOSThread => mkThread (locks t + 1) (acts_as t)
  | UnlockOSThread => mkThread (locks t - 1) (acts_as t)
  | IocImpersonate fd => if ev_errno e =? 0 then mkThread (locks t) (Some (AsToken fd)) else t
  | ImpersonatePeer_ sockfd => if ev_errno e =? 0 then mkThread (locks t) (Some (AsPeer sockfd)) else t
  | Revert => if ev_errno e =? 0 then mkThread (locks t) None else t
  | _ => t
  end.
Definition run (t : thread) (evs : list (event kcall)) : thread := foldl thread_step t evs.

(** [P] holds of the thread at the start, and after each request. *)
Fixpoint always (P : thread -> Prop) (t : thread) (evs : list (event kcall)) : Prop :=
  P t /\ match evs with [] => True | e :: evs => always P (thread_step t e) evs end.

(** A thread that is not locked goes back to the pool when its goroutine yields: it must act as nobody. *)
Definition poolable (t : thread) : Prop := locks t <= 0 -> acts_as t = None.

(** Requests that leave the thread locked as it was and never unlock it in between: those of a function that pairs
    its own uses of LockOSThread. *)
Definition balanced (evs : list (event kcall)) : Prop :=
  forall t, always (fun t' => locks t <= locks t') t evs /\ locks (run t evs) = locks t.

Lemma run_app t evs1 evs2 : run t (evs1 ++ evs2) = run (run t evs1) evs2.
Proof. apply foldl_app. Qed.

Lemma always_app P t evs1 evs2 : always P t (evs1 ++ evs2) <-> always P t evs1 /\ always P (run t evs1) evs2.
Proof.
  revert t. induction evs1 as [|e evs1 IH]; intros t; cbn [app always run foldl].
  - destruct evs2; cbn [always]; tauto.
  - rewrite IH. unfold run. tauto.
Qed.

Lemma always_impl (P Q : thread -> Prop) t evs : (forall t, P t -> Q t) -> always P t evs -> always Q t evs.
Proof.
  intros HPQ. revert t. induction evs as [|e evs IH]; intros t; cbn [always]; [intuition|].
  intros [Ht Hs]. split; auto.
Qed.

(** ** Properties *)

Section proofs.
Context {U : Uapi} {K : Type} {H : Kernel kcall K} {S : Settles kcall K}.

(** What a scoped run of [fn] as [c] says is [x] gives, from [w] to [o] and [w']: the requests it made are [evs]. *)
Definition scoped (msg : string) (c : kcall unit) (x : who) (fn : M kcall K unit) (w : world kcall K)
    (o : outcome unit) (w' : world kcall K) : Prop :=
  exists evs, trace w' = trace w ++ evs
  /\ (forall t, 0 <= locks t -> poolable t -> always poolable t evs)
  /\ ((exists n, n <> 0 /\ evs = [Ev LockOSThread 0; Ev c n; Ev UnlockOSThread 0] /\ o = Err (Wrapf msg (Errno n)))
      \/ exists w1 fo w2 fevs r,
          trace w1 = trace w ++ [Ev LockOSThread 0; Ev c 0] /\ fn w1 = Some (fo, w2) /\ trace w2 = trace w1 ++ fevs
          /\ (forall t, acts_as (run t [Ev LockOSThread 0; Ev c 0]) = Some x)
          /\ if r =? 0 then evs = [Ev LockOSThread 0; Ev c 0] ++ fevs ++ [Ev Revert 0; Ev UnlockOSThread 0] /\ o = fo
                            /\ forall t, run t evs = mkThread (locks t) None
             else evs = [Ev LockOSThread 0; Ev c 0] ++ fevs ++ [Ev Revert r]
                  /\ o = join_into fo (Some (Wrapf "revert" (Errno r)))
                  /\ forall t, locks (run t evs) = locks t + 1).

(** A function that finishes, whatever it returns, and pairs its own thread locks. *)
Definition well_paired (fn : M kcall K unit) : Prop :=
  forall w, total fn w (fun _ w' => exists evs, trace w' = trace w ++ evs /\ balanced evs).

(** The requests that begin an impersonation, and whose identity they give. *)
Definition begins (c : kcall unit) (x : who) : Prop :=
  forall t, thread_step t (Ev c 0) = mkThread (locks t) (Some x)
    /\ forall n, n <> 0 -> thread_step t (Ev c n) = t.

Lemma poolable_failed c x n t : begins c x -> n <> 0 -> 0 <= locks t -> poolable t ->
  always poolable t [Ev LockOSThread 0; Ev c n; Ev UnlockOSThread 0].
Proof.
  intros Hc Hn Hl Ht. cbn [always]. unfold poolable in *. change (thread_step t (Ev LockOSThread 0)) with (mkThread (locks t + 1) (acts_as t)).
  rewrite (proj2 (Hc _) n Hn). cbn [thread_step ev_call locks acts_as]. split_and!; try done; intros; [lia..|].
  apply Ht. lia.
Qed.

Lemma poolable_scoped c x fevs last t : begins c x -> balanced fevs -> 0 <= locks t -> poolable t ->
  always poolable (mkThread (locks t + 1) (acts_as (run (run t [Ev LockOSThread 0; Ev c 0]) fevs))) last ->
  always poolable t ([Ev LockOSThread 0; Ev c 0] ++ fevs ++ last).
Proof.
  intros Hc Hb Hl Ht Hlast. rewrite !always_app.
  assert (run t [Ev LockOSThread 0; Ev c 0] = mkThread (locks t + 1) (Some x)) as E.
  { unfold run. cbn [foldl]. rewrite (proj1 (Hc _)). done. }
  destruct (Hb (run t [Ev LockOSThread 0; Ev c 0])) as [Hab Hlk]. rewrite E in Hab, Hlk |- *. cbn [locks] in Hab, Hlk. split_and!.
  - cbn [always]. rewrite (proj1 (Hc _)). unfold poolable in *. cbn [thread_step ev_call locks acts_as]. split_and!; try done; intros; lia.
  - eapply always_impl; [|exact Hab]. unfold poolable. intros t' Ht' ?. lia.
  - rewrite E in Hlast. destruct (run (mkThread (locks t + 1) (Some x)) fevs) as [l a]. cbn [locks acts_as] in *. by subst l.
Qed.

Lemma total_impersonateScoped msg c x fn w : begins c x -> well_paired fn ->
  total (impersonateScoped (Sys.checked msg c) fn) w (scoped msg c x fn w).
Proof.
  intros Hc Hfn. unfold impersonateScoped. apply total_bind, total_runtime. apply total_bind, total_try, total_checked; cbn [kst trace].
  2: { intros n k Hn _. apply total_bind, total_runtime, total_throw. cbn [kst trace]. exists [Ev LockOSThread 0; Ev c n; Ev UnlockOSThread 0].
    split_and!; [by rewrite <- !app_assoc|intros; by eapply poolable_failed|left; eauto]. }
  intros [] k. set (w1 := World k _). destruct (Hfn w1) as (fo & w2 & Ef & fevs & Et & Hb).
  assert (trace w1 = trace w ++ [Ev LockOSThread 0; Ev c 0]) as Ew1 by (unfold w1; cbn [trace]; by rewrite <- app_assoc).
  assert (forall t, run t [Ev LockOSThread 0; Ev c 0] = mkThread (locks t + 1) (Some x)) as Erun.
  { intros t. unfold run. cbn [foldl]. by rewrite (proj1 (Hc _)). }
  assert (total end_impersonation w2 (fun oe w' => exists r, if r =? 0 then oe = Ok None /\ trace w' = trace w2 ++ [Ev Revert 0; Ev UnlockOSThread 0]
    else oe = Ok (Some (Wrapf "revert" (Errno r))) /\ trace w' = trace w2 ++ [Ev Revert r])) as (oe & w' & Ee & r & Hr).
  { unfold end_impersonation, revert. apply total_bind, total_bind, total_call_any. intros [] r k' Hne. apply total_ret.
    destruct (Z.eqb_spec r 0) as [->|Hr]; [apply total_bind, total_runtime, total_ret; exists 0|apply total_ret; exists r];
      [|by rewrite (proj2 (Z.eqb_neq r 0) Hr)]. cbn [Z.eqb kst trace]. by rewrite <- app_assoc. }
  assert (forall t, locks (run (run t [Ev LockOSThread 0; Ev c 0]) fevs) = locks t + 1) as Hlk.
  { intros t. rewrite (proj2 (Hb _)). by rewrite Erun. }
  exists (join_into fo (if r =? 0 then None else Some (Wrapf "revert" (Errno r)))), w'. split.
  { unfold defer_join. rewrite Ef, Ee. destruct (r =? 0); destruct Hr as [-> _]; done. }
  exists ([Ev LockOSThread 0; Ev c 0] ++ fevs ++ (if r =? 0 then [Ev Revert 0; Ev UnlockOSThread 0] else [Ev Revert r])).
  split; [|split].
  - destruct (r =? 0); destruct Hr as [_ ->]; by rewrite Et, Ew1, <- !app_assoc.
  - intros t Hl Ht. apply (poolable_scoped c x); [done..|]. destruct (Z.eqb_spec r 0) as [_|Hne]; cbn [always]; unfold poolable.
    + cbn [thread_step ev_call ev_errno Z.eqb locks acts_as]. split_and!; try done; intros; lia.
    + unfold thread_step. cbn [ev_call ev_errno]. rewrite (proj2 (Z.eqb_neq r 0) Hne). cbn [locks]. split_and!; try done; intros; lia.
  - right. exists w1, fo, w2, fevs, r. split_and!; [done..|intros t; by rewrite Erun|].
    destruct (Z.eqb_spec r 0) as [_|Hne].
    + split_and!; [done|by destruct fo|]. intros t. rewrite !run_app. specialize (Hlk t).
      destruct (run (run t _) fevs) as [l a]. cbn in Hlk |- *. f_equal. lia.
    + split_and!; [done|done|]. intros t. rewrite !run_app. specialize (Hlk t).
      destruct (run (run t _) fevs) as [l a]. cbn in Hlk |- *. rewrite (proj2 (Z.eqb_neq r 0) Hne). done.
Qed.
End proofs.

(** C20: an impersonation always ends, and never escapes the function it was meant for.  Whatever [fn] does, panicking
    included, [Impersonate] and [ImpersonatePeer] finish.  If the identity cannot be taken, [fn] does not run, the thread
    is unlocked again and the error is the kernel's.  Otherwise [fn] runs once, on a locked thread that acts as that
    identity, and is followed by exactly one revert; if the revert succeeds the thread is unlocked, acts as nobody, and
    the outcome is [fn]'s; if it fails, the error says so beside [fn]'s and the thread stays locked once more than before.
    In every case the thread is at no point both unlocked and acting as somebody, so no other goroutine is run under the
    identity. *)
Theorem impersonateScoped_spec {K : Type} {H : Kernel kcall K} {S : Settles kcall K}
    (fd : Z) (fn : M kcall K unit) (w : world kcall K) (Hfn : well_paired fn) :
  total (Impersonate fd fn) w (scoped "impersonate" (IocImpersonate fd) (AsToken fd) fn w)
  /\ total (ImpersonatePeer fd fn) w (scoped "impersonate peer" (ImpersonatePeer_ fd) (AsPeer fd) fn w).
Proof.
  split; apply total_impersonateScoped; try done; intros [l a]; (split; [done|]); intros n Hn;
    unfold thread_step; cbn [ev_call ev_errno]; by rewrite (proj2 (Z.eqb_neq n 0) Hn).
Qed.

(** The identity of a token is taken for one open and given back. *)
Definition open_self : M kcall bool unit := OpenSelf (H := SampleKernel.sample_kernel) 0 8 ;; mret tt.

Lemma open_self_paired : @well_paired bool open_self.
Proof.
  intros w. eexists _, _. split; [reflexivity|]. cbn [kst trace]. eexists. split; [reflexivity|].
  intros [l a]. cbn. split_and!; [lia..|done|done].
Qed.

Lemma impersonateScoped_spec_witness :
  exists w', Impersonate (H := SampleKernel.sample_kernel) 3 open_self (World false []) = Some (Ok tt, w')
    /\ trace w' = [Ev LockOSThread 0; Ev (IocImpersonate 3) 0; Ev (OpenSelfToken 0 8) 0; Ev Revert 0; Ev UnlockOSThread 0]
    /\ always poolable (mkThread 0 None) (trace w').
Proof.
  pose proof (@impersonateScoped_spec bool SampleKernel.sample_kernel SampleKernel.sample_settles 3 open_self (World false []) open_self_paired)
    as [(o & w' & E & evs & Et & Hp & _) _].
  assert (exists w', Impersonate (H := SampleKernel.sample_kernel) 3 open_self (World false []) = Some (Ok tt, w')
    /\ trace w' = [Ev LockOSThread 0; Ev (IocImpersonate 3) 0; Ev (OpenSelfToken 0 8) 0; Ev Revert 0; Ev UnlockOSThread 0])
    as (w1 & E1 & Et1) by (eexists; split; reflexivity).
  exists w1. split; [exact E1|]. split; [exact Et1|]. assert (w1 = w') as -> by congruence. rewrite Et. apply Hp; [reflexivity|done].
Defined.

(** The revert of an inner scope ends the outer one too: what [fn] does after it runs as nobody. *)
Example nested_scope_ends_outer :
  exists w' pre post,
    Impersonate (H := SampleKernel.sample_kernel) 3 (Impersonate (H := SampleKernel.sample_kernel) 4 (mret tt) ;; open_self) (World false [])
      = Some (Ok tt, w')
    /\ trace w' = pre ++ Ev (OpenSelfToken 0 8) 0 :: post
    /\ run (mkThread 0 None) pre = mkThread 1 None.
Proof.
  eexists _, [Ev LockOSThread 0; Ev (IocImpersonate 3) 0; Ev LockOSThread 0; Ev (IocImpersonate 4) 0; Ev Revert 0; Ev UnlockOSThread 0], _.
  split_and!; reflexivity.
Qed.

(** ** Reading a token *)

Section reads.
Context {U : Uapi} {K : Type} {H : Kernel kcall K} {S : Settles kcall K}.
Context (fd : Z) (Inv : K -> Prop) (info : Z -> K -> bytes).
(** The handle answers each class as the contract of the ioctl says. *)
Hypothesis Hserves : forall class, serves_sized (IocQuery fd class) Inv (info class).

(** What a read gives: a sized read of the class, of whose bytes the result [o] is made by [P]; an error of the
    read is the result. *)
Definition gives {A} (class : Z) (P : bytes -> outcome A -> Prop) (w : world kcall K) (o : outcome A) (w' : world kcall K) : Prop :=
  Inv (kst w') /\ exists q, sized_read (IocQuery fd class) (info class) w q w' /\
  match q with Ok b => P b o | Err e => o = Err e | Panic => False end.

(** The bytes themselves; the SID they hold, or the error of its parser; their first four bytes, or an error when there are
    fewer; the same when it is one of [known]. *)
Definition as_bytes (b : bytes) (o : outcome bytes) : Prop := o = Ok b.
Definition as_SID (b : bytes) (o : outcome SID.t) : Prop :=
  match SID.ParseSID b with Ok s => o = Ok s | Err e => exists msg, o = Err (Wrapf msg e) | Panic => False end.
Definition as_u32 (b : bytes) (o : outcome Z) : Prop :=
  if zlen b <? 4 then exists msg, o = Err (Errorf msg) else o = Ok (le_dec (take 4 b)).
Definition as_one_of (known : list Z) (b : bytes) (o : outcome Z) : Prop :=
  if zlen b <? 4 then exists msg, o = Err (Errorf msg)
  else if bool_decide (le_dec (take 4 b) ∈ known) then o = Ok (le_dec (take 4 b)) else exists msg, o = Err (Errorf msg).

(** A conversion of what was read. *)
Lemma total_converted {A} class (f : bytes -> M kcall K A) (P : bytes -> outcome A -> Prop) w : Inv (kst w) ->
  (forall b w', total (f b) w' (fun o w'' => w'' = w' /\ P b o)) ->
  total (Query fd class ≫= f) w (gives class P w).
Proof.
  intros Hi Hf. apply total_bind. unfold Query.
  eapply total_mono; [by apply total_read_exact|]. intros [b|e|] w' (Hi' & Hb).
  - eapply total_mono; [apply Hf|]. intros o w'' [-> Ho]. split; [done|]. by exists (Ok b).
  - split; [done|]. by exists (Err e).
  - by apply sized_read_safe in Hb.
Qed.

Lemma total_Query class w : Inv (kst w) -> total (Query fd class) w (gives class as_bytes w).
Proof.
  intros Hi. unfold Query. eapply total_mono; [by apply total_read_exact|]. intros o w' (Hi' & Hb). split; [done|]. exists o.
  split; [done|]. destruct o; [done..|]. by apply sized_read_safe in Hb.
Qed.

Lemma total_sidClass class w : Inv (kst w) -> total (sidClass fd class) w (gives class as_SID w).
Proof.
  intros Hi. apply total_converted; [done|]. intros b w'. apply total_lift. split; [done|].
  pose proof (SID.ParseSID_safe b). unfold as_SID. destruct (SID.ParseSID b); cbn; eauto.
Qed.

Lemma u32_converted b (w' : world kcall K) : total (if zlen b <? 4 then throw (Errorf "query class: want 4 bytes") else lift (get_le 4 b)) w'
  (fun o w'' => w'' = w' /\ as_u32 b o).
Proof.
  unfold as_u32. destruct (Z.ltb_spec (zlen b) 4); [apply total_throw; eauto|].
  rewrite get_le_ok by done. by apply total_lift.
Qed.

Lemma total_u32Class class w : Inv (kst w) -> total (u32Class fd class) w (gives class as_u32 w).
Proof. intros Hi. apply total_converted; [done|]. apply u32_converted. Qed.

Lemma total_one_of class known msg w : Inv (kst w) ->
  total (u32Class fd class ≫= one_of known msg) w (gives class (as_one_of known) w).
Proof.
  intros Hi. apply total_bind. eapply total_mono; [by apply total_u32Class|].
  intros o w' (Hi' & q & Hq & Ho). destruct q as [b|e|]; [|subst o; split; [done|by exists (Err e)]|done].
  assert (forall o', as_one_of known b o' -> gives class (as_one_of known) w o' w') as Hg by (split; [done|by exists (Ok b)]).
  unfold as_u32 in Ho. unfold as_one_of in Hg. destruct (zlen b <? 4).
  - destruct Ho as [m ->]. apply Hg. eauto.
  - subst o. unfold one_of. destruct (bool_decide _); [apply total_ret|apply total_throw]; eauto.
Qed.
End reads.

(** C21: reading a token gives what the token holds, in at most two requests.  For a handle that answers by the ioctl's
    two-pass contract, whatever the token does between the requests, [Query] finishes without a panic.  It returns the
    bytes of the class as they are when its last request returns; it fails exactly when a request fails, with that
    request's errno, or when the bytes outgrew the size of the first request ([sized_read]).  A SID accessor returns the SID those
    bytes parse as, or the error of parsing them; an integer accessor their first four bytes, or an error when
    there are fewer; and [TokenType], [ImpersonationLevel] and [ElevationType] that number exactly when it is one of
    the kernel's constants for it. *)
Theorem Query_spec {U : Uapi} {K : Type} {H : Kernel kcall K} {S : Settles kcall K} (fd : Z) (Inv : K -> Prop)
    (info : Z -> K -> bytes) (w : world kcall K)
    (Hserves : forall class, serves_sized (IocQuery fd class) Inv (info class)) (Hw : Inv (kst w)) :
  (forall class, total (Query fd class) w (gives fd Inv info class as_bytes w))
  /\ (forall f class, (f, class) ∈ [(UserSID fd, KACS_TOKEN_CLASS_USER); (PrimaryGroupSID fd, KACS_TOKEN_CLASS_PRIMARY_GROUP);
                              (OwnerSID fd, KACS_TOKEN_CLASS_OWNER); (IntegrityLevel fd, KACS_TOKEN_CLASS_INTEGRITY_LEVEL)] ->
      total f w (gives fd Inv info class as_SID w))
  /\ total (SessionID fd) w (gives fd Inv info KACS_TOKEN_CLASS_SESSION_ID as_u32 w)
  /\ (forall f class known, (f, class, known) ∈
        [(TokenType fd, KACS_TOKEN_CLASS_TYPE, [KACS_TOKEN_TYPE_PRIMARY; KACS_TOKEN_TYPE_IMPERSONATION]);
         (ImpersonationLevel fd, KACS_TOKEN_CLASS_IMPERSONATION_LEVEL,
            [KACS_IMLEVEL_ANONYMOUS; KACS_IMLEVEL_IDENTIFICATION; KACS_IMLEVEL_IMPERSONATION; KACS_IMLEVEL_DELEGATION]);
         (ElevationType fd, KACS_TOKEN_CLASS_ELEVATION_TYPE,
            [KACS_ELEVATION_DEFAULT; KACS_ELEVATION_FULL; KACS_ELEVATION_LIMITED])] ->
      total f w (gives fd Inv info class (as_one_of known) w)).
Proof.
  split_and!.
  - intros class. by apply total_Query.
  - intros f class. rewrite !elem_of_cons, elem_of_nil. intros [[= -> ->]|[[= -> ->]|[[= -> ->]|[[= -> ->]|[]]]]]; by apply total_sidClass.
  - by apply total_u32Class.
  - intros f class known. rewrite !elem_of_cons, elem_of_nil.
    intros [[= -> -> ->]|[[= -> -> ->]|[[= -> -> ->]|[]]]]; by apply total_one_of.
Qed.

Lemma Query_spec_witness :
  total (TokenType (U := pkm) (H := SampleKernel.sample_kernel) 3) (World false []) (fun o w' => o = Ok 1 /\ length (trace w') = 2%nat).
Proof.
  assert (forall class, @serves_sized bool SampleKernel.sample_kernel (IocQuery 3 class) (fun _ => True) (fun _ => SampleKernel.object)) as Hs.
  { intros class len k _. cbn. done. }
  pose proof (@Query_spec pkm bool SampleKernel.sample_kernel SampleKernel.sample_settles 3 (fun _ => True)
    (fun _ _ => SampleKernel.object) (World false []) Hs I) as (_ & _ & _ & H).
  destruct (H _ _ _ (list_elem_of_here _ _)) as (o & w' & E & _). exists o, w'. split; [exact E|].
  assert (exists w1, TokenType (U := pkm) (H := SampleKernel.sample_kernel) 3 (World false []) = Some (Ok 1, w1) /\ length (trace w1) = 2%nat)
    as (w1 & E1 & Hl) by (eexists; split; reflexivity).
  assert ((o, w') = (Ok 1, w1)) as [= -> ->] by congruence. split; [done|exact Hl].
Defined.
End Token.
