(* ===== verification/Files.v ===== *)
(** * Files: the native open and the mount policy (files/)

    files/files.go opens a file with a disposition, options and a creation
    descriptor, and closes what it cannot classify; files/mount.go reads and writes
    the policy of a mount.  A handle is its file descriptor. *)

From S2P Require Import Prelude Outcome Uapi Kernel Kacs.

Module Files.

(** ** Constants *)

Module Rights.
Section rights.
Context {U : Uapi}.
Definition ReadData : Z := KACS_FILE_READ_DATA.
Definition WriteData : Z := KACS_FILE_WRITE_DATA.
Definition AppendData : Z := KACS_FILE_APPEND_DATA.
Definition ReadEA : Z := KACS_FILE_READ_EA.
Definition WriteEA : Z := KACS_FILE_WRITE_EA.
Definition Execute : Z := KACS_FILE_EXECUTE.
Definition DeleteChild : Z := KACS_FILE_DELETE_CHILD.
Definition ReadAttributes : Z := KACS_FILE_READ_ATTRIBUTES.
Definition WriteAttributes : Z := KACS_FILE_WRITE_ATTRIBUTES.
Definition ListDirectory : Z := KACS_FILE_LIST_DIRECTORY.
Definition Traverse : Z := KACS_FILE_TRAVERSE.
Definition AddFile : Z := KACS_FILE_ADD_FILE.
Definition AddSubdirectory : Z := KACS_FILE_ADD_SUBDIRECTORY.
Definition Delete : Z := KACS_ACCESS_DELETE.
Definition ReadControl : Z := KACS_ACCESS_READ_CONTROL.
Definition WriteDAC : Z := KACS_ACCESS_WRITE_DAC.
Definition WriteOwner : Z := KACS_ACCESS_WRITE_OWNER.
Definition Synchronize : Z := KACS_ACCESS_SYNCHRONIZE.
Definition GenericRead : Z := KACS_ACCESS_GENERIC_READ.
Definition GenericWrite : Z := KACS_ACCESS_GENERIC_WRITE.
Definition GenericExecute : Z := KACS_ACCESS_GENERIC_EXECUTE.
Definition GenericAll : Z := KACS_ACCESS_GENERIC_ALL.
End rights.
End Rights.

Section constants.
Context {U : Uapi}.
Definition StatusOpened : Z := KACS_STATUS_OPENED.
Definition StatusCreated : Z := KACS_STATUS_CREATED.
Definition StatusOverwritten : Z := KACS_STATUS_OVERWRITTEN.
Definition StatusSuperseded : Z := KACS_STATUS_SUPERSEDED.
Definition PolicyUnmanaged : Z := KACS_MOUNT_POLICY_UNMANAGED.
Definition PolicyDenyMissing : Z := KACS_MOUNT_POLICY_DENY_MISSING.
Definition PolicySynthesizeEphemeral : Z := KACS_MOUNT_POLICY_SYNTHESIZE_EPHEMERAL.
Definition PolicySynthesizePersistent : Z := KACS_MOUNT_POLICY_SYNTHESIZE_PERSISTENT.
End constants.

(** [type Disposition uint32], in the order of its constants. *)
Definition DispOpen : Z := 0.
Definition DispCreate : Z := 1.
Definition DispOpenIf : Z := 2.
Definition DispSupersede : Z := 3.
Definition DispOverwrite : Z := 4.
Definition DispOverwriteIf : Z := 5.

Definition AT_FDCWD : Z := -0x64.

Record OpenOptions := mkOptions {
  Access : Z; Disposition : Z; Directory : bool; DeleteOnClose : bool; BackupIntent : bool; RestoreIntent : bool;
  SecurityDescriptor : bytes
}.
Record MountPolicy := mkPolicy { Policy : Z; Generation : Z; TemplateSD : bytes }.

Section defs.
Context {U : Uapi} {K : Type} {H : Kernel kcall K}.
Abbreviation R := (M kcall K).

(** ** Opening (files.go) *)

(** [Disposition.kacs] *)
Definition kacs (d : Z) : option Z :=
  if d =? DispOpen then Some KACS_DISPOSITION_OPEN
  else if d =? DispCreate then Some KACS_DISPOSITION_CREATE
  else if d =? DispOpenIf then Some KACS_DISPOSITION_OPEN_IF
  else if d =? DispSupersede then Some KACS_DISPOSITION_SUPERSEDE
  else if d =? DispOverwrite then Some KACS_DISPOSITION_OVERWRITE
  else if d =? DispOverwriteIf then Some KACS_DISPOSITION_OVERWRITE_IF
  else None.

Definition statuses : list Z :=
  [StatusOpened; StatusCreated; StatusOverwritten; StatusSuperseded].

(** [FileHandle.Close]: the error, and the descriptor left in the handle. *)
Definition Close (fd : Z) : R (option err * Z) :=
  if fd <? 0 then mret (None, fd) else
  '(_, e) ← Sys.call_once (CloseFD_ fd);
  mret (Wrapf "close" <$> e, -1).

Definition how_of (opts : OpenOptions) (disp : Z) : open_how :=
  let createOpts := if Directory opts then Z.lor 0 KACS_CREATE_OPT_DIRECTORY else 0 in
  let createOpts := if DeleteOnClose opts then Z.lor createOpts KACS_CREATE_OPT_DELETE_ON_CLOSE else createOpts in
  let flags := if BackupIntent opts then Z.lor 0 KACS_BACKUP_INTENT else 0 in
  let flags := if RestoreIntent opts then Z.lor flags KACS_RESTORE_INTENT else flags in
  mkHow (Access opts) disp createOpts flags (bufPtr (SecurityDescriptor opts)) (len32 (SecurityDescriptor opts)).

(** The handle and the status. *)
Definition OpenAt (dirfd : Z) (path : bytes) (opts : OpenOptions) : R (Z * Z) :=
  match kacs (Disposition opts) with
  | None => throw (Errorf "open: invalid disposition")
  | Some disp =>
      cpath ← lift (wrap_err "open: invalid path" (BytePtrFromString path));
      '(fd, st) ← Sys.checked "open" (KacsOpen dirfd cpath (how_of opts disp));
      if bool_decide (st ∈ statuses) then mret (fd, st) else
      Close fd ;;
      throw (Errorf "open: kernel reported unknown status")
  end.
Definition Open (path : bytes) (opts : OpenOptions) : R (Z * Z) := OpenAt AT_FDCWD path opts.

(** ** Mount policies (mount.go) *)

(** [mountPolicyCall] for the two system calls: the error alone. *)
Definition GetMountPolicy (fd : Z) : R MountPolicy :=
  probe ← Sys.checked "get mount policy" (GetMountPolicy_ fd 0);
  if m_Template_sd_len probe =? 0 then mret (mkPolicy (m_Policy probe) (m_Generation probe) []) else
  let buf := make_bytes (m_Template_sd_len probe) in
  args ← Sys.checked "get mount policy" (GetMountPolicy_ fd (len32 buf));
  mret (mkPolicy (m_Policy probe) (m_Generation probe) (go_copy buf (m_template args))).

Definition SetMountPolicy (fd : Z) (mp : MountPolicy) : R unit :=
  Sys.checked "set mount policy"
    (SetMountPolicy_ fd (Policy mp) (Generation mp) (bufPtr (TemplateSD mp)) (len32 (TemplateSD mp))).
End defs.

(** ** Properties *)

Section proofs.
Context {U : Uapi} {K : Type} {H : Kernel kcall K} {S : Settles kcall K}.

(** The kernel's number for each disposition, in the order of the constants: open, create, open-if, supersede,
    overwrite, overwrite-if; and the statuses that an open may report. *)
Definition disposition_codes : list Z :=
  [KACS_DISPOSITION_OPEN; KACS_DISPOSITION_CREATE; KACS_DISPOSITION_OPEN_IF; KACS_DISPOSITION_SUPERSEDE;
   KACS_DISPOSITION_OVERWRITE; KACS_DISPOSITION_OVERWRITE_IF].
Definition known_status (st : Z) : Prop :=
  st = KACS_STATUS_OPENED \/ st = KACS_STATUS_CREATED \/ st = KACS_STATUS_OVERWRITTEN \/ st = KACS_STATUS_SUPERSEDED.
#[export] Instance known_status_dec st : Decision (known_status st).
Proof. unfold known_status. apply _. Defined.

(** What the kernel reads of the options. *)
Definition how_reads (how : open_how) (opts : OpenOptions) : Prop :=
  how_Desired_access how = Access opts /\ disposition_codes !! Z.to_nat (Disposition opts) = Some (how_Create_disposition how)
  /\ read_ptr (how_Sd_ptr how) (how_Sd_len how) = SecurityDescriptor opts
  /\ how_Create_options how = Z.lor (if Directory opts then KACS_CREATE_OPT_DIRECTORY else 0)
                               (if DeleteOnClose opts then KACS_CREATE_OPT_DELETE_ON_CLOSE else 0)
  /\ how_Flags how = Z.lor (if BackupIntent opts then KACS_BACKUP_INTENT else 0)
                      (if RestoreIntent opts then KACS_RESTORE_INTENT else 0).

Lemma kacs_codes d c : kacs d = Some c -> disposition_codes !! Z.to_nat d = Some c.
Proof.
  unfold kacs, DispOpen, DispCreate, DispOpenIf, DispSupersede, DispOverwrite, DispOverwriteIf. intros Hk.
  repeat match type of Hk with
  | (if d =? ?x then _ else _) = _ => destruct (Z.eqb_spec d x) as [->|]; [exact Hk|]
  end. discriminate Hk.
Qed.
Lemma statuses_known st : st ∈ statuses <-> known_status st.
Proof. unfold statuses, known_status. rewrite !elem_of_cons, elem_of_nil. tauto. Qed.

Lemma how_of_reads opts disp : zlen (SecurityDescriptor opts) < 2 ^ 32 -> kacs (Disposition opts) = Some disp ->
  how_reads (how_of opts disp) opts.
Proof.
  intros Hl Hd. unfold how_reads, how_of. cbn [how_Desired_access how_Create_disposition how_Sd_ptr how_Sd_len how_Create_options how_Flags].
  rewrite read_ptr_bufPtr by done. apply kacs_codes in Hd.
  destruct (Directory opts), (DeleteOnClose opts), (BackupIntent opts), (RestoreIntent opts); by rewrite ?Z.lor_0_l, ?Z.lor_0_r.
Qed.

(** A disposition has a kernel value exactly when it is one of the six. *)
Lemma kacs_known d : is_Some (kacs d) <-> 0 <= d <= 5.
Proof.
  unfold kacs, DispOpen, DispCreate, DispOpenIf, DispSupersede, DispOverwrite, DispOverwriteIf.
  destruct (Z.eqb_spec d 0); [split; [lia|eauto]|]. destruct (Z.eqb_spec d 1); [split; [lia|eauto]|].
  destruct (Z.eqb_spec d 2); [split; [lia|eauto]|]. destruct (Z.eqb_spec d 3); [split; [lia|eauto]|].
  destruct (Z.eqb_spec d 4); [split; [lia|eauto]|]. destruct (Z.eqb_spec d 5); [split; [lia|eauto]|].
  split; [by intros [? ?]|lia].
Qed.

Lemma OpenAt_cases dirfd path opts w : zlen (SecurityDescriptor opts) < 2 ^ 32 ->
  total (OpenAt dirfd path opts) w (fun o w' =>
    (~ (0 <= Disposition opts <= 5 /\ (x00 ∉ path)) /\ w' = w /\ exists e, o = Err e)
    \/ (0 <= Disposition opts <= 5 /\ (x00 ∉ path) /\ (exists how fd st n w1,
        how_reads how opts /\ asked (KacsOpen dirfd path how) w w1 (fd, st) n
        /\ (if n =? 0 then
             if bool_decide (known_status st) then o = Ok (fd, st) /\ w' = w1
             else o = Err (Errorf "open: kernel reported unknown status")
                  /\ exists e, trace w' = trace w1 ++ (if fd <? 0 then [] else [Ev (CloseFD_ fd) e])
           else o = Err (Wrapf "open" (Errno n)) /\ w' = w1)))).
Proof.
  intros Hsd. unfold OpenAt. pose proof (kacs_known (Disposition opts)) as Hd.
  destruct (kacs (Disposition opts)) as [disp|] eqn:Ed.
  2: { apply total_throw. left. split; [intros [[? Hk]%Hd _]; discriminate Hk|eauto]. }
  assert (0 <= Disposition opts <= 5) as Hrange by (apply Hd; eauto).
  apply total_bind, total_lift. unfold BytePtrFromString. destruct (bool_decide (x00 ∈ path)) eqn:Ep; cbn [wrap_err].
  { apply bool_decide_eq_true_1 in Ep. left. split; [by intros [_ ?]|eauto]. }
  apply bool_decide_eq_false_1 in Ep. apply total_bind. unfold Sys.checked. apply total_bind, total_call_asked.
  intros [fd st] n w1 Hw. pose proof (how_of_reads opts disp Hsd Ed) as Hhow.
  destruct (Z.eqb_spec n 0) as [->|Hn]; [apply total_ret|apply total_throw].
  2: { right. split_and!; [lia|lia|done|]. exists (how_of opts disp), fd, st, n, w1.
       split; [done|]. split; [done|]. by rewrite (proj2 (Z.eqb_neq n 0) Hn). }
  cbv beta iota. rewrite (bool_decide_ext _ _ (statuses_known st)). destruct (bool_decide (known_status st)) eqn:Es.
  { apply total_ret. right. split_and!; [lia|lia|done|]. exists (how_of opts disp), fd, st, 0, w1. by rewrite Es. }
  apply total_bind. unfold Close. destruct (Z.ltb_spec fd 0) as [Hf|Hf].
  - apply total_ret, total_throw. right. split_and!; [lia|lia|done|]. exists (how_of opts disp), fd, st, 0, w1.
    cbn [Z.eqb]. rewrite Es, (proj2 (Z.ltb_lt fd 0) Hf). split; [done|]. split; [done|]. split; [done|]. exists 0. by rewrite app_nil_r.
  - apply total_bind, total_call_once. intros [] e k. apply total_ret, total_throw. right. split_and!; [lia|lia|done|].
    exists (how_of opts disp), fd, st, 0, w1. cbn [Z.eqb]. rewrite Es, (proj2 (Z.ltb_ge fd 0) Hf). split; [done|]. split; [done|]. split; [done|]. by exists e.
Qed.

(** ** Mount policies *)

(** The contract of a get: the policy, its generation and the length of its template as they are, and the
    template itself when the buffer can hold it. *)
Definition serves_mount (Inv : K -> Prop) (cur : K -> MountPolicy) (fd : Z) : Prop :=
  forall len, promises (GetMountPolicy_ fd len) Inv (fun o e k =>
    e = 0 -> o = mkMount (Policy (cur k)) (Generation (cur k)) (zlen (TemplateSD (cur k)))
                   (if zlen (TemplateSD (cur k)) <=? len then TemplateSD (cur k) else [])).

(** A policy that does not change is read whole. *)
Lemma GetMountPolicy_stable Inv p fd w : serves_mount Inv (fun _ => p) fd -> Inv (kst w) -> zlen (TemplateSD p) < 2 ^ 32 ->
  total (GetMountPolicy fd) w (fun o w' => Inv (kst w') /\
    match o with Ok q => q = p | Err e => exists n, n <> 0 /\ e = Wrapf "get mount policy" (Errno n) | Panic => False end).
Proof.
  intros Hs Hi Hl. pose proof (zlen_nonneg (TemplateSD p)) as H0.
  assert (forall len w (Q : outcome mount_args -> world kcall K -> Prop), Inv (kst w) ->
    (forall w', Inv (kst w') -> Q (Ok (mkMount (Policy p) (Generation p) (zlen (TemplateSD p))
                   (if zlen (TemplateSD p) <=? len then TemplateSD p else []))) w') ->
    (forall n w', Inv (kst w') -> n <> 0 -> Q (Err (Wrapf "get mount policy" (Errno n))) w') ->
    total (Sys.checked "get mount policy" (GetMountPolicy_ fd len)) w Q) as Hget.
  { intros len w0 Q Hi0 HQ He. apply total_bind. eapply total_call; [apply Hs|done|]. intros o e k Hk HP _. cbv beta in HP.
    destruct (Z.eqb_spec e 0) as [->|Hne]; [apply total_ret; rewrite HP by done; by apply HQ|by apply total_throw, He]. }
  unfold GetMountPolicy. apply total_bind, Hget; [done| |intros; eauto]. intros w1 Hi1. cbn [m_Template_sd_len m_Policy m_Generation].
  destruct (Z.eqb_spec (zlen (TemplateSD p)) 0) as [E|E].
  { apply total_ret. split; [done|]. apply zlen_0_inv in E. destruct p as [pol gen t]. cbn in E |- *. by rewrite E. }
  apply total_bind, Hget; [done| |intros; eauto]. intros w2 Hi2. apply total_ret. split; [done|].
  unfold len32, wrap. rewrite zlen_make_bytes, Z.mod_small, Z.leb_refl by lia. cbn [m_template].
  rewrite <- (app_nil_r (go_copy _ _)). unfold go_copy.
  rewrite take_ge, drop_ge, !app_nil_r by (unfold make_bytes; rewrite length_replicate; unfold zlen; lia). by destruct p.
Qed.
End proofs.

(** C22: opening a file leaves no handle behind but the one returned.  An unknown disposition or a path with a NUL is
    refused without reaching the kernel.  Otherwise one request that is not interrupted is made, for the path, with the
    rights, the kernel's number for the disposition, the option and intent bits and the creation descriptor of the options; a handle is returned exactly when
    the kernel succeeds with one of its four statuses, and with that status; the kernel's errno is an error; and a file
    opened with any other status is closed again before the error is returned. *)
Theorem OpenAt_spec {U : Uapi} {K : Type} {H : Kernel kcall K} {S : Settles kcall K}
    (dirfd : Z) (path : bytes) (opts : OpenOptions) (w : world kcall K) (Hsd : zlen (SecurityDescriptor opts) < 2 ^ 32) :
  total (OpenAt dirfd path opts) w (fun o w' =>
    (~ (0 <= Disposition opts <= 5 /\ (x00 ∉ path)) /\ w' = w /\ exists e, o = Err e)
    \/ (0 <= Disposition opts <= 5 /\ (x00 ∉ path) /\ (exists how fd st n w1,
        how_reads how opts /\ asked (KacsOpen dirfd path how) w w1 (fd, st) n
        /\ (if n =? 0 then
             if bool_decide (known_status st) then o = Ok (fd, st) /\ w' = w1
             else o = Err (Errorf "open: kernel reported unknown status")
                  /\ exists e, trace w' = trace w1 ++ (if fd <? 0 then [] else [Ev (CloseFD_ fd) e])
           else o = Err (Wrapf "open" (Errno n)) /\ w' = w1)))).
Proof. by apply OpenAt_cases. Qed.

Definition sample_options : OpenOptions := mkOptions 1 DispOpen false false false false [].

Lemma OpenAt_spec_witness :
  exists w', OpenAt (U := pkm) (H := SampleKernel.sample_kernel) AT_FDCWD (str "/etc") sample_options (World false []) = Some (Ok (7, 1), w')
    /\ exists how, @how_reads pkm how sample_options /\ trace w' = [Ev (KacsOpen AT_FDCWD (str "/etc") how) 0].
Proof.
  pose proof (@OpenAt_spec pkm bool SampleKernel.sample_kernel SampleKernel.sample_settles AT_FDCWD (str "/etc") sample_options
    (World false []) ltac:(reflexivity)) as (o & w' & E & H).
  assert (exists w1, OpenAt (U := pkm) (H := SampleKernel.sample_kernel) AT_FDCWD (str "/etc") sample_options (World false []) = Some (Ok (7, 1), w1))
    as (w1 & E1) by (eexists; reflexivity).
  assert ((o, w') = (Ok (7, 1), w1)) as [= -> ->] by congruence. exists w1. split; [done|].
  destruct H as [(_ & _ & e & He)|(_ & _ & how & fd & st & n & w2 & Hh & (Ht & _) & Hn)]; [done|].
  exists how. split; [done|]. destruct (Z.eqb_spec n 0) as [->|Hne]; [|by destruct Hn]. destruct (bool_decide _); [|by destruct Hn].
  destruct Hn as [_ ->]. exact Ht.
Defined.

(** A template that shrinks between the two requests of a get: the policy and generation are those of the first, the
    template is the second's, and the rest of the buffer stays zero. *)
Definition shrinking_kernel : Kernel kcall bool :=
  {| answer A c k :=
       match c in kcall A return A -> A * Z * bool with
       | GetMountPolicy_ _ len => fun _ =>
           (if k then mkMount 1 5 4 (if 4 <=? len then SampleKernel.object else [])
            else mkMount 2 6 2 (if 2 <=? len then [x07; x07] else []), 0, false)
       | _ => fun r => (r, 0, k)
       end (SampleKernel.reply c);
     patience := 1 |}.
Example GetMountPolicy_shrunk :
  fst <$> GetMountPolicy (H := shrinking_kernel) 3 (World true []) = Some (Ok (mkPolicy 1 5 [x07; x07; x00; x00])).
Proof. reflexivity. Qed.

End Files.
