(* ===== verification/MountUpdate.v ===== *)
(** * MountUpdate: changing a mount policy that others change too (files/mount.go)

    The comment of [MountPolicy.Generation] promises that a policy read, modified and set with its generation
    unchanged does not clobber a concurrent change.  Here the mount has a history of policies, which other
    processes extend between and during the requests, and the theorem is that promise: what a successful update
    installs is the modification of the very policy it replaces, although the policy and its template are read by two
    requests. *)

From S2P Require Import Prelude Outcome Uapi Kernel Kacs Files.

Module MountUpdate.
Import Files.

(** [GetMountPolicy], a modification, [SetMountPolicy]. *)
Definition update {K} {H : Kernel kcall K} (fd : Z) (f : MountPolicy -> MountPolicy) : M kcall K unit :=
  p ← GetMountPolicy fd; SetMountPolicy fd (f p).

(** What a get of [p] with a buffer of [len] bytes answers. *)
Definition shown (p : MountPolicy) (len : Z) : mount_args :=
  mkMount (Policy p) (Generation p) (zlen (TemplateSD p)) (if zlen (TemplateSD p) <=? len then TemplateSD p else []).

Section contract.
Context {K : Type} {H : Kernel kcall K} (Inv : K -> Prop) (hist : K -> list MountPolicy) (fd : Z).

(** The policies in force on the mount, one after the other; a request may find that others have added some.  A
    get answers with one that was in force during the request.  A set succeeds on a policy of the generation it
    names and puts the new policy right after it, with another generation: no generation is used twice. *)
Class Versioned : Prop := {
  v_once k : Inv k -> NoDup (Generation <$> hist k);
  v_small k : Inv k -> Forall (fun p => zlen (TemplateSD p) < 2 ^ 32) (hist k);
  v_get h0 len : promises (GetMountPolicy_ fd len) (fun k => Inv k /\ h0 `prefix_of` hist k) (fun o e k =>
    e = 0 -> exists h p, h0 `prefix_of` h ++ [p] /\ h ++ [p] `prefix_of` hist k /\ o = shown p len);
  v_set h0 pol gen ptr len : promises (SetMountPolicy_ fd pol gen ptr len) (fun k => Inv k /\ h0 `prefix_of` hist k) (fun _ e k =>
    e = 0 -> exists h p g, h0 `prefix_of` h ++ [p] /\ Generation p = gen
      /\ h ++ [p; mkPolicy pol g (read_ptr ptr len)] `prefix_of` hist k)
}.
End contract.

Section proofs.
Context {K : Type} {H : Kernel kcall K} {S : Settles kcall K}.
Context (Inv : K -> Prop) (hist : K -> list MountPolicy) (fd : Z) {V : Versioned Inv hist fd}.

Lemma total_get h0 len w (Q : outcome mount_args -> world kcall K -> Prop) : Inv (kst w) -> h0 `prefix_of` hist (kst w) ->
  (forall h p w', Inv (kst w') -> h0 `prefix_of` h ++ [p] -> h ++ [p] `prefix_of` hist (kst w') -> Q (Ok (shown p len)) w') ->
  (forall n w', Inv (kst w') -> n <> 0 -> Q (Err (Wrapf "get mount policy" (Errno n))) w') ->
  total (Sys.checked "get mount policy" (GetMountPolicy_ fd len)) w Q.
Proof.
  intros Hi Hh HQ He. apply total_bind. eapply total_call; [apply (v_get Inv hist fd h0)|done|].
  intros o e k [Hk _] HP _. cbv beta in HP. destruct (Z.eqb_spec e 0) as [->|Hne].
  - destruct HP as (h & p & ? & ? & ->); [done|]. apply total_ret. by eapply HQ.
  - by apply total_throw, He.
Qed.

(** What a get returns is a policy of the history, if that policy is still in force when it ends. *)
Definition read_of (h0 : list MountPolicy) (q : MountPolicy) (k : K) : Prop :=
  exists h1 p1 h2 p2, h0 `prefix_of` h1 ++ [p1] /\ h1 ++ [p1] `prefix_of` h2 ++ [p2] /\ h2 ++ [p2] `prefix_of` hist k
    /\ Generation q = Generation p1 /\ zlen (TemplateSD q) < 2 ^ 32 /\ (h1 ++ [p1] = h2 ++ [p2] -> q = p1).

Lemma GetMountPolicy_read w : Inv (kst w) ->
  total (GetMountPolicy fd) w (fun o w' => Inv (kst w') /\
    match o with
    | Ok q => read_of (hist (kst w)) q (kst w')
    | Err e => exists n, n <> 0 /\ e = Wrapf "get mount policy" (Errno n)
    | Panic => False
    end).
Proof.
  intros Hi. unfold GetMountPolicy. apply total_bind, (total_get (hist (kst w))); [done|done| |intros; eauto].
  intros h1 p1 w1 Hi1 H0 H1. cbn [m_Template_sd_len m_Policy m_Generation shown].
  pose proof (v_small Inv hist fd _ Hi1) as Hsm. rewrite Forall_lookup in Hsm. specialize (Hsm _ _ (prefix_last _ _ _ H1)). cbn in Hsm.
  pose proof (zlen_nonneg (TemplateSD p1)) as Hz. destruct (Z.eqb_spec (zlen (TemplateSD p1)) 0) as [E|E].
  - apply total_ret. split; [done|]. exists h1, p1, h1, p1. split_and!; [done..|by vm_compute|]. intros _.
    apply zlen_0_inv in E. destruct p1 as [pol gen t]. cbn in E |- *. by rewrite E.
  - apply total_bind, (total_get (h1 ++ [p1])); [done|done| |intros; eauto]. intros h2 p2 w2 Hi2 H2 H2'. apply total_ret.
    assert (Hl : zlen (go_copy (make_bytes (zlen (TemplateSD p1))) (m_template (shown p2 (len32 (make_bytes (zlen (TemplateSD p1))))))) < 2 ^ 32).
    { unfold zlen at 1. rewrite length_go_copy. fold (zlen (make_bytes (zlen (TemplateSD p1)))). by rewrite zlen_make_bytes by lia. }
    split; [done|]. exists h1, p1, h2, p2. split_and!; [done..|exact Hl|]. intros [_ [= <-]]%app_inj_tail.
    unfold len32, wrap. rewrite zlen_make_bytes, Z.mod_small by lia. cbn [m_template shown]. rewrite Z.leb_refl.
    unfold go_copy. rewrite take_ge, drop_ge, app_nil_r by (unfold make_bytes; rewrite length_replicate; unfold zlen; lia).
    by destruct p1.
Qed.

(** [C23] Getting, modifying and setting a mount policy loses no change.  Whatever others do to the mount in the
    meantime, an update that keeps the generation it read finishes; when it succeeds, the policy it installed is the
    modification of the policy that was in force up to then - kind, generation and all of the template, although
    they were read by two requests - and follows it directly in the history of the mount; when it fails the error
    carries the kernel's errno. *)
Theorem update_loses_nothing (f : MountPolicy -> MountPolicy) (Hgen : forall p, Generation (f p) = Generation p)
    (Hlen : forall p, zlen (TemplateSD p) < 2 ^ 32 -> zlen (TemplateSD (f p)) < 2 ^ 32) w : Inv (kst w) ->
  total (update fd f) w (fun o w' => Inv (kst w') /\
    match o with
    | Ok _ => exists h p g, hist (kst w) `prefix_of` h ++ [p]
        /\ h ++ [p; mkPolicy (Policy (f p)) g (TemplateSD (f p))] `prefix_of` hist (kst w')
    | Err e => exists msg n, n <> 0 /\ e = Wrapf msg (Errno n)
    | Panic => False
    end).
Proof.
  intros Hi. apply total_bind. eapply total_mono; [by apply GetMountPolicy_read|].
  intros [q|e|] w1 [Hi1 Hq]; [|naive_solver|done]. destruct Hq as (h1 & p1 & h2 & p2 & H0 & H12 & H2 & Hg & Hl & Hq).
  apply total_bind. eapply total_call; [apply (v_set Inv hist fd (h2 ++ [p2]))|done|].
  intros [] e k [Hk _] HP _. cbv beta in HP. destruct (Z.eqb_spec e 0) as [->|Hne]; [|apply total_throw; eauto].
  apply total_ret. split; [done|]. destruct HP as (h3 & p3 & g & H23 & Hg3 & H3); [done|]. cbn [kst].
  rewrite read_ptr_bufPtr in H3 by auto. rewrite Hgen, Hg in Hg3.
  assert (H3' : h3 ++ [p3] `prefix_of` hist k).
  { etrans; [|exact H3]. rewrite (cons_middle p3 h3 [_]), app_assoc. apply prefix_app_r. done. }
  assert (E : h1 ++ [p1] = h3 ++ [p3]).
  { apply (same_version Generation _ _ _ _ (hist k)); [by eapply v_once|by do 2 (etrans; [eassumption|])|done|done]. }
  assert (E2 : h1 ++ [p1] = h2 ++ [p2]).
  { apply (anti_symm prefix); [done|]. by rewrite E. }
  rewrite (Hq E2) in H3. apply app_inj_tail in E as [-> ->]. by exists h3, p3, g.
Qed.
End proofs.

(** ** A concrete mount *)

(** Its history, and what others do to it: one change after each get.  The generation of a policy is its place in the
    history.  Used by the witness and the examples only. *)
Module Sample.
Definition state : Type := list MountPolicy * list (Z * bytes).
Definition ESTALE : Z := 116.
Definition push (h : list MountPolicy) (x : Z * bytes) : list MountPolicy := h ++ [mkPolicy x.1 (Z.of_nat (length h)) x.2].
Definition step (k : state) : state := match k.2 with [] => k | x :: xs => (push k.1 x, xs) end.

Definition respond {A} (c : kcall A) (k : state) : (A * Z) * state :=
  match c in kcall A return A -> (A * Z) * state with
  | GetMountPolicy_ _ len => fun r =>
      match last k.1 with Some p => (shown p len, 0, step k) | None => (r, Errno.ENOENT, k) end
  | SetMountPolicy_ _ pol gen ptr len => fun r =>
      match last k.1 with
      | Some p =>
          let t := read_ptr ptr len in
          if (Generation p =? gen) && (zlen t <? 2 ^ 32) then (r, 0, (push k.1 (pol, t), k.2)) else (r, ESTALE, k)
      | None => (r, Errno.ENOENT, k)
      end
  | _ => fun r => (r, 0, k)
  end (SampleKernel.reply c).

#[global] Instance mount_kernel : Kernel kcall state := {| answer A c k := respond c k; patience := 1 |}.

#[global] Instance mount_settles : Settles kcall state.
Proof.
  apply (settles_never 0); [done|]. change Errno.EINTR with 4. intros A c k. destruct c; try done; cbn; destruct (last k.1); try done.
  by destruct (_ && _).
Qed.

Definition small (t : bytes) : Prop := zlen t < 2 ^ 32.
Definition Inv (k : state) : Prop :=
  (forall i p, k.1 !! i = Some p -> Generation p = Z.of_nat i)
  /\ Forall (fun p => small (TemplateSD p)) k.1 /\ Forall (fun x => small x.2) k.2.

Lemma mount_push_inv h xs x : Inv (h, xs) -> small x.2 -> Inv (push h x, xs).
Proof.
  intros (Hg&Hs&Hx) Hx0. unfold push. split_and!; cbn in *; [|by apply Forall_app; split; [|by constructor]|done].
  intros i p [Hi|[Hi Hp]]%lookup_app_Some; [by apply Hg|]. apply list_lookup_singleton_Some in Hp as [Hi' <-]. cbn. lia.
Qed.
Lemma mount_step_inv k : Inv k -> Inv (step k).
Proof.
  destruct k as [h [|x xs]]; [done|]. intros (Hg&Hs&Hx). inversion Hx. apply mount_push_inv; [by split_and!|done].
Qed.
Lemma mount_step_prefix k : k.1 `prefix_of` (step k).1.
Proof. destruct k as [h [|x xs]]; [done|]. apply prefix_app_r. done. Qed.

Lemma last_split (h : list MountPolicy) p : last h = Some p -> exists h', h = h' ++ [p].
Proof. apply last_Some. Qed.

#[global] Instance mount_versioned fd : Versioned Inv fst fd.
Proof.
  split.
  - intros k (Hg&_&_). apply NoDup_alt. intros i j x. rewrite !list_lookup_fmap.
    intros (p & Hp & ->)%fmap_Some_1 (q & Hq & E)%fmap_Some_1. apply Hg in Hp, Hq. lia.
  - by intros k (_&?&_).
  - intros h0 len k [Hi Hh]. cbn. destruct (last k.1) as [p|] eqn:El; [|done].
    split; [split; [by apply mount_step_inv|etrans; [done|apply mount_step_prefix]]|]. intros _ _.
    apply last_split in El as [h El]. exists h, p. rewrite <- El. split_and!; [done|apply mount_step_prefix|done].
  - intros h0 pol gen ptr len k [Hi Hh]. cbn. destruct (last k.1) as [p|] eqn:El; [|done].
    destruct (Z.eqb_spec (Generation p) gen) as [Hg|]; [|done]. destruct (Z.ltb_spec (zlen (read_ptr ptr len)) (2 ^ 32)); [|done]. cbn.
    destruct k as [kh kx]. cbn in *. split; [split; [by apply (mount_push_inv kh kx (pol, read_ptr ptr len))|by apply prefix_app_r]|]. intros _ _.
    apply last_split in El as [h ->]. exists h, p, (Z.of_nat (length (h ++ [p]))). split_and!; [done|done|].
    unfold push. by rewrite <- app_assoc.
Qed.

Definition start : MountPolicy := mkPolicy 1 0 SampleKernel.object.
Definition tighten (p : MountPolicy) : MountPolicy := mkPolicy 2 (Generation p) (TemplateSD p).
End Sample.

Lemma update_loses_nothing_witness :
  exists w', update (H := Sample.mount_kernel) 3 Sample.tighten (World ([Sample.start], []) []) = Some (Ok tt, w')
    /\ exists h p g, [Sample.start] `prefix_of` h ++ [p]
         /\ h ++ [p; mkPolicy 2 g (TemplateSD p)] `prefix_of` (kst w').1.
Proof.
  assert (Hi : Sample.Inv ([Sample.start], [])).
  { split_and!; [|by apply Forall_singleton|by apply Forall_nil]. intros i p [-> <-]%list_lookup_singleton_Some. done. }
  destruct (@update_loses_nothing Sample.state Sample.mount_kernel Sample.mount_settles Sample.Inv fst 3
    (Sample.mount_versioned 3) Sample.tighten ltac:(done) ltac:(done) (World ([Sample.start], []) []) Hi) as (o & w' & E & _ & Ho).
  assert (o = Ok tt) as -> by (vm_compute in E; by injection E as <- _).
  exists w'. split; [exact E|exact Ho].
Defined.

(** Somebody changes the template after the first request of the get: the update is refused. *)
Example update_refused :
  (fun x => (x.1, (kst x.2).1)) <$> update (H := Sample.mount_kernel) 3 Sample.tighten (World ([Sample.start], [(1, [x07])]) [])
  = Some (Err (Wrapf "set mount policy" (Errno Sample.ESTALE)), [Sample.start; mkPolicy 1 1 [x07]]).
Proof. vm_compute. reflexivity. Qed.
End MountUpdate.
