(* ===== verification/KacsCalls.v ===== *)
(** * KacsCalls: what the single requests of the token, sd and files packages carry (token/, sd/, files/mount.go)

    Most operations of these packages marshal their arguments into one request.  [command] is such an
    operation as its caller states it; [decode] is the request as the kernel reads it, through the pointer and
    length fields of the argument structs.  [kacs_commands] says that the two agree. *)

From S2P Require Import Prelude Outcome Uapi GoStd Sid WellKnown Kernel Kacs Token SdCalls Files.

Module KacsCalls.
Import Token.

(** The operations that make one request, with what they return. *)
Inductive command : Type -> Type :=
  | COpenSelf (flags access : Z) : command Z
  | COpenProcess (pidfd access : Z) : command Z
  | COpenThread (pidfd tid access : Z) : command Z
  | COpenPeer (sockfd : Z) : command Z
  | CCreate (spec : bytes) : command Z
  | CDuplicate (fd access type level : Z) : command Z
  | CRestrict (fd : Z) (spec : RestrictSpec) : command Z
  | CInstall (fd : Z) : command unit
  | CLinkTokens (fd filtered session : Z) : command unit
  | CLinkedToken (fd : Z) : command Z
  | CAdjustPrivileges (fd : Z) (entries : list (Z * Z)) : command Z
  | CAdjustGroups (fd : Z) (entries : list GroupEntry) : command (list Z)
  | CAdjustDefault (fd : Z) (dacl : bytes) (ownerIndex groupIndex : Z) : command unit
  | CSetSessionID (fd id : Z) : command unit
  | CCreateSession (spec : bytes) : command Z
  | CDestroyEmptySession (id : Z) : command unit
  | CSetPSB (pidfd mitigations : Z) : command unit
  | CSetImpersonationLevel (sockfd level : Z) : command unit
  | CSetSD (t : SdCalls.Target) (info : Z) (sd : bytes) : command unit
  | CSetCAAP (sid : SID.t) (spec : bytes) : command unit
  | CSetMountPolicy (fd : Z) (mp : Files.MountPolicy) : command unit.

(** ** As the kernel reads them *)

Definition group_of (e : Z * Z) : GroupEntry := mkGroup e.1 (negb (e.2 =? 0)).

(** [None]: the request is of no command, or contradicts itself. *)
Definition decode {A} (q : kcall A) : option (command A) :=
  match q in kcall A return option (command A) with
  | OpenSelfToken flags access => Some (COpenSelf flags access)
  | OpenProcessToken pidfd access => Some (COpenProcess pidfd access)
  | OpenThreadToken pidfd tid access => Some (COpenThread pidfd tid access)
  | OpenPeerToken sockfd => Some (COpenPeer sockfd)
  | CreateToken spec => Some (CCreate spec)
  | IocDuplicate fd access typ level => Some (CDuplicate fd access typ level)
  | IocRestrict fd privs deny restrict p len flags =>
      Some (CRestrict fd (mkRestrict privs deny restrict (read_ptr p len) flags))
  | IocInstall fd => Some (CInstall fd)
  | IocLinkTokens fd elevated filtered session =>
      if elevated =? fd then Some (CLinkTokens fd filtered session) else None
  | IocGetLinkedToken fd => Some (CLinkedToken fd)
  | IocAdjustPrivs fd count entries => Some (CAdjustPrivileges fd (take (Z.to_nat count) entries))
  | IocAdjustGroups fd count entries => Some (CAdjustGroups fd (group_of <$> take (Z.to_nat count) entries))
  | IocAdjustDefault fd p len owner group => Some (CAdjustDefault fd (read_ptr p len) owner group)
  | IocAdjustSessionID fd id => Some (CSetSessionID fd id)
  | CreateSession_ spec => Some (CCreateSession spec)
  | DestroyEmptySession_ id => Some (CDestroyEmptySession id)
  | SetPSB_ pidfd mitigations => Some (CSetPSB pidfd mitigations)
  | SetImpersonationLevel_ sockfd level => Some (CSetImpersonationLevel sockfd level)
  | SetSD_ dirfd path info sd flags => Some (CSetSD (SdCalls.mkTarget dirfd path flags) info sd)
  | SetCAAP_ sid spec =>
      match SID.ParseSID sid with Ok s => Some (CSetCAAP s spec) | _ => None end
  | SetMountPolicy_ fd policy generation p len =>
      Some (CSetMountPolicy fd (Files.mkPolicy policy generation (read_ptr p len)))
  | _ => None
  end.

(** ** As the caller states them *)

(** A buffer or a list that its 32-bit count can describe. *)
Definition counted {A} (l : list A) : Prop := zlen l < 2 ^ 32.
Definition is_fd (fd : Z) : Prop := 0 <= fd < 2 ^ 31.

Definition well_sized {A} (c : command A) : Prop :=
  match c with
  | CRestrict _ spec => counted (Payload spec)
  | CLinkTokens fd filtered _ => is_fd fd /\ is_fd filtered
  | CAdjustPrivileges _ entries => counted entries
  | CAdjustGroups _ entries => counted entries
  | CAdjustDefault _ dacl _ _ => counted dacl
  | CSetCAAP sid _ => SID.valid sid
  | CSetMountPolicy _ mp => counted (Files.TemplateSD mp)
  | _ => True
  end.

(** The commands that are refused before the kernel is asked. *)
Definition refusal {A} (c : command A) : option err :=
  match c with
  | CAdjustPrivileges _ [] => Some (Wrapf "adjust privileges" (Errno Errno.EINVAL))
  | CAdjustGroups _ [] => Some (Wrapf "adjust groups" (Errno Errno.EINVAL))
  | CSetSD t _ _ =>
      if bool_decide (x00 ∈ SdCalls.path t) then Some (Wrapf "set sd: invalid path" (Errno Errno.EINVAL)) else None
  | _ => None
  end.

Section run.
Context {K : Type} {H : Kernel kcall K}.

Definition run {A} (c : command A) : M kcall K A :=
  match c in command A return M kcall K A with
  | COpenSelf flags access => OpenSelf flags access
  | COpenProcess pidfd access => OpenProcess pidfd access
  | COpenThread pidfd tid access => OpenThread pidfd tid access
  | COpenPeer sockfd => OpenPeer sockfd
  | CCreate spec => Create spec
  | CDuplicate fd access typ level => Duplicate fd access typ level
  | CRestrict fd spec => Restrict fd spec
  | CInstall fd => Install fd
  | CLinkTokens fd filtered session => LinkTokens fd filtered session
  | CLinkedToken fd => LinkedToken fd
  | CAdjustPrivileges fd entries => AdjustPrivileges fd entries
  | CAdjustGroups fd entries => AdjustGroups fd entries
  | CAdjustDefault fd dacl ownerIndex groupIndex => AdjustDefault fd dacl ownerIndex groupIndex
  | CSetSessionID fd id => SetSessionID fd id
  | CCreateSession spec => CreateSession spec
  | CDestroyEmptySession id => DestroyEmptySession id
  | CSetPSB pidfd mitigations => SetPSB pidfd mitigations
  | CSetImpersonationLevel sockfd level => SetImpersonationLevel sockfd level
  | CSetSD t info sd => SdCalls.SetSD t info sd
  | CSetCAAP sid spec => SdCalls.SetCAAP sid spec
  | CSetMountPolicy fd mp => Files.SetMountPolicy fd mp
  end.

Context {S : Settles kcall K}.

(** One request that the kernel reads as [c], and its answer. *)
Definition obeyed {A} (c : command A) (w : world kcall K) (o : outcome A) (w' : world kcall K) : Prop :=
  exists q r n, asked q w w' r n /\ decode q = Some c
    /\ if n =? 0 then o = Ok r else exists msg, o = Err (Wrapf msg (Errno n)).

Lemma obeyed_checked {A} (c : command A) msg q w : decode q = Some c -> total (Sys.checked msg q) w (obeyed c w).
Proof.
  intros Hq. apply total_bind, total_call_asked. intros r n w' Ha. destruct (n =? 0) eqn:E.
  - apply total_ret. exists q, r, n. rewrite E. auto.
  - apply total_throw. exists q, r, n. rewrite E. eauto.
Qed.

Lemma take_counted {A} (l : list A) : counted l -> take (Z.to_nat (wrap 32 (zlen l))) l = l.
Proof.
  unfold counted, wrap. intros. pose proof (zlen_nonneg l). rewrite Z.mod_small by lia. apply take_ge. unfold zlen. lia.
Qed.
Lemma group_round (entries : list GroupEntry) : group_of <$> ((fun e => (Index e, if Enabled e then 1 else 0)) <$> entries) = entries.
Proof. induction entries as [|[i [|]] l IH]; [done|..]; by rewrite !fmap_cons, IH. Qed.
Lemma counted_cons {A} (x : A) l : (zlen (x :: l) =? 0) = false.
Proof. apply Z.eqb_neq. unfold zlen. cbn. lia. Qed.

(** [C24] What the kernel is asked is what the caller stated.  An empty list of adjustments and a path with a NUL
    are refused without a request.  Any other single-request operation on a token, a session, a descriptor or a
    mount finishes after one request that is not interrupted; read as the kernel reads it, through the counts,
    lengths and pointers of the argument struct, that request is the caller's command, with every entry, every
    byte and both descriptors; the operation returns the kernel's answer exactly when the errno is zero, and
    otherwise an error that wraps the errno. *)
Theorem kacs_commands {A} (c : command A) w : well_sized c ->
  total (run c) w (fun o w' =>
    match refusal c with
    | Some e => o = Err e /\ w' = w
    | None => obeyed c w o w'
    end).
Proof.
  intros Hc. destruct c; cbn [run refusal well_sized] in *; try by apply obeyed_checked.
  - apply obeyed_checked. cbn. rewrite read_ptr_bufPtr by done. by destruct spec.
  - apply obeyed_checked. destruct Hc. cbn. by rewrite !int32_fits, Z.eqb_refl by done.
  - unfold AdjustPrivileges. destruct entries as [|e entries]; [by apply total_throw|]. rewrite counted_cons.
    apply obeyed_checked. cbn -[zlen take]. by rewrite take_counted.
  - unfold AdjustGroups. destruct entries as [|e entries]; [by apply total_throw|]. rewrite counted_cons.
    apply obeyed_checked. cbn -[zlen take fmap]. rewrite take_counted; [by rewrite group_round|].
    unfold counted, zlen in *. by rewrite length_fmap.
  - apply obeyed_checked. cbn. by rewrite read_ptr_bufPtr.
  - unfold SdCalls.SetSD, BytePtrFromString. destruct t as [dirfd path flags]. cbn [SdCalls.path SdCalls.dirfd SdCalls.flags].
    case_bool_decide; apply total_bind, total_lift; cbn [wrap_err]; [done|]. by apply obeyed_checked.
  - apply obeyed_checked. cbn. by rewrite SID.ParseSID_Bytes_self.
  - apply obeyed_checked. cbn. rewrite read_ptr_bufPtr by done. by destruct mp.
Qed.
End run.

Lemma kacs_commands_witness :
  let c := CAdjustGroups 3 [mkGroup 0 true; mkGroup 5 false] in
  exists w', run (H := SampleKernel.sample_kernel) c (World false []) = Some (Ok (replicate 16 0), w')
    /\ exists q, trace w' = [Ev q 0] /\ decode q = Some c.
Proof.
  intros c.
  destruct (@kacs_commands bool SampleKernel.sample_kernel SampleKernel.sample_settles _ c (World false [])
    ltac:(unfold c, well_sized, counted; vm_compute; reflexivity)) as (o & w' & E & q & r & n & (Ht & _) & Hq & Ho).
  assert (o = Ok (replicate 16 0)) as -> by (vm_compute in E; by injection E as <- _).
  exists w'. split; [exact E|]. exists q. split; [|exact Hq].
  destruct (Z.eqb_spec n 0) as [->|]; [exact Ht|]. by destruct Ho.
Defined.
End KacsCalls.
