(* ===== verification/Vet.v ===== *)
(** * Vet: the forbidden-surface analyzer (cmd/libp-vet)

    The analyzer reads a syntax tree and its type information, which are values of
    go/ast and go/types; a [Pass] holds what it asks of them: the package's import
    path, the import specifications with their literals, and the selector
    expressions with the two objects that type checking may have recorded for them.
    The traversal is golang.org/x/tools' inspector, which visits the nodes in the
    order of the lists.  [Unquote] is strconv's, which decodes the literals. *)

From S2P Require Import Prelude Outcome GoStd GoText.

Module Vet.

(** ** strconv.Unquote *)

(** The value of the [n] hex digits at the front. *)
Fixpoint hex_digits (n : nat) (s : bytes) (acc : Z) : option (Z * bytes) :=
  match n, s with
  | O, _ => Some (acc, s)
  | S n, c :: s => d ← hex_val c; hex_digits n s (acc * 16 + d)
  | S _, [] => None
  end.
(** The value of the [n] octal digits at the front. *)
Fixpoint octal_digits (n : nat) (s : bytes) (acc : Z) : option (Z * bytes) :=
  match n, s with
  | O, _ => Some (acc, s)
  | S n, c :: s => if in_range 48 55 c then octal_digits n s (acc * 8 + (b2z c - 48)) else None
  | S _, [] => None
  end.

(** [utf8.ValidRune] *)
Definition valid_rune (r : Z) : bool := ((0 <=? r) && (r <? 0xD800)) || ((0xE000 <=? r) && (r <=? 0x10FFFF)).

(** The bytes that an escape after the backslash stands for, and what follows it. *)
Definition escape (quote : byte) (s : bytes) : option (bytes * bytes) :=
  match s with
  | [] => None
  | c :: s =>
      let rune n := '(v, s) ← hex_digits n s 0; if valid_rune v then Some (utf8_rune v, s) else None in
      if bool_decide (c = "a"%byte) then Some ([x07], s)
      else if bool_decide (c = "b"%byte) then Some ([x08], s)
      else if bool_decide (c = "f"%byte) then Some ([x0c], s)
      else if bool_decide (c = "n"%byte) then Some ([x0a], s)
      else if bool_decide (c = "r"%byte) then Some ([x0d], s)
      else if bool_decide (c = "t"%byte) then Some ([x09], s)
      else if bool_decide (c = "v"%byte) then Some ([x0b], s)
      else if bool_decide (c = "x"%byte) then '(v, s) ← hex_digits 2 s 0; Some ([z2b v], s)
      else if bool_decide (c = "u"%byte) then rune 4%nat
      else if bool_decide (c = "U"%byte) then rune 8%nat
      else if in_range 48 55 c then
        '(v, s) ← octal_digits 2 s (b2z c - 48);
        if 255 <? v then None else Some ([z2b v], s)
      else if bool_decide (c = x5c) then Some ([x5c], s)
      else if bool_decide (c = x27) || bool_decide (c = x22) then
        if bool_decide (c = quote) then Some ([c], s) else None
      else None
  end.

(** A run of source bytes without escapes: decoded rune by rune and written again. *)
Definition plain_run (s : bytes) : bytes := utf8_encode (go_runes s).

(** The loop of an interpreted literal after its opening quote: [run] is the plain text since the last escape, [out]
    what precedes it; the result is the value and what follows the closing quote.  Every round drops a byte of [s]. *)
Fixpoint unquote_loop (fuel : nat) (quote : byte) (s run out : bytes) : option (bytes * bytes) :=
  match fuel, s with
  | O, _ | _, [] => None
  | S fuel, c :: s =>
      if bool_decide (c = quote) then Some (out ++ plain_run run, s)
      else if bool_decide (c = x0a) then None
      else if bool_decide (c = x5c) then
        '(b, s) ← escape quote s;
        unquote_loop fuel quote s [] (out ++ plain_run run ++ b)
      else unquote_loop fuel quote s (run ++ [c]) out
  end.

(** [strconv.Unquote] on a string literal, the only token an import path can be: raw, without its carriage returns, or
    interpreted. *)
Definition Unquote (s : bytes) : option bytes :=
  match s with
  | x60 :: s =>
      '(raw, rest) ← cut_at x60 s;
      if bool_decide (rest = []) then Some (List.filter (fun c => negb (bool_decide (c = x0d))) raw) else None
  | x22 :: s =>
      '(v, rest) ← unquote_loop (length s) x22 s [] [];
      if bool_decide (rest = []) then Some v else None
  | _ => None
  end.

(** ** The analyzer *)

Definition uapiImportPath : bytes := str "github.com/peios/pkm/uapi/go".
Definition libpGoModule : bytes := str "github.com/peios/libp-go".

Inductive why := whyIdentity | whyMode | whyCred.
Record bannedRef := mkRef { pkg : bytes; name : bytes; because : why }.

Definition banned : list bannedRef :=
  let os n w := mkRef (str "os") (str n) w in
  let syscall n w := mkRef (str "syscall") (str n) w in
  [ os "Getuid" whyIdentity; os "Geteuid" whyIdentity; os "Getgid" whyIdentity; os "Getegid" whyIdentity;
    os "Getgroups" whyIdentity; os "Chmod" whyMode; os "Chown" whyMode; os "Lchown" whyMode;
    syscall "Getuid" whyIdentity; syscall "Geteuid" whyIdentity; syscall "Getgid" whyIdentity;
    syscall "Getegid" whyIdentity; syscall "Getgroups" whyIdentity; syscall "Setuid" whyIdentity;
    syscall "Setgid" whyIdentity; syscall "Setgroups" whyIdentity; syscall "Chmod" whyMode; syscall "Chown" whyMode;
    syscall "Fchown" whyMode; syscall "Lchown" whyMode; syscall "Uid" whyIdentity; syscall "Gid" whyIdentity;
    syscall "Credential" whyCred ].

Definition isLibpGoInternal (pkgPath : bytes) : bool :=
  bool_decide (pkgPath = libpGoModule) || has_prefix pkgPath (libpGoModule ++ str "/").

(** An object of the type checker: the package that declares it, none for the universe, and its name. *)
Record Object := mkObject { obj_Pkg : option bytes; obj_Name : bytes }.
Record ImportSpec := mkImport { import_pos : Z; import_Value : bytes }.
(** A selector with its entries in the tables Uses and Selections. *)
Record SelectorExpr := mkSelector { sel_pos : Z; sel_use : option Object; sel_selection : option Object }.
Record Pass := mkPass { PkgPath : bytes; imports : list ImportSpec; selectors : list SelectorExpr }.

Inductive diagnostic :=
  | ForbiddenUser (pos : Z)
  | ForbiddenUapi (pos : Z)
  | Forbidden (pos : Z) (b : bannedRef).

Definition check_import (internal : bool) (spec : ImportSpec) : list diagnostic :=
  match Unquote (import_Value spec) with
  | None => []
  | Some path =>
      if bool_decide (path = str "os/user") then [ForbiddenUser (import_pos spec)]
      else if bool_decide (path = uapiImportPath) && negb internal then [ForbiddenUapi (import_pos spec)]
      else []
  end.

(** The object of a selector: the use, or the selection when there is none. *)
Definition resolved (sel : SelectorExpr) : option Object :=
  match sel_use sel with Some o => Some o | None => sel_selection sel end.

Definition matches (p n : bytes) (b : bannedRef) : bool := bool_decide (p = pkg b) && bool_decide (n = name b).
Definition check_selector (sel : SelectorExpr) : list diagnostic :=
  match resolved sel with
  | Some (mkObject (Some p) n) =>
      match List.find (matches p n) banned with
      | Some b => [Forbidden (sel_pos sel) b]
      | None => []
      end
  | _ => []
  end.

(** [run]: what is reported, in order. *)
Definition run (pass : Pass) : list diagnostic :=
  let internal := isLibpGoInternal (PkgPath pass) in
  concat (check_import internal <$> imports pass) ++ concat (check_selector <$> selectors pass).

(** ** Properties *)

(** A text that an interpreted literal writes as it is. *)
Definition unescaped (s : bytes) : Prop := utf8_valid s = true /\ (x22 ∉ s) /\ (x5c ∉ s) /\ (x0a ∉ s).

Lemma unquote_loop_plain fuel s r run out : x22 ∉ s -> x5c ∉ s -> x0a ∉ s -> (length s < fuel)%nat ->
  unquote_loop fuel x22 (s ++ x22 :: r) run out = Some (out ++ plain_run (run ++ s), r).
Proof.
  revert fuel run. induction s as [|c s IH]; intros [|fuel] run Hq Hb Hn Hf; [cbn in Hf; lia| |cbn in Hf; lia|].
  - cbn [app unquote_loop]. rewrite bool_decide_eq_true_2 by done. by rewrite app_nil_r.
  - rewrite !not_elem_of_cons in Hq, Hb, Hn. cbn [app unquote_loop]. rewrite !bool_decide_eq_false_2 by (intros ->; tauto).
    rewrite IH by (tauto || cbn in Hf; lia). by rewrite <- app_assoc.
Qed.

(** Both ways of writing an import path give the path. *)
Lemma Unquote_interpreted s : unescaped s -> Unquote (x22 :: s ++ [x22]) = Some s.
Proof.
  intros (Hu & Hq & Hb & Hn). unfold Unquote. rewrite unquote_loop_plain by (done || rewrite length_app; cbn; lia).
  cbn [mbind option_bind app]. rewrite bool_decide_eq_true_2 by done. f_equal. by apply utf8_decode_encode.
Qed.

Lemma Unquote_raw s : x60 ∉ s -> x0d ∉ s -> Unquote (x60 :: s ++ [x60]) = Some s.
Proof.
  intros Hq Hr. unfold Unquote.
  assert (forall r, cut_at x60 (s ++ x60 :: r) = Some (s, r)) as ->.
  { intros r. clear Hr. induction s as [|c s IH]; cbn [app cut_at]; [by rewrite bool_decide_eq_true_2|].
    rewrite not_elem_of_cons in Hq. rewrite bool_decide_eq_false_2 by (intros ->; tauto). by rewrite IH by tauto. }
  cbn [mbind option_bind]. rewrite bool_decide_eq_true_2 by done. f_equal.
  induction s as [|c s IH]; [done|]. rewrite !not_elem_of_cons in Hq, Hr. cbn [List.filter].
  rewrite bool_decide_eq_false_2 by (intros ->; tauto). cbn [negb]. f_equal. apply IH; tauto.
Qed.

(** The keys of the table are distinct, so a selector is reported once and for the entry that names it. *)
Lemma banned_keys : NoDup ((fun b => (pkg b, name b)) <$> banned).
Proof. apply (bool_decide_unpack _). vm_compute. exact I. Qed.

Lemma find_banned b : b ∈ banned -> List.find (matches (pkg b) (name b)) banned = Some b.
Proof.
  intros Hb. destruct (List.find _ banned) as [b'|] eqn:E.
  - apply List.find_some in E as [Hin Hm]. apply andb_true_iff in Hm as [Hp%bool_decide_eq_true_1 Hn%bool_decide_eq_true_1].
    apply list_elem_of_In in Hin. apply list_elem_of_lookup in Hb as [i Hi], Hin as [j Hj].
    assert (i = j) as ->; [|congruence].
    apply (NoDup_lookup _ _ _ (pkg b, name b) banned_keys); rewrite list_lookup_fmap, ?Hi, ?Hj; cbn; congruence.
  - assert (matches (pkg b) (name b) b = true) as Hm by (unfold matches; by rewrite !bool_decide_eq_true_2).
    apply list_elem_of_In in Hb. pose proof (List.find_none _ _ E b Hb). congruence.
Qed.

(** What the analyzer reports of a package, whole: an import of os/user anywhere; an import of the uapi binding outside
    libp-go; and each selector that names an entry of the table, at its position, for that entry. *)
Theorem run_reports (pass : Pass) (d : diagnostic) :
  d ∈ run pass <->
  match d with
  | ForbiddenUser pos => exists spec, spec ∈ imports pass /\ import_pos spec = pos /\ Unquote (import_Value spec) = Some (str "os/user")
  | ForbiddenUapi pos => isLibpGoInternal (PkgPath pass) = false /\ exists spec, spec ∈ imports pass /\ import_pos spec = pos
      /\ Unquote (import_Value spec) = Some uapiImportPath
  | Forbidden pos b => b ∈ banned /\ exists sel, sel ∈ selectors pass /\ sel_pos sel = pos
      /\ resolved sel = Some (mkObject (Some (pkg b)) (name b))
  end.
Proof.
  unfold run. rewrite elem_of_app, !list_elem_of_In, !in_concat. setoid_rewrite in_map_iff.
  setoid_rewrite <- list_elem_of_In.
  assert (forall spec i, d ∈ check_import i spec -> match d with
    | ForbiddenUser pos => import_pos spec = pos /\ Unquote (import_Value spec) = Some (str "os/user")
    | ForbiddenUapi pos => i = false /\ import_pos spec = pos /\ Unquote (import_Value spec) = Some uapiImportPath
    | Forbidden _ _ => False end) as Hi.
  { intros spec i. unfold check_import. destruct (Unquote _) as [path|]; [|by intros ?%elem_of_nil].
    case_bool_decide as E1; [intros ->%list_elem_of_singleton; by subst|].
    destruct (bool_decide (path = uapiImportPath)) eqn:E2; [|by intros ?%elem_of_nil]. apply bool_decide_eq_true_1 in E2.
    destruct i; [by intros ?%elem_of_nil|]. intros ->%list_elem_of_singleton. by subst. }
  assert (forall sel, d ∈ check_selector sel -> match d with
    | Forbidden pos b => b ∈ banned /\ sel_pos sel = pos /\ resolved sel = Some (mkObject (Some (pkg b)) (name b))
    | _ => False end) as Hs.
  { intros sel. unfold check_selector. destruct (resolved sel) as [[[p|] n]|]; [|by intros ?%elem_of_nil..].
    destruct (List.find _ _) as [b|] eqn:E; [|by intros ?%elem_of_nil]. intros ->%list_elem_of_singleton.
    apply List.find_some in E as [Hin Hm]. apply andb_true_iff in Hm as [->%bool_decide_eq_true_1 ->%bool_decide_eq_true_1].
    apply list_elem_of_In in Hin. done. }
  split.
  - intros [(l & (spec & <- & Hin) & Hd)|(l & (sel & <- & Hin) & Hd)].
    + apply Hi in Hd. destruct d; naive_solver.
    + apply Hs in Hd. destruct d; naive_solver.
  - destruct d as [pos|pos|pos b].
    + intros (spec & Hin & Hp & Hv). left. exists (check_import (isLibpGoInternal (PkgPath pass)) spec). split; [eauto|].
      unfold check_import. rewrite Hv, bool_decide_eq_true_2, Hp by done. by left.
    + intros (Hint & spec & Hin & Hp & Hv). left. exists (check_import (isLibpGoInternal (PkgPath pass)) spec). split; [eauto|].
      unfold check_import. rewrite Hv, Hint, bool_decide_eq_false_2, bool_decide_eq_true_2, Hp by done. by left.
    + intros (Hb & sel & Hin & Hp & Hr). right. exists (check_selector sel). split; [eauto|].
      unfold check_selector. rewrite Hr, find_banned, Hp by done. by left.
Qed.

(** The cases of the package's own test data. *)
Example consumer_reports :
  run (mkPass (str "consumer")
         [mkImport 1 (str "`os/user`"); mkImport 2 ([x22] ++ uapiImportPath ++ [x22])]
         [mkSelector 3 (Some (mkObject (Some (str "os")) (str "Getuid"))) None;
          mkSelector 4 (Some (mkObject (Some (str "os")) (str "Open"))) None])
  = [ForbiddenUser 1; ForbiddenUapi 2; Forbidden 3 (mkRef (str "os") (str "Getuid") whyIdentity)].
Proof. vm_compute. reflexivity. Qed.
End Vet.
