(* ===== verification/Names.v ===== *)
(** * Names: the constants of the packages and the texts they print as

    The exported constants of sd/, registry/ and event/, each the ABI's number, and the
    [String] and [Error] methods that name a code: a table of the named ones and a
    numeric form for the rest.  [named_inj]: when no two named codes share a text
    and no numeric form is one, distinct codes print differently. *)

From S2P Require Import Prelude Outcome Uapi GoStd GoText.

(** The [switch] of a String method. *)
Definition named (table : list (Z * bytes)) (other : Z -> bytes) (v : Z) : bytes :=
  match List.find (fun p => p.1 =? v) table with Some p => p.2 | None => other v end.

Lemma named_inj (table : list (Z * bytes)) (other : Z -> bytes) (P : Z -> Prop) :
  NoDup table.*2 -> (forall n v, n ∈ table.*2 -> P v -> n <> other v) ->
  (forall v w, P v -> P w -> other v = other w -> v = w) ->
  forall v w, P v -> P w -> named table other v = named table other w -> v = w.
Proof.
  intros Hn Hd Ho v w Hv Hw. unfold named.
  destruct (List.find (fun p => p.1 =? v) table) as [p|] eqn:Ev; [apply List.find_some in Ev as [Hp Ep%Z.eqb_eq]; apply list_elem_of_In in Hp|];
    (destruct (List.find (fun p => p.1 =? w) table) as [q|] eqn:Ew; [apply List.find_some in Ew as [Hq Eq%Z.eqb_eq]; apply list_elem_of_In in Hq|]).
  - intros E. apply list_elem_of_lookup in Hp as [i Hi], Hq as [j Hj].
    assert (i = j) as ->; [|congruence].
    apply (NoDup_lookup _ _ _ p.2 Hn); rewrite list_lookup_fmap, ?Hi, ?Hj; cbn; congruence.
  - intros E. exfalso. apply (Hd p.2 w); [by apply list_elem_of_fmap_2|done|done].
  - intros E. exfalso. apply (Hd q.2 v); [by apply list_elem_of_fmap_2|done|done].
  - by apply Ho.
Qed.

(** [fmt.Sprintf("Name(%d)", v)] *)
Definition numbered (prefix : string) (v : Z) : bytes := str prefix ++ format_uint 10 v ++ str ")".

Lemma numbered_inj prefix v w : fits 32 v -> fits 32 w -> numbered prefix v = numbered prefix w -> v = w.
Proof.
  unfold fits, numbered. intros Hv Hw E. apply app_inv_head, app_inv_tail in E.
  pose proof (parse_format_uint 10 32 v) as Pv. pose proof (parse_format_uint 10 32 w) as Pw.
  rewrite E in Pv. rewrite Pv in Pw by lia. specialize (Pw ltac:(lia) ltac:(lia) ltac:(lia)). congruence.
Qed.

(** ** errno/errno.go *)

Module ErrnoText.
Import Errno.
Definition messages : list (Z * bytes) :=
  [(EPERM, str "operation not permitted");
   (ENOENT, str "no such file or directory");
   (EINTR, str "interrupted system call");
   (EIO, str "input/output error");
   (EBADF, str "bad file descriptor");
   (EAGAIN, str "resource temporarily unavailable");
   (EACCES, str "permission denied");
   (EFAULT, str "bad address");
   (EBUSY, str "device or resource busy");
   (EEXIST, str "file exists");
   (ENOTDIR, str "not a directory");
   (EISDIR, str "is a directory");
   (EINVAL, str "invalid argument");
   (ENOTTY, str "inappropriate ioctl for device");
   (ERANGE, str "numerical result out of range");
   (ENOSYS, str "function not implemented")].

(** [Errno.Error]; [strconv.Itoa] in the default case. *)
Definition Error (e : Z) : bytes := named messages (fun e => str "errno " ++ format_int e) e.

(** Every errno the kernel returns has its own text. *)
Lemma Error_inj v w : - 2 ^ 31 <= v < 2 ^ 31 -> - 2 ^ 31 <= w < 2 ^ 31 -> Error v = Error w -> v = w.
Proof.
  apply (named_inj _ _ (fun v => - 2 ^ 31 <= v < 2 ^ 31)).
  - apply (bool_decide_unpack _). vm_compute. exact I.
  - intros n u Hn _ ->. revert Hn. assert (forall n, n ∈ messages.*2 -> has_prefix n (str "errno ") = false) as Hp.
    { apply Forall_forall. apply (bool_decide_unpack _). vm_compute. exact I. }
    intros Hn%Hp. by cbn in Hn.
  - intros v' w' Hv' Hw' E. apply app_inv_head in E. pose proof (parse_int0_format v') as Pv. pose proof (parse_int0_format w') as Pw.
    rewrite E in Pv. rewrite Pv in Pw by lia. specialize (Pw ltac:(lia)). congruence.
Qed.
End ErrnoText.

(** ** sd *)

Module SdNames.
Section sd.
Context {U : Uapi}.
(** [type AceType uint8] and [type AceFlags uint8] (sd/ace.go) *)
Definition AceAccessAllowed : Z := KACS_ACE_TYPE_ACCESS_ALLOWED.
Definition AceAccessDenied : Z := KACS_ACE_TYPE_ACCESS_DENIED.
Definition AceSystemAudit : Z := KACS_ACE_TYPE_SYSTEM_AUDIT.
Definition AceSystemAlarm : Z := KACS_ACE_TYPE_SYSTEM_ALARM.
Definition AceAccessAllowedCompound : Z := KACS_ACE_TYPE_ACCESS_ALLOWED_COMPOUND.
Definition AceAccessAllowedObject : Z := KACS_ACE_TYPE_ACCESS_ALLOWED_OBJECT.
Definition AceAccessDeniedObject : Z := KACS_ACE_TYPE_ACCESS_DENIED_OBJECT.
Definition AceSystemAuditObject : Z := KACS_ACE_TYPE_SYSTEM_AUDIT_OBJECT.
Definition AceSystemAlarmObject : Z := KACS_ACE_TYPE_SYSTEM_ALARM_OBJECT.
Definition AceAccessAllowedCallback : Z := KACS_ACE_TYPE_ACCESS_ALLOWED_CALLBACK.
Definition AceAccessDeniedCallback : Z := KACS_ACE_TYPE_ACCESS_DENIED_CALLBACK.
Definition AceAccessAllowedCallbackObject : Z := KACS_ACE_TYPE_ACCESS_ALLOWED_CALLBACK_OBJECT.
Definition AceAccessDeniedCallbackObject : Z := KACS_ACE_TYPE_ACCESS_DENIED_CALLBACK_OBJECT.
Definition AceSystemAuditCallback : Z := KACS_ACE_TYPE_SYSTEM_AUDIT_CALLBACK.
Definition AceSystemAlarmCallback : Z := KACS_ACE_TYPE_SYSTEM_ALARM_CALLBACK.
Definition AceSystemAuditCallbackObject : Z := KACS_ACE_TYPE_SYSTEM_AUDIT_CALLBACK_OBJECT.
Definition AceSystemAlarmCallbackObject : Z := KACS_ACE_TYPE_SYSTEM_ALARM_CALLBACK_OBJECT.
Definition AceSystemMandatoryLabel : Z := KACS_ACE_TYPE_SYSTEM_MANDATORY_LABEL.
Definition AceSystemResourceAttribute : Z := KACS_ACE_TYPE_SYSTEM_RESOURCE_ATTRIBUTE.
Definition AceSystemScopedPolicyID : Z := KACS_ACE_TYPE_SYSTEM_SCOPED_POLICY_ID.
Definition AceSystemProcessTrustLabel : Z := KACS_ACE_TYPE_SYSTEM_PROCESS_TRUST_LABEL.
Definition AceSystemAccessFilter : Z := KACS_ACE_TYPE_SYSTEM_ACCESS_FILTER.
Definition FlagObjectInherit : Z := KACS_ACE_FLAG_OBJECT_INHERIT.
Definition FlagContainerInherit : Z := KACS_ACE_FLAG_CONTAINER_INHERIT.
Definition FlagNoPropagateInherit : Z := KACS_ACE_FLAG_NO_PROPAGATE_INHERIT.
Definition FlagInheritOnly : Z := KACS_ACE_FLAG_INHERIT_ONLY.
Definition FlagInherited : Z := KACS_ACE_FLAG_INHERITED.
Definition FlagSuccessfulAccess : Z := KACS_ACE_FLAG_SUCCESSFUL_ACCESS.
Definition FlagFailedAccess : Z := KACS_ACE_FLAG_FAILED_ACCESS.

(** Access rights and [type Control uint16] (sd/descriptor.go) *)
Definition AccessDelete : Z := KACS_ACCESS_DELETE.
Definition AccessReadControl : Z := KACS_ACCESS_READ_CONTROL.
Definition AccessWriteDAC : Z := KACS_ACCESS_WRITE_DAC.
Definition AccessWriteOwner : Z := KACS_ACCESS_WRITE_OWNER.
Definition AccessSynchronize : Z := KACS_ACCESS_SYNCHRONIZE.
Definition AccessSystemSecurity : Z := KACS_ACCESS_ACCESS_SYSTEM_SECURITY.
Definition AccessMaximumAllowed : Z := KACS_ACCESS_MAXIMUM_ALLOWED.
Definition GenericAll : Z := KACS_ACCESS_GENERIC_ALL.
Definition GenericExecute : Z := KACS_ACCESS_GENERIC_EXECUTE.
Definition GenericWrite : Z := KACS_ACCESS_GENERIC_WRITE.
Definition GenericRead : Z := KACS_ACCESS_GENERIC_READ.
Definition ControlOwnerDefaulted : Z := KACS_SD_OWNER_DEFAULTED.
Definition ControlGroupDefaulted : Z := KACS_SD_GROUP_DEFAULTED.
Definition ControlDACLPresent : Z := KACS_SD_DACL_PRESENT.
Definition ControlDACLDefaulted : Z := KACS_SD_DACL_DEFAULTED.
Definition ControlSACLPresent : Z := KACS_SD_SACL_PRESENT.
Definition ControlSACLDefaulted : Z := KACS_SD_SACL_DEFAULTED.
Definition ControlDACLAutoInherited : Z := KACS_SD_DACL_AUTO_INHERITED.
Definition ControlSACLAutoInherited : Z := KACS_SD_SACL_AUTO_INHERITED.
Definition ControlDACLProtected : Z := KACS_SD_DACL_PROTECTED.
Definition ControlSACLProtected : Z := KACS_SD_SACL_PROTECTED.
Definition ControlSelfRelative : Z := KACS_SD_SELF_RELATIVE.
End sd.
End SdNames.

(** ** registry *)

Module RegNames.
(** [type Access uint32] (registry/access.go); a module of its own because methods share the names. *)
Module Access.
Section access.
Context {U : Uapi}.
Definition QueryValue : Z := KEY_QUERY_VALUE.
Definition SetValue : Z := KEY_SET_VALUE.
Definition CreateSubKey : Z := KEY_CREATE_SUB_KEY.
Definition EnumerateSubKeys : Z := KEY_ENUMERATE_SUB_KEYS.
Definition Notify : Z := KEY_NOTIFY.
Definition CreateLink : Z := KEY_CREATE_LINK.
Definition Delete : Z := KACS_ACCESS_DELETE.
Definition ReadControl : Z := KACS_ACCESS_READ_CONTROL.
Definition WriteDAC : Z := KACS_ACCESS_WRITE_DAC.
Definition WriteOwner : Z := KACS_ACCESS_WRITE_OWNER.
Definition AccessSystemSecurity : Z := KACS_ACCESS_ACCESS_SYSTEM_SECURITY.
Definition MaximumAllowed : Z := KACS_ACCESS_MAXIMUM_ALLOWED.
Definition Read : Z := KEY_READ.
Definition Write : Z := KEY_WRITE.
Definition AllAccess : Z := KEY_ALL_ACCESS.
(** [Access.bits] *)
Definition bits (a : Z) : Z := a.
End access.
End Access.

Section registry.
Context {U : Uapi}.
Definition TxnActiveUnbound : Z := REG_TXN_ACTIVE_UNBOUND.
Definition TxnActiveBound : Z := REG_TXN_ACTIVE_BOUND.
Definition TxnCommitted : Z := REG_TXN_COMMITTED.
Definition TxnAborted : Z := REG_TXN_ABORTED.
Definition TxnTimedOut : Z := REG_TXN_TIMED_OUT.
Definition TxnSourceDown : Z := REG_TXN_SOURCE_DOWN.
Definition EventValueSet : Z := REG_WATCH_VALUE_SET.
Definition EventValueDeleted : Z := REG_WATCH_VALUE_DELETED.
Definition EventSubkeyCreated : Z := REG_WATCH_SUBKEY_CREATED.
Definition EventSubkeyDeleted : Z := REG_WATCH_SUBKEY_DELETED.
Definition EventSDChanged : Z := REG_WATCH_SD_CHANGED.
Definition EventKeyDeleted : Z := REG_WATCH_KEY_DELETED.
Definition EventOverflow : Z := REG_WATCH_OVERFLOW.
Definition CreatedNew : Z := REG_CREATED_NEW.
Definition OpenedExisting : Z := REG_OPENED_EXISTING.

Definition txn_states : list (Z * bytes) :=
  [(TxnActiveUnbound, str "ActiveUnbound");
   (TxnActiveBound, str "ActiveBound");
   (TxnCommitted, str "Committed");
   (TxnAborted, str "Aborted");
   (TxnTimedOut, str "TimedOut");
   (TxnSourceDown, str "SourceDown")].
Definition watch_types : list (Z * bytes) :=
  [(EventValueSet, str "ValueSet");
   (EventValueDeleted, str "ValueDeleted");
   (EventSubkeyCreated, str "SubkeyCreated");
   (EventSubkeyDeleted, str "SubkeyDeleted");
   (EventSDChanged, str "SDChanged");
   (EventKeyDeleted, str "KeyDeleted");
   (EventOverflow, str "Overflow")].
Definition dispositions : list (Z * bytes) :=
  [(CreatedNew, str "CreatedNew");
   (OpenedExisting, str "OpenedExisting")].

Definition TxnState_String (s : Z) : bytes := named txn_states (numbered "TxnState(") s.
Definition WatchEventType_String (e : Z) : bytes := named watch_types (numbered "WatchEventType(") e.
Definition Disposition_String (d : Z) : bytes := named dispositions (numbered "Disposition(") d.

(** No name of a table is a numeric form: it has no parenthesis. *)
Lemma no_paren (names : list bytes) prefix n v :
  forallb (fun n => negb (bool_decide (x28 ∈ n))) names = true -> x28 ∈ str prefix -> n ∈ names -> n <> numbered prefix v.
Proof.
  rewrite forallb_forall. intros H Hp Hn ->. specialize (H _ (proj1 (list_elem_of_In _ _) Hn)).
  apply negb_true_iff, bool_decide_eq_false_1 in H. apply H. unfold numbered. apply elem_of_app. by left.
Qed.

(** Distinct states, events and dispositions print differently, the unknown ones included. *)
Lemma registry_names_inj v w : fits 32 v -> fits 32 w ->
  (TxnState_String v = TxnState_String w -> v = w)
  /\ (WatchEventType_String v = WatchEventType_String w -> v = w)
  /\ (Disposition_String v = Disposition_String w -> v = w).
Proof.
  intros Hv Hw. split_and!; apply (named_inj _ _ (fits 32)); try done;
    try (apply (bool_decide_unpack _); vm_compute; exact I); try (intros ????; by apply numbered_inj);
    intros n u Hn _; eapply no_paren, Hn; [vm_compute; reflexivity|apply (bool_decide_unpack _); vm_compute; exact I
      |vm_compute; reflexivity|apply (bool_decide_unpack _); vm_compute; exact I
      |vm_compute; reflexivity|apply (bool_decide_unpack _); vm_compute; exact I].
Qed.
End registry.
End RegNames.

(** ** event *)

Module EventNames.
Section event.
Context {U : Uapi}.
(** [type Origin uint8] (event/event.go) *)
Definition OriginUserspace : Z := KMES_ORIGIN_USERSPACE.
Definition OriginKMES : Z := KMES_ORIGIN_KMES.
Definition OriginKACS : Z := KMES_ORIGIN_KACS.
Definition OriginLCS : Z := KMES_ORIGIN_LCS.

Definition origins : list (Z * bytes) :=
  [(OriginUserspace, str "USER"); (OriginKMES, str "KMES"); (OriginKACS, str "KACS"); (OriginLCS, str "LCS")].
(** [Origin.String]: every unknown class prints the same. *)
Definition Origin_String (o : Z) : bytes := named origins (fun _ => str "????") o.

(** A known class is told from every other one by its text. *)
Lemma Origin_String_known v w : v ∈ origins.*1 -> Origin_String v = Origin_String w -> v = w.
Proof.
  unfold Origin_String, named, origins. cbn [fmap list_fmap fst]. rewrite !elem_of_cons, elem_of_nil.
  intros Hv. cbn [List.find fst].
  repeat (case_match; cbn [snd]); intros E; try discriminate E; rewrite ?Z.eqb_eq, ?Z.eqb_neq in *; naive_solver congruence.
Qed.
End event.
End EventNames.
